(* ===== verification/_CoqProject ===== *)
-Q . S2P
Prelude.v
Crc32.v
RecordFormat.v
F64.v
StorageEngine.v
Metrics.v
StorageRuns.v
Disk.v
StorageConc.v
SegmentLinear.v
ManagerConc.v
ManagerLinear.v
Compaction.v
StorageTests.v
StressTests.v
PersistQueue.v
QueueSegments.v
QueueRestart.v
QueueConc.v
QueuePerf.v
ByteQueue.v
Mailboxes.v
MailboxClients.v
MailboxConc.v
MailboxThreads.v
MailboxTests.v
Network.v
Raft.v
Resilience.v
Health.v
ProductionDemo.v
MailboxNetwork.v
NetworkClients.v
MailboxProcessor.v
Errors.v
Node.v
Cluster.v
Partition.v
Filesystem.v
Demo.v
Utf8.v
Servers.v
QueueTests.v
MailboxExample.v
NetworkExample.v
ServiceTests.v
SqlLayer.v
SqlTests.v
Matching.v
MatchingLocks.v
HftServer.v
TradingDemo.v
OrderBook.v
Traders.v
Utils.v
Validation.v
ClusterTests.v
Main.v
ProcessorClients.v
ProcessorExample.v
ProcessorDemo.v
