(* ===== verification/Prelude.v ===== *)
(** * DOLDA: a verification development

    DOLDA (src/) is a persistent queue written in Rust, with mailboxes on top of
    it and a layer for several nodes around it.  This library translates its
    modules into executable Rocq functions, one file per module, and proves what
    each does: the contracts it keeps, and, where it does not keep the obvious
    one, what it does instead.

    ** The program and the files

    - src/src/record.rs, [RecordFormat]: the frame of a record on disk (magic,
      length, checksum, time, data); [serialize] and [deserialize].
    - src/src/storage.rs, [StorageEngine]: [RecordSegment], a memory-mapped file
      of framed records with a write position, a count and an index;
      [RecordIterator]; [SegmentManager], which opens a new segment when the
      current one is full.  [StorageConc]: the same [append_record] and
      [read_record] as atomic actions of several threads on one segment;
      [ManagerConc]: the manager's [append_record] around them, with the creation
      lock and the double check; [SegmentLinear] and [ManagerLinear]: their
      linearizability.  [StorageRuns]: runs of appends; [Disk]: the files a run
      leaves and a later run opens.  [StorageTests]: the tests of these modules;
      [StressTests]: src/tests/storage_stress.rs.
    - src/src/observability.rs, [Metrics]: the reports to a recorder, and what one
      holds of a segment.
    - src/src/compaction.rs, [Compaction]: copying a segment, merging several,
      and the background worker.
    - src/src/persistq.rs, [PersistQueue]: the queue of raw payloads, partitioned
      by checksum, with a map from global offsets to places.  [QueueConc]: its
      [append] as the steps of several threads.  [QueueSegments]: how payloads
      fill segments.  [QueueRestart]: a queue over the files of an earlier one.
      [QueueTests]: the tests.  [QueuePerf]: the [perf] and
      [large_scale_test] modules of the same file, the measurements and the test
      of ten million numbers.  src/src/main.rs, [Main]: the program over them.
    - [ByteQueue]: the interface between queues and mailboxes (a class of
      operations and a class of laws), with its instance for [PersistQ].
    - src/src/mailbox.rs, [Mailboxes]: addresses, messages, routing, handles with
      a read offset.  [MailboxClients]: client programs and the table of message
      logs they see; [MailboxConc]: sends that overlap, one step at a time;
      [MailboxThreads]: programs that take turns, a call each, and protocols among
      them; [MailboxTests]: the tests as clients.  src/src/mailbox_processor.rs, [MailboxProcessor]: tasks
      that poll a mailbox and act on each message; [ProcessorClients]: the tasks
      as clients, and the tests of the module.
      src/src/mailbox_network.rs, [MailboxNetwork]: mailboxes served over TCP
      and UDP, and their client; [NetworkClients]: programs that start servers
      and talk to them.
    - src/src/datafusion_layer.rs, [SqlLayer]: records as rows of tables.
      [SqlTests]: its tests, and src/examples/datafusion_example.rs.
    - src/src/network.rs, [Network]: the framed protocol between nodes, client
      connections and the server loop.
    - src/src/raft.rs, [Raft]: terms, votes, timers and the command loop.
    - src/src/resilience.rs, [Resilience]: retries with backoff and the circuit
      breaker.  src/src/health.rs, [Health]: component status and its HTTP answers.
      [Servers]: the accept loops of network.rs and health.rs, with their
      connections, and the background checker.
      [ServiceTests]: the tests of these four modules.
    - src/src/lib.rs, [Errors]; src/src/types.rs and src/src/node.rs, [Node];
      src/src/cluster.rs, [Cluster]; src/src/partition.rs, [Partition];
      src/src/filesystem.rs, [Filesystem]: the layer of nodes, partitions and
      distributed files.  lib.rs describes it but does not declare its modules.
      [ClusterTests]: the tests of this layer and of utils.rs.
    - src/src/demo.rs, [Demo]: the demonstration cluster.  src/src/utils.rs,
      [Utils]: paths, hashes, ages and ports; [Validation]: addresses, names,
      configuration files and system readings.
    - src/examples/hft_trading_server.rs: [Matching] (the matching engine, one
      call at a time), [MatchingLocks] (its two books' locks, as the steps of
      several calls), [HftServer] (its processors, the feed and the summary of
      executions, over [Mailboxes] and [MailboxProcessor]), [TradingDemo] (the
      program, as concurrent programs of [MailboxThreads]).
      src/examples/two_traders_competition.rs: [OrderBook] (the book) and
      [Traders] (the three traders and the loop they compete in).
      src/examples/mailbox_processor_example.rs: [ProcessorExample] (its
      processors and its filter) and [ProcessorDemo] (the program).  src/examples/mailbox_example.rs,
      [MailboxExample]; src/examples/mailbox_network_example.rs,
      [NetworkExample] (with the test of mailbox_network.rs);
      src/examples/production_demo.rs, [ProductionDemo].
    - [Prelude] (this file): outcomes, machine integers, slices, byte codecs,
      loops, and the tactics and rewriting hints shared by all; [Crc32]: the
      checksum crate as an interface; [F64]: Rust's [f64]; [Utf8]: lossy decoding
      and splitting of strings.

    Records flow from [RecordFormat] through [StorageEngine] to [Compaction];
    payloads from [Mailboxes] through [ByteQueue] to [PersistQueue];
    [MailboxProcessor] and [MailboxNetwork] are clients of [Mailboxes],
    both in the sense of [MailboxClients] ([tick_runs], [server_is_client]);
    [Partition] and [Filesystem] place data on the nodes of [Cluster].

    ** How the code is modelled

    The comment before a definition names the lines it translates.  A method that
    changes its object takes the object and returns the new one with the result;
    results are [outcome]s ([Ok], [Err], or [Panic] for a slice out of range, a
    missing value, or an overflowing conversion).  Integers are [Z]s that wrap at
    their width, as the release profile of Cargo.toml has it; atomics are the
    values they hold.  An object shared by several owners is a place: an index
    into the list of segments of a manager, a cell of the heap of a cluster, the
    entry of an address in the mailbox system.  Threads interleave in
    [StorageConc] and [ManagerConc] (atomic actions), [QueueConc],
    [MailboxConc] and [MatchingLocks] (the stretches between taking and releasing
    locks), [Raft] and
    [Cluster] (one command or call at a time), [MailboxProcessor] (ticks of tasks),
    [MailboxThreads] (the calls of programs, in any order), [Servers] (the awaits
    of connections, of the handler and of the checker) and [Node] (the worker's turns); the other
    files treat calls one at a time.

    Code outside src/ is a parameter, with its documented behaviour as the laws
    of a class: [Crc32]/[Crc32Ok] (results are 32-bit), [Os]/[OsOk] (a mapping has
    the length asked for), [Fs], [MessageCodec]/[MessageCodecOk] (serde_json: a
    round trip, no empty encoding, trailing characters refused),
    [Bincode]/[BincodeOk] and [NodeCodec]/[NodeCodecOk] (round trips),
    [Dash]/[DashOk] and [HashOrder]/[HashOrderOk] (an iteration visits every entry
    once, in some order), [HftCodec]/[HftCodecOk] (the JSON of quotes and
    executions), [Crc32Detects] (a checksum changes with any one byte),
    [Alphanumeric]/[AlphanumericOk] (what Unicode's class is on ASCII),
    [Toml]/[TomlOk] (a round trip), [Arrow]/[ArrowOk] and [DataFusion]/[DataFusionOk] (columns, batches, plans and
    sessions), [SameMachine] (two machines that differ in the old contents of
    files), random numbers, the request handlers, the SQL service of the
    processors, uuids and clock readings (new ones for each message).  Each has a
    concrete instance, on which the concrete runs and witnesses evaluate.

    ** Loops and fuel

    A loop is [run_loop fuel body state] or a [Fixpoint] with fuel: [None] means
    that the fuel ran out.  How much is enough is part of the theorems: two
    iterations for [SegmentManager::append_record] ([manager_append_total]), one
    more than the number of records for an iteration or a copy
    ([iter_records_complete], [compaction_preserves_log]), one more than the
    number of requests for a connection ([server_refines_service]), three turns a
    request and one when connections interleave ([connections_answered_in_order]), one more than
    the failures for a retry ([retry_attempts]), one for an append to a queue with
    room ([large_scale_test_fails]).  The loops that never end are
    proved to end with no fuel ([oversize_append_never_returns],
    [corrupted_iteration_never_ends]).

    ** What is proved

    - Storage: the format accepts exactly the serialized records
      ([deserialize_iff]); a segment implements an append-only log of records
      ([append_record_refines], [iter_records_complete]); a manager stores the
      sequence of what it acknowledged across rotations
      ([manager_stores_sequence]); compaction and merging lose nothing
      ([compaction_preserves_log], [merge_concatenates]).  Threads that fit
      together in the segment never overlap ([concurrent_appends_safe]); without
      that, an acknowledged record can be overwritten and a reader can panic
      ([acknowledged_appends_overlap], [overflow_reservation_panics_reader]).
      The threads of a manager create one segment where one is enough
      ([double_check_creates_one_segment]) and do not deadlock
      ([appends_never_deadlock]); one alone is the sequential function
      ([alone_runs_append]); where they fit, segments and managers are linearizable
      and every call returns ([concurrent_appends_linearize],
      [manager_appends_linearize]).  A changed byte is reported
      ([corrupted_byte_detected]).  What is acknowledged is in the files
      ([acknowledged_records_are_in_the_files]), but a later run starts from
      nothing and overwrites it ([reopened_segment_overwrites]).  A recorder of
      metrics would count the records and the bytes of the log, and no error
      ([metrics_follow_log]).  The tests of the three modules pass ([storage_tests_pass]), and so does the demonstration
      ([production_demo_completes]); the stress tests are conditions on the clock
      ([stress_verdicts]), of which that of the sustained load is never met
      ([stress_loads_bounded]).
    - Queue and mailboxes: a queue is a sequence of payloads, of which a read
      returns a suffix ([queue_append_extends], [queue_read_returns_suffix]), and
      concurrent appends are linearizable in the order of their places
      ([appends_linearize]), which need not be that of the global offsets
      ([offsets_out_of_order]); the suffixes make the test of ten million numbers
      fail ([large_scale_test_fails]), while the other tests pass
      ([queue_tests_pass], [concurrent_appends_test_passes]).  Payloads fill the
      segments as next-fit packing does ([appends_pack_segments]); a restarted
      queue has forgotten everything ([restart_forgets]).  Every client of the
      mailboxes, local or remote, and every processor that answers messages sees
      the table of message logs ([clients_see_message_logs],
      [remote_clients_see_logs], [polls_see_message_logs]).  Sends that overlap all
      return and every message arrives, in some order, each under a number of its
      own ([overlapping_sends_arrive]); but the numbers need not follow the order,
      and then a message can be out of reach from the start
      ([first_number_reads_second_message]).  A message
      can be read only while it is the last: so two of the tests and all three
      examples fail ([mailbox_tests_verdicts], [mailbox_example_fails],
      [network_example_loses_mail], [processor_example_always_fails]), the last
      however its processors are scheduled, and the tests of the processors pass
      exactly when the task is polled in time ([processor_tests_verdicts]).  A message sent is delivered to a consumer
      that keeps up ([send_then_receive], [remote_send_then_receive]) and lost to
      one that does not ([backlog_delivers_only_last]).
    - Network: the server loop is a map of its handler over the requests
      ([server_refines_service], [rpc_end_to_end]); connections that interleave,
      with overlapping calls of the shared handler, are each answered in order, and
      end for one of four reasons ([connections_answered_in_order]);
      health probes are answered for the table as it is at one moment, and
      with 503 while a component is unreported ([probes_see_the_table]).
    - Tables: records become rows ([records_to_batch_spec]), but no query sees one
      ([queries_never_see_records]), so the example counts none of the events it
      has stored ([example_sees_no_events]).
    - Coordination: one vote per term in every run ([one_vote_per_term]), no
      leader with peers ([leader_only_without_peers]); the breaker implements its
      state machine ([breaker_refines_spec]).
      The tests of the protocol, of elections, resilience and health pass, some
      only if time goes by as they expect ([service_tests_verdicts]).
    - Nodes: the control node is permanent ([control_node_is_permanent]), files
      are striped over the data nodes ([writes_stripe_blocks]), partitions are
      placed on all of them but found only under consecutive ids
      ([create_partition_spec], [routing_needs_consecutive_ids]); four of the
      tests can never pass ([node_layer_tests_verdicts]).
    - Demonstrations: the demonstration cluster counts every write once
      ([write_batch_counts]), and its program does what it announces
      ([demonstration_report]); the queue's prints suffixes
      ([queue_demo_prints_suffixes]); joining paths and taking them apart are
      inverse ([join_then_split]), and every IPv4 address is read back from its
      text ([ipv4_text_is_valid]).  The filter of the processor example, registered
      on the mailbox it forwards to, feeds itself for ever
      ([filter_feeds_itself]).
    - Trading: matching is a greedy walk through the offers
      ([match_order_greedy]) that keeps the books well formed
      ([match_order_preserves_wf]), at the lowest levels for sellers too
      ([fills_at_lowest_levels]); calls of one side always return
      ([same_side_calls_return]), two of opposite sides can deadlock
      ([opposite_limits_deadlock]); the strategy never sees a quote
      ([strategy_never_sees_quotes]), and the program reports no execution however
      its tasks are scheduled ([trading_server_executes_nothing]).  In the competition, matching follows
      price and time ([match_order_spec]), positions add up but for self-trades
      ([positions_sum_to_self_trades]) and orders are bounded
      ([order_sizes_bounded]).

    ** What is not modelled

    Files are bytes in memory: two mappings of one path at a time are not
    connected, so the properties of mailboxes are about addresses with
    directories of their own ([addresses_share_directory]).  [Disk] and
    [QueueRestart] connect a run with the next one over the same files; a crash
    that loses a part of a mapping is not modelled, and a flush changes nothing.
    Sockets appear as the bytes of a connection, with the error that ends what
    arrives and the room for what is written; the programs of [NetworkClients]
    talk to their servers over a network that loses nothing, one request at a
    time.  Only sends overlap at their real granularity ([MailboxConc]); the other
    calls of mailboxes, and the programs of [MailboxThreads], take turns.
    Logging and tracing are left out everywhere, and printing where it is not a
    result; the metrics of a segment are in [Metrics] and elsewhere left out.
    Not modelled: the benchmark, which only times the operations modelled, and the
    deployment files. *)

From stdpp Require Import base list numbers strings gmap pretty relations.
From coqutil Require Import Byte Word.LittleEndianList.
From Stdlib Require Import Lia Strings.Byte.

Local Open Scope Z_scope.

Declare Scope dolda_scope.
Delimit Scope dolda_scope with dolda.

(** ** Outcomes of a Rust call

    [Ok] and [Err] are the two constructors of Rust's [Result]; [Panic] is a
    call that does not return because it indexes a slice out of range or
    unwraps a missing value (the release profile of Cargo.toml aborts). *)
Inductive outcome (E A : Type) : Type :=
  | Ok (a : A)
  | Err (e : E)
  | Panic.
Arguments Ok {E A} _.
Arguments Err {E A} _.
Arguments Panic {E A}.

#[export] Instance outcome_ret E : MRet (outcome E) := fun A a => Ok a.
#[export] Instance outcome_bind E : MBind (outcome E) := fun A B f m =>
  match m with Ok a => f a | Err e => Err e | Panic => Panic end.
#[export] Instance outcome_fmap E : FMap (outcome E) := fun A B f m =>
  match m with Ok a => Ok (f a) | Err e => Err e | Panic => Panic end.

(** Rust's [map_err]. *)
Definition map_err {E F A} (f : E → F) (m : outcome E A) : outcome F A :=
  match m with Ok a => Ok a | Err e => Err (f e) | Panic => Panic end.

(** Rust's [ok_or] on an option, and an operation that panics when its
    option is empty ([unwrap], slice indexing). *)
Definition ok_or {E A} (o : option A) (e : E) : outcome E A :=
  match o with Some a => Ok a | None => Err e end.
Definition unwrap {E A} (o : option A) : outcome E A :=
  match o with Some a => Ok a | None => Panic end.

Definition from_ok {E A} (d : A) (m : outcome E A) : A :=
  match m with Ok a => a | _ => d end.
Definition is_ok {E A} (m : outcome E A) : bool :=
  match m with Ok _ => true | _ => false end.

(** The tests of the modules: a test returns or panics. *)
Abbreviation verdict := (outcome string unit).

(** [assert!], [unwrap] of a result, [is_err]. *)
Definition assert_that (b : bool) : verdict := if b then Ok tt else Panic.
Definition unwrap_ok {E A} (m : outcome E A) : outcome string A :=
  match m with Ok x => Ok x | _ => Panic end.
Definition is_err {E A} (m : outcome E A) : bool := match m with Err _ => true | _ => false end.

(** The same error, the same panic, or values that are related. *)
Definition outcome_rel {E A B} (R : A → B → Prop) (m1 : outcome E A) (m2 : outcome E B) : Prop :=
  match m1, m2 with
  | Ok a, Ok b => R a b
  | Err e, Err e' => e = e'
  | Panic, Panic => True
  | _, _ => False
  end.

Lemma outcome_rel_bind {E A B C D} (R : A → B → Prop) (Q : C → D → Prop) (m1 : outcome E A) (m2 : outcome E B) f g :
  outcome_rel R m1 m2 → (∀ a b, R a b → outcome_rel Q (f a) (g b)) → outcome_rel Q (m1 ≫= f) (m2 ≫= g).
Proof. intros Hm Hf. destruct m1, m2; try done; cbn in *; auto. Qed.
Lemma outcome_rel_map_err {E F A B} (R : A → B → Prop) (m1 : outcome E A) (m2 : outcome E B) (h : E → F) :
  outcome_rel R m1 m2 → outcome_rel R (map_err h m1) (map_err h m2).
Proof. destruct m1, m2; try done; cbn. by intros ->. Qed.
Lemma outcome_rel_eq {E A} (m : outcome E A) : outcome_rel eq m m.
Proof. by destruct m. Qed.

(** ** Machine integers

    A [u8], [u16], [u32], [u64] or [usize] (64-bit targets) is a [Z]; [wrap w]
    is its value after arithmetic at width [w].  The release profile keeps
    overflow checks off, so [+] and [-] wrap, as the atomic [fetch_add] and
    [fetch_sub] always do. *)
Definition wrap (w z : Z) : Z := z mod 2 ^ w.
Abbreviation u16 := (wrap 16).
Abbreviation u32 := (wrap 32).
Abbreviation u64 := (wrap 64).
Abbreviation usize := (wrap 64).
Definition in_range (w z : Z) : Prop := 0 ≤ z < 2 ^ w.

Lemma wrap_id w z : in_range w z → wrap w z = z.
Proof. apply Z.mod_small. Qed.

Lemma wrap_range w z : 0 ≤ w → in_range w (wrap w z).
Proof. intros Hw. apply Z.mod_pos_bound, Z.pow_pos_nonneg; lia. Qed.

(** Undoing a wrapped addition: [fetch_add] followed by [fetch_sub]. *)
Lemma wrap_add_sub w z n : in_range w z → wrap w (wrap w (z + n) - n) = z.
Proof.
  intros Hz. unfold wrap. rewrite Zminus_mod_idemp_l.
  replace (z + n - n) with z by lia. by apply Z.mod_small.
Qed.

(** Signed integers, in two's complement. *)
Definition swrap (w z : Z) : Z := (z + 2 ^ (w - 1)) mod 2 ^ w - 2 ^ (w - 1).
Abbreviation i32 := (swrap 32).
Abbreviation i64 := (swrap 64).
Definition in_srange (w z : Z) : Prop := - 2 ^ (w - 1) ≤ z < 2 ^ (w - 1).

Lemma swrap_id w z : 1 ≤ w → in_srange w z → swrap w z = z.
Proof.
  intros Hw Hz. unfold swrap, in_srange in *.
  assert (2 ^ w = 2 * 2 ^ (w - 1)) by (rewrite <- Z.pow_succ_r by lia; f_equal; lia).
  rewrite Z.mod_small by lia. lia.
Qed.

(** Two wrapped values are equal when they are congruent. *)
Lemma swrap_eq w a b : 0 ≤ w → (a - b) mod 2 ^ w = 0 → swrap w a = swrap w b.
Proof.
  intros Hw Hab. assert (0 < 2 ^ w) by (apply Z.pow_pos_nonneg; lia).
  apply Z.mod_divide in Hab as [k Hk]; [|lia]. unfold swrap. f_equal.
  replace (a + 2 ^ (w - 1)) with (b + 2 ^ (w - 1) + k * 2 ^ w) by lia. by rewrite Z.mod_add by lia.
Qed.
Lemma swrap_mod w z : 0 ≤ w → ∃ k, swrap w z = z + k * 2 ^ w.
Proof.
  intros Hw. assert (0 < 2 ^ w) by (apply Z.pow_pos_nonneg; lia). unfold swrap.
  exists (- ((z + 2 ^ (w - 1)) / 2 ^ w)). rewrite Z.mod_eq by lia. lia.
Qed.

Definition saturating_sub (a b : Z) : Z := Z.max 0 (a - b).

(** ** Lengths and slices *)
Definition len {A} (l : list A) : Z := Z.of_nat (length l).

Arguments len : simpl never.
Arguments wrap : simpl never.

Lemma len_nonneg {A} (l : list A) : 0 ≤ len l.
Proof. unfold len. lia. Qed.
Lemma len_nil {A} : len (@nil A) = 0.
Proof. done. Qed.
Lemma len_cons {A} (x : A) l : len (x :: l) = 1 + len l.
Proof. unfold len. simpl length. lia. Qed.
Lemma len_app {A} (l k : list A) : len (l ++ k) = len l + len k.
Proof. unfold len. rewrite length_app. lia. Qed.
Lemma len_snoc {A} (l : list A) x : len (l ++ [x]) = len l + 1.
Proof. by rewrite len_app. Qed.
Lemma len_replicate {A} n (x : A) : len (replicate n x) = Z.of_nat n.
Proof. unfold len. by rewrite length_replicate. Qed.

(** Split at an offset [n]: [ztake] keeps the first [n] elements. *)
Definition ztake {A} (n : Z) (l : list A) : list A := take (Z.to_nat n) l.
Definition zdrop {A} (n : Z) (l : list A) : list A := drop (Z.to_nat n) l.

Lemma len_ztake {A} n (l : list A) : 0 ≤ n ≤ len l → len (ztake n l) = n.
Proof. unfold len, ztake. rewrite length_take. lia. Qed.
Lemma len_zdrop {A} n (l : list A) : 0 ≤ n ≤ len l → len (zdrop n l) = len l - n.
Proof. unfold len, zdrop. rewrite length_drop. lia. Qed.
Lemma len_zdrop_le {A} n (l : list A) : len (zdrop n l) ≤ len l.
Proof. unfold len, zdrop. rewrite length_drop. lia. Qed.
Lemma ztake_zdrop {A} n (l : list A) : ztake n l ++ zdrop n l = l.
Proof. apply take_drop. Qed.
Lemma ztake_app {A} (l k : list A) : ztake (len l) (l ++ k) = l.
Proof. unfold ztake, len. by rewrite Nat2Z.id, take_app_length. Qed.
Lemma zdrop_app {A} (l k : list A) : zdrop (len l) (l ++ k) = k.
Proof. unfold zdrop, len. by rewrite Nat2Z.id, drop_app_length. Qed.

(** Rust's [&l[a..b]]: [None] is the out-of-range panic. *)
Definition slice {A} (l : list A) (a b : Z) : option (list A) :=
  if (0 <=? a) && (a <=? b) && (b <=? len l)
  then Some (ztake (b - a) (zdrop a l)) else None.

(** Rust's [l[a..b].copy_from_slice(bs)]: panics out of range and when the
    lengths differ. *)
Definition copy_from_slice {A} (l : list A) (a b : Z) (bs : list A) : option (list A) :=
  if (0 <=? a) && (a <=? b) && (b <=? len l) && (b - a =? len bs)
  then Some (ztake a l ++ bs ++ zdrop b l) else None.

Arguments ztake : simpl never.
Arguments zdrop : simpl never.
Arguments slice : simpl never.
Arguments copy_from_slice : simpl never.

Lemma slice_app {A} (x y z : list A) a b :
  a = len x → b = len x + len y → slice (x ++ y ++ z) a b = Some y.
Proof.
  intros -> ->. unfold slice. rewrite !len_app.
  pose proof (len_nonneg x). pose proof (len_nonneg y). pose proof (len_nonneg z).
  rewrite !(proj2 (Z.leb_le _ _)) by lia. simpl.
  rewrite zdrop_app. replace (len x + len y - len x) with (len y) by lia.
  by rewrite ztake_app.
Qed.

Lemma slice_tail {A} (x y : list A) a b :
  a = len x → b = len x + len y → slice (x ++ y) a b = Some y.
Proof. intros. rewrite <- (app_nil_r y) at 1. by apply slice_app. Qed.

Lemma slice_head {A} (y z : list A) a b :
  a = 0 → b = len y → slice (y ++ z) a b = Some y.
Proof. intros -> ->. by apply (slice_app []). Qed.

Lemma copy_from_slice_app {A} (x y z bs : list A) a b :
  a = len x → b = len x + len y → len bs = len y →
  copy_from_slice (x ++ y ++ z) a b bs = Some (x ++ bs ++ z).
Proof.
  intros -> -> Hl. unfold copy_from_slice. rewrite !len_app.
  pose proof (len_nonneg x). pose proof (len_nonneg y). pose proof (len_nonneg z).
  rewrite !(proj2 (Z.leb_le _ _)) by lia.
  rewrite (proj2 (Z.eqb_eq _ _)) by lia. simpl.
  rewrite ztake_app, (app_assoc x y z), <- len_app, zdrop_app. done.
Qed.

(** Every list splits at two offsets. *)
Lemma split_at {A} (l : list A) a b :
  0 ≤ a → a ≤ b → b ≤ len l →
  ∃ x y z, l = x ++ y ++ z ∧ len x = a ∧ len y = b - a.
Proof.
  intros Ha Hab Hb.
  exists (ztake a l), (ztake (b - a) (zdrop a l)), (zdrop (b - a) (zdrop a l)).
  rewrite ztake_zdrop, ztake_zdrop, len_ztake by lia.
  rewrite len_ztake by (rewrite len_zdrop; lia). done.
Qed.

(** Slices of a concatenation, and slices around a copied range. *)
Lemma slice_some {A} (l y : list A) a b :
  slice l a b = Some y ↔ ∃ x z, l = x ++ y ++ z ∧ len x = a ∧ len y = b - a.
Proof.
  split.
  - unfold slice. destruct (_ && _) eqn:Hc; [|done]. apply andb_true_iff in Hc as [Hc Hb].
    apply andb_true_iff in Hc as [Ha Hab]. apply Z.leb_le in Ha, Hab, Hb. intros [= <-].
    destruct (split_at l a b Ha Hab Hb) as (x & y & z & -> & <- & Hy).
    exists x, z. rewrite zdrop_app, <- Hy, ztake_app. done.
  - intros (x & z & -> & <- & Hy). apply slice_app; lia.
Qed.

Lemma slice_is_some {A} (l : list A) a b :
  0 ≤ a → a ≤ b → b ≤ len l → ∃ y, slice l a b = Some y ∧ len y = b - a.
Proof.
  intros Ha Hab Hb. destruct (split_at l a b Ha Hab Hb) as (x & y & z & -> & <- & Hy).
  exists y. split; [|done]. apply slice_app; lia.
Qed.

(** A slice that ends later starts with the shorter one. *)
Lemma slice_extend {A} (l y : list A) a b c :
  slice l a b = Some y → b ≤ c → c ≤ len l → ∃ z, slice l a c = Some (y ++ z).
Proof.
  intros (x & z & -> & <- & Hy)%slice_some Hbc Hc. rewrite !len_app in Hc.
  exists (ztake (c - b) z). apply slice_some. exists x, (zdrop (c - b) z).
  rewrite <- app_assoc, ztake_zdrop, len_app, len_ztake by lia.
  split_and!; [done..|lia].
Qed.

Lemma slice_out {A} (l : list A) a b : len l < b → slice l a b = None.
Proof. intros Hb. unfold slice. rewrite (proj2 (Z.leb_gt b _)) by lia. by rewrite andb_false_r. Qed.

Lemma slice_left {A} (x y : list A) a b :
  0 ≤ a → a ≤ b → b ≤ len x → slice (x ++ y) a b = slice x a b.
Proof.
  intros Ha Hab Hb. destruct (slice_is_some x a b Ha Hab Hb) as (z & Hz & _). rewrite Hz.
  apply slice_some in Hz as (u & v & -> & Hu & Hv). apply slice_some.
  exists u, (v ++ y). by rewrite <- !app_assoc.
Qed.

Lemma slice_right {A} (x y : list A) a b :
  len x ≤ a → a ≤ b → b ≤ len x + len y →
  slice (x ++ y) a b = slice y (a - len x) (b - len x).
Proof.
  intros Ha Hab Hb. destruct (slice_is_some y (a - len x) (b - len x)) as (z & Hz & _); [lia..|].
  rewrite Hz. apply slice_some in Hz as (u & v & -> & Hu & Hv). apply slice_some.
  exists (x ++ u), v. rewrite <- !app_assoc, len_app. split_and!; [done|lia..].
Qed.

(** What a successful copy did: the range holds the copied elements, every
    disjoint range and the length are as before. *)
Lemma copy_from_slice_spec {A} (l l' bs : list A) a b :
  copy_from_slice l a b bs = Some l' →
  slice l' a b = Some bs ∧ len l' = len l ∧
  ∀ c d, 0 ≤ c → c ≤ d → d ≤ len l → d ≤ a ∨ b ≤ c → slice l' c d = slice l c d.
Proof.
  unfold copy_from_slice. destruct (_ && _) eqn:Hc; [|done].
  repeat (apply andb_true_iff in Hc as [Hc ?]). intros [= <-].
  repeat match goal with H : _ = true |- _ =>
    first [apply Z.leb_le in H | apply Z.eqb_eq in H] end.
  destruct (split_at l a b) as (x & y & z & -> & <- & Hy); [done..|].
  rewrite ztake_app. rewrite (app_assoc x y z).
  replace b with (len (x ++ y)) by (rewrite len_app; lia). rewrite zdrop_app, !len_app.
  split_and!; [apply slice_app; lia|lia|].
  intros c d Hc0 Hcd Hd [Hl|Hr].
  - by rewrite <- app_assoc, !slice_left by lia.
  - rewrite (app_assoc x bs z). rewrite !slice_right by (rewrite ?len_app; lia).
    by rewrite !len_app, (ltac:(lia) : len bs = len y).
Qed.

Lemma copy_from_slice_ok {A} (l bs : list A) a b :
  0 ≤ a → b = a + len bs → b ≤ len l → ∃ l', copy_from_slice l a b bs = Some l'.
Proof.
  intros Ha -> Hb. unfold copy_from_slice. pose proof (len_nonneg bs).
  rewrite !(proj2 (Z.leb_le _ _)), (proj2 (Z.eqb_eq _ _)) by lia. simpl. eauto.
Qed.

(** ** Byte encodings of integers

    Rust's [to_le_bytes], [from_le_bytes], [to_be_bytes] and [from_be_bytes];
    [n] is the width in bytes. *)
Abbreviation bytes := (list Init.Byte.byte).
#[export] Instance byte_eq_dec : EqDecision Init.Byte.byte := Byte.byte_eq_dec.

Definition to_le_bytes (n : nat) (z : Z) : bytes := le_split n z.
Definition from_le_bytes (l : bytes) : Z := le_combine l.
Definition to_be_bytes (n : nat) (z : Z) : bytes := rev (le_split n z).
Definition from_be_bytes (l : bytes) : Z := le_combine (rev l).

(** The UTF-8 bytes of a string ([as_bytes]); a [string] of the model is its
    byte sequence. *)
Definition str_bytes (s : string) : bytes := String.list_byte_of_string s.

Lemma len_to_le_bytes n z : len (to_le_bytes n z) = Z.of_nat n.
Proof. unfold len, to_le_bytes. by rewrite length_le_split. Qed.
Lemma len_to_be_bytes n z : len (to_be_bytes n z) = Z.of_nat n.
Proof. unfold len, to_be_bytes. by rewrite length_rev, length_le_split. Qed.

Lemma le_roundtrip n z :
  in_range (Z.of_nat n * 8) z → from_le_bytes (to_le_bytes n z) = z.
Proof. intros Hz. unfold from_le_bytes, to_le_bytes. rewrite le_combine_split. by apply Z.mod_small. Qed.

Lemma be_roundtrip n z :
  in_range (Z.of_nat n * 8) z → from_be_bytes (to_be_bytes n z) = z.
Proof.
  intros Hz. unfold from_be_bytes, to_be_bytes. rewrite rev_involutive.
  by apply le_roundtrip.
Qed.

Lemma le_of_bytes n l : len l = Z.of_nat n → to_le_bytes n (from_le_bytes l) = l.
Proof. intros Hl. apply split_le_combine'. unfold len in Hl. lia. Qed.

Lemma be_of_bytes n l : len l = Z.of_nat n → to_be_bytes n (from_be_bytes l) = l.
Proof.
  intros Hl. unfold to_be_bytes, from_be_bytes.
  rewrite split_le_combine' by (rewrite length_rev; unfold len in Hl; lia).
  apply rev_involutive.
Qed.

Lemma from_le_range n l : len l = Z.of_nat n → in_range (Z.of_nat n * 8) (from_le_bytes l).
Proof.
  intros Hl. unfold in_range, from_le_bytes. pose proof (le_combine_bound l).
  unfold len in Hl. replace (Z.of_nat n * 8) with (8 * Z.of_nat (length l)) by lia. done.
Qed.

Lemma from_be_range n l : len l = Z.of_nat n → in_range (Z.of_nat n * 8) (from_be_bytes l).
Proof.
  intros Hl. apply (from_le_range n (rev l)). unfold len in *. by rewrite length_rev.
Qed.

(** ** Association maps in key order (Rust's [BTreeMap] with integer keys)

    The list is kept sorted by key; [values] iterates in ascending order. *)
Abbreviation btree V := (list (Z * V)).

Fixpoint btree_insert {V} (k : Z) (v : V) (m : btree V) : btree V :=
  match m with
  | [] => [(k, v)]
  | (k', v') :: m' =>
      if k <? k' then (k, v) :: m
      else if k =? k' then (k, v) :: m'
      else (k', v') :: btree_insert k v m'
  end.
Definition btree_values {V} (m : btree V) : list V := map snd m.

(** Inserting a key above all present ones appends. *)
Lemma btree_insert_last {V} k (v : V) m :
  Forall (λ kv, kv.1 < k) m → btree_insert k v m = m ++ [(k, v)].
Proof.
  induction 1 as [|[k' v'] m Hk _ IH]; simpl in *; [done|].
  rewrite (proj2 (Z.ltb_ge _ _)), (proj2 (Z.eqb_neq _ _)) by lia. by rewrite IH.
Qed.

(** Rust's [iter().find(p)]. *)
Fixpoint find_first {A} (p : A → bool) (l : list A) : option A :=
  match l with
  | [] => None
  | x :: l' => if p x then Some x else find_first p l'
  end.

Lemma find_first_app {A} (p : A → bool) l k :
  Forall (λ x, p x = false) l → find_first p (l ++ k) = find_first p k.
Proof. induction 1 as [|x l Hx _ IH]; simpl; [done|]. by rewrite Hx. Qed.
Lemma find_first_none {A} (p : A → bool) l :
  Forall (λ x, p x = false) l → find_first p l = None.
Proof. induction 1 as [|x l Hx _ IH]; simpl; [done|]. by rewrite Hx. Qed.

(** ** Sums *)
Definition zsum {A} (f : A → Z) (l : list A) : Z := foldr (λ x acc, f x + acc) 0 l.

Lemma zsum_app {A} (f : A → Z) l k : zsum f (l ++ k) = zsum f l + zsum f k.
Proof. induction l; simpl; lia. Qed.
Lemma zsum_nonneg {A} (f : A → Z) l : (∀ x, 0 ≤ f x) → 0 ≤ zsum f l.
Proof. intros Hf. induction l as [|x l IH]; simpl; [lia|]. specialize (Hf x). lia. Qed.
Lemma zsum_insert {A} (f : A → Z) l i x y :
  l !! i = Some x → zsum f (<[i := y]> l) = zsum f l - f x + f y.
Proof.
  revert i. induction l as [|z l IH]; intros [|i]; simpl; try done.
  - intros [= ->]. lia.
  - intros Hi. rewrite (IH i Hi). lia.
Qed.
Lemma zsum_lookup_le {A} (f : A → Z) l i x :
  (∀ x, 0 ≤ f x) → l !! i = Some x → f x ≤ zsum f l.
Proof.
  intros Hf. revert i. induction l as [|z l IH]; intros [|i]; simpl; try done.
  - intros [= ->]. pose proof (zsum_nonneg f l Hf). lia.
  - intros Hi. pose proof (IH i Hi). pose proof (Hf z). lia.
Qed.
Lemma len_concat_map {A B} (f : A → list B) l : len (concat (map f l)) = zsum (λ x, len (f x)) l.
Proof. induction l; simpl; [done|]. rewrite len_app. lia. Qed.

(** Rust's [iter().sum()] on a [u64] or [usize] iterator: a left fold whose
    additions wrap in release builds. *)
Definition sum_u64 {A} (f : A → Z) (l : list A) : Z := foldl (λ acc x, u64 (acc + f x)) 0 l.

Lemma sum_u64_acc {A} (f : A → Z) l acc :
  (∀ x, 0 ≤ f x) → 0 ≤ acc → acc + zsum f l < 2 ^ 64 →
  foldl (λ a x, u64 (a + f x)) acc l = acc + zsum f l.
Proof.
  intros Hf. revert acc. induction l as [|x l IH]; intros acc Ha Hb; simpl in *; [lia|].
  pose proof (Hf x). pose proof (zsum_nonneg f l Hf).
  rewrite wrap_id by (unfold in_range; lia). rewrite IH by lia. lia.
Qed.
Lemma sum_u64_exact {A} (f : A → Z) l :
  (∀ x, 0 ≤ f x) → zsum f l < 2 ^ 64 → sum_u64 f l = zsum f l.
Proof. intros Hf Hb. unfold sum_u64. rewrite (sum_u64_acc f l 0 Hf) by lia. lia. Qed.
Lemma sum_u64_exact_in {A} (f : A → Z) l :
  Forall (λ x, 0 ≤ f x) l → zsum f l < 2 ^ 64 → sum_u64 f l = zsum f l.
Proof.
  intros Hf Hb. assert (∀ acc, 0 ≤ acc → acc + zsum f l < 2 ^ 64 → foldl (λ acc x, u64 (acc + f x)) acc l = acc + zsum f l) as Hacc;
    [|unfold sum_u64; rewrite Hacc; lia].
  clear Hb. induction Hf as [|x l Hx Hl IH]; intros acc Ha Hb; [cbn; lia|].
  assert (0 ≤ zsum f l) by (clear -Hl; induction Hl as [|x l Hx _ IH]; [done|]; cbn in *; unfold zsum in IH; lia).
  change (zsum f (x :: l)) with (f x + zsum f l) in *. cbn [foldl].
  rewrite wrap_id by (unfold in_range; lia). rewrite IH by lia. lia.
Qed.

(** Filters under an update. *)
Section filter_insert.
Context {A B : Type} (P : A → Prop) `{!∀ x, Decision (P x)} (f : A → B).

Lemma filter_insert_new (l : list A) i x y :
  l !! i = Some x → ¬ P x → P y → map f (filter P (<[i := y]> l)) ≡ₚ f y :: map f (filter P l).
Proof.
  revert i. induction l as [|z l IH]; intros [|i] Hi Hx Hy; simpl in *; try done.
  - injection Hi as ->. rewrite !filter_cons, decide_True, decide_False by done. done.
  - rewrite !filter_cons. specialize (IH i Hi Hx Hy). destruct (decide (P z)); simpl; [|done].
    eapply perm_trans; [apply perm_skip, IH|apply perm_swap].
Qed.
Lemma filter_insert_old (l : list A) i x y :
  l !! i = Some x → (P x ↔ P y) → f x = f y → map f (filter P (<[i := y]> l)) = map f (filter P l).
Proof.
  revert i. induction l as [|z l IH]; intros [|i] Hi Hx Hy; simpl in *; try done.
  - injection Hi as ->. rewrite !filter_cons. destruct (decide (P x)) as [Hp|Hp].
    + rewrite decide_True by (by apply Hx). simpl. by rewrite Hy.
    + by rewrite decide_False by (by rewrite <- Hx).
  - rewrite !filter_cons. specialize (IH i Hi Hx Hy). by destruct (decide (P z)); simpl; rewrite IH.
Qed.
End filter_insert.

Lemma filter_insert_len {A} (P : A → Prop) `{!∀ x, Decision (P x)} (l : list A) i x y :
  l !! i = Some x → (P x ↔ P y) → len (filter P (<[i := y]> l)) = len (filter P l).
Proof.
  intros Hi Hp. pose proof (filter_insert_old P (λ _, tt) l i x y Hi Hp eq_refl) as He.
  apply (f_equal length) in He. rewrite !length_map in He. unfold len. lia.
Qed.
Lemma filter_insert_len_new {A} (P : A → Prop) `{!∀ x, Decision (P x)} (l : list A) i x y :
  l !! i = Some x → ¬ P x → P y → len (filter P (<[i := y]> l)) = len (filter P l) + 1.
Proof.
  intros Hi Hx Hy. pose proof (Permutation_length (filter_insert_new P (λ _, tt) l i x y Hi Hx Hy)) as He.
  simpl in He. rewrite !length_map in He. unfold len. lia.
Qed.

(** Threads by the number of steps each has left: some first one is not done,
    or all are; a step of one brings the total down. *)
Section pending_steps.
Context {T : Type} (left : T → nat).

Definition total (ts : list T) : nat := sum_list_with left ts.

Lemma first_pending (ts : list T) :
  (∀ i t, ts !! i = Some t → left t = 0%nat) ∨
  ∃ i t, ts !! i = Some t ∧ (0 < left t)%nat ∧ ∀ j u, (j < i)%nat → ts !! j = Some u → left u = 0%nat.
Proof.
  induction ts as [|t ts [Hall|(i & u & Hi & Hu & Hj)]].
  - by left.
  - destruct (Nat.eq_dec (left t) 0%nat) as [Ht|Ht].
    + left. intros [|i] u Hu; [by injection Hu as <-|]. by apply (Hall i).
    + right. exists 0%nat, t. split; [done|]. split; [lia|]. intros j u Hj. lia.
  - destruct (Nat.eq_dec (left t) 0%nat) as [Ht|Ht].
    + right. exists (S i), u. split; [done|]. split; [done|]. intros [|j] v Hlt Hv; [by injection Hv as <-|].
      apply (Hj j); [lia|done].
    + right. exists 0%nat, t. split; [done|]. split; [lia|]. intros j v Hlt. lia.
Qed.

Lemma total_insert ts i t t' :
  ts !! i = Some t → S (left t') = left t → S (total (<[i := t']> ts)) = total ts.
Proof.
  unfold total. revert i. induction ts as [|u ts IH]; intros [|i] Hi Ht; try done.
  - injection Hi as ->. change (S (left t' + sum_list_with left ts) = left t + sum_list_with left ts)%nat. lia.
  - specialize (IH i Hi Ht).
    change (S (left u + sum_list_with left (<[i := t']> ts)) = left u + sum_list_with left ts)%nat. lia.
Qed.

(** Threads that take turns: each run of [k] of them is one task that does its
    steps in order, so a thread starts when the one before it is [ok]. *)
Definition in_turn (k : nat) (ok : T → bool) (ts : list T) (i : nat) : bool :=
  (i mod k =? 0)%nat || match ts !! pred i with Some t => ok t | None => false end.

Lemma first_in_turn k m ok ts i t :
  length ts = (m * k)%nat → ts !! i = Some t →
  (∀ j u, (j < i)%nat → ts !! j = Some u → ok u = true) → in_turn k ok ts i = true.
Proof.
  intros Hlen Hi Hok. pose proof (lookup_lt_Some _ _ _ Hi) as Hlt. unfold in_turn. apply orb_true_iff. destruct i as [|i].
  - left. destruct k; [lia|]. by rewrite Nat.Div0.mod_0_l.
  - right. cbn [pred]. destruct (lookup_lt_is_Some_2 ts i) as [u Hu]; [lia|]. rewrite Hu. by apply (Hok i u); [lia|].
Qed.
End pending_steps.

(** ** Next-fit packing

    The bytes in the last segment and the number of segments, after one more
    payload of [n] bytes: it goes to the last segment when it fits there. *)
Definition pack (size : Z) (st : Z * Z) (n : Z) : Z * Z :=
  if st.1 + n <=? size then (st.1 + n, st.2) else (n, st.2 + 1).
(** From one empty segment. *)
Definition packed (size : Z) (lengths : list Z) : Z * Z := foldl (pack size) (0, 1) lengths.

(** It fills its segments by half at least, and overfills none. *)
Lemma packed_bounds size lengths :
  0 ≤ size → Forall (λ n, 0 ≤ n ≤ size) lengths →
  let st := packed size lengths in
  0 ≤ st.1 ≤ size ∧ 1 ≤ st.2 ∧ (st.2 - 1) * size + st.1 ≤ 2 * zsum id lengths ∧
  zsum id lengths ≤ (st.2 - 1) * size + st.1.
Proof.
  intros Hsize. induction lengths as [|n lengths IH] using rev_ind; intros Hl; [by cbn; lia|].
  apply Forall_app in Hl as [Hl [Hn _]%Forall_cons]. specialize (IH Hl). unfold packed in *. rewrite foldl_snoc.
  set (st := foldl (pack size) (0, 1) lengths) in *. cbv zeta in IH |- *. rewrite zsum_app. cbn [zsum foldr id].
  unfold pack. destruct (Z.leb_spec (st.1 + n) size); cbn [fst snd]; nia.
Qed.


(** ** Invariants of step relations *)
Lemma rtc_invariant {A} (R : relation A) (P : A → Prop) x y :
  (∀ a b, P a → R a b → P b) → P x → rtc R x y → P y.
Proof. intros Hstep Hx Hxy. induction Hxy; eauto. Qed.

(** ** Automation *)
Create HintDb dolda.
Create Rewrite HintDb dolda.
#[export] Hint Rewrite @len_app @len_nil @len_cons len_to_le_bytes len_to_be_bytes @len_replicate : dolda.
#[export] Hint Resolve len_nonneg zsum_nonneg : dolda.

(** Lengths of concatenations of encoded fields, then linear arithmetic. *)
Ltac len_lia :=
  autorewrite with dolda in *;
  repeat match goal with
  | |- context [len ?l] => lazymatch goal with
      | _ : 0 ≤ len l |- _ => fail
      | _ => pose proof (len_nonneg l) end
  end; lia.

(** Turn boolean comparisons of the model into propositions. *)
Ltac zbool :=
  repeat match goal with
  | H : (_ <? _) = true |- _ => apply Z.ltb_lt in H
  | H : (_ <? _) = false |- _ => apply Z.ltb_ge in H
  | H : (_ <=? _) = true |- _ => apply Z.leb_le in H
  | H : (_ <=? _) = false |- _ => apply Z.leb_gt in H
  | H : (_ =? _) = true |- _ => apply Z.eqb_eq in H
  | H : (_ =? _) = false |- _ => apply Z.eqb_neq in H
  | H : (_ && _) = true |- _ => apply andb_true_iff in H as [? ?]
  | H : negb _ = true |- _ => apply negb_true_iff in H
  end.

(** Evaluate one comparison of the goal whose truth [lia] can decide. *)
Ltac zif :=
  match goal with
  | |- context [?a <? ?b] => first
      [ rewrite (proj2 (Z.ltb_lt a b)) by lia | rewrite (proj2 (Z.ltb_ge a b)) by lia ]
  | |- context [?a <=? ?b] => first
      [ rewrite (proj2 (Z.leb_le a b)) by lia | rewrite (proj2 (Z.leb_gt a b)) by lia ]
  | |- context [?a =? ?b] => first
      [ rewrite (proj2 (Z.eqb_eq a b)) by lia | rewrite (proj2 (Z.eqb_neq a b)) by lia ]
  end.

(** ** Loops

    [run_loop] iterates the body of a Rust [loop] with fuel: [None] means the
    fuel ran out, never a result of the code. *)
Inductive loop_step (S A : Type) : Type :=
  | Continue (s : S)
  | Return (s : S) (a : A).
Arguments Continue {S A} _.
Arguments Return {S A} _ _.

Fixpoint run_loop {S A} (fuel : nat) (body : S → loop_step S A) (s : S) : option (S * A) :=
  match fuel with
  | O => None
  | Datatypes.S fuel =>
      match body s with
      | Continue s' => run_loop fuel body s'
      | Return s' a => Some (s', a)
      end
  end.

(** [loop_state n] is the state after [n] iterations that all continue. *)
Fixpoint loop_state {S A} (n : nat) (body : S → loop_step S A) (s : S) : option S :=
  match n with
  | O => Some s
  | Datatypes.S n =>
      match body s with
      | Continue s' => loop_state n body s'
      | Return _ _ => None
      end
  end.

Lemma run_loop_more {S A} (body : S → loop_step S A) f g s r :
  run_loop f body s = Some r → (f ≤ g)%nat → run_loop g body s = Some r.
Proof.
  revert g s. induction f as [|f IH]; intros g s; [done|].
  destruct g as [|g]; [lia|]. simpl. intros Hr Hle.
  destruct (body s); [|done]. apply IH; [done|lia].
Qed.

(** What every iteration preserves holds when the loop returns. *)
Lemma run_loop_preserves {S A} (body : S → loop_step S A) (I : S → Prop) fuel s s' a :
  (∀ s, I s → match body s with Continue s' => I s' | Return s' _ => I s' end) →
  I s → run_loop fuel body s = Some (s', a) → I s'.
Proof.
  intros Hbody. revert s. induction fuel as [|fuel IH]; intros s Hs; [done|]. simpl.
  specialize (Hbody s Hs). destruct (body s) as [s1|s1 a1]; [by apply IH|]. by intros [= <- _].
Qed.

(** Loops whose bodies go hand in hand. *)
Lemma run_loop_related {S T A} (R : S → T → Prop) (b1 : S → loop_step S A) (b2 : T → loop_step T A) fuel s t :
  (∀ s t, R s t → match b1 s, b2 t with
                  | Continue s', Continue t' => R s' t'
                  | Return s' a, Return t' b => R s' t' ∧ a = b
                  | _, _ => False
                  end) →
  R s t →
  match run_loop fuel b1 s, run_loop fuel b2 t with
  | Some (s', a), Some (t', b) => R s' t' ∧ a = b
  | None, None => True
  | _, _ => False
  end.
Proof.
  intros Hb. revert s t. induction fuel as [|fuel IH]; intros s t Hst; [done|]. simpl.
  specialize (Hb s t Hst). destruct (b1 s), (b2 t); try done. by apply IH.
Qed.

(** A loop whose body preserves an invariant and always continues never
    returns, whatever the fuel. *)
Lemma run_loop_diverges {S A} (body : S → loop_step S A) (I : S → Prop) s :
  (∀ s, I s → ∃ s', body s = Continue s' ∧ I s') → I s →
  ∀ fuel, run_loop fuel body s = None.
Proof.
  intros Hbody Hs fuel. revert s Hs. induction fuel as [|fuel IH]; intros s Hs; [done|].
  simpl. destruct (Hbody s Hs) as (s' & -> & Hs'). auto.
Qed.

(** A body that decreases a measure whenever it continues returns. *)
Lemma run_loop_terminates {S A} (body : S → loop_step S A) (m : S → nat) s :
  (∀ s s', body s = Continue s' → (m s' < m s)%nat) →
  ∃ r, run_loop (Datatypes.S (m s)) body s = Some r.
Proof.
  intros Hdec. remember (m s) as n eqn:Hn. revert s Hn.
  induction n as [n IH] using lt_wf_ind; intros s ->. simpl.
  destruct (body s) as [s'|s' a] eqn:Hb; [|eauto].
  pose proof (Hdec _ _ Hb) as Hlt.
  destruct (IH (m s') Hlt s' eq_refl) as [r Hr].
  exists r. apply (run_loop_more _ _ _ _ _ Hr). lia.
Qed.
