(* ===== verification/Crc32.v ===== *)
(** * The crc32fast crate, as an interface

    The code under src/ computes checksums and routing hashes with the crate
    crc32fast, which is not part of the repository: [Crc32] names the functions
    it calls, [Crc32Ok] the documented fact that their results are [u32]
    values.  [ieee] is a concrete instance (the reflected CRC-32 polynomial), on
    which the development's concrete runs evaluate. *)

From stdpp Require Import base list numbers strings.
From coqutil Require Import Byte.
From S2P Require Import Prelude.
Local Open Scope Z_scope.

(** [Hasher::new], [update] and [finalize], and the one-shot [hash].  The code
    relies on no equation between them. *)
Class Crc32 := {
  hasher : Type;
  hasher_new : hasher;
  hasher_update : hasher → bytes → hasher;
  hasher_finalize : hasher → Z;
  crc32_hash : bytes → Z
}.
Class Crc32Ok `{Crc32} := {
  finalize_range h : in_range 32 (hasher_finalize h);
  crc32_hash_range bs : in_range 32 (crc32_hash bs)
}.

(** Two byte strings of one length that differ in one byte. *)
Definition one_byte (x y : bytes) : Prop :=
  ∃ p b b' q, b ≠ b' ∧ x = p ++ b :: q ∧ y = p ++ b' :: q.

(** What a CRC is for: a byte changed in what was hashed, in one of two pieces,
    changes the result. *)
Class Crc32Detects `{Crc32} := {
  detects_first w w' d : one_byte w w' →
    hasher_finalize (hasher_update (hasher_update hasher_new w) d) ≠
    hasher_finalize (hasher_update (hasher_update hasher_new w') d);
  detects_second w d d' : one_byte d d' →
    hasher_finalize (hasher_update (hasher_update hasher_new w) d) ≠
    hasher_finalize (hasher_update (hasher_update hasher_new w) d')
}.

(** ** A concrete instance: CRC-32 with the reflected polynomial EDB88320 *)
Fixpoint crc_bits (n : nat) (c : Z) : Z :=
  match n with
  | O => c
  | S n => crc_bits n
      (if Z.testbit c 0 then Z.lxor (Z.shiftr c 1) 0xEDB88320 else Z.shiftr c 1)
  end.
Definition crc_byte (c : Z) (b : Init.Byte.byte) : Z := crc_bits 8 (Z.lxor c (byte.unsigned b)).
Definition crc_finish (c : Z) : Z := wrap 32 (Z.lxor c 0xFFFFFFFF).

#[export] Instance ieee : Crc32 := {
  hasher := Z;
  hasher_new := 0xFFFFFFFF;
  hasher_update := foldl crc_byte;
  hasher_finalize := crc_finish;
  crc32_hash bs := crc_finish (foldl crc_byte 0xFFFFFFFF bs)
}.
#[export] Instance ieee_ok : Crc32Ok.
Proof. split; intros; by apply wrap_range. Qed.

(** The check value of CRC-32: the checksum of the ASCII string 123456789. *)
Example ieee_check : crc32_hash (str_bytes "123456789") = 0xCBF43926.
Proof. vm_compute. reflexivity. Qed.

(** It detects a changed byte: a step of the register is injective, since the
    polynomial's top bit keeps the bit that is shifted out. *)
Definition crc_bit (c : Z) : Z := if Z.testbit c 0 then Z.lxor (Z.shiftr c 1) 0xEDB88320 else Z.shiftr c 1.

Lemma high_bits x n : in_range 32 x → 32 ≤ n → Z.testbit x n = false.
Proof.
  unfold in_range. intros Hx Hn. assert (2 ^ 32 ≤ 2 ^ n) by (apply Z.pow_le_mono_r; lia).
  destruct (Z.eq_dec x 0) as [->|Hne]; [apply Z.bits_0|]. apply Z.bits_above_log2; [lia|]. apply Z.log2_lt_pow2; lia.
Qed.
Lemma lxor_wrap x y : in_range 32 x → in_range 32 y → wrap 32 (Z.lxor x y) = Z.lxor x y.
Proof.
  intros Hx Hy. unfold wrap. apply Z.bits_inj'. intros n Hn.
  destruct (Z.lt_ge_cases n 32); [by apply Z.mod_pow2_bits_low|]. rewrite Z.mod_pow2_bits_high by lia. by rewrite Z.lxor_spec, !high_bits.
Qed.
Lemma lxor_range x y : in_range 32 x → in_range 32 y → in_range 32 (Z.lxor x y).
Proof. intros Hx Hy. rewrite <- lxor_wrap by done. by apply (wrap_range 32). Qed.

Lemma crc_bit_range c : in_range 32 c → in_range 32 (crc_bit c).
Proof.
  intros Hc. unfold crc_bit. assert (in_range 32 (Z.shiftr c 1)) as Hs.
  { rewrite Z.shiftr_div_pow2 by done. unfold in_range in *.
    split; [apply Z.div_pos; lia|]. apply Z.div_lt_upper_bound; lia. }
  destruct (Z.testbit c 0); [|done]. by apply lxor_range.
Qed.

Lemma crc_bit_inj c d : in_range 32 c → in_range 32 d → crc_bit c = crc_bit d → c = d.
Proof.
  intros Hc Hd Heq. assert (∀ x, in_range 32 x → Z.testbit (crc_bit x) 31 = Z.testbit x 0) as Htop.
  { intros x Hx. unfold crc_bit. assert (Z.testbit (Z.shiftr x 1) 31 = false) as Hz.
    { rewrite Z.shiftr_spec by done. by apply high_bits. }
    destruct (Z.testbit x 0); [by rewrite Z.lxor_spec, Hz|done]. }
  assert (Z.testbit c 0 = Z.testbit d 0) as H0 by (rewrite <- !Htop by done; by rewrite Heq).
  assert (Z.shiftr c 1 = Z.shiftr d 1) as Hs.
  { unfold crc_bit in Heq. rewrite <- H0 in Heq. destruct (Z.testbit c 0); [|done].
    apply (f_equal (λ x, Z.lxor x 0xEDB88320)) in Heq. by rewrite !Z.lxor_assoc, Z.lxor_nilpotent, !Z.lxor_0_r in Heq. }
  apply Z.bits_inj'. intros n Hn. destruct (Z.eq_dec n 0) as [->|Hne]; [done|].
  apply (f_equal (λ x, Z.testbit x (n - 1))) in Hs. rewrite !Z.shiftr_spec in Hs by lia. by replace (n - 1 + 1) with n in Hs by lia.
Qed.

Lemma crc_bits_inj n c d : in_range 32 c → in_range 32 d → crc_bits n c = crc_bits n d → c = d.
Proof.
  revert c d. induction n as [|n IH]; intros c d Hc Hd Heq; [done|]. cbn [crc_bits] in Heq.
  apply crc_bit_inj; [done..|]. apply IH; [by apply crc_bit_range..|exact Heq].
Qed.
Lemma crc_bits_range n c : in_range 32 c → in_range 32 (crc_bits n c).
Proof. revert c. induction n as [|n IH]; intros c Hc; [done|]. cbn [crc_bits]. by apply IH, crc_bit_range. Qed.

Lemma lxor_byte_range c b : in_range 32 c → in_range 32 (Z.lxor c (byte.unsigned b)).
Proof.
  intros Hc. apply lxor_range; [done|]. pose proof (byte.unsigned_range b) as Hb. unfold in_range.
  change (2 ^ 8) with 256 in Hb. lia.
Qed.

Lemma crc_byte_range c b : in_range 32 c → in_range 32 (crc_byte c b).
Proof. intros Hc. by apply crc_bits_range, lxor_byte_range. Qed.
Lemma crc_bytes_range l c : in_range 32 c → in_range 32 (foldl crc_byte c l).
Proof. revert c. induction l as [|b l IH]; intros c Hc; [done|]. by apply IH, crc_byte_range. Qed.

Lemma lxor_inj a x y : Z.lxor a x = Z.lxor a y → x = y.
Proof. intros Heq. apply (f_equal (Z.lxor a)) in Heq. by rewrite <- !Z.lxor_assoc, Z.lxor_nilpotent in Heq. Qed.

Lemma crc_bytes_inj l c d : in_range 32 c → in_range 32 d → foldl crc_byte c l = foldl crc_byte d l → c = d.
Proof.
  revert c d. induction l as [|b l IH]; intros c d Hc Hd Heq; [done|]. cbn [foldl] in Heq.
  apply IH in Heq; [|by apply crc_byte_range..]. apply crc_bits_inj in Heq; [|by apply lxor_byte_range..].
  rewrite !(Z.lxor_comm _ (byte.unsigned b)) in Heq. by apply lxor_inj in Heq.
Qed.

Lemma crc_differs x y c : in_range 32 c → one_byte x y → foldl crc_byte c x ≠ foldl crc_byte c y.
Proof.
  intros Hc (p & b & b' & q & Hb & -> & ->). rewrite !foldl_app. cbn [foldl]. intros Heq.
  pose proof (crc_bytes_range p c Hc) as Hp. apply crc_bytes_inj in Heq; [|by apply crc_byte_range..].
  apply crc_bits_inj in Heq; [|by apply lxor_byte_range..]. apply lxor_inj in Heq. apply Hb.
  by apply (f_equal byte.of_Z) in Heq; rewrite !byte.of_Z_unsigned in Heq.
Qed.

Lemma crc_finish_inj c d : in_range 32 c → in_range 32 d → crc_finish c = crc_finish d → c = d.
Proof.
  intros Hc Hd Heq. unfold crc_finish in Heq. rewrite !lxor_wrap, !(Z.lxor_comm _ 0xFFFFFFFF) in Heq by done.
  by apply lxor_inj in Heq.
Qed.

#[export] Instance ieee_detects : Crc32Detects.
Proof.
  assert (in_range 32 0xFFFFFFFF) as H0 by done.
  split; cbn [hasher_finalize hasher_update hasher_new ieee].
  - intros w w' d Hw Heq. apply crc_finish_inj in Heq; [|by repeat apply crc_bytes_range..].
    apply crc_bytes_inj in Heq; [|by apply crc_bytes_range..]. by apply (crc_differs w w' 0xFFFFFFFF).
  - intros w d d' Hd Heq. apply crc_finish_inj in Heq; [|by repeat apply crc_bytes_range..].
    apply (crc_differs d d' (foldl crc_byte 0xFFFFFFFF w)); [by apply crc_bytes_range|done|exact Heq].
Qed.
