(* ===== verification/RecordFormat.v ===== *)
(** * The on-disk record format (src/src/record.rs)

    A record is framed as magic, length, CRC32, timestamp (20 bytes, little
    endian) followed by its data.  [serialize] and [deserialize] are the two
    directions; the CRC32 is the crc32fast crate's, the interface of [Crc32]. *)

From stdpp Require Import base list numbers strings.
From S2P Require Import Prelude Crc32.
Local Open Scope Z_scope.

(** Source: src/src/record.rs:19-20 (RECORD_MAGIC) *)
Definition RECORD_MAGIC : Z := 0xD01DAC0D.
(** Source: src/src/record.rs:22-23 (RECORD_HEADER_SIZE) *)
Definition RECORD_HEADER_SIZE : Z := 20.
(** Source: src/src/record.rs:25-26 (MAX_RECORD_SIZE) *)
Definition MAX_RECORD_SIZE : Z := 100 * 1024 * 1024.

(** Source: src/src/record.rs:28-35 (Record) *)
Record Rec := mkRecord { rec_timestamp : Z; rec_data : bytes }.

(** Source: src/src/record.rs:37-44 (FramedRecord) *)
Record FramedRecord := mkFramed { fr_bytes : bytes; fr_offset : Z }.

(** [RecordError]; the [Io] constructor is built by no function of the file.
    Source: src/src/record.rs:46-62 (RecordError) *)
Inductive RecordError :=
  | InvalidMagic (magic : Z)
  | RecordTooLarge (n : Z)
  | ChecksumMismatch (expected actual : Z)
  | IncompleteRecord (expected actual : Z)
  | RecordIo (e : string).

#[export] Instance Rec_eq_dec : EqDecision Rec.
Proof. solve_decision. Defined.
#[export] Instance RecordError_eq_dec : EqDecision RecordError.
Proof. solve_decision. Defined.

Section format.
Context `{Crc32}.

(** [now] is the clock reading in microseconds, already cast to [u64].
    Source: src/src/record.rs:65-77 (Record::new) *)
Definition record_new (now : Z) (data : bytes) : outcome RecordError Rec :=
  if MAX_RECORD_SIZE <? len data then Err (RecordTooLarge (len data))
  else Ok {| rec_timestamp := now; rec_data := data |}.

(** Source: src/src/record.rs:79-85 (Record::with_timestamp) *)
Definition with_timestamp (data : bytes) (timestamp : Z) : outcome RecordError Rec :=
  if MAX_RECORD_SIZE <? len data then Err (RecordTooLarge (len data))
  else Ok {| rec_timestamp := timestamp; rec_data := data |}.

(** Source: src/src/record.rs:160-166 (Record::calculate_checksum) *)
Definition calculate_checksum (timestamp : Z) (data : bytes) : Z :=
  let h := hasher_new in
  let h := hasher_update h (to_le_bytes 8 timestamp) in
  let h := hasher_update h data in
  hasher_finalize h.

(** Source: src/src/record.rs:87-108 (Record::serialize) *)
Definition serialize (r : Rec) : FramedRecord :=
  let data_len := u32 (len (rec_data r)) in
  let checksum := calculate_checksum (rec_timestamp r) (rec_data r) in
  {| fr_bytes :=
       to_le_bytes 4 RECORD_MAGIC ++ to_le_bytes 4 data_len ++
       to_le_bytes 4 checksum ++ to_le_bytes 8 (rec_timestamp r) ++ rec_data r;
     fr_offset := 0 |}.

(** The reads of [bytes[a..b]] are slices that panic out of range.
    Source: src/src/record.rs:110-158 (Record::deserialize) *)
Definition deserialize (bs : bytes) : outcome RecordError (Rec * Z) :=
  if len bs <? RECORD_HEADER_SIZE then Err (IncompleteRecord RECORD_HEADER_SIZE (len bs)) else
  magic ← from_le_bytes <$> unwrap (slice bs 0 4);
  if negb (magic =? RECORD_MAGIC) then Err (InvalidMagic magic) else
  data_len ← from_le_bytes <$> unwrap (slice bs 4 8);
  if MAX_RECORD_SIZE <? data_len then Err (RecordTooLarge data_len) else
  let total_size := usize (RECORD_HEADER_SIZE + data_len) in
  if len bs <? total_size then Err (IncompleteRecord total_size (len bs)) else
  stored_checksum ← from_le_bytes <$> unwrap (slice bs 8 12);
  timestamp ← from_le_bytes <$> unwrap (slice bs 12 20);
  data ← unwrap (slice bs 20 total_size);
  let calculated_checksum := calculate_checksum timestamp data in
  if negb (stored_checksum =? calculated_checksum)
  then Err (ChecksumMismatch stored_checksum calculated_checksum)
  else Ok ({| rec_timestamp := timestamp; rec_data := data |}, total_size).

(** Source: src/src/record.rs:168-171 (Record::serialized_size) *)
Definition serialized_size (r : Rec) : Z := usize (RECORD_HEADER_SIZE + len (rec_data r)).

(** Source: src/src/record.rs:175-179 (FramedRecord::with_offset) *)
Definition with_offset (f : FramedRecord) (offset : Z) : FramedRecord :=
  {| fr_bytes := fr_bytes f; fr_offset := offset |}.

(** Source: src/src/record.rs:181-184 (FramedRecord::size) *)
Definition framed_size (f : FramedRecord) : Z := len (fr_bytes f).

(** What the constructors guarantee: a [u64] timestamp and bounded data. *)
Definition record_wf (r : Rec) : Prop :=
  in_range 64 (rec_timestamp r) ∧ len (rec_data r) ≤ MAX_RECORD_SIZE.
End format.
Arguments serialize : simpl never.
Arguments deserialize : simpl never.
Arguments serialized_size : simpl never.

(** ** The frame: the five fields of a byte string of at least 20 bytes *)
Definition frame (magic data_len checksum timestamp : Z) (body : bytes) : bytes :=
  to_le_bytes 4 magic ++ to_le_bytes 4 data_len ++ to_le_bytes 4 checksum ++
  to_le_bytes 8 timestamp ++ body.

Lemma len_frame m l c t body : len (frame m l c t body) = 20 + len body.
Proof. unfold frame. len_lia. Qed.

(** Every long enough byte string is a frame. *)
Lemma frame_of_bytes bs :
  20 ≤ len bs →
  ∃ m l c t body, bs = frame m l c t body ∧
    in_range 32 m ∧ in_range 32 l ∧ in_range 32 c ∧ in_range 64 t.
Proof.
  intros Hl.
  destruct (split_at bs 4 8) as (x1 & x2 & r1 & -> & H1 & H2); [lia..|].
  destruct (split_at r1 4 12) as (x3 & x4 & r2 & -> & H3 & H4); [lia|lia|len_lia|].
  exists (from_le_bytes x1), (from_le_bytes x2), (from_le_bytes x3), (from_le_bytes x4), r2.
  unfold frame. rewrite !le_of_bytes by (rewrite ?H1, ?H2, ?H3, ?H4; done).
  split; [done|]. split_and!; [apply (from_le_range 4)|apply (from_le_range 4)
    |apply (from_le_range 4)|apply (from_le_range 8)]; lia.
Qed.

(** Where the fields of a frame lie. *)
Lemma frame_magic m l c t body : slice (frame m l c t body) 0 4 = Some (to_le_bytes 4 m).
Proof. apply slice_head; len_lia. Qed.
Lemma frame_data_len m l c t body : slice (frame m l c t body) 4 8 = Some (to_le_bytes 4 l).
Proof. apply slice_app; len_lia. Qed.
Lemma frame_checksum m l c t body : slice (frame m l c t body) 8 12 = Some (to_le_bytes 4 c).
Proof. unfold frame. rewrite app_assoc. apply slice_app; len_lia. Qed.
Lemma frame_timestamp m l c t body : slice (frame m l c t body) 12 20 = Some (to_le_bytes 8 t).
Proof. unfold frame. rewrite !app_assoc, <- app_assoc. apply slice_app; len_lia. Qed.
Lemma frame_data m l c t body n :
  0 ≤ n ≤ len body → slice (frame m l c t body) 20 (20 + n) = Some (ztake n body).
Proof.
  intros Hn. unfold frame. rewrite <- (ztake_zdrop n body) at 1. rewrite !app_assoc, <- app_assoc.
  apply slice_app; autorewrite with dolda; rewrite ?len_ztake by lia; lia.
Qed.

Section format_lemmas.
Context `{Crc32}.

(** [deserialize] on a frame, as a decision on its five fields. *)
Definition accept (m l c t : Z) (body : bytes) : outcome RecordError (Rec * Z) :=
  if negb (m =? RECORD_MAGIC) then Err (InvalidMagic m)
  else if MAX_RECORD_SIZE <? l then Err (RecordTooLarge l)
  else if len body <? l then Err (IncompleteRecord (20 + l) (20 + len body))
  else let data := ztake l body in
    if negb (c =? calculate_checksum t data)
    then Err (ChecksumMismatch c (calculate_checksum t data))
    else Ok ({| rec_timestamp := t; rec_data := data |}, 20 + l).

Lemma deserialize_frame m l c t body :
  in_range 32 m → in_range 32 l → in_range 32 c → in_range 64 t →
  deserialize (frame m l c t body) = accept m l c t body.
Proof.
  intros Hm Hl Hc Ht. unfold deserialize, accept.
  rewrite len_frame. unfold RECORD_HEADER_SIZE.
  pose proof (len_nonneg body). zif.
  rewrite frame_magic, frame_data_len, frame_checksum, frame_timestamp.
  cbn [unwrap fmap outcome_fmap mbind outcome_bind]. rewrite !le_roundtrip by done.
  destruct (negb (m =? RECORD_MAGIC)); [done|].
  destruct (MAX_RECORD_SIZE <? l) eqn:Hmax; [done|]. zbool.
  unfold MAX_RECORD_SIZE, in_range in *. rewrite wrap_id by (unfold in_range; lia).
  destruct (20 + len body <? 20 + l) eqn:Hlen; zbool; [by zif|]. zif.
  rewrite frame_data by lia. cbn [unwrap mbind outcome_bind]. by destruct (negb _).
Qed.

Context `{!Crc32Ok}.

Lemma checksum_range t data : in_range 32 (calculate_checksum t data).
Proof. apply finalize_range. Qed.

(** The bytes of a well-formed record are a frame. *)
Lemma serialize_frame r :
  record_wf r →
  fr_bytes (serialize r) =
    frame RECORD_MAGIC (len (rec_data r))
      (calculate_checksum (rec_timestamp r) (rec_data r)) (rec_timestamp r) (rec_data r).
Proof.
  intros [Ht Hl]. unfold serialize, frame. simpl.
  pose proof (len_nonneg (rec_data r)). unfold MAX_RECORD_SIZE in Hl.
  by rewrite wrap_id by (unfold in_range; lia).
Qed.

Lemma serialized_size_wf r : record_wf r → serialized_size r = 20 + len (rec_data r).
Proof.
  intros [_ Hl]. unfold serialized_size, RECORD_HEADER_SIZE.
  pose proof (len_nonneg (rec_data r)). unfold MAX_RECORD_SIZE in Hl.
  by rewrite wrap_id by (unfold in_range; lia).
Qed.

Lemma framed_size_wf r : record_wf r → framed_size (serialize r) = serialized_size r.
Proof.
  intros Hr. unfold framed_size. by rewrite serialize_frame, len_frame, serialized_size_wf.
Qed.

Lemma serialized_size_bounds r : record_wf r → 20 ≤ serialized_size r < 2 ^ 32.
Proof.
  intros Hr. rewrite serialized_size_wf by done. destruct Hr as [_ Hl].
  pose proof (len_nonneg (rec_data r)). unfold MAX_RECORD_SIZE in Hl. lia.
Qed.

Lemma frame_app m l c t x y : frame m l c t (x ++ y) = frame m l c t x ++ y.
Proof. unfold frame. by rewrite !app_assoc. Qed.

(** A serialized record followed by anything parses back. *)
Lemma deserialize_serialize r rest :
  record_wf r →
  deserialize (fr_bytes (serialize r) ++ rest) = Ok (r, serialized_size r).
Proof.
  intros Hr. rewrite serialize_frame, <- frame_app by done.
  rewrite serialized_size_wf by done. destruct Hr as [Ht Hl].
  pose proof (len_nonneg (rec_data r)). pose proof (len_nonneg rest).
  unfold MAX_RECORD_SIZE in *. rewrite deserialize_frame; [|done| |apply checksum_range|done].
  2: unfold in_range; lia.
  unfold accept, MAX_RECORD_SIZE. rewrite Z.eqb_refl, len_app, ztake_app.
  cbn [negb]. do 2 zif. rewrite Z.eqb_refl. by destruct r.
Qed.
End format_lemmas.

(** ** Properties of the format *)
Section format_properties.
Context `{Crc32Ok}.

(** A byte string that is too short, or the decision on its fields. *)
Lemma deserialize_cases bs :
  (len bs < 20 ∧ deserialize bs = Err (IncompleteRecord 20 (len bs))) ∨
  ∃ m l c t body, bs = frame m l c t body ∧
    in_range 32 m ∧ in_range 32 l ∧ in_range 32 c ∧ in_range 64 t ∧
    deserialize bs = accept m l c t body.
Proof.
  destruct (Z.lt_ge_cases (len bs) 20) as [Hl|Hl].
  - left. split; [done|]. unfold deserialize, RECORD_HEADER_SIZE. by zif.
  - right. destruct (frame_of_bytes bs Hl) as (m & l & c & t & body & -> & ? & ? & ? & ?).
    exists m, l, c, t, body. by rewrite deserialize_frame.
Qed.

(** [deserialize] on a frame with the right magic and its own data length. *)
Lemma deserialize_intact c t data rest :
  in_range 32 c → in_range 64 t → len data ≤ MAX_RECORD_SIZE →
  deserialize (frame RECORD_MAGIC (len data) c t data ++ rest) =
    if c =? calculate_checksum t data
    then Ok ({| rec_timestamp := t; rec_data := data |}, 20 + len data)
    else Err (ChecksumMismatch c (calculate_checksum t data)).
Proof.
  intros Hc Ht Hl. rewrite <- frame_app. pose proof (len_nonneg data).
  pose proof (len_nonneg rest). unfold MAX_RECORD_SIZE in Hl.
  rewrite deserialize_frame; [|done|unfold in_range; lia|done|done].
  unfold accept, MAX_RECORD_SIZE. rewrite Z.eqb_refl, len_app, ztake_app. cbn [negb].
  do 2 zif. by destruct (c =? _).
Qed.

(** C2. Round trip and canonicity: [deserialize] accepts exactly the byte
    strings that start with the serialization of a well-formed record, and
    returns that record and the number of bytes it occupies. *)
Theorem deserialize_iff bs r n :
  deserialize bs = Ok (r, n) ↔
  record_wf r ∧ n = serialized_size r ∧ ∃ rest, bs = fr_bytes (serialize r) ++ rest.
Proof.
  split; [|intros (Hr & -> & rest & ->); by apply deserialize_serialize].
  destruct (deserialize_cases bs)
    as [[_ ->]|(m & l & c & t & body & -> & Hm & Hl & Hc & Ht & ->)]; [done|].
  unfold accept. repeat case_match; try done. intros [= <- <-]. zbool.
  rewrite negb_false_iff in *. zbool. subst. unfold in_range in Hl.
  assert (len (ztake l body) = l) as Hlen by (apply len_ztake; lia).
  assert (record_wf {| rec_timestamp := t; rec_data := ztake l body |}) as Hr
    by (split; simpl; [done|lia]).
  split_and!; [done|rewrite serialized_size_wf by done; simpl; lia|].
  exists (zdrop l body). rewrite serialize_frame by done. cbn [rec_data rec_timestamp].
  by rewrite Hlen, <- frame_app, ztake_zdrop.
Qed.

(** A truncated record is reported as incomplete: every strict prefix of
    a serialized record gives [IncompleteRecord] with the prefix's length,
    never another error and never a wrong record. *)
Lemma truncated_record_incomplete r k :
  record_wf r → 0 ≤ k < serialized_size r →
  ∃ e, k < e ≤ serialized_size r ∧
    deserialize (ztake k (fr_bytes (serialize r))) = Err (IncompleteRecord e k).
Proof.
  intros Hr Hk. pose proof (len_nonneg (rec_data r)) as Hd.
  rewrite serialized_size_wf, serialize_frame in * by done.
  set (f := frame _ _ _ _ _).
  assert (len (ztake k f) = k) as Hlen.
  { apply len_ztake. unfold f. rewrite len_frame. lia. }
  destruct (Z.lt_ge_cases k 20) as [Hs|Hs].
  - exists 20. split; [lia|]. unfold deserialize, RECORD_HEADER_SIZE. rewrite Hlen. by zif.
  - exists (20 + len (rec_data r)). split; [lia|].
    assert (ztake k f = frame RECORD_MAGIC (len (rec_data r))
      (calculate_checksum (rec_timestamp r) (rec_data r)) (rec_timestamp r)
      (ztake (k - 20) (rec_data r))) as ->.
    { unfold f. rewrite <- (ztake_zdrop (k - 20) (rec_data r)) at 3.
      rewrite frame_app. set (g := frame _ _ _ _ _).
      rewrite <- (ztake_app g) at 2. f_equal.
      unfold g. rewrite len_frame, len_ztake; lia. }
    destruct Hr as [Ht Hm]. unfold MAX_RECORD_SIZE, in_range in *.
    rewrite deserialize_frame; [|done|unfold in_range; lia|apply checksum_range|done].
    unfold accept, MAX_RECORD_SIZE. rewrite Z.eqb_refl, len_ztake by lia. cbn [negb].
    do 2 zif. do 2 f_equal. lia.
Qed.

(** Corruption detection: whatever the stored checksum, timestamp and data
    bytes have become (the magic and length intact), the record is accepted
    when the stored checksum is the CRC of the stored timestamp and data, and
    reported as [ChecksumMismatch] with both values otherwise. *)
Lemma corruption_detected c t data rest :
  in_range 32 c → in_range 64 t → len data ≤ MAX_RECORD_SIZE →
  deserialize (frame RECORD_MAGIC (len data) c t data ++ rest) =
    if c =? calculate_checksum t data
    then Ok ({| rec_timestamp := t; rec_data := data |}, 20 + len data)
    else Err (ChecksumMismatch c (calculate_checksum t data)).
Proof. apply deserialize_intact. Qed.

(** Reading never panics, whatever the bytes. *)
Lemma deserialize_no_panic bs : deserialize bs ≠ Panic.
Proof.
  destruct (deserialize_cases bs) as [[_ ->]|(m & l & c & t & body & -> & _ & _ & _ & _ & ->)];
    [done|]. unfold accept. by repeat case_match.
Qed.
End format_properties.

(** ** A changed byte *)
Section corruption.
Context `{Crc32Ok} `{!Crc32Detects}.

Lemma one_byte_insert l i b b' :
  l !! i = Some b → b' ≠ b → one_byte l (<[i := b']> l).
Proof.
  intros Hi Hb. exists (take i l), b, b', (drop (S i) l). split; [done|].
  split; [by rewrite take_drop_middle|]. apply insert_take_drop. by eapply lookup_lt_Some.
Qed.

(** A field of [n] bytes with one of them changed is another value of the field. *)
Lemma changed_field n z i b b' :
  in_range (Z.of_nat n * 8) z → to_le_bytes n z !! i = Some b → b' ≠ b →
  ∃ z', in_range (Z.of_nat n * 8) z' ∧ z' ≠ z ∧ <[i := b']> (to_le_bytes n z) = to_le_bytes n z'.
Proof.
  intros Hz Hi Hb. set (l := <[i := b']> (to_le_bytes n z)).
  assert (len l = Z.of_nat n) as Hlen.
  { unfold len, l. rewrite length_insert. change (len (to_le_bytes n z) = Z.of_nat n). apply len_to_le_bytes. }
  exists (from_le_bytes l). split; [by apply from_le_range|]. split; [|by rewrite le_of_bytes].
  intros Heq. apply Hb. assert (l !! i = Some b) as Hl.
  { rewrite <- Hi, <- Heq. by rewrite le_of_bytes. }
  unfold l in Hl. rewrite list_lookup_insert_eq in Hl by (by eapply lookup_lt_Some). congruence.
Qed.

Lemma length_le n z : length (to_le_bytes n z) = n.
Proof. pose proof (len_to_le_bytes n z) as Hl. unfold len in Hl. lia. Qed.

(** A changed byte of the checksum, of the timestamp or of the data. *)
Lemma frame_change m l c t body i b b' :
  in_range 32 c → in_range 64 t → (8 ≤ i)%nat → frame m l c t body !! i = Some b → b' ≠ b →
  (∃ c', in_range 32 c' ∧ c' ≠ c ∧ <[i := b']> (frame m l c t body) = frame m l c' t body) ∨
  (∃ t', in_range 64 t' ∧ one_byte (to_le_bytes 8 t) (to_le_bytes 8 t') ∧ <[i := b']> (frame m l c t body) = frame m l c t' body) ∨
  (∃ body', len body' = len body ∧ one_byte body body' ∧ <[i := b']> (frame m l c t body) = frame m l c t body').
Proof.
  intros Hc Ht Hi Hb Hne. unfold frame in *.
  destruct (Nat.lt_ge_cases i 12) as [H12|H12]; [left|right; destruct (Nat.lt_ge_cases i 20) as [H20|H20]; [left|right]].
  - rewrite !lookup_app_r, lookup_app_l in Hb by (rewrite !length_le; lia). rewrite !length_le in Hb.
    destruct (changed_field 4 c _ b b' Hc Hb Hne) as (c' & Hc' & Hcc & Hins). exists c'. split; [done|]. split; [done|].
    rewrite !insert_app_r_alt, insert_app_l by (rewrite !length_le; lia). by rewrite !length_le, Hins.
  - rewrite !lookup_app_r, lookup_app_l in Hb by (rewrite !length_le; lia). rewrite !length_le in Hb.
    destruct (changed_field 8 t _ b b' Ht Hb Hne) as (t' & Ht' & Htt & Hins). exists t'. split; [done|]. split.
    { rewrite <- Hins. by apply (one_byte_insert _ _ b). }
    rewrite !insert_app_r_alt, insert_app_l by (rewrite !length_le; lia). by rewrite !length_le, Hins.
  - rewrite !lookup_app_r in Hb by (rewrite !length_le; lia). rewrite !length_le in Hb.
    exists (<[(i - 4 - 4 - 4 - 8)%nat := b']> body). split; [unfold len; by rewrite length_insert|].
    split; [by apply (one_byte_insert _ _ b)|].
    rewrite !insert_app_r_alt by (rewrite !length_le; lia). by rewrite !length_le.
Qed.

Lemma changed_byte_mismatch r i b b' :
  record_wf r → (8 ≤ i)%nat → fr_bytes (serialize r) !! i = Some b → b' ≠ b →
  ∃ expected actual, expected ≠ actual ∧
    deserialize (<[i := b']> (fr_bytes (serialize r))) = Err (ChecksumMismatch expected actual).
Proof.
  intros Hr Hi Hb Hne. rewrite serialize_frame in * by done. destruct r as [t data]. cbn [rec_timestamp rec_data] in *.
  destruct Hr as [Ht Hl]. cbn [rec_timestamp rec_data] in *. set (c := calculate_checksum t data) in *.
  assert (∀ c' t' data', in_range 32 c' → in_range 64 t' → len data' = len data → c' ≠ calculate_checksum t' data' →
    deserialize (frame RECORD_MAGIC (len data) c' t' data') = Err (ChecksumMismatch c' (calculate_checksum t' data'))) as Hbad.
  { intros c' t' data' Hc' Ht' Hlen Hcc. rewrite <- Hlen, <- (app_nil_r (frame _ _ _ _ _)), deserialize_intact by (done || lia).
    by rewrite (proj2 (Z.eqb_neq _ _)). }
  destruct (frame_change RECORD_MAGIC (len data) c t data i b b' (checksum_range t data) Ht Hi Hb Hne)
    as [(c' & Hc' & Hcc & ->)|[(t' & Ht' & Htt & ->)|(data' & Hlen & Hdd & ->)]].
  - eexists _, _. split; [|apply Hbad; done]. done.
  - eexists _, _. split; [|apply Hbad; [apply checksum_range|done|done|]]; by apply detects_first.
  - eexists _, _. split; [|apply Hbad; [apply checksum_range|done|done|]]; by apply detects_second.
Qed.

(** C25. A corrupted byte is always reported: whichever byte of the checksum,
    the timestamp or the data of a serialized record is changed, and whatever
    to, reading gives a checksum mismatch, provided the checksum function
    detects a changed byte, as a CRC does. *)
Theorem corrupted_byte_detected r i b b' :
  record_wf r → (8 ≤ i)%nat → fr_bytes (serialize r) !! i = Some b → b' ≠ b →
  ∃ expected actual, expected ≠ actual ∧
    deserialize (<[i := b']> (fr_bytes (serialize r))) = Err (ChecksumMismatch expected actual).
Proof. apply changed_byte_mismatch. Qed.
End corruption.

(** ** Concrete runs with the IEEE checksum *)
Definition sample_record : Rec :=
  {| rec_timestamp := 1700000000000000; rec_data := str_bytes "Hello" |}.

Lemma sample_wf : record_wf sample_record.
Proof. by vm_compute. Qed.

Lemma deserialize_iff_witness :
  deserialize (fr_bytes (serialize sample_record) ++ str_bytes "rest") = Ok (sample_record, 25).
Proof.
  apply (deserialize_iff (fr_bytes (serialize sample_record) ++ str_bytes "rest") sample_record 25).
  split_and!; [apply sample_wf|reflexivity|]. by exists (str_bytes "rest").
Defined.

Lemma truncated_record_incomplete_witness :
  0 ≤ 22 < serialized_size sample_record ∧
  ∃ e, 22 < e ≤ serialized_size sample_record ∧
    deserialize (ztake 22 (fr_bytes (serialize sample_record))) = Err (IncompleteRecord e 22).
Proof.
  split; [by vm_compute|].
  apply (truncated_record_incomplete sample_record 22); [apply sample_wf|by vm_compute].
Defined.

Lemma corruption_detected_witness :
  deserialize (frame RECORD_MAGIC (len (str_bytes "Jello")) 1 7 (str_bytes "Jello") ++ []) =
    Err (ChecksumMismatch 1 (calculate_checksum 7 (str_bytes "Jello"))).
Proof.
  refine (eq_trans (corruption_detected 1 7 (str_bytes "Jello") [] _ _ _) _); by vm_compute.
Defined.

(** The last byte of the text, under the IEEE checksum. *)
Lemma corrupted_byte_detected_witness :
  ∃ expected actual, deserialize (<[24%nat := Init.Byte.x21]> (fr_bytes (serialize sample_record))) = Err (ChecksumMismatch expected actual).
Proof.
  destruct (corrupted_byte_detected sample_record 24 Init.Byte.x6f Init.Byte.x21 sample_wf) as (e & a & _ & Hd); [lia|vm_compute; reflexivity|discriminate|].
  exists e, a. exact Hd.
Defined.
