(* ===== verification/F64.v ===== *)
(** * IEEE 754 double precision, Rust's [f64]

    The arithmetic of [f64] in the Standard Library's executable specification
    of binary64 (53-bit significand, exponents up to 1024, round to nearest
    even).  Comparisons are Rust's: every comparison with a NaN is false. *)

From stdpp Require Import base numbers list.
From Stdlib Require Import SpecFloat.
From S2P Require Import Prelude.
Local Open Scope Z_scope.

Abbreviation f64 := spec_float.
Definition f64_of_int (z : Z) : f64 := binary_normalize 53 1024 z 0 false.
Definition f64_add : f64 → f64 → f64 := SFadd 53 1024.
Definition f64_sub : f64 → f64 → f64 := SFsub 53 1024.
Definition f64_mul : f64 → f64 → f64 := SFmul 53 1024.
Definition f64_div : f64 → f64 → f64 := SFdiv 53 1024.
Definition f64_lt (x y : f64) : bool := SFltb x y.
Definition f64_gt (x y : f64) : bool := SFltb y x.
Definition f64_le (x y : f64) : bool := SFleb x y.
Definition f64_nan : f64 := S754_nan.

(** [x % y], the exact remainder with the sign of [x]. *)
Definition f64_rem (x y : f64) : f64 :=
  match x, y with
  | S754_nan, _ | _, S754_nan | S754_infinity _, _ | _, S754_zero _ => S754_nan
  | _, S754_infinity _ | S754_zero _, _ => x
  | S754_finite s m e, S754_finite _ m' e' =>
      let k := Z.min e e' in
      let r := (Zpos m * 2 ^ (e - k)) mod (Zpos m' * 2 ^ (e' - k)) in
      if r =? 0 then S754_zero s else binary_normalize 53 1024 (if s then - r else r) k s
  end.

(** The literal [n.d] written as the quotient [a / b]: correctly rounded, as
    the Rust compiler reads a decimal literal. *)
Definition f64_lit (a b : Z) : f64 := f64_div (f64_of_int a) (f64_of_int b).

Lemma f64_lt_nan_l x : f64_lt f64_nan x = false.
Proof. done. Qed.
Lemma f64_lt_nan_r x : f64_lt x f64_nan = false.
Proof. by destruct x. Qed.
Definition f64_ge (x y : f64) : bool := SFleb y x.
Definition f64_abs : f64 → f64 := SFabs.
Definition f64_neg : f64 → f64 := SFopp.
Definition f64_is_nan (x : f64) : bool := match x with S754_nan => true | _ => false end.

(** [f64::max] and [f64::min]: a NaN is ignored. *)
Definition f64_max (x y : f64) : f64 :=
  if f64_is_nan x then y else if f64_is_nan y then x else if f64_lt x y then y else x.
Definition f64_min (x y : f64) : f64 :=
  if f64_is_nan x then y else if f64_is_nan y then x else if f64_lt y x then y else x.

(** [f64::partial_cmp]: [None] when an operand is a NaN. *)
Definition partial_cmp : f64 → f64 → option comparison := SFcompare.

(** [f64::round]: to the nearest integer, half way cases away from zero. *)
Definition f64_round (x : f64) : f64 :=
  match x with
  | S754_finite s m e =>
      if 0 <=? e then x
      else let n := (Zpos m + 2 ^ (- e - 1)) / 2 ^ (- e) in
           if n =? 0 then S754_zero s else f64_of_int (if s then - n else n)
  | _ => x
  end.

(** The integer part of a finite value, toward zero. *)
Definition f64_trunc (s : bool) (m : positive) (e : Z) : Z :=
  let n := if 0 <=? e then Zpos m * 2 ^ e else Zpos m / 2 ^ (- e) in if s then - n else n.

(** [x as u64], [x as i64], [x as usize]: truncated and saturated; a NaN gives 0. *)
Definition f64_cast (lo hi : Z) (x : f64) : Z :=
  match x with
  | S754_nan | S754_zero _ => 0
  | S754_infinity s => if s then lo else hi
  | S754_finite s m e => Z.max lo (Z.min hi (f64_trunc s m e))
  end.
Definition f64_as_u64 : f64 → Z := f64_cast 0 (2 ^ 64 - 1).
Definition f64_as_i64 : f64 → Z := f64_cast (- 2 ^ 63) (2 ^ 63 - 1).

(** [iter().sum::<f64>()]; the empty sum is [-0.0]. *)
Definition f64_sum (l : list f64) : f64 := foldl f64_add (S754_zero true) l.

Lemma f64_cast_range lo hi x : lo ≤ 0 ≤ hi → lo ≤ f64_cast lo hi x ≤ hi.
Proof. intros. destruct x as [?|[]| |]; simpl; lia. Qed.

(** On values that are not NaN, [partial_cmp] is a total preorder. *)
Lemma partial_cmp_some x y :
  f64_is_nan x = false → f64_is_nan y = false → ∃ c, partial_cmp x y = Some c.
Proof. destruct x as [[]|[]| |[]], y as [[]|[]| |[]]; simpl; eauto; done. Qed.

Lemma f64_le_refl x : f64_is_nan x = false → f64_le x x = true.
Proof.
  destruct x as [[]|[]| |[] m e]; try done; intros _; unfold f64_le, SFleb; simpl;
    by rewrite Z.compare_refl, Pos.compare_cont_refl.
Qed.

(** The order of finite values of one sign: exponents first, then significands. *)
Definition lex (m : positive) (e : Z) (m' : positive) (e' : Z) : Prop :=
  e < e' ∨ (e = e' ∧ Zpos m ≤ Zpos m').

Lemma finite_le_pos m e m' e' :
  f64_le (S754_finite false m e) (S754_finite false m' e') = true ↔ lex m e m' e'.
Proof.
  unfold f64_le, SFleb, lex. simpl. rewrite Pos.compare_cont_spec. simpl.
  destruct (Z.compare_spec e e'), (Pos.compare_spec m m'); simpl; split; intros; try done; lia.
Qed.
Lemma finite_le_neg m e m' e' :
  f64_le (S754_finite true m e) (S754_finite true m' e') = true ↔ lex m' e' m e.
Proof.
  unfold f64_le, SFleb, lex. simpl. rewrite Pos.compare_cont_spec. simpl.
  destruct (Z.compare_spec e e'), (Pos.compare_spec m m'); simpl; split; intros; try done; lia.
Qed.

Lemma f64_le_trans x y z : f64_le x y = true → f64_le y z = true → f64_le x z = true.
Proof.
  destruct x as [[]|[]| |[] m e], y as [[]|[]| |[] m' e'], z as [[]|[]| |[] m2 e2]; try done;
    rewrite ?finite_le_pos, ?finite_le_neg; unfold lex; lia.
Qed.
Lemma f64_le_total x y :
  f64_is_nan x = false → f64_is_nan y = false → f64_le x y = true ∨ f64_le y x = true.
Proof.
  destruct x as [[]|[]| |[] m e], y as [[]|[]| |[] m' e']; try done; auto;
    rewrite ?finite_le_pos, ?finite_le_neg; unfold lex; lia.
Qed.

(** Strict comparison is [<=] one way and not the other, so it is a strict order. *)
Lemma f64_lt_spec x y : f64_lt x y = true ↔ f64_le x y = true ∧ f64_le y x = false.
Proof.
  destruct x as [[]|[]| |[] m e], y as [[]|[]| |[] m' e']; try (split; intros; by intuition).
  - rewrite <- not_true_iff_false, !finite_le_neg. unfold f64_lt, SFltb, lex. simpl.
    rewrite Pos.compare_cont_spec. simpl.
    destruct (Z.compare_spec e e'), (Pos.compare_spec m m'); simpl; split; intros; try done; lia.
  - rewrite <- not_true_iff_false, !finite_le_pos. unfold f64_lt, SFltb, lex. simpl.
    rewrite Pos.compare_cont_spec. simpl.
    destruct (Z.compare_spec e e'), (Pos.compare_spec m m'); simpl; split; intros; try done; lia.
Qed.
Lemma f64_lt_asym x y : f64_lt x y = true → f64_lt y x = false.
Proof.
  intros [_ Hyx]%f64_lt_spec. apply not_true_iff_false. intros [Hxy _]%f64_lt_spec. congruence.
Qed.
Lemma f64_lt_trans x y z : f64_lt x y = true → f64_lt y z = true → f64_lt x z = true.
Proof.
  rewrite !f64_lt_spec. intros [Hxy _] [Hyz Hzy]. split; [by eapply f64_le_trans|].
  apply not_true_iff_false. intros Hzx. assert (f64_le z y = true) by (by eapply f64_le_trans). congruence.
Qed.
