(* ===== verification/StorageEngine.v ===== *)
(** * The record storage engine (src/src/storage.rs)

    [RecordSegment] is an append-only memory-mapped file of framed records,
    [RecordIterator] walks it, [SegmentManager] rotates segments.  Definitions
    first; the contract of a segment as an append-only log of records follows,
    then the properties. *)

From stdpp Require Import base list numbers strings pretty.
From Stdlib Require Import Strings.Byte.
From S2P Require Import Prelude Crc32 F64 RecordFormat.
Local Open Scope Z_scope.

(** ** The operating system

    What opening, sizing and mapping a segment file returns (the mapped bytes,
    [OpenOptions::open], [set_len], [MmapMut::map_mut]), flushing a mapping and
    creating a directory.  [OsOk] is the documented contract of a mapping: it
    has the length the file was set to. *)
Abbreviation io_error := string.
Inductive map_stage := OpenFile | SetLen | MapFile.
Class Os := {
  os_map_file : string → Z → outcome (map_stage * io_error) bytes;
  os_flush : string → bytes → outcome io_error unit;
  os_create_dir_all : string → outcome io_error unit
}.
Class OsOk `{Os} := {
  os_map_len path size m : os_map_file path size = Ok m → len m = size
}.

(** Source: src/src/storage.rs:17-33 (StorageError) *)
Inductive StorageError :=
  | SegmentFull (needed available : Z)
  | StorageRecord (e : RecordError)
  | StorageIo (e : io_error)
  | OffsetOutOfBounds (offset : Z)
  | InvalidState.

(** Source: src/src/storage.rs:37-44 (RecordOffset) *)
Record RecordOffset := mkOffset { ro_offset : Z; ro_size : Z }.

(** Source: src/src/storage.rs:46-59 (IndexEntry) *)
Record IndexEntry := mkIndexEntry {
  ie_record_num : Z; ie_offset : Z; ie_size : Z; ie_timestamp : Z }.

(** The file handle is only kept open; the atomics are their values.
    Source: src/src/storage.rs:61-79 (RecordSegment) *)
Record RecordSegment := mkSegment {
  seg_path : string;
  seg_max_size : Z;
  seg_write_pos : Z;
  seg_record_count : Z;
  seg_mmap : bytes;
  seg_index : btree IndexEntry;
  seg_index_enabled : bool
}.

(** Source: src/src/storage.rs:244-249 (RecordIterator) *)
Record RecordIterator := mkIter { it_current_offset : Z; it_end_offset : Z }.

(** Source: src/src/storage.rs:274-283 (SegmentStats) *)
Record SegmentStats := mkSegmentStats {
  ss_path : string; ss_max_size : Z; ss_used_bytes : Z;
  ss_record_count : Z; ss_index_enabled : bool; ss_index_size : Z }.

(** [current_segment] is an [Arc] to an element of [segments]: the model keeps
    the index of that element.
    Source: src/src/storage.rs:285-299 (SegmentManager) *)
Record SegmentManager := mkManager {
  sm_partition_id : Z;
  sm_segments : list RecordSegment;
  sm_current_segment : option nat;
  sm_segment_size : Z;
  sm_storage_dir : string;
  sm_index_enabled : bool
}.

(** Source: src/src/storage.rs:429-437 (ManagerStats) *)
Record ManagerStats := mkManagerStats {
  ms_partition_id : Z; ms_segment_count : Z; ms_total_records : Z;
  ms_total_bytes : Z; ms_avg_utilization : f64 }.

#[export] Instance StorageError_eq_dec : EqDecision StorageError.
Proof. solve_decision. Defined.

Section engine.
Context `{Crc32} `{Os}.

(** Source: src/src/storage.rs:82-106 (RecordSegment::new) *)
Definition RecordSegment_new (path : string) (max_size : Z) (index_enabled : bool)
    : outcome StorageError RecordSegment :=
  mmap ← map_err (λ e, StorageIo e.2) (os_map_file path max_size);
  Ok {| seg_path := path; seg_max_size := max_size; seg_write_pos := 0;
        seg_record_count := 0; seg_mmap := mmap; seg_index := [];
        seg_index_enabled := index_enabled |}.

Definition with_write_pos (s : RecordSegment) (pos : Z) : RecordSegment :=
  {| seg_path := seg_path s; seg_max_size := seg_max_size s; seg_write_pos := pos;
     seg_record_count := seg_record_count s; seg_mmap := seg_mmap s;
     seg_index := seg_index s; seg_index_enabled := seg_index_enabled s |}.

(** The metrics calls at the end of the source's body only feed counters.
    Source: src/src/storage.rs:108-159 (RecordSegment::append_record) *)
Definition RecordSegment_append_record (s : RecordSegment) (record : Rec)
    : RecordSegment * outcome StorageError RecordOffset :=
  let framed := serialize record in
  let record_size := framed_size framed in
  (* write_pos.fetch_add *)
  let offset := seg_write_pos s in
  let s := with_write_pos s (u64 (offset + record_size)) in
  if seg_max_size s <? u64 (offset + record_size) then
    (* write_pos.fetch_sub *)
    (with_write_pos s (u64 (seg_write_pos s - record_size)),
     Err (SegmentFull record_size (u64 (seg_max_size s - offset))))
  else
  match copy_from_slice (seg_mmap s) offset (usize (offset + record_size)) (fr_bytes framed) with
  | None => (s, Panic)
  | Some mmap =>
    (* record_count.fetch_add *)
    let record_num := seg_record_count s in
    ({| seg_path := seg_path s; seg_max_size := seg_max_size s;
        seg_write_pos := seg_write_pos s; seg_record_count := u64 (record_num + 1);
        seg_mmap := mmap;
        seg_index := if seg_index_enabled s
          then btree_insert offset
                 {| ie_record_num := record_num; ie_offset := offset;
                    ie_size := record_size; ie_timestamp := rec_timestamp record |}
                 (seg_index s)
          else seg_index s;
        seg_index_enabled := seg_index_enabled s |},
     Ok {| ro_offset := offset; ro_size := record_size |})
  end.

(** Source: src/src/storage.rs:161-183 (RecordSegment::read_record) *)
Definition RecordSegment_read_record (s : RecordSegment) (offset : Z)
    : outcome StorageError Rec :=
  let current_pos := seg_write_pos s in
  if current_pos <=? offset then Err (OffsetOutOfBounds offset) else
  data ← unwrap (slice (seg_mmap s) offset current_pos);
  '(record, _) ← map_err StorageRecord (deserialize data);
  Ok record.

(** Source: src/src/storage.rs:185-198 (RecordSegment::read_record_by_num) *)
Definition read_record_by_num (s : RecordSegment) (record_num : Z) : outcome StorageError Rec :=
  if negb (seg_index_enabled s) then Err InvalidState else
  entry ← ok_or (find_first (λ e, ie_record_num e =? record_num) (btree_values (seg_index s)))
                (OffsetOutOfBounds record_num);
  RecordSegment_read_record s (ie_offset entry).

(** Source: src/src/storage.rs:200-208 (RecordSegment::iter_records) *)
Definition iter_records (s : RecordSegment) : RecordIterator :=
  {| it_current_offset := 0; it_end_offset := seg_write_pos s |}.

(** Source: src/src/storage.rs:254-271 (RecordIterator::next) *)
Definition RecordIterator_next (s : RecordSegment) (it : RecordIterator)
    : RecordIterator * option (outcome StorageError (RecordOffset * Rec)) :=
  if it_end_offset it <=? it_current_offset it then (it, None) else
  let offset := it_current_offset it in
  match RecordSegment_read_record s offset with
  | Ok record =>
      let size := serialized_size record in
      ({| it_current_offset := u64 (it_current_offset it + size);
          it_end_offset := it_end_offset it |},
       Some (Ok ({| ro_offset := offset; ro_size := size |}, record)))
  | Err e => (it, Some (Err e))
  | Panic => (it, Some Panic)
  end.

(** Source: src/src/storage.rs:210-220 (RecordSegment::stats) *)
Definition RecordSegment_stats (s : RecordSegment) : SegmentStats :=
  {| ss_path := seg_path s; ss_max_size := seg_max_size s;
     ss_used_bytes := seg_write_pos s; ss_record_count := seg_record_count s;
     ss_index_enabled := seg_index_enabled s; ss_index_size := len (seg_index s) |}.

(** Source: src/src/storage.rs:222-226 (RecordSegment::has_space) *)
Definition RecordSegment_has_space (s : RecordSegment) (record_size : Z) : bool :=
  u64 (seg_write_pos s + record_size) <=? seg_max_size s.

(** Source: src/src/storage.rs:228-234 (RecordSegment::flush) *)
Definition RecordSegment_flush (s : RecordSegment) : outcome StorageError unit :=
  map_err StorageIo (os_flush (seg_path s) (seg_mmap s)).

(** Source: src/src/storage.rs:236-241 (RecordSegment::utilization) *)
Definition utilization (s : RecordSegment) : f64 :=
  f64_mul (f64_div (f64_of_int (seg_write_pos s)) (f64_of_int (seg_max_size s)))
          (f64_of_int 100).

(** *** SegmentManager *)

Definition segment_path (m : SegmentManager) (segment_id : Z) : string :=
  sm_storage_dir m +:+ "/partition_" +:+ pretty (sm_partition_id m) +:+
  "_segment_" +:+ pretty segment_id +:+ ".dat".

Definition current_segment (m : SegmentManager) : option (nat * RecordSegment) :=
  i ← sm_current_segment m; s ← sm_segments m !! i; Some (i, s).

(** The manager after a method call on the segment at index [i]. *)
Definition set_segment (m : SegmentManager) (i : nat) (s : RecordSegment) : SegmentManager :=
  {| sm_partition_id := sm_partition_id m; sm_segments := <[i := s]> (sm_segments m);
     sm_current_segment := sm_current_segment m; sm_segment_size := sm_segment_size m;
     sm_storage_dir := sm_storage_dir m; sm_index_enabled := sm_index_enabled m |}.

(** Source: src/src/storage.rs:407-426 (SegmentManager::create_new_segment) *)
Definition create_new_segment (m : SegmentManager)
    : SegmentManager * outcome StorageError unit :=
  let segment_id := len (sm_segments m) in
  match RecordSegment_new (segment_path m segment_id) (sm_segment_size m) (sm_index_enabled m) with
  | Ok segment =>
      ({| sm_partition_id := sm_partition_id m;
          sm_segments := sm_segments m ++ [segment];
          sm_current_segment := Some (length (sm_segments m));
          sm_segment_size := sm_segment_size m; sm_storage_dir := sm_storage_dir m;
          sm_index_enabled := sm_index_enabled m |}, Ok tt)
  | Err e => (m, Err e)
  | Panic => (m, Panic)
  end.

(** Source: src/src/storage.rs:302-325 (SegmentManager::new) *)
Definition SegmentManager_new (partition_id segment_size : Z) (storage_dir : string)
    (index_enabled : bool) : outcome StorageError SegmentManager :=
  _ ← map_err StorageIo (os_create_dir_all storage_dir);
  let manager :=
    {| sm_partition_id := partition_id; sm_segments := []; sm_current_segment := None;
       sm_segment_size := segment_size; sm_storage_dir := storage_dir;
       sm_index_enabled := index_enabled |} in
  let '(manager, created) := create_new_segment manager in
  _ ← created; Ok manager.

(** The double-checked creation of a segment, under the creation lock.
    Source: src/src/storage.rs:354-372 (SegmentManager::append_record, slow path) *)
Definition append_slow_path (record : Rec) (m : SegmentManager)
    : loop_step SegmentManager (outcome StorageError RecordOffset) :=
  let has_space := match current_segment m with
    | Some (_, s) => RecordSegment_has_space s (serialized_size record)
    | None => false
    end in
  if has_space then Continue m else
  match create_new_segment m with
  | (m, Ok _) => Continue m
  | (m, Err e) => Return m (Err e)
  | (m, Panic) => Return m Panic
  end.

(** One iteration of the loop, as one thread runs it.
    Source: src/src/storage.rs:327-373 (SegmentManager::append_record) *)
Definition append_record_body (record : Rec) (m : SegmentManager)
    : loop_step SegmentManager (outcome StorageError RecordOffset) :=
  match current_segment m with
  | Some (i, seg) =>
      if RecordSegment_has_space seg (serialized_size record) then
        match RecordSegment_append_record seg record with
        | (seg, Ok offset) => Return (set_segment m i seg) (Ok offset)
        | (seg, Err (SegmentFull _ _)) => append_slow_path record (set_segment m i seg)
        | (seg, Err e) => Return (set_segment m i seg) (Err e)
        | (seg, Panic) => Return (set_segment m i seg) Panic
        end
      else append_slow_path record m
  | None => append_slow_path record m
  end.

(** The loop around it.
    Source: src/src/storage.rs:327-373 (SegmentManager::append_record) *)
Definition SegmentManager_append_record (fuel : nat) (m : SegmentManager) (record : Rec)
    : option (SegmentManager * outcome StorageError RecordOffset) :=
  run_loop fuel (append_record_body record) m.

(** Source: src/src/storage.rs:375-396 (SegmentManager::stats) *)
Definition SegmentManager_stats (m : SegmentManager) : ManagerStats :=
  let segments := sm_segments m in
  {| ms_partition_id := sm_partition_id m;
     ms_segment_count := len segments;
     ms_total_records := sum_u64 seg_record_count segments;
     ms_total_bytes := sum_u64 seg_write_pos segments;
     ms_avg_utilization :=
       if negb (len segments =? 0)
       then f64_div (foldl (λ acc s, f64_add acc (utilization s)) (f64_of_int 0) segments)
                    (f64_of_int (len segments))
       else f64_of_int 0 |}.

Fixpoint flush_all (segments : list RecordSegment) : outcome StorageError unit :=
  match segments with
  | [] => Ok tt
  | s :: rest => _ ← RecordSegment_flush s; flush_all rest
  end.

(** Source: src/src/storage.rs:398-405 (SegmentManager::flush) *)
Definition SegmentManager_flush (m : SegmentManager) : outcome StorageError unit :=
  flush_all (sm_segments m).
End engine.

(** ** The contract of a segment: an append-only log of records

    A log is the list of records appended so far; a record lives at the sum of
    the sizes before it. *)
Definition log_size `{Crc32} (l : list Rec) : Z := zsum serialized_size l.

Definition log_append `{Crc32} (max_size : Z) (l : list Rec) (r : Rec)
    : outcome StorageError (list Rec * RecordOffset) :=
  if log_size l + serialized_size r <=? max_size
  then Ok (l ++ [r], {| ro_offset := log_size l; ro_size := serialized_size r |})
  else Err (SegmentFull (serialized_size r) (max_size - log_size l)).

(** The records of a log with their locations, from offset [off]. *)
Fixpoint log_entries (off : Z) (l : list Rec) : list (RecordOffset * Rec) :=
  match l with
  | [] => []
  | r :: l => ({| ro_offset := off; ro_size := serialized_size r |}, r)
              :: log_entries (off + serialized_size r) l
  end.

(** The index of a log: one entry per record, keyed by offset. *)
Fixpoint log_index (off n : Z) (l : list Rec) : btree IndexEntry :=
  match l with
  | [] => []
  | r :: l => (off, {| ie_record_num := n; ie_offset := off; ie_size := serialized_size r;
                       ie_timestamp := rec_timestamp r |})
              :: log_index (off + serialized_size r) (n + 1) l
  end.

Definition log_bytes `{Crc32} (l : list Rec) : bytes := concat (map (fr_bytes ∘ serialize) l).

Arguments log_size : simpl never.
Arguments log_bytes : simpl never.

(** [seg_repr s l]: the segment [s] stores the log [l]. *)
Record seg_repr `{Crc32} (s : RecordSegment) (l : list Rec) : Prop := {
  repr_wf : Forall record_wf l;
  repr_max : seg_max_size s < 2 ^ 63;
  repr_mmap : ∃ free, seg_mmap s = log_bytes l ++ free;
  repr_len : len (seg_mmap s) = seg_max_size s;
  repr_pos : seg_write_pos s = log_size l;
  repr_count : seg_record_count s = len l;
  repr_index : seg_index s = if seg_index_enabled s then log_index 0 0 l else []
}.

(** [seg_stored s l tail]: the written part of the segment is the log [l]
    followed by the bytes [tail], which need not be records. *)
Record seg_stored `{Crc32} (s : RecordSegment) (l : list Rec) (tail : bytes) : Prop := {
  st_wf : Forall record_wf l;
  st_mmap : ∃ free, seg_mmap s = log_bytes l ++ tail ++ free;
  st_pos : seg_write_pos s = log_size l + len tail;
  st_max : seg_write_pos s < 2 ^ 63
}.

(** Project the fields of a segment, without unfolding the record format. *)
Ltac seg_cbn := cbn [seg_path seg_max_size seg_write_pos seg_record_count seg_mmap seg_index
  seg_index_enabled it_current_offset it_end_offset with_write_pos] in *.

Section log_lemmas.
Context `{Crc32Ok}.

Lemma log_size_cons r l : log_size (r :: l) = serialized_size r + log_size l.
Proof. done. Qed.
Lemma log_bytes_cons r l : log_bytes (r :: l) = fr_bytes (serialize r) ++ log_bytes l.
Proof. done. Qed.

Lemma log_size_one r : log_size [r] = serialized_size r.
Proof. rewrite log_size_cons. apply Z.add_0_r. Qed.
Lemma log_bytes_one r : log_bytes [r] = fr_bytes (serialize r).
Proof. rewrite log_bytes_cons. apply app_nil_r. Qed.

Lemma log_size_app l k : log_size (l ++ k) = log_size l + log_size k.
Proof. apply zsum_app. Qed.

Lemma log_size_bound l : Forall record_wf l → 20 * len l ≤ log_size l.
Proof.
  induction 1 as [|r l Hr _ IH]; [done|].
  rewrite log_size_cons, len_cons. pose proof (serialized_size_bounds r Hr). lia.
Qed.

Lemma log_bytes_app l k : log_bytes (l ++ k) = log_bytes l ++ log_bytes k.
Proof. unfold log_bytes. by rewrite map_app, concat_app. Qed.

Lemma len_log_bytes l : Forall record_wf l → len (log_bytes l) = log_size l.
Proof.
  induction 1 as [|r l Hr _ IH]; [done|].
  rewrite log_bytes_cons, log_size_cons, len_app, IH. by rewrite <- (framed_size_wf r Hr).
Qed.

Lemma log_entries_app off l k :
  log_entries off (l ++ k) = log_entries off l ++ log_entries (off + log_size l) k.
Proof.
  revert off. induction l as [|r l IH]; intros off; simpl.
  - by rewrite Z.add_0_r.
  - rewrite IH, log_size_cons, Z.add_assoc. done.
Qed.

Lemma log_index_app off n l k :
  log_index off n (l ++ k) = log_index off n l ++ log_index (off + log_size l) (n + len l) k.
Proof.
  revert off n. induction l as [|r l IH]; intros off n; simpl.
  - by rewrite !Z.add_0_r.
  - rewrite IH, len_cons, log_size_cons, !Z.add_assoc. done.
Qed.

(** Keys of the index lie below the end of the log. *)
Lemma log_index_keys off n l :
  Forall record_wf l → Forall (λ kv, kv.1 < off + log_size l) (log_index off n l).
Proof.
  intros Hl. revert off n. induction Hl as [|r l Hr Hl IH]; intros off n; simpl; [done|].
  rewrite log_size_cons. pose proof (serialized_size_bounds r Hr).
  pose proof (log_size_bound l Hl). pose proof (len_nonneg l).
  constructor; simpl; [lia|].
  eapply Forall_impl; [apply IH|]. intros kv; simpl. lia.
Qed.

Lemma log_index_nums off n l :
  Forall (λ e, ie_record_num e < n + len l) (btree_values (log_index off n l)).
Proof.
  revert off n. induction l as [|r l IH]; intros off n; simpl; [done|].
  rewrite len_cons. pose proof (len_nonneg l). constructor; simpl; [lia|].
  eapply Forall_impl; [apply IH|]. intros e; simpl. lia.
Qed.

(** The write position never passes the end of the mapping. *)
Lemma repr_pos_le s l : seg_repr s l → 0 ≤ log_size l ≤ seg_max_size s.
Proof.
  intros Hs. destruct (repr_mmap _ _ Hs) as [free Hm]. pose proof (repr_len _ _ Hs) as Hl.
  rewrite Hm, len_app, (len_log_bytes l) in Hl by apply (repr_wf _ _ Hs).
  pose proof (log_size_bound l (repr_wf _ _ Hs)).
  pose proof (len_nonneg l). pose proof (len_nonneg free). lia.
Qed.

(** [has_space] decides whether the log can take a record of that size. *)
Lemma has_space_repr s l size :
  seg_repr s l → 0 ≤ size < 2 ^ 32 →
  RecordSegment_has_space s size = (log_size l + size <=? seg_max_size s).
Proof.
  intros Hs Hsz. unfold RecordSegment_has_space. rewrite (repr_pos _ _ Hs).
  pose proof (repr_pos_le _ _ Hs). pose proof (repr_max _ _ Hs).
  rewrite wrap_id by (unfold in_range; lia). done.
Qed.

Lemma repr_stored s l : seg_repr s l → seg_stored s l [].
Proof.
  intros Hs. pose proof (repr_pos_le _ _ Hs). pose proof (repr_max _ _ Hs).
  destruct (repr_mmap _ _ Hs) as [free Hm].
  split; [by destruct Hs|by exists free|rewrite len_nil, Z.add_0_r; by destruct Hs|].
  rewrite (repr_pos _ _ Hs). lia.
Qed.

(** The bytes from a record boundary to the write position. *)
Lemma stored_slice s l1 l2 tail :
  seg_stored s (l1 ++ l2) tail →
  slice (seg_mmap s) (log_size l1) (seg_write_pos s) = Some (log_bytes l2 ++ tail).
Proof.
  intros Hs. destruct (st_mmap _ _ _ Hs) as [free ->].
  pose proof (st_wf _ _ _ Hs) as [H1 H2]%Forall_app.
  rewrite (st_pos _ _ _ Hs), log_bytes_app, log_size_app.
  rewrite <- (app_assoc (log_bytes l1)), (app_assoc (log_bytes l2)).
  apply slice_app; rewrite ?len_app, !len_log_bytes by done; lia.
Qed.

Lemma read_record_stored s l1 r l2 tail :
  seg_stored s (l1 ++ r :: l2) tail → RecordSegment_read_record s (log_size l1) = Ok r.
Proof.
  intros Hs. pose proof (st_wf _ _ _ Hs) as [H1 [Hr H2]%Forall_cons]%Forall_app.
  unfold RecordSegment_read_record. rewrite (stored_slice s l1 (r :: l2) tail Hs).
  rewrite (st_pos _ _ _ Hs), log_size_app, log_size_cons.
  pose proof (serialized_size_bounds r Hr). pose proof (log_size_bound _ H2).
  pose proof (len_nonneg l2). pose proof (len_nonneg tail). zif.
  cbn [unwrap mbind outcome_bind]. rewrite log_bytes_cons, <- app_assoc.
  by rewrite deserialize_serialize.
Qed.

Lemma read_record_repr s l1 r l2 :
  seg_repr s (l1 ++ r :: l2) → RecordSegment_read_record s (log_size l1) = Ok r.
Proof. intros Hs. by eapply read_record_stored, repr_stored. Qed.
End log_lemmas.

(** ** Operations against the log *)

(** Two segments with the same configuration. *)
Definition same_config (s s' : RecordSegment) : Prop :=
  seg_path s' = seg_path s ∧ seg_max_size s' = seg_max_size s ∧
  seg_index_enabled s' = seg_index_enabled s.

(** Exhaust an iterator ([for result in segment.iter_records()]): [None] when
    the fuel runs out before the iterator returns [None]. *)
Fixpoint iter_collect `{Crc32} (fuel : nat) (s : RecordSegment) (it : RecordIterator)
    : option (list (outcome StorageError (RecordOffset * Rec))) :=
  match fuel with
  | O => None
  | S fuel =>
      match RecordIterator_next s it with
      | (_, None) => Some []
      | (it', Some x) => cons x <$> iter_collect fuel s it'
      end
  end.

Section segment_lemmas.
Context `{Crc32Ok}.

Lemma segment_new_repr `{OsOk} path max_size en s :
  0 ≤ max_size < 2 ^ 63 → RecordSegment_new path max_size en = Ok s →
  seg_repr s [] ∧ seg_max_size s = max_size ∧ seg_index_enabled s = en.
Proof.
  unfold RecordSegment_new. intros Hm. destruct (os_map_file path max_size) as [mm|e|] eqn:Hos;
    cbn; [|done..]. intros [= <-]. split; [|done].
  split; simpl; try done; [lia|by exists mm|by eapply os_map_len|by destruct en].
Qed.

Lemma append_fits s l r :
  seg_repr s l → record_wf r → log_size l + serialized_size r ≤ seg_max_size s →
  ∃ s', RecordSegment_append_record s r =
          (s', Ok {| ro_offset := log_size l; ro_size := serialized_size r |}) ∧
    seg_repr s' (l ++ [r]) ∧ same_config s s'.
Proof.
  intros Hs Hr Hfit. pose proof (repr_pos_le _ _ Hs) as Hpos. pose proof (repr_max _ _ Hs) as Hmax.
  pose proof (serialized_size_bounds r Hr) as Hsz.
  pose proof (log_size_bound l (repr_wf _ _ Hs)) as Hcount. pose proof (len_nonneg l).
  unfold RecordSegment_append_record. rewrite framed_size_wf by done.
  unfold with_write_pos; seg_cbn.
  rewrite (repr_pos _ _ Hs), wrap_id by (unfold in_range; lia). zif.
  destruct (repr_mmap _ _ Hs) as [free Hm].
  assert (serialized_size r ≤ len free) as Hfree.
  { pose proof (repr_len _ _ Hs) as Hl. rewrite Hm, len_app in Hl.
    rewrite (len_log_bytes l) in Hl by apply (repr_wf _ _ Hs). lia. }
  rewrite Hm, <- (ztake_zdrop (serialized_size r) free).
  rewrite copy_from_slice_app;
    [|by rewrite len_log_bytes by apply (repr_wf _ _ Hs)
     |rewrite len_ztake, len_log_bytes by (apply (repr_wf _ _ Hs) || lia); done
     |rewrite len_ztake by lia; by rewrite <- (framed_size_wf r Hr)].
  eexists; split; [done|]. split; [|done].
  split; seg_cbn.
  - apply Forall_app; split; [apply (repr_wf _ _ Hs)|by constructor].
  - done.
  - eexists. by rewrite log_bytes_app, <- app_assoc, log_bytes_one.
  - rewrite !len_app, len_log_bytes by apply (repr_wf _ _ Hs). rewrite len_zdrop by lia.
    rewrite <- (framed_size_wf r Hr) at 1. unfold framed_size.
    pose proof (repr_len _ _ Hs) as Hl. rewrite Hm, len_app in Hl.
    rewrite (len_log_bytes l) in Hl by apply (repr_wf _ _ Hs).
    pose proof (framed_size_wf r Hr) as Hf. unfold framed_size in Hf. lia.
  - by rewrite log_size_app, log_size_one.
  - rewrite (repr_count _ _ Hs), len_app, len_cons, len_nil.
    rewrite wrap_id by (unfold in_range; lia). lia.
  - rewrite (repr_index _ _ Hs). destruct (seg_index_enabled s); [|done].
    rewrite log_index_app, Z.add_0_l, Z.add_0_l. cbn [log_index].
    rewrite (repr_count _ _ Hs). apply btree_insert_last.
    apply (log_index_keys 0 0 l), (repr_wf _ _ Hs).
Qed.

Lemma append_full s l r :
  seg_repr s l → record_wf r → seg_max_size s < log_size l + serialized_size r →
  RecordSegment_append_record s r =
    (s, Err (SegmentFull (serialized_size r) (seg_max_size s - log_size l))).
Proof.
  intros Hs Hr Hfull. pose proof (repr_pos_le _ _ Hs) as Hpos. pose proof (repr_max _ _ Hs) as Hmax.
  pose proof (serialized_size_bounds r Hr) as Hsz.
  unfold RecordSegment_append_record. rewrite framed_size_wf by done.
  unfold with_write_pos; seg_cbn.
  rewrite wrap_add_sub by (rewrite (repr_pos _ _ Hs); unfold in_range; lia).
  rewrite (repr_pos _ _ Hs), !wrap_id by (unfold in_range; lia). zif.
  rewrite <- (repr_pos _ _ Hs). by destruct s.
Qed.

(** One step of the iterator over a segment, at a record boundary. *)
Lemma next_stored s l1 r l2 tail :
  seg_stored s (l1 ++ r :: l2) tail →
  RecordIterator_next s {| it_current_offset := log_size l1; it_end_offset := seg_write_pos s |} =
    ({| it_current_offset := log_size (l1 ++ [r]); it_end_offset := seg_write_pos s |},
     Some (Ok ({| ro_offset := log_size l1; ro_size := serialized_size r |}, r))).
Proof.
  intros Hs. pose proof (st_wf _ _ _ Hs) as [H1 [Hr H2]%Forall_cons]%Forall_app.
  unfold RecordIterator_next. seg_cbn. rewrite (read_record_stored s l1 r l2 tail Hs).
  pose proof (st_max _ _ _ Hs). pose proof (len_nonneg tail).
  rewrite (st_pos _ _ _ Hs), log_size_app, log_size_cons in *.
  pose proof (serialized_size_bounds r Hr). pose proof (log_size_bound _ H1).
  pose proof (log_size_bound _ H2). pose proof (len_nonneg l1). pose proof (len_nonneg l2). zif.
  rewrite wrap_id by (unfold in_range; lia). by rewrite log_size_app, log_size_one.
Qed.

Lemma iter_collect_S fuel s it :
  iter_collect (S fuel) s it =
    match RecordIterator_next s it with
    | (_, None) => Some []
    | (it', Some x) => cons x <$> iter_collect fuel s it'
    end.
Proof. done. Qed.

Lemma iter_collect_more s it f g out :
  iter_collect f s it = Some out → (f ≤ g)%nat → iter_collect g s it = Some out.
Proof.
  revert g it out. induction f as [|f IH]; intros g it out; [done|].
  destruct g as [|g]; [lia|]. rewrite !iter_collect_S.
  destruct (RecordIterator_next s it) as [it' [x|]]; [|done].
  intros Hf Hle. apply fmap_Some in Hf as (out' & Hf & ->).
  by rewrite (IH g it' out' Hf) by lia.
Qed.

(** An error leaves the iterator where it was: it can never be exhausted. *)
Lemma iter_collect_stuck s it e fuel :
  it_current_offset it < it_end_offset it →
  RecordSegment_read_record s (it_current_offset it) = Err e →
  iter_collect fuel s it = None.
Proof.
  intros Hlt He. induction fuel as [|fuel IH]; [done|]. simpl.
  unfold RecordIterator_next. zif. rewrite He. by rewrite IH.
Qed.

(** Walking the log: the records with their locations, then whatever the
    iterator does with the bytes after the log. *)
Lemma iter_collect_stored s l1 l2 tail fuel :
  seg_stored s (l1 ++ l2) tail →
  iter_collect (length l2 + fuel) s
    {| it_current_offset := log_size l1; it_end_offset := seg_write_pos s |} =
  app (map Ok (log_entries (log_size l1) l2)) <$>
    iter_collect fuel s
      {| it_current_offset := log_size (l1 ++ l2); it_end_offset := seg_write_pos s |}.
Proof.
  revert l1. induction l2 as [|r l2 IH]; intros l1 Hs.
  - rewrite app_nil_r. simpl. by destruct (iter_collect _ _ _).
  - simpl length. rewrite Nat.add_succ_l, iter_collect_S, (next_stored s l1 r l2 tail Hs).
    rewrite (IH (l1 ++ [r])) by (by rewrite <- app_assoc).
    rewrite <- app_assoc. cbn [log_entries map]. rewrite log_size_app, log_size_one.
    by destruct (iter_collect fuel _ _).
Qed.

Lemma iter_records_repr s l fuel :
  seg_repr s l → (length l < fuel)%nat →
  iter_collect fuel s (iter_records s) = Some (map Ok (log_entries 0 l)).
Proof.
  intros Hs Hf. apply (iter_collect_more _ _ (length l + 1)); [|lia].
  pose proof (iter_collect_stored s [] l [] 1 (repr_stored _ _ Hs)) as Hit.
  unfold iter_records. change (log_size []) with 0 in Hit. rewrite Hit.
  rewrite iter_collect_S. unfold RecordIterator_next. seg_cbn. rewrite (repr_pos _ _ Hs).
  change (log_size ([] ++ l)) with (log_size l). zif. cbn. by rewrite app_nil_r.
Qed.

(** Past the log, a frame whose checksum is wrong is an error. *)
Lemma read_corrupt s l c t data rest :
  seg_stored s l (frame RECORD_MAGIC (len data) c t data ++ rest) →
  in_range 32 c → in_range 64 t → len data ≤ MAX_RECORD_SIZE →
  c ≠ calculate_checksum t data →
  log_size l < seg_write_pos s ∧
  RecordSegment_read_record s (log_size l) =
    Err (StorageRecord (ChecksumMismatch c (calculate_checksum t data))).
Proof.
  intros Hs Hc Ht Hd Hne. set (tail := frame _ _ _ _ _ ++ rest) in *.
  assert (0 < len tail) as Htail.
  { unfold tail. rewrite len_app, len_frame. pose proof (len_nonneg data).
    pose proof (len_nonneg rest). lia. }
  split; [rewrite (st_pos _ _ _ Hs); lia|].
  unfold RecordSegment_read_record.
  pose proof (stored_slice s l [] tail) as Hsl. rewrite app_nil_r in Hsl. rewrite (Hsl Hs).
  rewrite (st_pos _ _ _ Hs). zif. change (log_bytes [] ++ tail) with tail.
  cbn [unwrap mbind outcome_bind]. unfold tail. rewrite deserialize_intact by done.
  by rewrite (proj2 (Z.eqb_neq _ _)).
Qed.

(** It stops the iteration for good. *)
Lemma iter_records_corrupt s l c t data rest fuel :
  seg_stored s l (frame RECORD_MAGIC (len data) c t data ++ rest) →
  in_range 32 c → in_range 64 t → len data ≤ MAX_RECORD_SIZE →
  c ≠ calculate_checksum t data →
  iter_collect fuel s (iter_records s) = None.
Proof.
  intros Hs Hc Ht Hd Hne.
  destruct (read_corrupt s l c t data rest Hs Hc Ht Hd Hne) as [Hlt Hread].
  destruct (iter_collect fuel s (iter_records s)) as [out|] eqn:Hit; [exfalso|done].
  apply (iter_collect_more _ _ _ (length l + fuel)) in Hit; [|lia].
  pose proof (iter_collect_stored s [] l _ fuel Hs) as Hit'.
  unfold iter_records in Hit. change (log_size []) with 0 in Hit'. rewrite Hit' in Hit.
  apply fmap_Some in Hit as (out' & Hit & _). simpl app in Hit.
  by erewrite iter_collect_stuck in Hit by (seg_cbn; done).
Qed.
End segment_lemmas.

(** ** The manager against a sequence of logs

    [mgr_repr m init seg linit l]: the manager's segments are [init] followed by
    the current segment [seg], storing the logs [linit] and [l]. *)
Record mgr_repr `{Crc32} (m : SegmentManager) (init : list RecordSegment) (seg : RecordSegment)
    (linit : list (list Rec)) (l : list Rec) : Prop := {
  mr_segments : sm_segments m = init ++ [seg];
  mr_current : sm_current_segment m = Some (length init);
  mr_init : Forall2 seg_repr init linit;
  mr_last : seg_repr seg l;
  mr_max : seg_max_size seg = sm_segment_size m;
  mr_size : 0 ≤ sm_segment_size m < 2 ^ 63
}.

Definition mgr_ok `{Crc32} (m : SegmentManager) : Prop :=
  ∃ init seg linit l, mgr_repr m init seg linit l.

Definition same_manager (m m' : SegmentManager) : Prop :=
  sm_partition_id m' = sm_partition_id m ∧ sm_segment_size m' = sm_segment_size m ∧
  sm_storage_dir m' = sm_storage_dir m ∧ sm_index_enabled m' = sm_index_enabled m.

(** A caller that appends the records [rs] one after the other and goes on only
    when each append is acknowledged. *)
Fixpoint append_each `{Crc32, Os} (m : SegmentManager) (rs : list Rec) : option SegmentManager :=
  match rs with
  | [] => Some m
  | r :: rs =>
      match SegmentManager_append_record 2 m r with
      | Some (m, Ok _) => append_each m rs
      | _ => None
      end
  end.

Section manager_lemmas.
Context `{Crc32Ok} `{OsOk}.

Lemma current_repr m init seg linit l :
  mgr_repr m init seg linit l → current_segment m = Some (length init, seg).
Proof.
  intros Hm. unfold current_segment. rewrite (mr_current _ _ _ _ _ Hm), (mr_segments _ _ _ _ _ Hm).
  cbn. by rewrite list_lookup_middle.
Qed.

Lemma set_segment_repr m init seg seg' linit l l' :
  mgr_repr m init seg linit l → seg_repr seg' l' → same_config seg seg' →
  mgr_repr (set_segment m (length init) seg') init seg' linit l' ∧
  same_manager m (set_segment m (length init) seg').
Proof.
  intros Hm Hs (_ & Hmax & _). split; [|done].
  split; cbn; [|by destruct Hm..|by rewrite Hmax; destruct Hm|by destruct Hm].
  rewrite (mr_segments _ _ _ _ _ Hm), insert_app_r_alt, Nat.sub_diag by done. done.
Qed.

Lemma body_fits m init seg linit l r :
  mgr_repr m init seg linit l → record_wf r →
  log_size l + serialized_size r ≤ sm_segment_size m →
  ∃ seg' m', append_record_body r m =
      Return m' (Ok {| ro_offset := log_size l; ro_size := serialized_size r |}) ∧
    mgr_repr m' init seg' linit (l ++ [r]) ∧ same_manager m m'.
Proof.
  intros Hm Hr Hfit. unfold append_record_body. rewrite (current_repr _ _ _ _ _ Hm).
  pose proof (mr_last _ _ _ _ _ Hm) as Hs. rewrite <- (mr_max _ _ _ _ _ Hm) in Hfit.
  pose proof (serialized_size_bounds r Hr).
  rewrite (has_space_repr seg l) by (done || lia). zif.
  destruct (append_fits seg l r Hs Hr Hfit) as (seg' & -> & Hs' & Hcfg).
  eexists seg', _. split; [done|]. by eapply set_segment_repr.
Qed.

Lemma create_segment_repr m init seg linit l mm :
  mgr_repr m init seg linit l →
  os_map_file (segment_path m (len (sm_segments m))) (sm_segment_size m) = Ok mm →
  ∃ seg' m', create_new_segment m = (m', Ok tt) ∧
    mgr_repr m' (init ++ [seg]) seg' (linit ++ [l]) [] ∧ same_manager m m'.
Proof.
  intros Hm Hos. pose proof (mr_size _ _ _ _ _ Hm) as Hsz.
  pose proof (mr_segments _ _ _ _ _ Hm) as Hsegs.
  assert (∃ s', RecordSegment_new (segment_path m (len (sm_segments m))) (sm_segment_size m)
    (sm_index_enabled m) = Ok s') as [s' Hnew]
    by (unfold RecordSegment_new; rewrite Hos; by eexists).
  destruct (segment_new_repr _ _ _ _ Hsz Hnew) as (Hr & Hmax & _).
  unfold create_new_segment. rewrite Hnew. eexists s', _. split; [done|]. split; [|done].
  split; cbn; [by rewrite Hsegs|by rewrite Hsegs| |done|done|done].
  apply Forall2_app; [by destruct Hm|]. constructor; [by destruct Hm|done].
Qed.

Lemma body_full m init seg linit l r :
  mgr_repr m init seg linit l → record_wf r →
  sm_segment_size m < log_size l + serialized_size r →
  append_record_body r m =
    match create_new_segment m with
    | (m, Ok _) => Continue m
    | (m, Err e) => Return m (Err e)
    | (m, Panic) => Return m Panic
    end.
Proof.
  intros Hm Hr Hfull. unfold append_record_body, append_slow_path.
  rewrite (current_repr _ _ _ _ _ Hm).
  pose proof (serialized_size_bounds r Hr). pose proof (mr_max _ _ _ _ _ Hm).
  rewrite (has_space_repr seg l) by (lia || (by destruct Hm)). by zif.
Qed.

(** One iteration with a record that no segment can hold. *)
Lemma body_oversize m r :
  mgr_ok m → record_wf r → sm_segment_size m < serialized_size r →
  (∀ path, is_ok (os_map_file path (sm_segment_size m)) = true) →
  ∃ m', append_record_body r m = Continue m' ∧ mgr_ok m' ∧
    sm_segment_size m' = sm_segment_size m ∧
    length (sm_segments m') = S (length (sm_segments m)).
Proof.
  intros (init & seg & linit & l & Hm) Hr Hbig Hos.
  pose proof (repr_pos_le seg l (mr_last _ _ _ _ _ Hm)).
  specialize (Hos (segment_path m (len (sm_segments m)))).
  destruct (os_map_file _ _) as [mm|e|] eqn:Hmap; [|done..].
  destruct (create_segment_repr m init seg linit l mm Hm Hmap)
    as (seg2 & m2 & Hc & Hm2 & _ & Hsz2 & _).
  exists m2. rewrite (body_full m init seg linit l r Hm Hr) by lia. rewrite Hc.
  split_and!; [done|by eexists _, _, _, _|done|].
  rewrite (mr_segments _ _ _ _ _ Hm2), (mr_segments _ _ _ _ _ Hm), !length_app. simpl. lia.
Qed.

Lemma manager_new_repr pid size dir en mm :
  0 ≤ size < 2 ^ 63 → os_create_dir_all dir = Ok tt →
  (∀ path, is_ok (os_map_file path size) = true) →
  SegmentManager_new pid size dir en = Ok mm →
  sm_segment_size mm = size ∧ ∃ seg, mgr_repr mm [] seg [] [].
Proof.
  intros Hsz Hdir Hos. unfold SegmentManager_new. rewrite Hdir.
  cbn [map_err mbind outcome_bind]. unfold create_new_segment. cbn.
  destruct (RecordSegment_new _ size en) as [s|e|] eqn:Hnew; [|done..].
  destruct (segment_new_repr _ _ _ _ Hsz Hnew) as (Hr & Hmax & _).
  intros [= <-]. split; [done|]. exists s. by split.
Qed.

(** Appending a record that fits in an empty segment, when every segment file
    can be created. *)
Lemma append_ok m init seg linit l r :
  mgr_repr m init seg linit l → record_wf r → serialized_size r ≤ sm_segment_size m →
  (∀ path, is_ok (os_map_file path (sm_segment_size m)) = true) →
  ∃ m' off init' seg' linit' l', SegmentManager_append_record 2 m r = Some (m', Ok off) ∧
    mgr_repr m' init' seg' linit' l' ∧ same_manager m m' ∧
    concat (linit' ++ [l']) = concat (linit ++ [l]) ++ [r] ∧
    (log_size l', len init' + 1) = pack (sm_segment_size m) (log_size l, len init + 1) (serialized_size r).
Proof.
  intros Hm Hr Hsz Hos. unfold SegmentManager_append_record, pack. cbn [fst snd].
  destruct (Z.leb_spec (log_size l + serialized_size r) (sm_segment_size m)) as [Hfit|Hfull].
  - destruct (body_fits m init seg linit l r Hm Hr Hfit) as (seg' & m' & Hb & Hm' & Hs).
    eexists m', _, init, seg', linit, _. cbn [run_loop]. rewrite Hb.
    split_and!; [done..| |by rewrite log_size_app, log_size_one].
    by rewrite !concat_app, <- app_assoc; cbn; rewrite !app_nil_r.
  - specialize (Hos (segment_path m (len (sm_segments m)))).
    destruct (os_map_file _ _) as [mm|e|] eqn:Hmap; [|done..].
    destruct (create_segment_repr m init seg linit l mm Hm Hmap) as (seg1 & m1 & Hc & Hm1 & Hs1).
    pose proof Hs1 as (_ & Hsz1 & _).
    destruct (body_fits m1 _ seg1 _ [] r Hm1 Hr) as (seg2 & m2 & Hb & Hm2 & Hs2);
      [change (log_size []) with 0; lia|].
    eexists m2, _, _, seg2, _, _. cbn [run_loop].
    rewrite (body_full m init seg linit l r Hm Hr Hfull), Hc, Hb.
    split_and!; [done|done|unfold same_manager in *; intuition congruence|by rewrite (concat_app (linit ++ [l]))|].
    rewrite log_size_app, log_size_one, len_snoc. by change (log_size []) with 0.
Qed.

Lemma append_each_ok rs m init seg linit l :
  mgr_repr m init seg linit l →
  (∀ path, is_ok (os_map_file path (sm_segment_size m)) = true) →
  Forall (λ r, record_wf r ∧ serialized_size r ≤ sm_segment_size m) rs →
  ∃ m' ls, append_each m rs = Some m' ∧ Forall2 seg_repr (sm_segments m') ls ∧
    concat ls = concat (linit ++ [l]) ++ rs.
Proof.
  revert m init seg linit l. induction rs as [|r rs IH]; intros m init seg linit l Hm Hos Hrs.
  - exists m, (linit ++ [l]). rewrite app_nil_r, (mr_segments _ _ _ _ _ Hm).
    split_and!; [done| |done]. apply Forall2_app; [by destruct Hm|].
    constructor; [by destruct Hm|done].
  - apply Forall_cons in Hrs as [[Hr Hsz] Hrs].
    destruct (append_ok m init seg linit l r Hm Hr Hsz Hos)
      as (m' & off & init' & seg' & linit' & l' & Ha & Hm' & (_ & Hs' & _) & Hc & _).
    rewrite <- Hs' in Hos, Hrs.
    destruct (IH m' _ _ _ _ Hm' Hos Hrs) as (m2 & ls & Ha2 & Hls & Hc2).
    exists m2, ls. cbn [append_each]. rewrite Ha. split_and!; [done..|].
    by rewrite Hc2, Hc, <- app_assoc.
Qed.
End manager_lemmas.

(** ** Properties *)
Section storage_properties.
Context `{Crc32Ok} `{OsOk}.

(** C6. Refinement: [append_record] implements the append of an append-only
    log on every branch.  A record that fits is placed at the end of the log
    and the segment stores the extended log; a record that does not fit is
    refused with the sizes the log computes and the segment is unchanged
    (the reservation is rolled back). *)
Theorem append_record_refines s l r :
  seg_repr s l → record_wf r →
  match log_append (seg_max_size s) l r with
  | Ok (l', off) => ∃ s', RecordSegment_append_record s r = (s', Ok off) ∧
      seg_repr s' l' ∧ same_config s s'
  | Err e => RecordSegment_append_record s r = (s, Err e)
  | Panic => False
  end.
Proof.
  intros Hs Hr. unfold log_append. destruct (_ <=? _) eqn:Hfit; zbool.
  - by apply append_fits.
  - by apply append_full.
Qed.

(** Reading by number through the index: the n-th record appended when
    the index is enabled, an out-of-bounds error past the last one, and an
    invalid-state error when the index is disabled. *)
Lemma read_record_by_num_spec s l n :
  seg_repr s l → 0 ≤ n →
  read_record_by_num s n =
    if seg_index_enabled s
    then ok_or (l !! (Z.to_nat n)) (OffsetOutOfBounds n)
    else Err InvalidState.
Proof.
  intros Hs Hn. unfold read_record_by_num.
  destruct (seg_index_enabled s) eqn:Hen; [|done]. cbn [negb].
  rewrite (repr_index _ _ Hs), Hen.
  destruct (l !! Z.to_nat n) as [r|] eqn:Hlk.
  - destruct (list_elem_of_split_length l (Z.to_nat n) r Hlk) as (l1 & l2 & -> & Hlen).
    rewrite log_index_app. unfold btree_values. rewrite map_app.
    rewrite find_first_app.
    2: { pose proof (log_index_nums 0 0 l1) as Hnum. eapply Forall_impl; [apply Hnum|].
         intros e He. simpl in He. apply Z.eqb_neq. unfold len in He. lia. }
    cbn [log_index map find_first snd ie_record_num].
    assert ((0 + len l1 =? n) = true) as -> by (unfold len; apply Z.eqb_eq; lia).
    cbn [ok_or mbind outcome_bind ie_offset]. rewrite Z.add_0_l. by eapply read_record_repr.
  - rewrite find_first_none; [done|]. apply lookup_ge_None in Hlk.
    eapply Forall_impl; [apply (log_index_nums 0 0 l)|].
    intros e He. simpl in He. apply Z.eqb_neq. unfold len in He. lia.
Qed.

(** Iteration is complete and in order: a fresh iterator over a segment
    that stores the log [l] yields the records of [l] one by one, each with
    its offset and size, and is exhausted after them. *)
Lemma iter_records_complete s l fuel :
  seg_repr s l → (length l < fuel)%nat →
  iter_collect fuel s (iter_records s) = Some (map Ok (log_entries 0 l)).
Proof. apply iter_records_repr. Qed.

(** A corrupted record stops an iteration for good: when the bytes after
    the log [l] carry a frame whose checksum is wrong, the iterator returns
    the same error forever and no amount of fuel exhausts it ([next] returns
    on error before advancing its offset). *)
Lemma corrupted_iteration_never_ends s l c t data rest :
  seg_stored s l (frame RECORD_MAGIC (len data) c t data ++ rest) →
  in_range 32 c → in_range 64 t → len data ≤ MAX_RECORD_SIZE →
  c ≠ calculate_checksum t data →
  ∀ fuel, iter_collect fuel s (iter_records s) = None.
Proof. intros Hs Hc Ht Hd Hne fuel. by eapply iter_records_corrupt. Qed.

(** C20. [SegmentManager::append_record] returns, within two iterations of its
    loop, for every record that fits in an empty segment.  With room in the
    current segment the record is appended to it; otherwise one new segment
    is created and holds the record alone; when the file cannot be created or
    mapped the I/O error is returned and the manager is unchanged. *)
Theorem manager_append_total m init seg linit l r fuel :
  mgr_repr m init seg linit l → record_wf r →
  serialized_size r ≤ sm_segment_size m → (2 ≤ fuel)%nat →
  if log_size l + serialized_size r <=? sm_segment_size m then
    ∃ seg' m', SegmentManager_append_record fuel m r =
        Some (m', Ok {| ro_offset := log_size l; ro_size := serialized_size r |}) ∧
      mgr_repr m' init seg' linit (l ++ [r])
  else match os_map_file (segment_path m (len (sm_segments m))) (sm_segment_size m) with
  | Ok _ => ∃ seg' m', SegmentManager_append_record fuel m r =
        Some (m', Ok {| ro_offset := 0; ro_size := serialized_size r |}) ∧
      mgr_repr m' (init ++ [seg]) seg' (linit ++ [l]) [r]
  | Err e => SegmentManager_append_record fuel m r = Some (m, Err (StorageIo e.2))
  | Panic => SegmentManager_append_record fuel m r = Some (m, Panic)
  end.
Proof.
  intros Hm Hr Hsz Hf. destruct fuel as [|[|fuel]]; [lia|lia|].
  unfold SegmentManager_append_record. destruct (_ <=? _) eqn:Hfit; zbool.
  - destruct (body_fits m init seg linit l r Hm Hr Hfit) as (seg' & m' & Hb & Hm' & _).
    exists seg', m'. cbn [run_loop]. by rewrite Hb.
  - pose proof (body_full m init seg linit l r Hm Hr Hfit) as Hb. cbn [run_loop]. rewrite Hb.
    destruct (os_map_file _ _) as [mm|e|] eqn:Hos.
    + destruct (create_segment_repr m init seg linit l mm Hm Hos) as (seg1 & m1 & -> & Hm1 & Hc).
      destruct Hc as (_ & Hc & _). rewrite <- Hc in Hsz.
      destruct (body_fits m1 _ seg1 _ [] r Hm1 Hr) as (seg2 & m2 & Hb2 & Hm2 & _);
        [change (log_size []) with 0; lia|].
      exists seg2, m2. by rewrite Hb2.
    + unfold create_new_segment, RecordSegment_new. by rewrite Hos.
    + unfold create_new_segment, RecordSegment_new. by rewrite Hos.
Qed.

(** C1. Durability of acknowledged appends across rotation: when every file
    can be created, a fresh manager acknowledges every record of a sequence
    whose records each fit in a segment, and its segments then store exactly
    that sequence, in order, whatever the rotations in between. *)
Theorem manager_stores_sequence pid size dir en m rs :
  0 ≤ size < 2 ^ 63 → os_create_dir_all dir = Ok tt →
  (∀ path, is_ok (os_map_file path size) = true) →
  SegmentManager_new pid size dir en = Ok m →
  Forall (λ r, record_wf r ∧ serialized_size r ≤ size) rs →
  ∃ m' logs, append_each m rs = Some m' ∧
    Forall2 (λ s l, seg_repr s l ∧ ∀ fuel, (length l < fuel)%nat →
      iter_collect fuel s (iter_records s) = Some (map Ok (log_entries 0 l)))
      (sm_segments m') logs ∧
    concat logs = rs.
Proof.
  intros Hsz Hdir Hos Hnew Hrs.
  destruct (manager_new_repr pid size dir en m Hsz Hdir Hos Hnew) as (Hs & seg & Hm).
  rewrite <- Hs in Hos, Hrs.
  destruct (append_each_ok rs m [] seg [] [] Hm Hos Hrs) as (m' & ls & Ha & Hls & Hc).
  exists m', ls. split_and!; [done| |done]. eapply Forall2_impl; [apply Hls|].
  intros s l Hsl. split; [done|]. intros fuel. by apply iter_records_repr.
Qed.

(** C38. A record larger than the segment size is never refused: with a file
    system that grants every segment, [append_record] loops forever and
    creates one new segment per iteration. *)
Theorem oversize_append_never_returns m init seg linit l r :
  mgr_repr m init seg linit l → record_wf r →
  sm_segment_size m < serialized_size r →
  (∀ path, is_ok (os_map_file path (sm_segment_size m)) = true) →
  ∀ n, SegmentManager_append_record n m r = None ∧
    ∃ m', loop_state n (append_record_body r) m = Some m' ∧
      length (sm_segments m') = (length (sm_segments m) + n)%nat.
Proof.
  intros Hm Hr Hbig Hos n. assert (mgr_ok m) as Hok by (by eexists _, _, _, _).
  clear Hm. revert m Hbig Hos Hok. induction n as [|n IH]; intros m Hbig Hos Hok.
  { split; [done|]. exists m. by rewrite Nat.add_0_r. }
  destruct (body_oversize m r Hok Hr Hbig Hos) as (m2 & Hb & Hok2 & Hsz2 & Hlen).
  rewrite <- Hsz2 in Hbig, Hos. destruct (IH m2 Hbig Hos Hok2) as (Hrun & m' & Hst & Hl).
  unfold SegmentManager_append_record in *. cbn [run_loop loop_state]. rewrite Hb.
  split; [done|]. exists m'. split; [done|]. lia.
Qed.
End storage_properties.

(** ** Concrete runs: a file system that grants every mapping, IEEE checksums *)
#[export] Instance zero_os : Os := {
  os_map_file _ size := if size <? 0 then Err (SetLen, "invalid argument") else Ok (replicate (Z.to_nat size) x00);
  os_flush _ _ := Ok tt;
  os_create_dir_all _ := Ok tt
}.
#[export] Instance zero_os_ok : OsOk.
Proof.
  split. intros path size m. cbn. destruct (size <? 0) eqn:Hs; [done|]. intros [= <-].
  zbool. rewrite len_replicate. lia.
Qed.

(** A 64-byte indexed segment holding one record. *)
Definition sample_segment (max_size : nat) : RecordSegment :=
  {| seg_path := "s"; seg_max_size := Z.of_nat max_size; seg_write_pos := 25; seg_record_count := 1;
     seg_mmap := fr_bytes (serialize sample_record) ++ replicate (max_size - 25) x00;
     seg_index := log_index 0 0 [sample_record]; seg_index_enabled := true |}.

Lemma sample_segment_repr : seg_repr (sample_segment 64) [sample_record].
Proof.
  split; [constructor; [apply sample_wf|done]|done|by eexists (replicate 39 x00)|by vm_compute..].
Qed.

Definition sample_manager : SegmentManager :=
  {| sm_partition_id := 1; sm_segments := [sample_segment 64]; sm_current_segment := Some 0%nat;
     sm_segment_size := 64; sm_storage_dir := "d"; sm_index_enabled := true |}.

Lemma sample_manager_repr : mgr_repr sample_manager [] (sample_segment 64) [] [sample_record].
Proof. split; [done|done|constructor|apply sample_segment_repr|done|done]. Qed.

Lemma append_record_refines_witness :
  ∃ s', RecordSegment_append_record (sample_segment 64) sample_record = (s', Ok (mkOffset 25 25)).
Proof.
  destruct (append_record_refines _ _ sample_record sample_segment_repr sample_wf) as (s' & Hs' & _).
  exists s'. exact Hs'.
Defined.

Lemma read_record_by_num_spec_witness :
  read_record_by_num (sample_segment 64) 0 = Ok sample_record.
Proof. rewrite (read_record_by_num_spec _ _ 0 sample_segment_repr); [reflexivity|lia]. Defined.

Lemma iter_records_complete_witness :
  iter_collect 2 (sample_segment 64) (iter_records (sample_segment 64)) =
    Some [Ok (mkOffset 0 25, sample_record)].
Proof. rewrite (iter_records_complete _ _ 2 sample_segment_repr); [reflexivity|simpl; lia]. Defined.

(** The second record's checksum field is zero. *)
Definition corrupted_segment : RecordSegment :=
  let tail := frame RECORD_MAGIC 5 0 7 (str_bytes "Jello") in
  {| seg_path := "s"; seg_max_size := 64; seg_write_pos := 50; seg_record_count := 2;
     seg_mmap := fr_bytes (serialize sample_record) ++ tail ++ replicate 14 x00;
     seg_index := []; seg_index_enabled := false |}.

Lemma corrupted_segment_stored :
  seg_stored corrupted_segment [sample_record]
    (frame RECORD_MAGIC (len (str_bytes "Jello")) 0 7 (str_bytes "Jello") ++ []).
Proof.
  split; [constructor; [apply sample_wf|done]|by eexists (replicate 14 x00)|by vm_compute..].
Qed.

Lemma corrupted_iteration_never_ends_witness :
  iter_collect 20 corrupted_segment (iter_records corrupted_segment) = None.
Proof.
  apply (corrupted_iteration_never_ends _ _ _ _ _ _ corrupted_segment_stored); by vm_compute.
Defined.

Lemma manager_append_total_witness :
  ∃ m', SegmentManager_append_record 2 sample_manager sample_record = Some (m', Ok (mkOffset 25 25)).
Proof.
  destruct (manager_append_total _ _ _ _ _ sample_record 2 sample_manager_repr sample_wf)
    as (s' & m' & Hm' & _); [by vm_compute|lia|]. exists m'. exact Hm'.
Defined.

Definition fresh_manager : SegmentManager :=
  match SegmentManager_new 1 64 "d" true with Ok m => m | _ => sample_manager end.

Lemma manager_stores_sequence_witness :
  ∃ m', append_each fresh_manager (replicate 5 sample_record) = Some m' ∧
    length (sm_segments m') = 3%nat.
Proof.
  destruct (manager_stores_sequence 1 64 "d" true fresh_manager (replicate 5 sample_record))
    as (m' & logs & Hm' & _); [lia|done|done|reflexivity| |].
  { repeat constructor; by vm_compute. }
  exists m'. split; [exact Hm'|].
  vm_compute in Hm'. injection Hm' as <-. reflexivity.
Defined.

(** A record of 45 bytes of data takes 65 bytes, one more than a segment. *)
Definition oversize_record : Rec := {| rec_timestamp := 1; rec_data := replicate 45 x61 |}.

Lemma oversize_append_never_returns_witness :
  SegmentManager_append_record 1000 sample_manager oversize_record = None.
Proof.
  apply (oversize_append_never_returns _ _ _ _ _ oversize_record sample_manager_repr);
    [by vm_compute|by vm_compute|done].
Defined.
