(* ===== verification/Metrics.v ===== *)
(** * Metrics (src/src/observability.rs)

    What the functions of the module report to the recorder of the metrics crate,
    a recorder that keeps counters, gauges and histograms by name, and what it
    holds after a segment has been used: the repository installs no recorder, so
    this is what one would see.  Log lines are left out. *)

From stdpp Require Import base list numbers strings gmap.
From S2P Require Import Prelude Crc32 F64 RecordFormat StorageEngine.
Local Open Scope Z_scope.

(** ** Definitions *)

(** A report to the recorder. *)
Inductive report :=
  | Increment (name : string) (n : Z)
  | SetGauge (name : string) (x : f64)
  | RecordValue (name : string) (x : f64).

(** Source: src/src/observability.rs:50-60 (record_append) *)
Definition record_append (bytes latency_us : Z) (success : bool) : list report :=
  Increment "persistq.append.total" 1 ::
  if success then
    [Increment "persistq.append.bytes_total" (u64 bytes); RecordValue "persistq.append.latency_us" (f64_of_int latency_us)]
  else [Increment "persistq.append.errors_total" 1].

(** Source: src/src/observability.rs:62-78 (record_read) *)
Definition record_read (bytes latency_us : Z) (cache_hit success : bool) : list report :=
  Increment "persistq.read.total" 1 ::
  if success then
    [Increment "persistq.read.bytes_total" (u64 bytes); RecordValue "persistq.read.latency_us" (f64_of_int latency_us);
     if cache_hit then Increment "persistq.read.cache_hits" 1 else Increment "persistq.read.cache_misses" 1]
  else [Increment "persistq.read.errors_total" 1].

(** Source: src/src/observability.rs:80-84 (update_segment_metrics) *)
Definition update_segment_metrics (active_segments total_bytes : Z) : list report :=
  [SetGauge "persistq.segments.active" (f64_of_int active_segments);
   SetGauge "persistq.segments.total_bytes" (f64_of_int total_bytes)].

(** Source: src/src/observability.rs:86-89 (update_partition_metrics) *)
Definition update_partition_metrics (partition_count : Z) : list report :=
  [SetGauge "persistq.partitions.count" (f64_of_int partition_count)].

(** Source: src/src/observability.rs:91-94 (update_record_count) *)
Definition update_record_count (total_records : Z) : list report :=
  [SetGauge "persistq.records.total" (f64_of_int total_records)].

(** Source: src/src/observability.rs:96-99 (record_segment_rollover) *)
Definition record_segment_rollover : list report := [Increment "persistq.segment.rollover_total" 1].

(** Source: src/src/observability.rs:101-107 (record_segment_flush) *)
Definition record_segment_flush (success : bool) : list report :=
  Increment "persistq.segment.flush_total" 1 ::
  if success then [] else [Increment "persistq.segment.flush_errors_total" 1].

(** The duration in nanoseconds.
    Source: src/src/observability.rs:109-116 (record_compaction) *)
Definition record_compaction (records_copied records_removed bytes_saved duration : Z) : list report :=
  [Increment "persistq.compaction.total" 1;
   Increment "persistq.compaction.records_copied" records_copied;
   Increment "persistq.compaction.records_removed" records_removed;
   Increment "persistq.compaction.bytes_reclaimed" bytes_saved;
   RecordValue "persistq.compaction.duration_ms" (f64_of_int (duration `div` 1000000))].

(** The metrics that [init] describes.
    Source: src/src/observability.rs:12-48 (init) *)
Definition described : list string :=
  ["persistq.append.total"; "persistq.append.bytes_total"; "persistq.append.errors_total";
   "persistq.read.total"; "persistq.read.bytes_total"; "persistq.read.errors_total";
   "persistq.read.cache_hits"; "persistq.read.cache_misses";
   "persistq.append.latency_us"; "persistq.read.latency_us";
   "persistq.segments.active"; "persistq.segments.total_bytes"; "persistq.partitions.count"; "persistq.records.total";
   "persistq.segment.rollover_total"; "persistq.segment.flush_total"; "persistq.segment.flush_errors_total"]%string.

(** *** A recorder *)

(** Counters are 64-bit and wrap, as those of the crate. *)
Record Registry := mkRegistry {
  counters : gmap string Z; gauges : gmap string f64; histograms : gmap string (list f64) }.
Definition no_metrics : Registry := mkRegistry ∅ ∅ ∅.

Definition counter (g : Registry) (name : string) : Z := default 0 (counters g !! name).
Definition values (g : Registry) (name : string) : list f64 := default [] (histograms g !! name).

Definition receive_report (g : Registry) (r : report) : Registry :=
  match r with
  | Increment name n => mkRegistry (<[name := u64 (counter g name + n)]> (counters g)) (gauges g) (histograms g)
  | SetGauge name x => mkRegistry (counters g) (<[name := x]> (gauges g)) (histograms g)
  | RecordValue name x => mkRegistry (counters g) (gauges g) (<[name := values g name ++ [x]]> (histograms g))
  end.
Definition receive_reports : Registry → list report → Registry := foldl receive_report.

(** *** Timers *)

(** Source: src/src/observability.rs:118-122 (PerfTimer) *)
Record PerfTimer := mkTimer { pt_start : Z; pt_operation : string }.
(** Source: src/src/observability.rs:125-130 (PerfTimer::new) *)
Definition PerfTimer_new (operation : string) (now : Z) : PerfTimer := mkTimer now operation.
(** [Instant]s do not go backwards: an earlier one is taken as this one.
    Source: src/src/observability.rs:132-134 (PerfTimer::elapsed_micros) *)
Definition elapsed_micros (timer : PerfTimer) (now : Z) : Z := u64 (Z.max 0 (now - pt_start timer) `div` 1000).
(** Source: src/src/observability.rs:136-140 (PerfTimer::finish) *)
Definition finish (timer : PerfTimer) (now : Z) : Z := elapsed_micros timer now.

(** Source: src/src/observability.rs:161-167 (tests::test_perf_timer) *)
Definition test_perf_timer (before after : Z) : bool :=
  let timer := PerfTimer_new "test_operation" before in 100 <=? elapsed_micros timer after.

(** *** The segment's reports *)
Section measured.
Context `{Crc32}.

(** The record at an offset, with its size.
    Source: src/src/storage.rs:165-176 (RecordSegment::read_record, part) *)
Definition read_sized (s : RecordSegment) (offset : Z) : outcome StorageError (Rec * Z) :=
  let current_pos := seg_write_pos s in
  if current_pos <=? offset then Err (OffsetOutOfBounds offset) else
  data ← unwrap (slice (seg_mmap s) offset current_pos);
  map_err StorageRecord (deserialize data).

(** An append or a read between two readings of the clock, and what it reports:
    failures report nothing. *)
Inductive seg_op := OpAppend (r : Rec) | OpRead (offset : Z).

(** Source: src/src/storage.rs:108-159 (RecordSegment::append_record) *)
Definition measured_append (s : RecordSegment) (r : Rec) (before after : Z) : RecordSegment * list report :=
  let timer := PerfTimer_new "segment_append" before in
  match RecordSegment_append_record s r with
  | (s, Ok off) => (s, record_append (ro_size off) (elapsed_micros timer after) true)
  | (s, _) => (s, [])
  end.
(** Source: src/src/storage.rs:161-183 (RecordSegment::read_record) *)
Definition measured_read (s : RecordSegment) (offset before after : Z) : list report :=
  let timer := PerfTimer_new "segment_read" before in
  match read_sized s offset with
  | Ok (_, size) => record_read size (elapsed_micros timer after) false true
  | _ => []
  end.
Definition measured (s : RecordSegment) (op : seg_op) (before after : Z) : RecordSegment * list report :=
  match op with
  | OpAppend r => measured_append s r before after
  | OpRead offset => (s, measured_read s offset before after)
  end.

Fixpoint use_segment (s : RecordSegment) (g : Registry) (ops : list (seg_op * (Z * Z))) : RecordSegment * Registry :=
  match ops with
  | [] => (s, g)
  | (op, (before, after)) :: ops =>
      let '(s, reports) := measured s op before after in use_segment s (receive_reports g reports) ops
  end.

(** The reads among the operations that return a record. *)
Fixpoint reads_ok (s : RecordSegment) (ops : list (seg_op * (Z * Z))) : Z :=
  match ops with
  | [] => 0
  | (op, (before, after)) :: ops =>
      (match op with OpRead offset => if is_ok (read_sized s offset) then 1 else 0 | _ => 0 end) +
      reads_ok (fst (measured s op before after)) ops
  end.

(** [read_record] drops the size. *)
Lemma read_record_sized s offset : RecordSegment_read_record s offset = fst <$> read_sized s offset.
Proof.
  unfold RecordSegment_read_record, read_sized. destruct (_ <=? _); [done|].
  destruct (unwrap (slice _ _ _)) as [data|e|]; [|done..]. cbn [mbind outcome_bind].
  by destruct (map_err StorageRecord (deserialize data)) as [[r n]|e|].
Qed.
End measured.

(** ** The metrics of a segment *)
Section metrics.
Context `{Crc32Ok}.

Lemma counter_increment g name n other :
  counter (receive_report g (Increment name n)) other =
    if decide (other = name) then u64 (counter g name + n) else counter g other.
Proof.
  unfold counter at 1. cbn. destruct (decide (other = name)) as [->|Hne]; [by rewrite lookup_insert_eq|].
  by rewrite lookup_insert_ne.
Qed.
Lemma counter_value g name x other : counter (receive_report g (RecordValue name x)) other = counter g other.
Proof. done. Qed.
Lemma values_increment g name n other : values (receive_report g (Increment name n)) other = values g other.
Proof. done. Qed.
Lemma values_value g name x other :
  values (receive_report g (RecordValue name x)) other = if decide (other = name) then values g name ++ [x] else values g other.
Proof.
  unfold values at 1. cbn. destruct (decide (other = name)) as [->|Hne]; [by rewrite lookup_insert_eq|]. by rewrite lookup_insert_ne.
Qed.

(** Evaluates what a recorder holds after some reports. *)
Ltac metric :=
  cbn [receive_reports foldl record_append record_read];
  rewrite ?counter_value, ?counter_increment, ?values_increment, ?values_value;
  repeat (first [rewrite decide_True by reflexivity|rewrite decide_False by discriminate]);
  rewrite ?counter_value, ?counter_increment, ?values_increment, ?values_value;
  repeat (first [rewrite decide_True by reflexivity|rewrite decide_False by discriminate]).

(** What a recorder holds of a segment with the log [l] of which [n] reads
    returned a record. *)
Record tracks (g : Registry) (l : list Rec) (n : Z) : Prop := {
  tr_appends : counter g "persistq.append.total" = len l;
  tr_bytes : counter g "persistq.append.bytes_total" = log_size l;
  tr_latencies : len (values g "persistq.append.latency_us") = len l;
  tr_reads : counter g "persistq.read.total" = u64 n;
  tr_misses : counter g "persistq.read.cache_misses" = u64 n;
  tr_never : counter g "persistq.append.errors_total" = 0 ∧ counter g "persistq.read.errors_total" = 0 ∧
    counter g "persistq.read.cache_hits" = 0
}.

Lemma tracks_append g l n r s us :
  seg_repr s (l ++ [r]) → tracks g l n → tracks (receive_reports g (record_append (serialized_size r) us true)) (l ++ [r]) n.
Proof.
  intros Hs [Ha Hb Hl Hr Hm He]. pose proof (repr_pos_le _ _ Hs) as Hpos. pose proof (repr_max _ _ Hs).
  pose proof (log_size_bound _ (repr_wf _ _ Hs)) as Hcount. pose proof (proj1 (proj1 (Forall_app _ _ _) (repr_wf _ _ Hs))) as Hwf.
  pose proof (log_size_bound _ Hwf). pose proof (len_nonneg l).
  pose proof (proj2 (proj1 (Forall_app _ _ _) (repr_wf _ _ Hs))) as [Hr' _]%Forall_cons. pose proof (serialized_size_bounds r Hr').
  rewrite log_size_app, log_size_one in *. rewrite len_app in *. change (len [r]) with 1 in *.
  split; [..|destruct He as (He1 & He2 & He3); split_and!]; metric; try done.
  - rewrite Ha, wrap_id; [by rewrite len_app|unfold in_range; lia].
  - rewrite Hb, (wrap_id _ (serialized_size r)), wrap_id, log_size_app, log_size_one; [done|unfold in_range; lia..].
  - by rewrite !len_app, Hl.
Qed.

Lemma tracks_read g l n size us :
  tracks g l n → tracks (receive_reports g (record_read size us false true)) l (n + 1).
Proof.
  intros [Ha Hb Hl Hr Hm He].
  split; [..|destruct He as (He1 & He2 & He3); split_and!]; metric; try done.
  - rewrite Hr. unfold wrap. apply Zplus_mod_idemp_l.
  - rewrite Hm. unfold wrap. apply Zplus_mod_idemp_l.
Qed.

Lemma use_tracks ops s l g n :
  seg_repr s l → Forall (λ op : seg_op * (Z * Z), match op.1 with OpAppend r => record_wf r | _ => True end) ops → tracks g l n →
  let '(s', g') := use_segment s g ops in ∃ l', seg_repr s' l' ∧ tracks g' l' (n + reads_ok s ops).
Proof.
  intros Hs Hops. revert s l g n Hs. induction Hops as [|[op [before after]] ops Hop _ IH]; intros s l g n Hs Hg.
  - cbn. exists l. by rewrite Z.add_0_r.
  - cbn [use_segment reads_ok]. destruct op as [r|offset]; cbn [measured] in *; unfold measured_append, measured_read in *.
    + destruct (Z.le_gt_cases (log_size l + serialized_size r) (seg_max_size s)) as [Hfit|Hfull].
      * destruct (append_fits s l r Hs Hop Hfit) as (s1 & Ha & Hs1 & _). rewrite Ha. cbn [ro_size fst]. rewrite Z.add_0_l.
        apply (IH s1 (l ++ [r])); [done|]. by apply (tracks_append g l n r s1).
      * rewrite (append_full s l r Hs Hop Hfull). cbn [fst receive_reports foldl]. rewrite Z.add_0_l. by apply (IH s l).
    + destruct (read_sized s offset) as [[r size]|e|]; cbn [fst is_ok receive_reports foldl].
      * rewrite Z.add_assoc. apply (IH s l); [done|]. by apply tracks_read.
      * rewrite Z.add_0_l. by apply (IH s l).
      * rewrite Z.add_0_l. by apply (IH s l).
Qed.

(** C32. The metrics of a segment follow its log: after any sequence of appends
    and reads of a new segment, the counters of appends and of their bytes are the
    numbers of records and of bytes in the segment, there is one latency per
    record, and the counters of reads and cache misses are the number of reads
    that returned a record (modulo 2^64).  The error counters and the
    counter of cache hits stay at zero whatever fails. *)
Theorem metrics_follow_log s ops :
  seg_repr s [] → Forall (λ op : seg_op * (Z * Z), match op.1 with OpAppend r => record_wf r | _ => True end) ops →
  let '(s', g) := use_segment s no_metrics ops in
  counter g "persistq.append.total" = seg_record_count s' ∧
  counter g "persistq.append.bytes_total" = seg_write_pos s' ∧
  len (values g "persistq.append.latency_us") = seg_record_count s' ∧
  counter g "persistq.read.total" = u64 (reads_ok s ops) ∧
  counter g "persistq.read.cache_misses" = u64 (reads_ok s ops) ∧
  counter g "persistq.append.errors_total" = 0 ∧ counter g "persistq.read.errors_total" = 0 ∧
  counter g "persistq.read.cache_hits" = 0.
Proof.
  intros Hs Hops. pose proof (use_tracks ops s [] no_metrics 0 Hs Hops) as Hu.
  destruct (use_segment s no_metrics ops) as [s' g]. destruct Hu as (l & Hl & [Ha Hb Hlat Hr Hm (He1 & He2 & He3)]); [split; [reflexivity..|by split_and!]|].
  rewrite (repr_count _ _ Hl), (repr_pos _ _ Hl). by split_and!.
Qed.

(** The timer's test passes when the clock shows the hundred microseconds it
    slept. *)
Lemma perf_timer_test before after :
  before + 100 * 1000 ≤ after → after - before < 2 ^ 64 → test_perf_timer before after = true.
Proof.
  intros Hb Hmax. unfold test_perf_timer, elapsed_micros, PerfTimer_new. cbn [pt_start]. rewrite Z.max_r by lia.
  assert (100 ≤ (after - before) `div` 1000) by (apply Z.div_le_lower_bound; lia).
  assert ((after - before) `div` 1000 < 2 ^ 64) by (apply Z.div_lt_upper_bound; lia).
  rewrite wrap_id by (unfold in_range; lia). by apply Z.leb_le.
Qed.
End metrics.

(** ** A concrete run *)
Definition empty_sample : RecordSegment :=
  {| seg_path := "s"; seg_max_size := 64; seg_write_pos := 0; seg_record_count := 0;
     seg_mmap := replicate 64 Byte.x00; seg_index := []; seg_index_enabled := false |}.
Lemma empty_sample_repr `{Crc32} : seg_repr empty_sample [].
Proof. split; [constructor|done|by eexists|done..]. Qed.

(** Three appends, of which two fit, and two reads, of which one is of a record. *)
Definition sample_use : list (seg_op * (Z * Z)) :=
  [(OpAppend sample_record, (0, 2000)); (OpRead 0, (3000, 5000)); (OpAppend sample_record, (6000, 7000));
   (OpAppend sample_record, (8000, 9000)); (OpRead 1, (9000, 9000))].

Lemma metrics_follow_log_witness :
  let g := snd (use_segment empty_sample no_metrics sample_use) in
  counter g "persistq.append.total" = 2 ∧ counter g "persistq.append.errors_total" = 0 ∧ counter g "persistq.read.total" = 1.
Proof.
  pose proof (metrics_follow_log empty_sample sample_use empty_sample_repr) as Hm.
  destruct (use_segment empty_sample no_metrics sample_use) as [s g] eqn:Hu.
  destruct Hm as (Ha & _ & _ & Hr & _ & He & _).
  { repeat (apply Forall_cons_2; [cbn; first [exact sample_wf|exact I]|]). apply Forall_nil_2. }
  assert (seg_record_count s = 2) as Hc by (change s with (s, g).1; rewrite <- Hu; vm_compute; reflexivity).
  cbn [snd]. split_and!; [by rewrite Ha, Hc|exact He|]. rewrite Hr. vm_compute. reflexivity.
Defined.
