(* ===== verification/StorageRuns.v ===== *)
(** * Programs that write records one after the other (src/src/storage.rs)

    The loops in which a caller makes a record of each payload, with the time
    of the moment, and appends it to a segment or through a manager; and what
    they leave: the log of the records, in segments filled by next-fit
    packing, and its statistics.  The tests and examples use them. *)

From stdpp Require Import base list list_numbers numbers strings.
From Stdlib Require Import Strings.Byte.
From S2P Require Import Prelude Crc32 F64 RecordFormat StorageEngine.
Local Open Scope Z_scope.

(** ** Definitions *)

(** The errors such a loop ends with. *)
Inductive run_error :=
  | RunRecord (e : RecordError)
  | RunStorage (e : StorageError).

Section runs.
Context `{Crc32} `{Os}.

(** [now i] is the clock when record [i] is made. *)
Fixpoint segment_writes (now : nat → Z) (i : nat) (segment : RecordSegment) (payloads : list bytes)
    : outcome run_error RecordSegment :=
  match payloads with
  | [] => Ok segment
  | data :: payloads =>
      record ← map_err RunRecord (record_new (now i) data);
      let '(segment, appended) := RecordSegment_append_record segment record in
      _ ← map_err RunStorage appended;
      segment_writes now (S i) segment payloads
  end.

Fixpoint manager_writes (fuel : nat) (now : nat → Z) (i : nat) (manager : SegmentManager) (payloads : list bytes)
    : option (outcome run_error SegmentManager) :=
  match payloads with
  | [] => Some (Ok manager)
  | data :: payloads =>
      match map_err RunRecord (record_new (now i) data) with
      | Ok record =>
          '(manager, appended) ← SegmentManager_append_record fuel manager record;
          match map_err RunStorage appended with
          | Ok _ => manager_writes fuel now (S i) manager payloads
          | Err e => Some (Err e)
          | Panic => Some Panic
          end
      | Err e => Some (Err e)
      | Panic => Some Panic
      end
  end.

(** The records made. *)
Fixpoint new_records (now : nat → Z) (i : nat) (payloads : list bytes) : list Rec :=
  match payloads with
  | [] => []
  | data :: payloads => {| rec_timestamp := now i; rec_data := data |} :: new_records now (S i) payloads
  end.

(** The sizes they take in a file. *)
Definition record_sizes (payloads : list bytes) : list Z := map (λ d, RECORD_HEADER_SIZE + len d) payloads.
End runs.

(** A machine that grants what these programs ask of it. *)
Record os_grants `{Os} : Prop := {
  og_dir : ∀ dir, os_create_dir_all dir = Ok tt;
  og_map : ∀ path size, 0 ≤ size < 2 ^ 63 → is_ok (os_map_file path size) = true;
  og_flush : ∀ path mm, os_flush path mm = Ok tt
}.

Lemma zero_os_grants : os_grants.
Proof. split; try done. intros path size Hsize. cbn. by rewrite (proj2 (Z.ltb_ge _ _)) by lia. Qed.

(** ** Lemmas *)
Section opening.
Context `{Crc32Ok} `{OsOk} (Hos : os_grants).

Lemma segment_opens path size en :
  0 ≤ size < 2 ^ 63 →
  ∃ s, RecordSegment_new path size en = Ok s ∧ seg_repr s [] ∧ seg_max_size s = size ∧ seg_index_enabled s = en.
Proof.
  intros Hsize. pose proof (og_map Hos path size Hsize) as Hm.
  destruct (RecordSegment_new path size en) as [s|e|] eqn:Hnew;
    [|unfold RecordSegment_new in Hnew; by destruct (os_map_file path size)..].
  exists s. split; [done|]. by apply (segment_new_repr path size en s).
Qed.

Lemma manager_opens pid size dir en :
  0 ≤ size < 2 ^ 63 →
  ∃ m seg, SegmentManager_new pid size dir en = Ok m ∧ mgr_repr m [] seg [] [] ∧ sm_segment_size m = size ∧
    seg_index_enabled seg = en.
Proof.
  intros Hsize. unfold SegmentManager_new. rewrite (og_dir Hos). cbn [map_err mbind outcome_bind].
  unfold create_new_segment. cbn [sm_segment_size sm_index_enabled sm_segments].
  destruct (segment_opens (segment_path {| sm_partition_id := pid; sm_segments := []; sm_current_segment := None;
    sm_segment_size := size; sm_storage_dir := dir; sm_index_enabled := en |} (@len RecordSegment [])) size en Hsize)
    as (s & -> & Hs & Hmax & Hen).
  cbn [mbind outcome_bind]. eexists _, s. split; [done|]. split; [|done]. by split.
Qed.

Lemma flush_ok s : RecordSegment_flush s = Ok tt.
Proof. unfold RecordSegment_flush. by rewrite (og_flush Hos). Qed.
Lemma manager_flush_ok m : SegmentManager_flush m = Ok tt.
Proof. unfold SegmentManager_flush. induction (sm_segments m) as [|s ss IH]; [done|]. cbn [flush_all]. by rewrite flush_ok. Qed.
End opening.

Section lemmas.
Context `{Crc32Ok} `{OsOk}.
Context (now : nat → Z) (Hnow : ∀ i, in_range 64 (now i)).

Lemma new_record_wf i d : len d ≤ MAX_RECORD_SIZE → record_wf {| rec_timestamp := now i; rec_data := d |}.
Proof. intros Hd. split; [apply Hnow|exact Hd]. Qed.

Lemma new_records_length i payloads : length (new_records now i payloads) = length payloads.
Proof. revert i. induction payloads as [|d ds IH]; intros i; [done|]. cbn. by rewrite IH. Qed.

Lemma new_records_data i payloads : map rec_data (new_records now i payloads) = payloads.
Proof. revert i. induction payloads as [|d ds IH]; intros i; [done|]. cbn. by rewrite IH. Qed.

Lemma new_records_wf i payloads :
  Forall (λ d, len d ≤ MAX_RECORD_SIZE) payloads → Forall record_wf (new_records now i payloads).
Proof. intros Hd. revert i. induction Hd as [|d ds Hd _ IH]; intros i; [done|]. constructor; [by apply new_record_wf|apply IH]. Qed.

Lemma new_records_sizes i payloads :
  Forall (λ d, len d ≤ MAX_RECORD_SIZE) payloads → map serialized_size (new_records now i payloads) = record_sizes payloads.
Proof.
  intros Hd. revert i. induction Hd as [|d ds Hd _ IH]; intros i; [done|]. cbn [new_records map record_sizes].
  rewrite serialized_size_wf by (by apply new_record_wf). cbn [rec_data]. by rewrite IH.
Qed.

Lemma zsum_map {A B} (g : A → B) (h : B → Z) l : zsum h (map g l) = zsum (λ x, h (g x)) l.
Proof. unfold zsum. induction l as [|x l IH]; [done|]. cbn. by rewrite IH. Qed.

Lemma new_records_size i payloads :
  Forall (λ d, len d ≤ MAX_RECORD_SIZE) payloads → log_size (new_records now i payloads) = zsum id (record_sizes payloads).
Proof.
  intros Hd. rewrite <- (new_records_sizes i) by done. unfold log_size. by rewrite zsum_map.
Qed.

Lemma record_new_ok i d :
  len d ≤ MAX_RECORD_SIZE → record_new (now i) d = Ok {| rec_timestamp := now i; rec_data := d |}.
Proof. intros Hd. unfold record_new. by rewrite (proj2 (Z.ltb_ge _ _)). Qed.

Lemma segment_writes_ok payloads i s l :
  seg_repr s l → Forall (λ d, len d ≤ MAX_RECORD_SIZE) payloads →
  log_size l + zsum id (record_sizes payloads) ≤ seg_max_size s →
  ∃ s', segment_writes now i s payloads = Ok s' ∧ seg_repr s' (l ++ new_records now i payloads) ∧ same_config s s'.
Proof.
  revert i s l. induction payloads as [|d ds IH]; intros i s l Hs Hd Hfit.
  - exists s. cbn. by rewrite app_nil_r.
  - apply Forall_cons in Hd as [Hd Hds]. cbn [record_sizes map zsum foldr id] in Hfit.
    change (foldr _ 0 (map _ ds)) with (zsum id (record_sizes ds)) in Hfit.
    set (r := {| rec_timestamp := now i; rec_data := d |}).
    assert (record_wf r) as Hr by (by apply new_record_wf). assert (serialized_size r = 20 + len d) as Hsz by exact (serialized_size_wf r Hr).
    assert (0 ≤ zsum id (record_sizes ds)) as H0'.
    { rewrite <- (new_records_size (S i)) by done. pose proof (log_size_bound _ (new_records_wf (S i) ds Hds)).
      pose proof (len_nonneg (new_records now (S i) ds)). lia. }
    unfold RECORD_HEADER_SIZE in Hfit.
    destruct (append_fits s l r Hs Hr) as (s1 & Ha & Hs1 & Hc1); [lia|].
    destruct (IH (S i) s1 _ Hs1 Hds) as (s' & Hw & Hs' & Hc').
    { destruct Hc1 as (_ & -> & _). rewrite log_size_app, log_size_one. lia. }
    exists s'. cbn [segment_writes new_records]. rewrite record_new_ok by done. fold r.
    cbn [map_err mbind outcome_bind]. rewrite Ha. cbn [map_err mbind outcome_bind].
    rewrite Hw. rewrite <- app_assoc in Hs'. split; [done|]. split; [done|].
    unfold same_config in *. intuition congruence.
Qed.

Lemma manager_writes_ok payloads i m init seg linit l :
  mgr_repr m init seg linit l → (∀ path, is_ok (os_map_file path (sm_segment_size m)) = true) →
  Forall (λ d, len d ≤ MAX_RECORD_SIZE) payloads → Forall (λ n, n ≤ sm_segment_size m) (record_sizes payloads) →
  ∃ m' init' seg' linit' l', manager_writes 2 now i m payloads = Some (Ok m') ∧
    mgr_repr m' init' seg' linit' l' ∧ same_manager m m' ∧
    concat (linit' ++ [l']) = concat (linit ++ [l]) ++ new_records now i payloads ∧
    (log_size l', len init' + 1) = foldl (pack (sm_segment_size m)) (log_size l, len init + 1) (record_sizes payloads).
Proof.
  revert i m init seg linit l. induction payloads as [|d ds IH]; intros i m init seg linit l Hm Hos Hd Hsize.
  - exists m, init, seg, linit, l. cbn. by rewrite app_nil_r.
  - apply Forall_cons in Hd as [Hd Hds]. cbn [record_sizes map] in Hsize. apply Forall_cons in Hsize as [Hsz Hsize].
    set (r := {| rec_timestamp := now i; rec_data := d |}).
    assert (record_wf r) as Hr by (by apply new_record_wf). assert (serialized_size r = RECORD_HEADER_SIZE + len d) as Hrs by exact (serialized_size_wf r Hr).
    destruct (append_ok m init seg linit l r Hm Hr) as (m1 & off & init1 & seg1 & linit1 & l1 & Ha & Hm1 & Hc1 & Hcat & Hpack);
      [by rewrite Hrs|done|]. pose proof Hc1 as (_ & Hsz1 & _).
    destruct (IH (S i) m1 _ _ _ _ Hm1) as (m' & init' & seg' & linit' & l' & Hw & Hm' & Hc' & Hcat' & Hpack');
      [by rewrite Hsz1|done|by rewrite Hsz1|].
    exists m', init', seg', linit', l'. cbn [manager_writes new_records]. rewrite record_new_ok by done. fold r.
    cbn [map_err]. rewrite Ha. cbn [mbind option_bind map_err]. rewrite Hw.
    split; [done|]. split; [done|]. split; [unfold same_manager in *; intuition congruence|].
    split; [by rewrite Hcat', Hcat, <- app_assoc|].
    rewrite Hpack', Hpack, Hsz1. cbn [record_sizes map foldl]. by rewrite Hrs.
Qed.

(** The statistics of a manager that stores a sequence of records. *)
Lemma stats_of_logs m init seg linit l :
  mgr_repr m init seg linit l → log_size (concat (linit ++ [l])) < 2 ^ 64 →
  ms_segment_count (SegmentManager_stats m) = len init + 1 ∧
  ms_total_records (SegmentManager_stats m) = len (concat (linit ++ [l])) ∧
  ms_total_bytes (SegmentManager_stats m) = log_size (concat (linit ++ [l])).
Proof.
  intros Hm Hb.
  assert (Forall2 seg_repr (sm_segments m) (linit ++ [l])) as Hsegs.
  { rewrite (mr_segments _ _ _ _ _ Hm). apply Forall2_app; [by destruct Hm|]. constructor; [by destruct Hm|done]. }
  assert (∀ ss ls, Forall2 seg_repr ss ls → zsum seg_record_count ss = len (concat ls) ∧
    zsum seg_write_pos ss = log_size (concat ls) ∧ Forall record_wf (concat ls) ∧
    (∀ s, s ∈ ss → 0 ≤ seg_record_count s ∧ 0 ≤ seg_write_pos s)) as Hsum.
  { clear. induction 1 as [|s l ss ls Hs _ (IH1 & IH2 & IH3 & IH4)]; [split_and!; try done; by intros s Hs%not_elem_of_nil|].
    cbn [zsum foldr concat]. change (foldr _ 0 ss) with (zsum seg_record_count ss) at 1.
    change (foldr (λ x acc, seg_write_pos x + acc) 0 ss) with (zsum seg_write_pos ss).
    rewrite len_app, log_size_app, (repr_count _ _ Hs), (repr_pos _ _ Hs). split_and!; [lia|lia| |].
    - apply Forall_app. split; [apply (repr_wf _ _ Hs)|done].
    - intros s' [->|Hin]%elem_of_cons; [|by apply IH4]. rewrite (repr_count _ _ Hs), (repr_pos _ _ Hs).
      pose proof (repr_pos_le _ _ Hs). pose proof (len_nonneg l). lia. }
  destruct (Hsum _ _ Hsegs) as (Hc & Hp & Hwf & Hpos). pose proof (log_size_bound _ Hwf). pose proof (len_nonneg (concat (linit ++ [l]))).
  unfold SegmentManager_stats. cbn [ms_segment_count ms_total_records ms_total_bytes].
  split; [by rewrite (mr_segments _ _ _ _ _ Hm), len_snoc|].
  rewrite <- Hc, <- Hp in *. split; (apply sum_u64_exact_in; [|lia]); apply Forall_forall; intros s Hs; by apply Hpos.
Qed.
End lemmas.
