(* ===== verification/Disk.v ===== *)
(** * Segments on a disk (src/src/storage.rs)

    A disk gives the files their bytes: opening a segment maps the file as a
    former run left it, and what a run wrote is in the files when it ends.  Here
    are what a run of the manager leaves in the files, and what a segment opened
    on a file that is already there makes of it. *)

From stdpp Require Import base list numbers strings gmap pretty.
From Stdlib Require Import Strings.Byte.
From S2P Require Import Prelude Crc32 RecordFormat F64 StorageEngine.
Local Open Scope Z_scope.

(** ** Definitions *)

(** The files, by path. *)
Abbreviation disk := (gmap string bytes).

(** [OpenOptions] with [create] and without [truncate] keeps what the file has;
    [set_len] cuts it or extends it with zeros; the mapping is of that.
    Source: src/src/storage.rs:84-95 (RecordSegment::new, part) *)
Definition open_file (d : disk) (path : string) (size : Z) : bytes :=
  resize (Z.to_nat size) x00 (default [] (d !! path)).

(** A machine with the disk [d], where nothing fails but a negative size. *)
Definition disk_os (d : disk) : Os := {|
  os_map_file path size := if size <? 0 then Err (SetLen, "invalid argument") else Ok (open_file d path size);
  os_flush _ _ := Ok tt;
  os_create_dir_all _ := Ok tt
|}.

(** The mappings are shared: the files have what was written to them. *)
Definition leave_segment (d : disk) (s : RecordSegment) : disk := <[seg_path s := seg_mmap s]> d.
Definition leave_manager (d : disk) (m : SegmentManager) : disk := foldl leave_segment d (sm_segments m).

(** A caller that appends to one segment and goes on when it is acknowledged. *)
Fixpoint segment_append_each `{Crc32} (s : RecordSegment) (rs : list Rec) : option RecordSegment :=
  match rs with
  | [] => Some s
  | r :: rs => match RecordSegment_append_record s r with
               | (s, Ok _) => segment_append_each s rs
               | _ => None
               end
  end.

(** The records at the start of a file: what a recovery could read from it.
    The repository has none: this is the specification of what a file holds. *)
Fixpoint scan `{Crc32} (fuel : nat) (bs : bytes) : list Rec :=
  match fuel with
  | O => []
  | S fuel => match deserialize bs with
              | Ok (r, n) => r :: scan fuel (zdrop n bs)
              | _ => []
              end
  end.
Definition records_of `{Crc32} (file : option bytes) : list Rec :=
  let bs := default [] file in scan (length bs) bs.

(** ** Files *)

Lemma resize_len {A} n (x : A) l : 0 ≤ n → len (resize (Z.to_nat n) x l) = n.
Proof. intros Hn. unfold len. rewrite length_resize. lia. Qed.

Lemma resize_same {A} (x : A) l : resize (Z.to_nat (len l)) x l = l.
Proof. unfold len. rewrite Nat2Z.id. apply resize_all. Qed.

#[export] Instance disk_os_ok d : @OsOk (disk_os d).
Proof.
  constructor. intros path size m. cbn. destruct (size <? 0) eqn:Hs; [done|]. intros [= <-]. zbool.
  by apply resize_len.
Qed.

Lemma disk_map_ok d path size : 0 ≤ size → os_map_file (Os := disk_os d) path size = Ok (open_file d path size).
Proof. intros Hs. cbn. by zif. Qed.

Lemma open_new_file d path size : 0 ≤ size → d !! path = None → open_file d path size = replicate (Z.to_nat size) x00.
Proof. intros Hs Hp. unfold open_file. rewrite Hp. apply resize_nil. Qed.

(** A string is determined by itself followed by a suffix. *)
Lemma append_inj_r (s1 s2 t : string) : s1 +:+ t = s2 +:+ t → s1 = s2.
Proof.
  assert (∀ s t, String.length (s +:+ t) = (String.length s + String.length t)%nat) as Hlen
    by (intros s u; induction s as [|c s IH]; [reflexivity|]; simpl; rewrite IH; reflexivity).
  revert s2. induction s1 as [|a s1 IH]; intros [|b s2] He; [done| | |].
  - apply (f_equal String.length) in He. rewrite !Hlen in He. cbn in He. lia.
  - apply (f_equal String.length) in He. rewrite !Hlen in He. cbn in He. lia.
  - cbn in He. injection He as -> He. by rewrite (IH s2 He).
Qed.

Lemma segment_path_inj m i j : segment_path m i = segment_path m j → i = j.
Proof.
  unfold segment_path. intros He.
  do 4 apply (inj (String.append _)) in He. apply append_inj_r in He. by apply (inj pretty) in He.
Qed.

Section recovery.
Context `{Crc32Ok}.

(** Zeros are not a record. *)
Lemma zeros_not_a_record n r k : deserialize (replicate n x00) ≠ Ok (r, k).
Proof.
  unfold deserialize, RECORD_HEADER_SIZE. rewrite len_replicate. destruct (_ <? _) eqn:Hn; [done|]. zbool.
  replace n with (4 + (n - 4))%nat by lia. rewrite replicate_add.
  by rewrite (slice_head (replicate 4 x00) _ 0 4).
Qed.

Lemma scan_log l tail fuel :
  Forall record_wf l → (∀ r k, deserialize tail ≠ Ok (r, k)) → (length l ≤ fuel)%nat →
  scan fuel (log_bytes l ++ tail) = l.
Proof.
  intros Hl Htail. revert fuel. induction Hl as [|r l Hr Hl IH]; intros fuel Hf.
  - destruct fuel as [|fuel]; [done|]. cbn [scan]. change (log_bytes [] ++ tail) with tail.
    destruct (deserialize tail) as [[r k]| |] eqn:Hd; [|done..]. by destruct (Htail r k).
  - cbn [length] in Hf. destruct fuel as [|fuel]; [lia|]. cbn [scan].
    rewrite log_bytes_cons, <- app_assoc, deserialize_serialize by done.
    rewrite <- (framed_size_wf r Hr). unfold framed_size. rewrite zdrop_app. by rewrite IH by lia.
Qed.

(** A file with a log and zeros after it holds that log. *)
Lemma records_of_log l n : Forall record_wf l → records_of (Some (log_bytes l ++ replicate n x00)) = l.
Proof.
  intros Hl. unfold records_of. cbn [default from_option id]. apply scan_log; [done|apply zeros_not_a_record|].
  pose proof (log_size_bound l Hl). pose proof (len_log_bytes l Hl). unfold len in *.
  rewrite length_app. lia.
Qed.
End recovery.

(** ** What a run leaves in its files *)

(** The segment [s], opened on a file with the bytes [init], has written [w]
    over the start of them. *)
Record written_over (init w : bytes) (s : RecordSegment) : Prop := {
  wo_mmap : seg_mmap s = w ++ zdrop (len w) init;
  wo_pos : seg_write_pos s = len w;
  wo_fits : len w ≤ len init;
  wo_max : seg_max_size s = len init;
  wo_small : len init < 2 ^ 63
}.

(** Every segment of the manager is over the file of its number. *)
Definition on_disk (d : disk) (m : SegmentManager) : Prop :=
  0 ≤ sm_segment_size m < 2 ^ 63 ∧
  ∀ i s, sm_segments m !! i = Some s →
    seg_path s = segment_path m (Z.of_nat i) ∧
    ∃ w, written_over (open_file d (segment_path m (Z.of_nat i)) (sm_segment_size m)) w s.

Section run_lemmas.
Context `{Crc32Ok}.

Lemma written_over_new d path size en s :
  0 ≤ size < 2 ^ 63 → RecordSegment_new (H0 := disk_os d) path size en = Ok s →
  seg_path s = path ∧ written_over (open_file d path size) [] s.
Proof.
  intros Hs. unfold RecordSegment_new. rewrite disk_map_ok by lia. intros [= <-]. split; [done|].
  split; cbn; rewrite ?len_nil; unfold open_file; rewrite ?resize_len by lia; (done || lia).
Qed.

(** An append writes the frame after what is written, or changes nothing. *)
Lemma append_over init w s r :
  written_over init w s → record_wf r →
  match RecordSegment_append_record s r with
  | (s', Ok _) => seg_path s' = seg_path s ∧ written_over init (w ++ fr_bytes (serialize r)) s'
  | (s', _) => s' = s
  end.
Proof.
  intros [Hm Hp Hw Hmax Hsmall] Hr. pose proof (serialized_size_bounds r Hr) as Hsz. pose proof (len_nonneg w).
  unfold RecordSegment_append_record. rewrite framed_size_wf by done. unfold with_write_pos; seg_cbn.
  rewrite wrap_add_sub by (rewrite Hp; unfold in_range; lia). rewrite Hp, Hmax, !wrap_id by (unfold in_range; lia).
  destruct (len init <? len w + serialized_size r) eqn:Hf; zbool; [destruct s; seg_cbn; by subst|].
  pose proof (framed_size_wf r Hr) as Hfr. unfold framed_size in Hfr.
  assert (zdrop (len w) init = ztake (serialized_size r) (zdrop (len w) init) ++
    zdrop (len (w ++ fr_bytes (serialize r))) init) as Hsplit.
  { rewrite <- (ztake_zdrop (serialized_size r) (zdrop (len w) init)) at 1. f_equal.
    unfold zdrop. rewrite drop_drop, len_app. f_equal. lia. }
  rewrite Hm, Hsplit. rewrite copy_from_slice_app; try done.
  2,3: rewrite len_ztake by (rewrite len_zdrop by lia; lia); done.
  split; [done|]. split; seg_cbn; rewrite ?len_app, ?Hfr; try lia. by rewrite <- app_assoc.
Qed.

Lemma append_each_over rs init w s s' :
  written_over init w s → Forall record_wf rs → segment_append_each s rs = Some s' →
  seg_path s' = seg_path s ∧ written_over init (w ++ log_bytes rs) s'.
Proof.
  revert w s. induction rs as [|r rs IH]; intros w s Hs Hrs Ha.
  - injection Ha as <-. change (log_bytes []) with (@nil Byte.byte). by rewrite app_nil_r.
  - apply Forall_cons in Hrs as [Hr Hrs]. cbn [segment_append_each] in Ha.
    pose proof (append_over init w s r Hs Hr) as Hs1.
    destruct (RecordSegment_append_record s r) as [s1 [off|e|]]; [|done..]. destruct Hs1 as [Hp Hs1].
    destruct (IH _ s1 Hs1 Hrs Ha) as [Hp' Hs']. rewrite Hp', Hp. split; [done|].
    by rewrite log_bytes_cons, app_assoc.
Qed.

(** What a segment holds is what it wrote. *)
Lemma over_repr init w s l : written_over init w s → seg_repr s l → w = log_bytes l.
Proof.
  intros [Hm Hp _ _ _] Hs. destruct (repr_mmap _ _ Hs) as [free Hf].
  pose proof (len_log_bytes l (repr_wf _ _ Hs)) as Hl. rewrite Hm in Hf.
  rewrite (repr_pos _ _ Hs) in Hp. apply (app_inj_1 w (log_bytes l)) in Hf as [-> _]; [done|].
  unfold len in *. lia.
Qed.

Context (d : disk).
#[local] Instance Here : Os := disk_os d.

Lemma on_disk_set m i s s' :
  on_disk d m → sm_segments m !! i = Some s → seg_path s' = seg_path s →
  (∃ w, written_over (open_file d (seg_path s) (sm_segment_size m)) w s') →
  on_disk d (set_segment m i s').
Proof.
  intros [Hsz Hm] Hi Hp Hw. split; [done|]. intros j t. cbn [set_segment sm_segments].
  destruct (Hm i s Hi) as [Hpi _]. intros [(-> & -> & _)|[_ Ht]]%list_lookup_insert_Some; [|by apply Hm].
  rewrite Hp, Hpi in *. by split.
Qed.

Lemma on_disk_create m : on_disk d m → on_disk d (create_new_segment m).1.
Proof.
  intros [Hsz Hm]. unfold create_new_segment.
  destruct (RecordSegment_new _ _ _) as [s| |] eqn:Hnew; [|by split..]. split; [done|]. cbn.
  destruct (written_over_new _ _ _ _ _ Hsz Hnew) as [Hp Hw].
  intros i t [Ht|[Hlen Ht]]%lookup_app_Some; [by apply Hm|].
  destruct (i - length (sm_segments m))%nat eqn:Hi; [|done]. injection Ht as <-.
  replace (Z.of_nat i) with (len (sm_segments m)) by (unfold len; lia). split; [exact Hp|by exists []].
Qed.

Lemma on_disk_slow m r :
  on_disk d m → match append_slow_path r m with Continue m' => on_disk d m' | Return m' _ => on_disk d m' end.
Proof.
  intros Hm. pose proof (on_disk_create m Hm) as Hc. unfold append_slow_path.
  destruct (match current_segment m with Some _ => _ | None => _ end); [done|].
  by destruct (create_new_segment m) as [m' [[]| |]].
Qed.

Lemma on_disk_body r m :
  record_wf r → on_disk d m →
  match append_record_body r m with Continue m' => on_disk d m' | Return m' _ => on_disk d m' end.
Proof.
  intros Hr Hm. unfold append_record_body.
  destruct (current_segment m) as [[i s]|] eqn:Hc; [|by apply on_disk_slow].
  assert (sm_segments m !! i = Some s) as Hi.
  { unfold current_segment in Hc. destruct (sm_current_segment m) as [j|]; [|done]. cbn in Hc.
    destruct (sm_segments m !! j) eqn:Hj; [|done]. by injection Hc as -> ->. }
  destruct (RecordSegment_has_space _ _); [|by apply on_disk_slow].
  pose proof Hm as [_ Hm0]. destruct (Hm0 i s Hi) as (Hp & w & Hw). pose proof (append_over _ w s r Hw Hr) as Ha.
  rewrite <- Hp in Hw, Ha.
  destruct (RecordSegment_append_record s r) as [s' [off|e|]].
  - destruct Ha as [Hp' Hw']. apply (on_disk_set m i s s' Hm Hi Hp'). eauto.
  - subst s'. assert (on_disk d (set_segment m i s)) as Hm' by (eapply on_disk_set; eauto).
    destruct e; [by apply on_disk_slow|done..].
  - subst s'. eapply on_disk_set; eauto.
Qed.

Lemma body_same r m :
  match append_record_body r m with Continue m' => same_manager m m' | Return m' _ => same_manager m m' end.
Proof.
  assert (∀ m, same_manager m (create_new_segment m).1) as Hc
    by (intros m0; unfold create_new_segment; by destruct (RecordSegment_new _ _ _)).
  assert (∀ m, match append_slow_path r m with Continue m' => same_manager m m' | Return m' _ => same_manager m m' end) as Hs.
  { intros m0. specialize (Hc m0). unfold append_slow_path.
    destruct (match current_segment m0 with Some _ => _ | None => _ end); [done|].
    by destruct (create_new_segment m0) as [m' [[]| |]]. }
  unfold append_record_body. destruct (current_segment m) as [[i s]|]; [|apply Hs].
  destruct (RecordSegment_has_space _ _); [|apply Hs].
  destruct (RecordSegment_append_record s r) as [s' [off|[]|]]; try done. apply (Hs (set_segment m i s')).
Qed.

Lemma append_each_on_disk rs m m' :
  on_disk d m → Forall record_wf rs → append_each m rs = Some m' → on_disk d m' ∧ same_manager m m'.
Proof.
  revert m. induction rs as [|r rs IH]; intros m Hm Hrs; [by intros [= <-]|].
  apply Forall_cons in Hrs as [Hr Hrs]. cbn [append_each].
  destruct (SegmentManager_append_record 2 m r) as [[m1 [off| |]]|] eqn:Ha; [|done..]. intros Hrest.
  assert (on_disk d m1 ∧ same_manager m m1) as [H1 (Hp & Hs & Hd & He)].
  { apply (run_loop_preserves _ (λ m1, on_disk d m1 ∧ same_manager m m1) 2 m m1 _) in Ha; [done| |by split].
    intros m2 [H2 (Hp & Hs & Hd & He)]. pose proof (on_disk_body r m2 Hr H2) as Hb. pose proof (body_same r m2) as Hsame.
    unfold same_manager in *. destruct (append_record_body r m2); rewrite Hp, Hs, Hd, He in Hsame; by split. }
  destruct (IH m1 H1 Hrs Hrest) as [H2 Hsame]. split; [done|]. unfold same_manager in *. by rewrite Hp, Hs, Hd, He in Hsame.
Qed.

Lemma new_manager_on_disk pid size dir en m :
  0 ≤ size < 2 ^ 63 → SegmentManager_new pid size dir en = Ok m → on_disk d m.
Proof.
  intros Hs. unfold SegmentManager_new. cbn [os_create_dir_all Here disk_os map_err mbind outcome_bind].
  match goal with |- context [create_new_segment ?m0] => pose proof (on_disk_create m0) as Hc end.
  destruct (create_new_segment _) as [m1 [[]| |]]; [|done..]. intros [= <-]. apply Hc. split; [done|]. by intros i s.
Qed.

(** The files of a manager's segments, when it leaves. *)
Lemma leave_lookup segs d0 i s :
  (∀ i j s t, segs !! i = Some s → segs !! j = Some t → seg_path s = seg_path t → i = j) →
  segs !! i = Some s → foldl leave_segment d0 segs !! seg_path s = Some (seg_mmap s).
Proof.
  revert i s. induction segs as [|t segs IH] using rev_ind; intros i s Hinj Hi; [done|].
  rewrite foldl_snoc. unfold leave_segment at 1.
  apply lookup_app_Some in Hi as [Hi|[Hlen Hi]].
  - rewrite lookup_insert_ne.
    + apply IH with i; [|done]. intros j k u v Hj Hk. apply Hinj; by apply lookup_app_l_Some.
    + intros He. apply (Hinj (length segs) i t s) in He; [|by rewrite list_lookup_middle|by apply lookup_app_l_Some].
      apply lookup_lt_Some in Hi. lia.
  - destruct (i - length segs)%nat; [|done]. injection Hi as <-. apply lookup_insert_eq.
Qed.

Lemma leave_manager_lookup m i s :
  on_disk d m → sm_segments m !! i = Some s →
  leave_manager d m !! segment_path m (Z.of_nat i) = Some (seg_mmap s).
Proof.
  intros [_ Hm] Hi. destruct (Hm i s Hi) as [Hp _]. rewrite <- Hp. apply (leave_lookup _ _ i); [|done].
  intros j k t u Hj Hk He. destruct (Hm j t Hj) as [Hpj _]. destruct (Hm k u Hk) as [Hpk _].
  rewrite Hpj, Hpk in He. apply segment_path_inj in He. lia.
Qed.
End run_lemmas.

(** ** Properties *)
Section disk_properties.
Context `{Crc32Ok}.

Lemma on_disk_files d m ls :
  (∀ i, d !! segment_path m i = None) → on_disk d m → Forall2 seg_repr (sm_segments m) ls →
  map (λ i, records_of (leave_manager d m !! segment_path m (Z.of_nat i))) (seq 0 (length (sm_segments m))) = ls.
Proof.
  intros Hnew Hm Hls. apply list_eq. intros i. rewrite list_lookup_fmap.
  destruct (decide (i < length (sm_segments m))%nat) as [Hi|Hi].
  - rewrite lookup_seq_lt by done. cbn [fmap option_fmap option_map Nat.add].
    destruct (lookup_lt_is_Some_2 _ _ Hi) as [s Hs].
    destruct (Forall2_lookup_l _ _ _ _ _ Hls Hs) as (l & Hl & Hr). rewrite Hl. f_equal.
    rewrite (leave_manager_lookup d m i s Hm Hs). destruct Hm as [Hsz Hm]. destruct (Hm i s Hs) as (_ & w & Hw).
    pose proof (over_repr _ _ _ _ Hw Hr) as ->. rewrite (wo_mmap _ _ _ Hw), open_new_file by (lia || done).
    unfold zdrop. rewrite drop_replicate. apply records_of_log, (repr_wf _ _ Hr).
  - rewrite !lookup_ge_None_2; [done|by rewrite <- (Forall2_length _ _ _ Hls); lia|by rewrite length_seq; lia].
Qed.

(** C5. Acknowledged records are in the files: after a run of a manager whose
    files are new, scanning the files it leaves, segment by segment, gives
    exactly the records it acknowledged, in order. *)
Theorem acknowledged_records_are_in_the_files d pid size dir en m rs :
  0 ≤ size < 2 ^ 63 → (∀ i, d !! segment_path m i = None) →
  SegmentManager_new (H0 := disk_os d) pid size dir en = Ok m →
  Forall (λ r, record_wf r ∧ serialized_size r ≤ size) rs →
  ∃ m', append_each (H0 := disk_os d) m rs = Some m' ∧
    concat (map (λ i, records_of (leave_manager d m' !! segment_path m (Z.of_nat i)))
      (seq 0 (length (sm_segments m')))) = rs.
Proof.
  intros Hsz Hfree Hnew Hrs. pose proof (disk_os_ok d) as Hos.
  assert (∀ path, is_ok (os_map_file (Os := disk_os d) path size) = true) as Hmap
    by (intros path; by rewrite disk_map_ok by lia).
  destruct (manager_new_repr (H1 := disk_os d) pid size dir en m Hsz eq_refl Hmap Hnew) as (Hs & seg & Hm).
  rewrite <- Hs in Hmap, Hrs.
  destruct (append_each_ok (H1 := disk_os d) rs m [] seg [] [] Hm Hmap Hrs) as (m' & ls & Ha & Hls & Hc).
  exists m'. split; [done|].
  destruct (append_each_on_disk d rs m m') as [Hd (Hp & _ & Hdir & _)];
    [by eapply new_manager_on_disk|by eapply Forall_impl; [exact Hrs|]; intros r [? _]|done|].
  assert (∀ i, segment_path m' i = segment_path m i) as Hpath by (intros i; unfold segment_path; by rewrite Hp, Hdir).
  rewrite <- (on_disk_files d m' ls) in Hc; [|by intros i; rewrite Hpath|done|done].
  etrans; [|exact Hc]. f_equal. apply list_fmap_ext. intros _ i _. by rewrite Hpath.
Qed.

(** Appending to a segment with room for all of it. *)
Lemma segment_append_each_repr rs s l :
  seg_repr s l → Forall record_wf rs → log_size (l ++ rs) ≤ seg_max_size s →
  ∃ s', segment_append_each s rs = Some s' ∧ seg_repr s' (l ++ rs) ∧ same_config s s'.
Proof.
  revert s l. induction rs as [|r rs IH]; intros s l Hs Hrs Hfit.
  - exists s. by rewrite app_nil_r.
  - apply Forall_cons in Hrs as [Hr Hrs]. rewrite log_size_app, log_size_cons in Hfit.
    pose proof (log_size_bound rs Hrs). pose proof (len_nonneg rs).
    destruct (append_fits s l r Hs Hr) as (s1 & Ha & Hs1 & Hp1 & Hm1 & He1); [lia|].
    destruct (IH s1 (l ++ [r]) Hs1 Hrs) as (s' & Ha' & Hs' & Hp' & Hm' & He').
    { rewrite !log_size_app, log_size_one, Hm1. lia. }
    exists s'. cbn [segment_append_each]. rewrite Ha. split; [done|].
    rewrite <- app_assoc in Hs'. split; [done|]. split_and!; congruence.
Qed.

(** A segment opened on the file of an earlier run starts from nothing: it
    holds no record and refuses every read, and what it appends is written over
    what is there.  After the records [new] the file has their frames, followed
    by whatever it had beyond them: the earlier run's first records are gone, and
    if the new ones end where one of them did, the later ones stand behind the
    new ones as if they were of the same run. *)
Lemma reopened_segment_overwrites d s old new en :
  seg_repr s old → Forall record_wf new → log_size new ≤ seg_max_size s →
  let left := leave_segment d s in
  ∃ s2 s3, RecordSegment_new (H0 := disk_os left) (seg_path s) (seg_max_size s) en = Ok s2 ∧
    (∀ off, 0 ≤ off → RecordSegment_read_record s2 off = Err (OffsetOutOfBounds off)) ∧
    segment_append_each s2 new = Some s3 ∧ seg_repr s3 new ∧
    leave_segment left s3 !! seg_path s = Some (log_bytes new ++ zdrop (log_size new) (seg_mmap s)) ∧
    ∀ k, log_size (take k old) = log_size new →
      ∃ free, leave_segment left s3 !! seg_path s = Some (log_bytes (new ++ drop k old) ++ free).
Proof.
  intros Hs Hnew Hfit left. pose proof (repr_pos_le s old Hs) as Hpos. pose proof (repr_max s old Hs) as Hmax.
  assert (0 ≤ seg_max_size s < 2 ^ 63) as Hsz by lia.
  assert (open_file left (seg_path s) (seg_max_size s) = seg_mmap s) as Hfile.
  { unfold open_file, left, leave_segment. rewrite lookup_insert_eq. cbn. rewrite <- (repr_len s old Hs). apply resize_same. }
  destruct (RecordSegment_new (H0 := disk_os left) (seg_path s) (seg_max_size s) en) as [s2| |] eqn:Hopen;
    [|unfold RecordSegment_new in Hopen; by rewrite disk_map_ok in Hopen by lia..].
  destruct (segment_new_repr (H1 := disk_os left) _ _ _ _ Hsz Hopen) as (Hs2 & Hm2 & _).
  destruct (written_over_new left _ _ en s2 Hsz Hopen) as [Hp2 Hw2]. rewrite Hfile in Hw2.
  destruct (segment_append_each_repr new s2 [] Hs2 Hnew) as (s3 & Ha & Hs3 & _); [by rewrite Hm2|].
  destruct (append_each_over new _ _ s2 s3 Hw2 Hnew Ha) as [Hp3 Hw3]. cbn [app] in Hw3.
  exists s2, s3. split; [done|].
  assert (leave_segment left s3 !! seg_path s = Some (log_bytes new ++ zdrop (log_size new) (seg_mmap s))) as Hleft.
  { unfold leave_segment. rewrite Hp3, Hp2, lookup_insert_eq, (wo_mmap _ _ _ Hw3). by rewrite len_log_bytes. }
  split_and!; [|done|done|done|].
  - intros off Hoff. unfold RecordSegment_read_record. rewrite (repr_pos _ _ Hs2). change (log_size []) with 0. by zif.
  - intros k Hk. destruct (repr_mmap s old Hs) as [free Hfree]. exists free. rewrite Hleft, Hfree, <- Hk. f_equal.
    pose proof (repr_wf s old Hs) as Hold. rewrite <- (take_drop k old) in Hold at 1. apply Forall_app in Hold as [Ht _].
    rewrite <- (take_drop k old) at 2.
    rewrite !log_bytes_app, <- (len_log_bytes _ Ht), <- !app_assoc. f_equal. apply zdrop_app.
Qed.
End disk_properties.

(** ** Concrete runs *)

Lemma acknowledged_records_are_in_the_files_witness :
  ∃ m m', SegmentManager_new (H0 := disk_os ∅) 1 30 "d" true = Ok m ∧
    append_each (H0 := disk_os ∅) m [sample_record; sample_record] = Some m' ∧
    length (sm_segments m') = 2%nat ∧
    concat (map (λ i, records_of (leave_manager ∅ m' !! segment_path m (Z.of_nat i))) (seq 0 2)) =
      [sample_record; sample_record].
Proof.
  destruct (SegmentManager_new (H0 := disk_os ∅) 1 30 "d" true) as [m| |] eqn:Hm; [|done..].
  destruct (acknowledged_records_are_in_the_files ∅ 1 30 "d" true m [sample_record; sample_record])
    as (m' & Ha & Hc); [lia|by intros i; apply lookup_empty|exact Hm|
      by repeat constructor; try apply sample_wf; vm_compute|].
  exists m, m'. assert (length (sm_segments m') = 2%nat) as Hlen.
  { injection Hm as <-. vm_compute in Ha. by injection Ha as <-. }
  rewrite Hlen in Hc. done.
Defined.

Lemma reopened_segment_overwrites_witness :
  let other := {| rec_timestamp := 5; rec_data := str_bytes "World" |} in
  ∃ s2 s3, RecordSegment_new (H0 := disk_os (leave_segment ∅ (sample_segment 64))) "s" 64 true = Ok s2 ∧
    segment_append_each s2 [other] = Some s3 ∧
    leave_segment (leave_segment ∅ (sample_segment 64)) s3 !! "s" =
      Some (fr_bytes (serialize other) ++ replicate 39 x00).
Proof.
  intros other.
  destruct (reopened_segment_overwrites ∅ (sample_segment 64) [sample_record] [other] true sample_segment_repr)
    as (s2 & s3 & Hn & _ & Ha & _ & Hf & _); [by repeat constructor|by vm_compute|].
  exists s2, s3. split_and!; [exact Hn|exact Ha|exact Hf].
Defined.
