(* ===== verification/StorageConc.v ===== *)
(** * Concurrent use of one segment (src/src/storage.rs)

    [RecordSegment] is shared by threads without a lock around [append_record]:
    each thread runs the atomic actions of [append_record] and [read_record]
    (the [fetch_add], the [fetch_sub], the copy under the write lock of the
    mapping, the count, the index insertion) and the actions of different
    threads interleave.  All atomics are [SeqCst], so an execution is a sequence
    of atomic actions. *)

From stdpp Require Import base list numbers strings relations.
From Stdlib Require Import Strings.Byte.
From S2P Require Import Prelude Crc32 RecordFormat StorageEngine.
Local Open Scope Z_scope.

(** Where a thread stands inside [append_record] (with the record it appends) or
    [read_record] (with the offset it reads). *)
Inductive thread :=
  | AStart (r : Rec)
  | AReserved (r : Rec) (off : Z)
  | AOverflow (r : Rec) (off : Z)
  | AWritten (r : Rec) (off : Z)
  | ACounted (r : Rec) (off num : Z)
  | ADone (r : Rec) (res : outcome StorageError RecordOffset)
  | RStart (off : Z)
  | RLoaded (off pos : Z)
  | RDone (off : Z) (res : outcome StorageError Rec).

Section actions.
Context `{Crc32}.

Definition with_mmap (s : RecordSegment) (mmap : bytes) : RecordSegment :=
  {| seg_path := seg_path s; seg_max_size := seg_max_size s; seg_write_pos := seg_write_pos s;
     seg_record_count := seg_record_count s; seg_mmap := mmap; seg_index := seg_index s;
     seg_index_enabled := seg_index_enabled s |}.
Definition with_count (s : RecordSegment) (n : Z) : RecordSegment :=
  {| seg_path := seg_path s; seg_max_size := seg_max_size s; seg_write_pos := seg_write_pos s;
     seg_record_count := n; seg_mmap := seg_mmap s; seg_index := seg_index s;
     seg_index_enabled := seg_index_enabled s |}.
Definition with_index (s : RecordSegment) (ix : btree IndexEntry) : RecordSegment :=
  {| seg_path := seg_path s; seg_max_size := seg_max_size s; seg_write_pos := seg_write_pos s;
     seg_record_count := seg_record_count s; seg_mmap := seg_mmap s; seg_index := ix;
     seg_index_enabled := seg_index_enabled s |}.

(** The next atomic action of a thread; [None] when it has returned.
    Source: src/src/storage.rs:108-183 (RecordSegment::append_record and read_record, atomic actions) *)
Definition action (s : RecordSegment) (t : thread) : option (RecordSegment * thread) :=
  match t with
  | AStart r =>
      let size := framed_size (serialize r) in
      let offset := seg_write_pos s in
      Some (with_write_pos s (u64 (offset + size)),
            if seg_max_size s <? u64 (offset + size) then AOverflow r offset
            else AReserved r offset)
  | AOverflow r offset =>
      let size := framed_size (serialize r) in
      Some (with_write_pos s (u64 (seg_write_pos s - size)),
            ADone r (Err (SegmentFull size (u64 (seg_max_size s - offset)))))
  | AReserved r offset =>
      let size := framed_size (serialize r) in
      match copy_from_slice (seg_mmap s) offset (usize (offset + size))
              (fr_bytes (serialize r)) with
      | Some mmap => Some (with_mmap s mmap, AWritten r offset)
      | None => Some (s, ADone r Panic)
      end
  | AWritten r offset =>
      Some (with_count s (u64 (seg_record_count s + 1)), ACounted r offset (seg_record_count s))
  | ACounted r offset num =>
      let size := framed_size (serialize r) in
      let entry := {| ie_record_num := num; ie_offset := offset; ie_size := size;
                      ie_timestamp := rec_timestamp r |} in
      Some (if seg_index_enabled s then with_index s (btree_insert offset entry (seg_index s)) else s,
            ADone r (Ok {| ro_offset := offset; ro_size := size |}))
  | RStart offset =>
      let pos := seg_write_pos s in
      Some (s, if pos <=? offset then RDone offset (Err (OffsetOutOfBounds offset))
               else RLoaded offset pos)
  | RLoaded offset pos =>
      Some (s, RDone offset
        (data ← unwrap (slice (seg_mmap s) offset pos);
         '(record, _) ← map_err StorageRecord (deserialize data); Ok record))
  | ADone _ _ | RDone _ _ => None
  end.

(** A configuration: the shared segment and the threads. *)
Definition config : Type := RecordSegment * list thread.

Definition thread_step (i : nat) (c : config) : option config :=
  t ← c.2 !! i; '(s, t) ← action c.1 t; Some (s, <[i := t]> c.2).

Definition conc_step (c c' : config) : Prop := ∃ i, thread_step i c = Some c'.

(** Run a schedule: the list of threads to step. *)
Fixpoint run_schedule (sched : list nat) (c : config) : option config :=
  match sched with
  | [] => Some c
  | i :: sched => c ← thread_step i c; run_schedule sched c
  end.

Lemma run_schedule_steps sched c c' : run_schedule sched c = Some c' → rtc conc_step c c'.
Proof.
  revert c. induction sched as [|i sched IH]; intros c; simpl; [intros [= ->]; done|].
  intros (c1 & Hstep & Hrun)%bind_Some. eapply rtc_l; [by exists i|]. by apply IH.
Qed.
End actions.

(** ** Safety when the threads together fit

    Bytes still to be reserved by a thread, and the range a thread owns. *)
Definition pending `{Crc32} (t : thread) : Z :=
  match t with AStart r => serialized_size r | _ => 0 end.

Definition owned (t : thread) : option (Z * Rec) :=
  match t with
  | AReserved r off | AWritten r off | ACounted r off _ => Some (off, r)
  | ADone r (Ok o) => Some (ro_offset o, r)
  | _ => None
  end.

(** The record of the thread is in the mapping. *)
Definition stored (t : thread) : option (Z * Rec) :=
  match t with AReserved _ _ => None | _ => owned t end.

(** No thread is about to roll back, and no thread has failed an append or
    panicked; a reader stays inside the mapping of [max] bytes. *)
Definition thread_wf `{Crc32} (max : Z) (t : thread) : Prop :=
  match t with
  | AStart r | AReserved r _ | AWritten r _ | ACounted r _ _ => record_wf r
  | ADone r (Ok o) => record_wf r ∧ ro_size o = serialized_size r
  | AOverflow _ _ | ADone _ _ => False
  | RStart off => 0 ≤ off
  | RLoaded off pos => 0 ≤ off ∧ off ≤ pos ∧ pos ≤ max
  | RDone _ res => res ≠ Panic
  end.

Definition is_start (t : thread) : Prop :=
  match t with AStart r => record_wf r | RStart off => 0 ≤ off | _ => False end.

Definition disjoint_from `{Crc32} (p q : Z * Rec) : Prop :=
  p.1 + serialized_size p.2 ≤ q.1 ∨ q.1 + serialized_size q.2 ≤ p.1.

Record conc_inv `{Crc32} (l : list Rec) (c : config) : Prop := {
  ci_wf : Forall (thread_wf (seg_max_size c.1)) c.2;
  ci_log : Forall record_wf l;
  ci_max : seg_max_size c.1 < 2 ^ 63;
  ci_len : len (seg_mmap c.1) = seg_max_size c.1;
  ci_room : seg_write_pos c.1 + zsum pending c.2 ≤ seg_max_size c.1;
  ci_base : log_size l ≤ seg_write_pos c.1;
  ci_prefix : slice (seg_mmap c.1) 0 (log_size l) = Some (log_bytes l);
  ci_owned : ∀ i t p, c.2 !! i = Some t → owned t = Some p →
    log_size l ≤ p.1 ∧ p.1 + serialized_size p.2 ≤ seg_write_pos c.1;
  ci_disjoint : ∀ i j t u p q, c.2 !! i = Some t → c.2 !! j = Some u → i ≠ j →
    owned t = Some p → owned u = Some q → disjoint_from p q;
  ci_stored : ∀ i t p, c.2 !! i = Some t → stored t = Some p →
    slice (seg_mmap c.1) p.1 (p.1 + serialized_size p.2) = Some (fr_bytes (serialize p.2))
}.

Section conc_lemmas.
Context `{Crc32Ok}.

Lemma pending_nonneg t : 0 ≤ pending t.
Proof. destruct t; simpl; try lia. unfold serialized_size. by apply (wrap_range 64). Qed.

Lemma owned_wf max t p : thread_wf max t → owned t = Some p → record_wf p.2.
Proof. by destruct t as [| | | | |? []| | |]; intros Hw [= <-]; first [apply Hw | destruct Hw]. Qed.

(** One thread moves from [t] to [t'] and the segment from [s] to [s']: it may
    claim the bytes from the write position on, and write only where it
    owns. *)
Lemma inv_update l s ts i t s' t' :
  conc_inv l (s, ts) → ts !! i = Some t →
  thread_wf (seg_max_size s) t' → seg_max_size s' = seg_max_size s →
  len (seg_mmap s') = len (seg_mmap s) →
  seg_write_pos s ≤ seg_write_pos s' →
  seg_write_pos s' + pending t' ≤ seg_write_pos s + pending t →
  (∀ p, owned t' = Some p → owned t = Some p ∨
     (p.1 = seg_write_pos s ∧ p.1 + serialized_size p.2 ≤ seg_write_pos s')) →
  (∀ p, stored t' = Some p →
     slice (seg_mmap s') p.1 (p.1 + serialized_size p.2) = Some (fr_bytes (serialize p.2))) →
  (∀ c d, 0 ≤ c → c ≤ d → d ≤ len (seg_mmap s) →
     (∀ p, owned t = Some p → d ≤ p.1 ∨ p.1 + serialized_size p.2 ≤ c) →
     slice (seg_mmap s') c d = slice (seg_mmap s) c d) →
  conc_inv l (s', <[i := t']> ts).
Proof.
  intros Hinv Hi Hwf Hmax Hlen Hwp Hpend Hown Hst Hframe.
  pose proof (lookup_lt_Some _ _ _ Hi) as Hlt.
  pose proof (zsum_nonneg pending ts pending_nonneg).
  pose proof (log_size_bound l (ci_log _ _ Hinv)) as Hls. pose proof (len_nonneg l).
  destruct Hinv as [I1 I2 I3 I4 I5 I6 I7 I8 I9 I10]; cbn [fst snd] in *.
  assert (∀ p, owned t' = Some p → log_size l ≤ p.1 ∧
    p.1 + serialized_size p.2 ≤ seg_write_pos s') as Hown'.
  { intros p Hp. destruct (Hown p Hp) as [Ho|[Ho Ho']]; [|lia].
    pose proof (I8 i t p Hi Ho). lia. }
  assert (∀ j u q, ts !! j = Some u → i ≠ j → owned u = Some q →
    ∀ p, owned t' = Some p → disjoint_from p q) as Hdis.
  { intros j u q Hj Hij Hq p Hp. destruct (Hown p Hp) as [Ho|[Ho Ho']].
    - by eapply (I9 i j).
    - pose proof (I8 j u q Hj Hq). unfold disjoint_from. lia. }
  split; cbn [fst snd]; rewrite ?Hmax; try done.
  - by apply Forall_insert.
  - by rewrite Hlen.
  - rewrite (zsum_insert _ _ _ _ _ Hi). lia.
  - lia.
  - rewrite Hframe, I7; [done|lia..|]. intros p Hp. pose proof (I8 i t p Hi Hp). lia.
  - intros j u p [(<- & <- & _)|[Hij Hj]]%list_lookup_insert_Some Hp; [by apply Hown'|].
    pose proof (I8 j u p Hj Hp). lia.
  - intros j k u v p q [(<- & <- & _)|[Hij Hj]]%list_lookup_insert_Some
      [(<- & <- & _)|[Hik Hk]]%list_lookup_insert_Some Hjk Hp Hq; [done| | |by eauto].
    + by eapply Hdis.
    + apply or_comm. by eapply (Hdis j).
  - intros j u p [(<- & <- & _)|[Hij Hj]]%list_lookup_insert_Some Hp; [by apply Hst|].
    assert (owned u = Some p) as Hop by (by destruct u).
    pose proof (I8 j u p Hj Hop) as Hb.
    pose proof (owned_wf _ _ _ (Forall_lookup_1 _ _ _ _ I1 Hj) Hop) as Hr.
    pose proof (serialized_size_bounds p.2 Hr).
    rewrite Hframe; [by eapply I10|lia..|].
    intros q Hq. pose proof (I9 i j t u q p Hi Hj Hij Hq Hop) as [?|?]; lia.
Qed.

Lemma stored_owned t p : stored t = Some p → owned t = Some p.
Proof. by destruct t. Qed.

(** The bounds the invariant gives for the thread at index [i]. *)
Ltac conc_facts Hinv Hi :=
  let l := lazymatch type of Hinv with conc_inv ?l (_, _) => l end in
  let ts := lazymatch type of Hinv with conc_inv _ (_, ?ts) => ts end in
  pose proof (Forall_lookup_1 _ _ _ _ (ci_wf _ _ Hinv) Hi) as Hwf;
  pose proof (zsum_nonneg pending ts pending_nonneg) as Hp0;
  pose proof (log_size_bound l (ci_log _ _ Hinv)) as Hls; pose proof (len_nonneg l);
  pose proof (ci_room _ _ Hinv) as Hroom; pose proof (ci_base _ _ Hinv) as Hbase;
  pose proof (ci_max _ _ Hinv) as Hmax; pose proof (ci_len _ _ Hinv) as Hlen;
  cbn [fst snd] in *.

(** Reserving: the bytes from the write position on become the thread's. *)
Lemma reserve_inv l s ts i r s' t' :
  conc_inv l (s, ts) → ts !! i = Some (AStart r) → action s (AStart r) = Some (s', t') →
  conc_inv l (s', <[i := t']> ts).
Proof.
  intros Hinv Hi Hact. conc_facts Hinv Hi.
  cbn [action] in Hact.
  pose proof (serialized_size_bounds r Hwf) as Hsz. rewrite framed_size_wf in Hact by done.
  pose proof (zsum_lookup_le pending ts i _ pending_nonneg Hi) as Hle. cbn [pending] in Hle.
  rewrite wrap_id in Hact by (unfold in_range; lia).
  rewrite (proj2 (Z.ltb_ge _ _)) in Hact by lia. injection Hact as <- <-.
  apply (inv_update l s ts i _ _ _ Hinv Hi); unfold with_write_pos; cbn; try done; [lia|lia|].
  intros p [= <-]. right. done.
Qed.

(** Copying: the thread writes the bytes it owns. *)
Lemma copy_inv l s ts i r off s' t' :
  conc_inv l (s, ts) → ts !! i = Some (AReserved r off) → action s (AReserved r off) = Some (s', t') →
  conc_inv l (s', <[i := t']> ts).
Proof.
  intros Hinv Hi Hact. conc_facts Hinv Hi.
  cbn [action] in Hact.
  pose proof (ci_owned _ _ Hinv i _ _ Hi eq_refl) as Ho. cbn [fst snd] in Ho.
  pose proof (serialized_size_bounds r Hwf) as Hsz. rewrite framed_size_wf in Hact by done.
  rewrite wrap_id in Hact by (unfold in_range; lia).
  destruct (copy_from_slice_ok (seg_mmap s) (fr_bytes (serialize r)) off
    (off + serialized_size r)) as [m' Hm'];
    [lia|by rewrite <- (framed_size_wf r Hwf)|lia|].
  rewrite Hm' in Hact. injection Hact as <- <-.
  destruct (copy_from_slice_spec _ _ _ _ _ Hm') as (Hs1 & Hs2 & Hs3).
  apply (inv_update l s ts i _ _ _ Hinv Hi); unfold with_mmap; cbn; try done; [by left|by intros p [= <-]|].
  intros c d Hc Hcd Hd Hd'. apply Hs3; [done..|]. by apply (Hd' (off, r)).
Qed.

Lemma action_inv l s ts i t s' t' :
  conc_inv l (s, ts) → ts !! i = Some t → action s t = Some (s', t') →
  conc_inv l (s', <[i := t']> ts).
Proof.
  intros Hinv Hi Hact. conc_facts Hinv Hi.
  destruct t as [r|r off|r off|r off|r off num|r res|off|off pos|off res]; cbn [action] in Hact.
  - by apply (reserve_inv l s ts i r s' t' Hinv Hi).
  - by apply (copy_inv l s ts i r off s' t' Hinv Hi).
  - done.
  - injection Hact as <- <-.
    apply (inv_update l s ts i _ _ _ Hinv Hi); unfold with_count; cbn; try done; [by left|].
    intros p Hp. by apply (ci_stored _ _ Hinv i _ p Hi).
  - injection Hact as <- <-. rewrite framed_size_wf by done.
    pose proof (ci_stored _ _ Hinv i _ _ Hi eq_refl) as Hst.
    apply (inv_update l s ts i _ _ _ Hinv Hi); destruct (seg_index_enabled s); unfold with_index; cbn;
      try done; try (by left); by intros p [= <-].
  - done.
  - injection Hact as <- <-. cbn [thread_wf] in Hwf.
    apply (inv_update l s ts i _ _ _ Hinv Hi); try done; destruct (_ <=? off) eqn:Hoff; try done; zbool; cbn; lia.
  - injection Hact as <- <-. destruct Hwf as (Hw1 & Hw2 & Hw3).
    apply (inv_update l s ts i _ _ _ Hinv Hi); try done; cbn [thread_wf].
    destruct (slice_is_some (seg_mmap s) off pos) as (y & -> & _); [lia..|].
    cbn [unwrap mbind outcome_bind]. pose proof (deserialize_no_panic y).
    by destruct (deserialize y) as [[? ?]| |].
  - done.
Qed.

Lemma conc_inv_reachable l c c' : conc_inv l c → rtc conc_step c c' → conc_inv l c'.
Proof.
  intros Hc. apply rtc_invariant; [|done]. intros [s ts] c1 Hinv [i Hstep].
  unfold thread_step in Hstep. cbn [fst snd] in Hstep.
  apply bind_Some in Hstep as (t & Hi & Hstep). apply bind_Some in Hstep as ([s' t'] & Ha & [= <-]).
  by eapply action_inv.
Qed.

Lemma conc_inv_start s l ts :
  seg_repr s l → Forall is_start ts → seg_write_pos s + zsum pending ts ≤ seg_max_size s →
  conc_inv l (s, ts).
Proof.
  intros Hs Hts Hroom. pose proof (repr_pos_le _ _ Hs).
  assert (∀ i t, ts !! i = Some t → owned t = None) as Hnone.
  { intros i t Hi. pose proof (Forall_lookup_1 _ _ _ _ Hts Hi). by destruct t. }
  split; cbn [fst snd]; try (by destruct Hs).
  - eapply Forall_impl; [done|]. by intros [].
  - rewrite (repr_pos _ _ Hs). lia.
  - destruct (repr_mmap _ _ Hs) as [free ->]. apply slice_head; [done|].
    by rewrite len_log_bytes by apply (repr_wf _ _ Hs).
  - intros i t p Hi Hp. by rewrite (Hnone i t Hi) in Hp.
  - intros i j t u p q Hi _ _ Hp. by rewrite (Hnone i t Hi) in Hp.
  - intros i t p Hi Hp%stored_owned. by rewrite (Hnone i t Hi) in Hp.
Qed.

(** A range of the mapping that holds a record's bytes reads back. *)
Lemma read_stored_range s off r :
  record_wf r → 0 ≤ off → off + serialized_size r ≤ seg_write_pos s →
  seg_write_pos s ≤ len (seg_mmap s) →
  slice (seg_mmap s) off (off + serialized_size r) = Some (fr_bytes (serialize r)) →
  RecordSegment_read_record s off = Ok r.
Proof.
  intros Hr Ho Hle Hlen Hsl. pose proof (serialized_size_bounds r Hr).
  destruct (slice_extend _ _ _ _ _ Hsl Hle Hlen) as [z Hz].
  unfold RecordSegment_read_record. zif. rewrite Hz. cbn [unwrap mbind outcome_bind].
  by rewrite deserialize_serialize.
Qed.

Lemma conc_inv_read l c i t p :
  conc_inv l c → c.2 !! i = Some t → stored t = Some p →
  RecordSegment_read_record c.1 p.1 = Ok p.2.
Proof.
  intros Hinv Hi Hp. pose proof (stored_owned _ _ Hp) as Ho.
  pose proof (ci_owned _ _ Hinv i t p Hi Ho). pose proof (ci_room _ _ Hinv).
  pose proof (zsum_nonneg pending c.2 pending_nonneg). pose proof (ci_len _ _ Hinv).
  pose proof (log_size_bound l (ci_log _ _ Hinv)). pose proof (len_nonneg l).
  apply read_stored_range; [|lia..|by eapply ci_stored].
  eapply owned_wf; [|done]. by eapply Forall_lookup_1; [apply (ci_wf _ _ Hinv)|].
Qed.

Lemma conc_read_log l1 r l2 c :
  conc_inv (l1 ++ r :: l2) c → RecordSegment_read_record c.1 (log_size l1) = Ok r.
Proof.
  intros Hinv. pose proof (ci_prefix _ _ Hinv) as Hpre. apply slice_some in Hpre.
  pose proof (ci_log _ _ Hinv) as Hwf. pose proof (ci_base _ _ Hinv). pose proof (ci_room _ _ Hinv).
  pose proof (ci_len _ _ Hinv) as Hlen. pose proof (ci_max _ _ Hinv).
  pose proof (zsum_nonneg pending c.2 pending_nonneg).
  destruct Hpre as (x & z & Hm & Hx & _).
  assert (x = []) as -> by (destruct x; [done|rewrite len_cons in Hx; pose proof (len_nonneg x); lia]).
  rewrite Hm, app_nil_l, len_app, len_log_bytes in Hlen by done.
  apply (read_record_stored c.1 l1 r l2
    (ztake (seg_write_pos c.1 - log_size (l1 ++ r :: l2)) z)).
  split; [done| | |lia].
  - eexists. rewrite Hm, app_nil_l. f_equal. symmetry. apply ztake_zdrop.
  - rewrite len_ztake; lia.
Qed.
End conc_lemmas.

(** ** Properties *)
Section conc_properties.
Context `{Crc32Ok}.

(** C4. Concurrent appends are safe as long as the threads fit together: from
    a segment that stores the log [l], with threads about to append or read
    whose records together fit in the free space, in every reachable state
    every completed append succeeded with an offset at which its record reads
    back, every record of [l] still reads back, completed appends own disjoint
    ranges, and no reader has panicked. *)
Theorem concurrent_appends_safe s l ts c :
  seg_repr s l → Forall is_start ts → seg_write_pos s + zsum pending ts ≤ seg_max_size s →
  rtc conc_step (s, ts) c →
  (∀ i r res, c.2 !! i = Some (ADone r res) →
     ∃ off, res = Ok {| ro_offset := off; ro_size := serialized_size r |} ∧
       RecordSegment_read_record c.1 off = Ok r) ∧
  (∀ l1 r l2, l = l1 ++ r :: l2 → RecordSegment_read_record c.1 (log_size l1) = Ok r) ∧
  (∀ i j r1 r2 o1 o2, c.2 !! i = Some (ADone r1 (Ok o1)) → c.2 !! j = Some (ADone r2 (Ok o2)) →
     i ≠ j → ro_offset o1 + ro_size o1 ≤ ro_offset o2 ∨ ro_offset o2 + ro_size o2 ≤ ro_offset o1) ∧
  (∀ i off, c.2 !! i ≠ Some (RDone off Panic)).
Proof.
  intros Hs Hts Hroom Hc.
  pose proof (conc_inv_reachable l _ c (conc_inv_start s l ts Hs Hts Hroom) Hc) as Hinv.
  pose proof (ci_wf _ _ Hinv) as Hwf. split_and!.
  - intros i r res Hi. pose proof (Forall_lookup_1 _ _ _ _ Hwf Hi) as Hr.
    destruct res as [[off sz]| |]; [|done..]. destruct Hr as [Hr Hsz]. cbn in Hsz. subst sz.
    exists off. split; [done|]. apply (conc_inv_read l c i _ (off, r) Hinv Hi). done.
  - intros l1 r l2 ->. by eapply conc_read_log.
  - intros i j r1 r2 o1 o2 Hi Hj Hij.
    pose proof (ci_disjoint _ _ Hinv i j _ _ _ _ Hi Hj Hij eq_refl eq_refl) as Hd.
    destruct (Forall_lookup_1 _ _ _ _ Hwf Hi) as [_ ->].
    by destruct (Forall_lookup_1 _ _ _ _ Hwf Hj) as [_ ->].
  - intros i off Hi. by apply (Forall_lookup_1 _ _ _ _ Hwf Hi).
Qed.

(** The atomic actions are the sequential function: a thread that runs
    [append_record] without interference takes the segment to the state, and
    returns the result, of [RecordSegment_append_record]. *)
Lemma actions_refine_append s r :
  ∃ n, run_schedule (replicate n 0%nat) (s, [AStart r]) =
    Some ((RecordSegment_append_record s r).1, [ADone r (RecordSegment_append_record s r).2]).
Proof.
  unfold RecordSegment_append_record. set (size := framed_size _).
  destruct (seg_max_size s <? u64 (seg_write_pos s + size)) eqn:Hfull.
  { exists 2%nat. cbn. fold size. by rewrite Hfull. }
  unfold with_write_pos; cbn [seg_mmap].
  destruct (copy_from_slice (seg_mmap s) _ _ _) as [m|] eqn:Hcopy.
  - exists 4%nat. cbn. fold size. rewrite Hfull. cbn. fold size. rewrite Hcopy. cbn. fold size.
    by destruct s as [? ? ? ? ? ? []].
  - exists 2%nat. cbn. fold size. rewrite Hfull. cbn. fold size. by rewrite Hcopy.
Qed.

(** The reservation of an append that does not fit is visible to readers
    until it is rolled back: a reader of any stored record that runs in
    between slices the mapping past its end and panics. *)
Lemma overflow_reservation_panics_reader s l1 r0 l2 r :
  seg_repr s (l1 ++ r0 :: l2) → record_wf r →
  seg_max_size s < log_size (l1 ++ r0 :: l2) + serialized_size r →
  ∃ c, rtc conc_step (s, [AStart r; RStart (log_size l1)]) c ∧
    c.2 !! 1%nat = Some (RDone (log_size l1) Panic) ∧
    RecordSegment_read_record s (log_size l1) = Ok r0.
Proof.
  intros Hs Hr Hfull. pose proof (serialized_size_bounds r Hr) as Hsz.
  pose proof (repr_pos_le _ _ Hs) as Hpos. pose proof (repr_max _ _ Hs) as Hmax.
  pose proof (repr_wf _ _ Hs) as [H1 [H2 H3]%Forall_cons]%Forall_app.
  pose proof (serialized_size_bounds r0 H2). pose proof (log_size_bound _ H1).
  pose proof (log_size_bound _ H3). pose proof (len_nonneg l1). pose proof (len_nonneg l2).
  eexists. split; [apply (run_schedule_steps [0; 1; 1]%nat)|split; [|by eapply read_record_repr]].
  - cbn. rewrite framed_size_wf, wrap_id by (done || (rewrite (repr_pos _ _ Hs); unfold in_range; lia)).
    rewrite (repr_pos _ _ Hs). rewrite (proj2 (Z.ltb_lt _ _)) by lia.
    rewrite (proj2 (Z.leb_gt _ (log_size l1)));
      [|rewrite log_size_app, log_size_cons in *; lia]. cbn.
    rewrite slice_out by (rewrite (repr_len _ _ Hs); lia). done.
  - done.
Qed.
End conc_properties.

(** ** Concrete executions *)
Definition letters (n : nat) (t : Z) : Rec := {| rec_timestamp := t; rec_data := replicate n x61 |}.

(** A 200-byte segment that holds one record of 100 bytes. *)
Definition race_segment : RecordSegment :=
  {| seg_path := "s"; seg_max_size := 200; seg_write_pos := 100; seg_record_count := 1;
     seg_mmap := fr_bytes (serialize (letters 80 1)) ++ replicate 100 x00;
     seg_index := []; seg_index_enabled := false |}.

Lemma race_segment_repr : seg_repr race_segment [letters 80 1].
Proof. split; [repeat constructor; by vm_compute|done|by eexists (replicate 100 x00)|by vm_compute..]. Qed.

(** Two appends of 110 and 40 bytes that do not fit, then two of 50 that do. *)
Definition race_threads : list thread :=
  [AStart (letters 90 2); AStart (letters 20 3); AStart (letters 30 4); AStart (letters 30 5)].
Definition race_schedule : list nat := [0; 1; 0; 2; 1; 3; 2; 2; 2; 3; 3; 3]%nat.

(** C27. A lost update: from a valid segment with threads that only append, an
    interleaving is reachable in which two appends are acknowledged with
    overlapping ranges and the first acknowledged record no longer reads back
    (the second reservation that overflows rolls back under a reservation that
    succeeded in between). *)
Theorem acknowledged_appends_overlap :
  ∃ c r1 r2 o1 o2, seg_repr race_segment [letters 80 1] ∧ Forall is_start race_threads ∧
    rtc conc_step (race_segment, race_threads) c ∧
    c.2 !! 2%nat = Some (ADone r1 (Ok o1)) ∧ c.2 !! 3%nat = Some (ADone r2 (Ok o2)) ∧
    ro_offset o1 < ro_offset o2 < ro_offset o1 + ro_size o1 ∧
    is_ok (RecordSegment_read_record c.1 (ro_offset o1)) = false.
Proof.
  destruct (run_schedule race_schedule (race_segment, race_threads)) as [c|] eqn:Hrun;
    [|by vm_compute in Hrun].
  exists c, (letters 30 4), (letters 30 5), (mkOffset 140 50), (mkOffset 150 50).
  split; [apply race_segment_repr|]. split; [repeat constructor; by vm_compute|].
  split; [by eapply run_schedule_steps|]. vm_compute in Hrun. injection Hrun as <-.
  split_and!; by vm_compute.
Qed.

Lemma concurrent_appends_safe_witness :
  ∃ c, rtc conc_step (race_segment, [AStart (letters 10 6); AStart (letters 20 7); RStart 0]) c ∧
    c.2 !! 1%nat = Some (ADone (letters 20 7) (Ok (mkOffset 100 40))) ∧
    RecordSegment_read_record c.1 0 = Ok (letters 80 1).
Proof.
  eexists. assert (rtc conc_step (race_segment, [AStart (letters 10 6); AStart (letters 20 7); RStart 0]) _)
    as Hsteps by (apply (run_schedule_steps [1; 0; 2; 0; 1; 1; 2; 1]%nat); vm_compute; reflexivity).
  split; [exact Hsteps|]. split; [reflexivity|].
  refine (_ (concurrent_appends_safe _ [letters 80 1] _ _ race_segment_repr _ _ Hsteps));
    [|repeat constructor; by vm_compute|by vm_compute].
  intros (_ & Hlog & _).
  exact (Hlog [] (letters 80 1) [] eq_refl).
Defined.

Lemma overflow_reservation_panics_reader_witness :
  ∃ c, rtc conc_step (race_segment, [AStart (letters 90 2); RStart 0]) c ∧
    c.2 !! 1%nat = Some (RDone 0 Panic).
Proof.
  destruct (overflow_reservation_panics_reader race_segment [] (letters 80 1) [] (letters 90 2)
    race_segment_repr) as (c & Hc & Hp & _); [by vm_compute|by vm_compute|].
  exists c. split; [exact Hc|exact Hp].
Defined.
