(* ===== verification/SegmentLinear.v ===== *)
(** * Concurrent appends to a segment are linearizable (src/src/storage.rs)

    When the records of all threads fit in the segment, the order in which the
    threads reserve their bytes is an order in which their appends take effect:
    once all have returned, the segment stores that log.  The index is left
    out, since records are numbered in the order in which they are counted. *)

From stdpp Require Import base list numbers strings relations.
From Stdlib Require Import Strings.Byte.
From S2P Require Import Prelude Crc32 RecordFormat StorageEngine StorageConc.
Local Open Scope Z_scope.

(** ** The order of reservations *)

(** The record a thread appends. *)
Definition append_rec (t : thread) : option Rec :=
  match t with
  | AStart r | AReserved r _ | AOverflow r _ | AWritten r _ | ACounted r _ _ | ADone r _ => Some r
  | RStart _ | RLoaded _ _ | RDone _ _ => None
  end.

(** The thread has counted its record. *)
Definition counted (t : thread) : bool :=
  match t with ACounted _ _ _ | ADone _ (Ok _) => true | _ => false end.
Definition finished (t : thread) : bool :=
  match t with ADone _ _ | RDone _ _ => true | _ => false end.

(** [ws] lists the threads in the order of their reservations, [f] gives their
    records. *)
Record ordered `{Crc32} (l : list Rec) (f : nat → option Rec) (ws : list nat) (c : config) : Prop := {
  or_rec : ∀ i t, c.2 !! i = Some t → append_rec t = f i;
  or_pos : seg_write_pos c.1 = log_size (l ++ omap f ws);
  or_nodup : NoDup ws;
  or_in : ∀ i, i ∈ ws → ∃ t, c.2 !! i = Some t ∧ is_Some (owned t);
  or_owned : ∀ i t p, c.2 !! i = Some t → owned t = Some p →
    ∃ w1 w2, ws = w1 ++ i :: w2 ∧ p.1 = log_size (l ++ omap f w1);
  or_count : seg_record_count c.1 = len l + len (filter (λ t, Is_true (counted t)) c.2);
  or_bound : len l + len c.2 < 2 ^ 64;
  or_index : seg_index_enabled c.1 = false → seg_index c.1 = []
}.

Section order_lemmas.
Context `{Crc32Ok}.

Lemma owned_rec t p : owned t = Some p → append_rec t = Some p.2.
Proof. by destruct t as [| | | | |? []| | |]; intros [= <-]. Qed.

(** A step that reserves nothing. *)
Lemma ordered_keep l f ws s ts i t s' t' :
  ordered l f ws (s, ts) → ts !! i = Some t → append_rec t' = append_rec t → owned t' = owned t →
  seg_write_pos s' = seg_write_pos s →
  seg_record_count s' = len l + len (filter (λ t, Is_true (counted t)) (<[i := t']> ts)) →
  (seg_index_enabled s' = false → seg_index s' = []) →
  ordered l f ws (s', <[i := t']> ts).
Proof.
  intros [K1 K2 K3 K4 K5 K6 K7 K8] Hi Hr Ho Hp Hc Hx. split; cbn [fst snd] in *; try done.
  - intros j u [(<- & <- & _)|[_ Hj]]%list_lookup_insert_Some; [rewrite Hr|]; by apply K1.
  - by rewrite Hp.
  - intros j Hj. destruct (K4 j Hj) as (u & Hu & Hou). destruct (decide (i = j)) as [<-|Hne].
    + exists t'. rewrite list_lookup_insert_eq by (by eapply lookup_lt_Some).
      split; [done|]. rewrite Ho. rewrite Hi in Hu. by injection Hu as ->.
    + exists u. by rewrite list_lookup_insert_ne.
  - intros j u p [(<- & <- & _)|[_ Hj]]%list_lookup_insert_Some Hu; [rewrite Ho in Hu|]; by eapply K5.
  - unfold len in *. by rewrite length_insert.
Qed.

(** The counter, when the thread is counted before and after or neither. *)
Lemma count_keep l f ws s ts i t t' :
  ordered l f ws (s, ts) → ts !! i = Some t → counted t' = counted t →
  seg_record_count s = len l + len (filter (λ t, Is_true (counted t)) (<[i := t']> ts)).
Proof. intros Ho Hi Hc. rewrite (filter_insert_len _ _ _ _ _ Hi); [apply (or_count _ _ _ _ Ho)|by rewrite Hc]. Qed.

Lemma ordered_reserve l f ws s ts i r s' t' :
  conc_inv l (s, ts) → ordered l f ws (s, ts) → ts !! i = Some (AStart r) →
  action s (AStart r) = Some (s', t') → ordered l f (ws ++ [i]) (s', <[i := t']> ts).
Proof.
  intros Hinv Hor Hi Ha. pose proof (Forall_lookup_1 _ _ _ _ (ci_wf _ _ Hinv) Hi) as Hr. cbn in Hr.
  pose proof (serialized_size_bounds r Hr) as Hsz.
  pose proof (zsum_lookup_le pending ts i _ pending_nonneg Hi) as Hle. cbn [pending] in Hle.
  pose proof (ci_room _ _ Hinv) as Hroom. pose proof (ci_base _ _ Hinv) as Hbase. pose proof (ci_max _ _ Hinv) as Hmax.
  pose proof (log_size_bound l (ci_log _ _ Hinv)) as Hls. pose proof (len_nonneg l). cbn [fst snd] in *.
  cbn [action] in Ha. rewrite framed_size_wf in Ha by done. rewrite wrap_id in Ha by (unfold in_range; lia).
  rewrite (proj2 (Z.ltb_ge _ _)) in Ha by lia. injection Ha as <- <-.
  destruct Hor as [K1 K2 K3 K4 K5 K6 K7 K8]. cbn [fst snd] in *.
  pose proof (K1 i _ Hi) as Hf. cbn in Hf. pose proof (lookup_lt_Some _ _ _ Hi) as Hlt.
  assert (i ∉ ws) as Hnew.
  { intros Hin. destruct (K4 i Hin) as (u & Hu & Ho). rewrite Hi in Hu. injection Hu as <-. by destruct Ho. }
  split; cbn [fst snd].
  - intros j u [(<- & <- & _)|[_ Hj]]%list_lookup_insert_Some; [done|by apply K1].
  - unfold with_write_pos. cbn [seg_write_pos]. rewrite omap_app. cbn. rewrite <- Hf, app_assoc, log_size_app, log_size_one, <- K2. done.
  - apply NoDup_app. split; [done|]. split; [|apply NoDup_singleton]. intros j Hj ->%list_elem_of_singleton. done.
  - intros j [Hj| ->%list_elem_of_singleton]%elem_of_app.
    + destruct (K4 j Hj) as (u & Hu & Ho). exists u. rewrite list_lookup_insert_ne; [done|]. by intros <-.
    + eexists. rewrite list_lookup_insert_eq by done. split; [done|]. by eexists.
  - intros j u p [(<- & <- & _)|[_ Hj]]%list_lookup_insert_Some Hp.
    + injection Hp as <-. exists ws, []. done.
    + destruct (K5 j u p Hj Hp) as (w1 & w2 & -> & Hoff). exists w1, (w2 ++ [i]). by rewrite <- app_assoc.
  - unfold with_write_pos. cbn [seg_record_count]. rewrite (filter_insert_len _ _ _ _ _ Hi); done.
  - unfold len in *. by rewrite length_insert.
  - done.
Qed.

Lemma ordered_action l f ws s ts i t s' t' :
  conc_inv l (s, ts) → ordered l f ws (s, ts) → ts !! i = Some t → action s t = Some (s', t') →
  ∃ ws', ordered l f ws' (s', <[i := t']> ts).
Proof.
  intros Hinv Hor Hi Ha. pose proof (Forall_lookup_1 _ _ _ _ (ci_wf _ _ Hinv) Hi) as Hwf. cbn [fst snd] in Hwf.
  pose proof (or_index _ _ _ _ Hor) as Hix. cbn [fst] in Hix.
  destruct t as [r|r off|r off|r off|r off num|r res|off|off pos|off res].
  - exists (ws ++ [i]). by apply (ordered_reserve l f ws s ts i r).
  - exists ws. cbn [action] in Ha. pose proof (serialized_size_bounds r Hwf) as Hsz.
    pose proof (ci_owned _ _ Hinv i _ _ Hi eq_refl) as Ho. cbn [fst snd] in Ho.
    pose proof (ci_room _ _ Hinv). pose proof (ci_max _ _ Hinv). pose proof (ci_len _ _ Hinv).
    pose proof (zsum_nonneg pending ts pending_nonneg). pose proof (log_size_bound l (ci_log _ _ Hinv)). pose proof (len_nonneg l).
    cbn [fst snd] in *. rewrite framed_size_wf, wrap_id in Ha by (done || unfold in_range; lia).
    destruct (copy_from_slice_ok (seg_mmap s) (fr_bytes (serialize r)) off (off + serialized_size r)) as [m' Hm'];
      [lia|by rewrite <- (framed_size_wf r Hwf)|lia|].
    rewrite Hm' in Ha. injection Ha as <- <-. apply (ordered_keep l f ws s ts i _ _ _ Hor Hi); try done.
    by apply (count_keep l f ws s ts i (AReserved r off)).
  - done.
  - exists ws. injection Ha as <- <-. apply (ordered_keep l f ws s ts i _ _ _ Hor Hi); try done. cbn [with_count seg_record_count].
    rewrite (filter_insert_len_new _ _ _ _ _ Hi) by (by intros []) || done. pose proof (or_count _ _ _ _ Hor) as Hcnt. cbn [fst snd] in Hcnt.
    rewrite Hcnt, wrap_id; [lia|]. pose proof (or_bound _ _ _ _ Hor) as Hb. cbn [fst snd] in Hb.
    pose proof (len_nonneg l). pose proof (len_nonneg (filter (λ t, Is_true (counted t)) ts)).
    pose proof (filter_insert_len_new (λ t, Is_true (counted t)) ts i _ (ACounted r off 0) Hi (λ x, x) I) as Hf.
    pose proof (length_filter (λ t, Is_true (counted t)) (<[i := ACounted r off 0]> ts)) as Hlf. rewrite length_insert in Hlf.
    unfold in_range, len in *. lia.
  - exists ws. injection Ha as <- <-. rewrite framed_size_wf by done.
    apply (ordered_keep l f ws s ts i _ _ _ Hor Hi); try done.
    + by destruct (seg_index_enabled s).
    + etrans; [|by apply (count_keep l f ws s ts i (ACounted r off num))]. by destruct (seg_index_enabled s).
    + destruct (seg_index_enabled s) eqn:He; cbn; intros Hx; [congruence|by apply Hix].
  - done.
  - exists ws. injection Ha as <- <-. apply (ordered_keep l f ws s ts i _ _ _ Hor Hi); try done; try by destruct (_ <=? _).
    apply (count_keep l f ws s ts i (RStart off)); try done. by destruct (_ <=? _).
  - exists ws. injection Ha as <- <-. apply (ordered_keep l f ws s ts i _ _ _ Hor Hi); try done.
    by apply (count_keep l f ws s ts i (RLoaded off pos)).
  - done.
Qed.

Lemma ordered_start s l ts :
  seg_repr s l → Forall is_start ts → len l + len ts < 2 ^ 64 →
  ordered l (λ i, ts !! i ≫= append_rec) [] (s, ts).
Proof.
  intros Hs Hts Hb.
  assert (∀ i t, ts !! i = Some t → owned t = None) as Hnone.
  { intros i t Hi. pose proof (Forall_lookup_1 _ _ _ _ Hts Hi). by destruct t. }
  assert (filter (λ t, Is_true (counted t)) ts = []) as Hc.
  { clear -Hts. induction Hts as [|t ts Ht _ IH]; [done|]. rewrite filter_cons, decide_False, IH; [done|]. destruct t; try done; by intros []. }
  split; cbn [fst snd].
  - intros i t Hi. cbn. by rewrite Hi.
  - cbn. rewrite app_nil_r. apply (repr_pos _ _ Hs).
  - constructor.
  - by intros i Hi%not_elem_of_nil.
  - intros i t p Hi Hp. by rewrite (Hnone i t Hi) in Hp.
  - rewrite Hc, (repr_count _ _ Hs). change (@len thread []) with 0. lia.
  - done.
  - intros He. by rewrite (repr_index _ _ Hs), He.
Qed.

Lemma ordered_reachable l f ws c c' :
  conc_inv l c → ordered l f ws c → rtc conc_step c c' → conc_inv l c' ∧ ∃ ws', ordered l f ws' c'.
Proof.
  intros Hinv Hor Hc. assert (conc_inv l c ∧ ∃ ws, ordered l f ws c) as Hstart by eauto. revert Hstart Hc. clear.
  intros Hstart Hc. revert Hc. apply (rtc_invariant conc_step (λ c, conc_inv l c ∧ ∃ ws, ordered l f ws c)); [|done].
  intros [s ts] c2 [Hinv [ws Hor]] [i Hstep]. unfold thread_step in Hstep. cbn [fst snd] in Hstep.
  apply bind_Some in Hstep as (t & Hi & ([s' t'] & Ha & [= <-])%bind_Some).
  split; [by eapply action_inv|by eapply ordered_action].
Qed.

(** Records written one after the other are the bytes of their log. *)
Lemma slice_join {A} (m x y : list A) a b :
  slice m 0 a = Some x → slice m a b = Some y → slice m 0 b = Some (x ++ y).
Proof.
  intros (u & v & Hm & Hu & Hx)%slice_some (u' & v' & Hm' & Hu' & Hy)%slice_some.
  assert (u = []) as -> by (destruct u; [done|rewrite len_cons in Hu; pose proof (len_nonneg u); lia]).
  cbn [app] in Hm. rewrite Hm' in Hm. apply app_inj_1 in Hm as [-> Hm]; [|unfold len in *; lia].
  rewrite Hm', app_assoc. apply slice_head; [done|]. rewrite len_app. lia.
Qed.

Lemma ordered_bytes l f ws c :
  conc_inv l c → ordered l f ws c → (∀ i t, c.2 !! i = Some t → finished t = true) →
  slice (seg_mmap c.1) 0 (log_size (l ++ omap f ws)) = Some (log_bytes (l ++ omap f ws)) ∧
  Forall record_wf (omap f ws).
Proof.
  intros Hinv Hor Hfin.
  assert (∀ w1 w2, ws = w1 ++ w2 → slice (seg_mmap c.1) 0 (log_size (l ++ omap f w1)) = Some (log_bytes (l ++ omap f w1)) ∧
    Forall record_wf (omap f w1)) as Hpre; [|by apply (Hpre ws []); rewrite app_nil_r].
  induction w1 as [|i w1 IH] using rev_ind; intros w2 Hws.
  { cbn. rewrite app_nil_r. split; [apply (ci_prefix _ _ Hinv)|done]. }
  rewrite <- app_assoc in Hws. destruct (IH _ Hws) as [Hsl Hwf].
  destruct (or_in _ _ _ _ Hor i) as (t & Hi & [p Hp]); [rewrite Hws; set_solver|].
  pose proof (owned_rec t p Hp) as Hr. rewrite (or_rec _ _ _ _ Hor i t Hi) in Hr.
  pose proof (owned_wf _ _ _ (Forall_lookup_1 _ _ _ _ (ci_wf _ _ Hinv) Hi) Hp) as Hpw.
  assert (stored t = Some p) as Hst by (pose proof (Hfin i t Hi); by destruct t).
  pose proof (ci_stored _ _ Hinv i t p Hi Hst) as Hbytes.
  destruct (or_owned _ _ _ _ Hor i t p Hi Hp) as (u1 & u2 & Hus & Hoff).
  assert (u1 = w1) as ->.
  { pose proof (or_nodup _ _ _ _ Hor) as Hnd. rewrite Hws in Hus.
    assert (length u1 = length w1) as Hl.
    { apply (NoDup_lookup ws _ _ i Hnd); [rewrite Hws, Hus|rewrite Hws]; by apply list_lookup_middle. }
    by apply app_inj_1 in Hus as [-> _]. }
  rewrite Hoff in Hbytes. rewrite omap_app. cbn. rewrite Hr. rewrite app_assoc, log_size_app, log_size_one, log_bytes_app, log_bytes_one.
  split; [by eapply slice_join|]. apply Forall_app. split; [done|by constructor].
Qed.

(** When all threads have returned, the reservations are those of all appends. *)
Lemma ordered_all l f ws c :
  ordered l f ws c → conc_inv l c → (∀ i t, c.2 !! i = Some t → finished t = true) →
  omap f ws ≡ₚ omap append_rec c.2 ∧ len (omap f ws) = len (filter (λ t, Is_true (counted t)) c.2).
Proof.
  intros Hor Hinv Hfin.
  assert (∀ i t, c.2 !! i = Some t → (is_Some (owned t) ↔ is_Some (append_rec t)) ∧ (Is_true (counted t) ↔ is_Some (append_rec t))) as Hown.
  { intros i t Hi. pose proof (Hfin i t Hi). pose proof (Forall_lookup_1 _ _ _ _ (ci_wf _ _ Hinv) Hi) as Hwf.
    destruct t as [| | | | |r res|off|off pos|off res]; try done; [by destruct res|].
    cbn. split; split; by intros []. }
  assert (∀ ts k, (∀ i t, ts !! i = Some t → append_rec t = f (k + i)%nat) →
    omap f (seq k (length ts)) = omap append_rec ts) as Hseq.
  { clear. induction ts as [|t ts IH]; intros k Hts; [done|]. cbn [length seq omap list_omap].
    pose proof (Hts 0%nat t eq_refl) as Ht. rewrite Nat.add_0_r in Ht. rewrite <- Ht.
    change (omap f (seq (S k) (length ts))) with (list_omap _ _ f (seq (S k) (length ts))) in IH.
    rewrite <- (IH (S k)); [done|]. intros i u Hu. rewrite (Hts (S i) u Hu). f_equal. lia. }
  pose proof (Hseq c.2 0%nat (or_rec _ _ _ _ Hor)) as Hall. clear Hseq.
  assert (∀ i, i ∈ ws ↔ i ∈ filter (λ i, is_Some (f i)) (seq 0 (length c.2))) as Hin.
  { intros i. rewrite list_elem_of_filter, elem_of_seq. split.
    - intros Hi. destruct (or_in _ _ _ _ Hor i Hi) as (t & Ht & Ho). split; [|by apply lookup_lt_Some in Ht; lia].
      rewrite <- (or_rec _ _ _ _ Hor i t Ht). by apply (proj1 (Hown i t Ht)).
    - intros [Hf [_ Hlt]]. destruct (lookup_lt_is_Some_2 c.2 i Hlt) as [t Ht].
      rewrite <- (or_rec _ _ _ _ Hor i t Ht) in Hf. apply (proj1 (Hown i t Ht)) in Hf as [p Hp].
      destruct (or_owned _ _ _ _ Hor i t p Ht Hp) as (w1 & w2 & -> & _). set_solver. }
  assert (ws ≡ₚ filter (λ i, is_Some (f i)) (seq 0 (length c.2))) as Hperm.
  { apply NoDup_Permutation; [apply (or_nodup _ _ _ _ Hor)|apply NoDup_filter, NoDup_seq|done]. }
  assert (∀ ks : list nat, omap f (filter (λ i, is_Some (f i)) ks) = omap f ks) as Hfil.
  { induction ks as [|i ks IH]; [done|]. rewrite filter_cons. cbn [omap list_omap]. destruct (decide _) as [Hs|Hs].
    - cbn [omap list_omap]. destruct (f i); [by f_equal|exact IH].
    - destruct (f i); [by destruct Hs|exact IH]. }
  assert (omap f ws ≡ₚ omap append_rec c.2) as Hp by (rewrite Hperm, Hfil, Hall; done).
  split; [done|]. unfold len. rewrite Hp. f_equal.
  clear -Hown. induction c.2 as [|t ts IH]; [done|]. rewrite filter_cons. cbn [omap list_omap].
  specialize (IH (λ i u Hu, Hown (S i) u Hu)). destruct (Hown 0%nat t eq_refl) as [_ Hc].
  destruct (decide _) as [Hs|Hs]; destruct (append_rec t); cbn [length]; [by f_equal|by destruct (proj1 Hc Hs)|destruct Hs; by apply Hc|exact IH].
Qed.

(** What no action changes. *)
Lemma action_keeps s t s' t' :
  action s t = Some (s', t') →
  append_rec t' = append_rec t ∧ seg_index_enabled s' = seg_index_enabled s ∧ seg_max_size s' = seg_max_size s ∧ seg_path s' = seg_path s.
Proof.
  destruct t as [r|r off|r off|r off|r off num|r res|off|off pos|off res]; cbn [action]; try done; try by intros [= <- <-].
  - intros [= <- <-]. by destruct (_ <? _).
  - destruct (copy_from_slice _ _ _ _); by intros [= <- <-].
  - intros [= <- <-]. destruct (seg_index_enabled s) eqn:He; cbn; by rewrite ?He.
  - intros [= <- <-]. by destruct (_ <=? _).
Qed.

Lemma steps_keep c c' :
  rtc conc_step c c' → map append_rec c'.2 = map append_rec c.2 ∧ seg_index_enabled c'.1 = seg_index_enabled c.1.
Proof.
  intros Hc. revert Hc. apply (rtc_invariant conc_step (λ c', map append_rec c'.2 = map append_rec c.2 ∧ seg_index_enabled c'.1 = seg_index_enabled c.1)); [|done].
  intros [s1 ts1] c2 [Hr He] [i Hstep]. unfold thread_step in Hstep. cbn [fst snd] in *.
  apply bind_Some in Hstep as (t & Hi & ([s' t'] & Ha & [= <-])%bind_Some).
  destruct (action_keeps _ _ _ _ Ha) as (Hrec & Hen & _). cbn [fst snd]. split; [|by rewrite Hen].
  rewrite <- Hr. rewrite list_fmap_insert, Hrec. apply list_insert_id. by rewrite list_lookup_fmap, Hi.
Qed.

Lemma omap_map {A B} (g : A → option B) l : omap g l = omap id (map g l).
Proof. induction l as [|x l IH]; [done|]. cbn [omap list_omap map id]. rewrite <- IH. done. Qed.

(** The segment at the end. *)
Lemma ordered_repr l f ws c :
  conc_inv l c → ordered l f ws c → seg_index_enabled c.1 = false →
  (∀ i t, c.2 !! i = Some t → finished t = true) → seg_repr c.1 (l ++ omap f ws).
Proof.
  intros Hinv Hor Hen Hfin. destruct (ordered_bytes l f ws c Hinv Hor Hfin) as [Hsl Hwf].
  destruct (ordered_all l f ws c Hor Hinv Hfin) as [_ Hcount].
  apply slice_some in Hsl as (x & z & Hm & Hx & _).
  assert (x = []) as -> by (destruct x; [done|rewrite len_cons in Hx; pose proof (len_nonneg x); lia]).
  split.
  - apply Forall_app. split; [apply (ci_log _ _ Hinv)|done].
  - apply (ci_max _ _ Hinv).
  - by exists z.
  - apply (ci_len _ _ Hinv).
  - apply (or_pos _ _ _ _ Hor).
  - rewrite (or_count _ _ _ _ Hor), len_app, Hcount. done.
  - rewrite Hen. by apply (or_index _ _ _ _ Hor).
Qed.
End order_lemmas.

(** ** Properties *)
Section properties.
Context `{Crc32Ok}.

(** C24. Concurrent appends are linearizable: from a segment that stores the
    log [l], without an index, any number of threads append records that fit
    together, while others read; whatever the interleaving, when all have
    returned the segment stores [l] followed by the records in some order, and
    each append has returned the place of its record in that log. *)
Theorem concurrent_appends_linearize s l ts c :
  seg_repr s l → seg_index_enabled s = false → Forall is_start ts → len l + len ts < 2 ^ 64 →
  seg_write_pos s + zsum pending ts ≤ seg_max_size s →
  rtc conc_step (s, ts) c → (∀ i t, c.2 !! i = Some t → finished t = true) →
  ∃ ws, ws ≡ₚ omap append_rec ts ∧ seg_repr c.1 (l ++ ws) ∧
    ∀ i r res, c.2 !! i = Some (ADone r res) → ∃ w1 w2, ws = w1 ++ r :: w2 ∧
      res = Ok {| ro_offset := log_size (l ++ w1); ro_size := serialized_size r |}.
Proof.
  intros Hs Hen Hts Hb Hroom Hc Hfin. set (f := λ i : nat, ts !! i ≫= append_rec).
  destruct (ordered_reachable l f [] (s, ts) c) as [Hinv [ws Hor]];
    [by apply conc_inv_start|by apply ordered_start|done|].
  destruct (steps_keep _ _ Hc) as [Hrec Hen']. cbn [fst snd] in *.
  exists (omap f ws). split; [|split; [by apply ordered_repr; [..|congruence|]|]].
  - destruct (ordered_all l f ws c Hor Hinv Hfin) as [Hp _]. by rewrite Hp, omap_map, Hrec, <- omap_map.
  - intros i r res Hi. pose proof (Forall_lookup_1 _ _ _ _ (ci_wf _ _ Hinv) Hi) as Hr.
    destruct res as [[off sz]| |]; [|done..]. destruct Hr as [_ Hsz]. cbn in Hsz. subst sz.
    destruct (or_owned _ _ _ _ Hor i _ _ Hi eq_refl) as (w1 & w2 & -> & Hoff). cbn in Hoff. subst off.
    exists (omap f w1), (omap f w2). split; [|done]. rewrite omap_app. cbn [omap list_omap].
    by rewrite <- (or_rec _ _ _ _ Hor i _ Hi).
Qed.
End properties.

(** Two threads whose reservations and copies cross, and a reader. *)
Definition crossing : list thread := [AStart (letters 10 6); AStart (letters 20 7); RStart 0].
Definition crossed : config :=
  from_option id (race_segment, crossing) (run_schedule [1; 0; 2; 0; 1; 1; 2; 1; 0; 0]%nat (race_segment, crossing)).

Lemma concurrent_appends_linearize_witness :
  ∃ ws, rtc conc_step (race_segment, crossing) crossed ∧
    seg_repr crossed.1 (letters 80 1 :: ws) ∧ ws ≡ₚ [letters 10 6; letters 20 7].
Proof.
  assert (rtc conc_step (race_segment, crossing) crossed) as Hsteps
    by (apply (run_schedule_steps [1; 0; 2; 0; 1; 1; 2; 1; 0; 0]%nat); vm_compute; reflexivity).
  destruct (concurrent_appends_linearize race_segment [letters 80 1] crossing crossed race_segment_repr)
    as (ws & Hws & Hr & _); [reflexivity|repeat constructor; by vm_compute|by vm_compute|by vm_compute|exact Hsteps| |].
  { intros i t Hi. vm_compute in Hi. destruct i as [|[|[|i]]]; [injection Hi as <-; reflexivity..|done]. }
  exists ws. split; [exact Hsteps|]. split; [exact Hr|exact Hws].
Defined.
