(* ===== verification/ManagerConc.v ===== *)
(** * Concurrent appends through a segment manager (src/src/storage.rs)

    [SegmentManager::append_record] as several threads run it: the check of the
    current segment, the atomic actions of the segment's own [append_record]
    ([StorageConc]), the creation lock and the double check under it.  Creating
    a segment is one step, since the lock excludes other creators. *)

From stdpp Require Import base list numbers strings relations.
From Stdlib Require Import Strings.Byte.
From S2P Require Import Prelude Crc32 RecordFormat StorageEngine StorageConc.
Local Open Scope Z_scope.

(** Where a thread stands: at the loop head, inside the [append_record] of the
    segment with an index, waiting for the creation lock, holding it, returned. *)
Inductive mthread :=
  | MStart (r : Rec)
  | MAppend (r : Rec) (k : nat) (t : thread)
  | MSlow (r : Rec)
  | MLocked (r : Rec)
  | MDone (r : Rec) (res : outcome StorageError RecordOffset).

(** The manager, the holder of the creation lock and the threads. *)
Record mconfig := mkMConfig {
  mc_manager : SegmentManager; mc_lock : option nat; mc_threads : list mthread }.

Section steps.
Context `{Crc32} `{Os}.

Definition current_has_space (m : SegmentManager) (r : Rec) : option nat :=
  match current_segment m with
  | Some (k, s) => if RecordSegment_has_space s (serialized_size r) then Some k else None
  | None => None
  end.

(** The next step of thread [i]; [None] when it has returned or waits for the
    lock.
    Source: src/src/storage.rs:327-373 (SegmentManager::append_record) *)
Definition mstep_thread (i : nat) (m : SegmentManager) (lock : option nat) (t : mthread)
    : option (SegmentManager * option nat * mthread) :=
  match t with
  | MStart r =>
      Some (m, lock, match current_has_space m r with
                     | Some k => MAppend r k (AStart r)
                     | None => MSlow r
                     end)
  | MAppend r k (ADone _ (Ok offset)) => Some (m, lock, MDone r (Ok offset))
  | MAppend r k (ADone _ (Err (SegmentFull _ _))) => Some (m, lock, MSlow r)
  | MAppend r k (ADone _ res) => Some (m, lock, MDone r res)
  | MAppend r k t =>
      s ← sm_segments m !! k; '(s, t) ← action s t; Some (set_segment m k s, lock, MAppend r k t)
  | MSlow r => match lock with None => Some (m, Some i, MLocked r) | Some _ => None end
  | MLocked r =>
      match current_has_space m r with
      | Some _ => Some (m, None, MStart r)
      | None =>
          match create_new_segment m with
          | (m, Ok _) => Some (m, None, MStart r)
          | (m, Err e) => Some (m, None, MDone r (Err e))
          | (m, Panic) => Some (m, None, MDone r Panic)
          end
      end
  | MDone _ _ => None
  end.

Definition mstep (i : nat) (c : mconfig) : option mconfig :=
  t ← mc_threads c !! i;
  '(m, lock, t) ← mstep_thread i (mc_manager c) (mc_lock c) t;
  Some (mkMConfig m lock (<[i := t]> (mc_threads c))).
Definition mconc_step (c c' : mconfig) : Prop := ∃ i, mstep i c = Some c'.

Fixpoint run_mschedule (sched : list nat) (c : mconfig) : option mconfig :=
  match sched with
  | [] => Some c
  | i :: sched => c ← mstep i c; run_mschedule sched c
  end.

Lemma run_mschedule_steps sched c c' : run_mschedule sched c = Some c' → rtc mconc_step c c'.
Proof.
  revert c. induction sched as [|i sched IH]; intros c; simpl; [intros [= ->]; done|].
  intros (c1 & Hstep & Hrun)%bind_Some. eapply rtc_l; [by exists i|]. by apply IH.
Qed.
Lemma run_mschedule_app s1 s2 c c' c2 :
  run_mschedule s1 c = Some c' → run_mschedule s2 c' = Some c2 → run_mschedule (s1 ++ s2) c = Some c2.
Proof.
  revert c. induction s1 as [|i s1 IH]; intros c; simpl; [by intros [= ->]|].
  intros (c1 & Hstep & Hrun)%bind_Some Hrest. rewrite Hstep. simpl. by apply IH.
Qed.

Definition start_threads (m : SegmentManager) (rs : list Rec) : mconfig :=
  mkMConfig m None (map MStart rs).

(** ** A thread that is alone runs the sequential loop *)

Definition alone (m : SegmentManager) (t : mthread) : mconfig := mkMConfig m None [t].

(** Inside the segment's [append_record] a thread takes the segment's actions. *)
Lemma mstep_inside i m lock r k s t s' t' :
  sm_segments m !! k = Some s → action s t = Some (s', t') →
  mstep_thread i m lock (MAppend r k t) = Some (set_segment m k s', lock, MAppend r k t').
Proof.
  intros Hk Ha.
  assert (mstep_thread i m lock (MAppend r k t) =
    s ← sm_segments m !! k; '(s, t) ← action s t; Some (set_segment m k s, lock, MAppend r k t)) as ->
    by (by destruct t).
  rewrite Hk. cbn [mbind option_bind]. by rewrite Ha.
Qed.
Lemma alone_action m r k s t s' t' :
  sm_segments m !! k = Some s → action s t = Some (s', t') →
  mstep 0 (alone m (MAppend r k t)) = Some (alone (set_segment m k s') (MAppend r k t')).
Proof.
  intros Hk Ha. unfold mstep. cbn [alone mc_threads mc_manager mc_lock lookup list_lookup mbind option_bind].
  by rewrite (mstep_inside _ _ _ _ _ _ _ _ _ Hk Ha).
Qed.

Lemma set_segment_twice m k s s' : set_segment (set_segment m k s) k s' = set_segment m k s'.
Proof. unfold set_segment. simpl. by rewrite list_insert_insert_eq. Qed.

(** The segment's actions, run inside the manager. *)
Lemma alone_actions n m r k s s' t t' :
  sm_segments m !! k = Some s →
  run_schedule (replicate n 0%nat) (s, [t]) = Some (s', [t']) →
  (n = 0%nat ∧ s' = s ∧ t' = t) ∨
  run_mschedule (replicate n 0%nat) (alone m (MAppend r k t)) = Some (alone (set_segment m k s') (MAppend r k t')).
Proof.
  revert m s t. induction n as [|n IH]; intros m s t Hk; simpl.
  - intros [= <- <-]. by left.
  - unfold thread_step. simpl. destruct (action s t) as [[s1 t1]|] eqn:Ha; [|done]. simpl. intros Hrun. right.
    rewrite (alone_action _ _ _ _ _ _ _ Hk Ha). simpl.
    assert (sm_segments (set_segment m k s1) !! k = Some s1) as Hk1.
    { simpl. apply list_lookup_insert_eq. by apply lookup_lt_Some in Hk. }
    destruct (IH _ _ _ Hk1 Hrun) as [(-> & -> & ->)|Hm]; [done|]. by rewrite Hm, set_segment_twice.
Qed.

Lemma current_lookup m k s : current_segment m = Some (k, s) → sm_segments m !! k = Some s.
Proof. unfold current_segment. intros (i & _ & (s' & Hs & [= <- <-])%bind_Some)%bind_Some. done. Qed.
Lemma current_set_segment m k s s' :
  current_segment m = Some (k, s) → current_segment (set_segment m k s') = Some (k, s').
Proof.
  unfold current_segment, set_segment. simpl.
  intros (i & Hi & (s0 & Hs & [= <- <-])%bind_Some)%bind_Some. rewrite Hi. simpl.
  rewrite list_lookup_insert_eq by (by apply lookup_lt_Some in Hs). done.
Qed.

(** Where a thread is after an iteration of the sequential loop. *)
Definition after (r : Rec) (st : loop_step SegmentManager (outcome StorageError RecordOffset)) : mconfig :=
  match st with
  | Continue m => alone m (MStart r)
  | Return m res => alone m (MDone r res)
  end.

Lemma alone_step c c' : mstep 0 c = Some c' → rtc mconc_step c c'.
Proof. intros Hs. apply rtc_once. by exists 0%nat. Qed.

Lemma alone_slow_path m r : rtc mconc_step (alone m (MSlow r)) (after r (append_slow_path r m)).
Proof.
  eapply rtc_l; [by exists 0%nat|]. apply alone_step. unfold mstep. simpl.
  unfold current_has_space, append_slow_path.
  destruct (current_segment m) as [[k s]|]; [destruct (RecordSegment_has_space _ _); [done|]|];
    by destruct (create_new_segment m) as [? [| |]].
Qed.

Lemma alone_iteration m r : rtc mconc_step (alone m (MStart r)) (after r (append_record_body r m)).
Proof.
  unfold append_record_body.
  eapply rtc_l; [by exists 0%nat|]. simpl. unfold current_has_space.
  destruct (current_segment m) as [[k s]|] eqn:Hc; [|apply alone_slow_path].
  destruct (RecordSegment_has_space s _) eqn:Hsp; [|apply alone_slow_path].
  pose proof (current_lookup _ _ _ Hc) as Hk.
  destruct (actions_refine_append s r) as [n Hn].
  destruct (alone_actions n m r k s _ _ _ Hk Hn) as [(_ & _ & [=])|Hrun].
  change (mkMConfig m None [MAppend r k (AStart r)]) with (alone m (MAppend r k (AStart r))).
  apply run_mschedule_steps in Hrun. etrans; [exact Hrun|].
  destruct (RecordSegment_append_record s r) as [s' res]. simpl.
  destruct res as [off|e|]; [by apply alone_step| |by apply alone_step].
  destruct e; try by apply alone_step.
  eapply rtc_l; [by exists 0%nat|]. apply alone_slow_path.
Qed.

(** The concurrent model is the sequential function when nobody
    interferes: a thread that runs alone takes the manager to the state, and
    returns the result, of [SegmentManager_append_record]. *)
Lemma alone_runs_append fuel m r m' res :
  SegmentManager_append_record fuel m r = Some (m', res) →
  rtc mconc_step (start_threads m [r]) (mkMConfig m' None [MDone r res]).
Proof.
  change (start_threads m [r]) with (alone m (MStart r)).
  unfold SegmentManager_append_record. revert m. induction fuel as [|fuel IH]; intros m; [done|].
  simpl. pose proof (alone_iteration m r) as Hit. destruct (append_record_body r m) as [m1|m1 res1]; simpl in Hit.
  - intros Hr. etrans; [exact Hit|by apply IH].
  - by intros [= <- <-].
Qed.

(** ** The double check creates one segment *)

(** The bytes a thread may still reserve in segment [n]. *)
Definition demand (n : nat) (t : mthread) : Z :=
  match t with
  | MStart r | MSlow r | MLocked r => serialized_size r
  | MAppend r k t =>
      if decide (k = n) then match t with AStart r => serialized_size r | _ => 0 end
      else serialized_size r
  | MDone _ _ => 0
  end.

(** In segment [n] no thread has overflowed; threads are in segments up to [n];
    a thread appends its own record. *)
Definition in_place (n : nat) (t : mthread) : Prop :=
  match t with
  | MStart r | MSlow r | MLocked r => record_wf r
  | MDone _ _ => True
  | MAppend r k t => record_wf r ∧ (k ≤ n)%nat ∧
      match t with
      | AStart r' => r' = r
      | AReserved r' _ | AWritten r' _ | ACounted r' _ _ => True
      | AOverflow _ _ | ADone _ (Err _) => k ≠ n
      | ADone _ _ => True
      | RStart _ | RLoaded _ _ | RDone _ _ => False
      end
  end.

(** Before the new segment [n] exists, and since. *)
Record one_more (n : nat) (T : Z) (c : mconfig) : Prop := {
  om_place : Forall (in_place n) (mc_threads c);
  om_size : T ≤ sm_segment_size (mc_manager c) < 2 ^ 63;
  om_state :
    (length (sm_segments (mc_manager c)) = n ∧ zsum (demand n) (mc_threads c) ≤ T) ∨
    (∃ s, length (sm_segments (mc_manager c)) = S n ∧ sm_current_segment (mc_manager c) = Some n ∧
       sm_segments (mc_manager c) !! n = Some s ∧ seg_max_size s = sm_segment_size (mc_manager c) ∧
       0 ≤ seg_write_pos s ∧ seg_write_pos s + zsum (demand n) (mc_threads c) ≤ T) }.

(** What a step leaves alone, and what it takes from the room in segment [n]. *)
Definition keeps (n : nat) (m m' : SegmentManager) : Prop :=
  length (sm_segments m') = length (sm_segments m) ∧
  sm_current_segment m' = sm_current_segment m ∧ sm_segment_size m' = sm_segment_size m.
Definition room (n : nat) (m : SegmentManager) (d : Z) : Prop :=
  ∀ s, sm_segments m !! n = Some s → 0 ≤ seg_write_pos s ∧ seg_write_pos s + d ≤ seg_max_size s < 2 ^ 63.
Definition takes (n : nat) (m m' : SegmentManager) (d : Z) : Prop :=
  ∀ s, sm_segments m !! n = Some s → ∃ s', sm_segments m' !! n = Some s' ∧
    seg_max_size s' = seg_max_size s ∧ seg_write_pos s' = seg_write_pos s + d.
End steps.

Section one_segment.
Context `{Crc32Ok} `{Os}.

Lemma demand_nonneg n t : 0 ≤ demand n t.
Proof.
  assert (∀ r, 0 ≤ serialized_size r) as Hz by (intros r; apply Z.mod_pos_bound; lia).
  destruct t as [r|r k t|r|r|r res]; simpl; try done. destruct (decide _); [|done]. by destruct t.
Qed.

Lemma keeps_refl n m : keeps n m m.
Proof. done. Qed.
Lemma takes_none n m : takes n m m 0.
Proof. intros s Hs. exists s. rewrite Z.add_0_r. done. Qed.
Lemma takes_set n m k s s' d :
  sm_segments m !! k = Some s →
  (k = n → seg_max_size s' = seg_max_size s ∧ seg_write_pos s' = seg_write_pos s + d) →
  (k ≠ n → d = 0) → takes n m (set_segment m k s') d.
Proof.
  intros Hk He Hne s0 Hs0. simpl. destruct (decide (k = n)) as [->|Hkn].
  - rewrite Hs0 in Hk. injection Hk as ->. exists s'. split; [|by apply He].
    apply list_lookup_insert_eq. by apply lookup_lt_Some in Hs0.
  - exists s0. rewrite list_lookup_insert_ne by done. rewrite (Hne Hkn), Z.add_0_r. done.
Qed.

(** An action inside segment [k]. *)
Lemma action_takes n m r k t s s' t' :
  in_place n (MAppend r k t) → room n m (demand n (MAppend r k t)) →
  sm_segments m !! k = Some s → action s t = Some (s', t') →
  in_place n (MAppend r k t') ∧ demand n (MAppend r k t') ≤ demand n (MAppend r k t) ∧
  takes n m (set_segment m k s') (demand n (MAppend r k t) - demand n (MAppend r k t')).
Proof.
  intros (Hr & Hkn & Ht) Hroom Hk Ha. cbn [demand in_place] in *. pose proof (serialized_size_bounds r Hr).
  destruct t as [r'|r' off|r' off|r' off|r' off num|r' res|off|off pos|off res]; cbn [action] in Ha; try done.
  - subst r'. rewrite framed_size_wf in Ha by done. injection Ha as <- <-.
    destruct (decide (k = n)) as [->|Hne].
    + destruct (Hroom s Hk) as (Hp1 & Hp2).
      rewrite wrap_id by (unfold in_range; lia). rewrite (proj2 (Z.ltb_ge _ _)) by lia.
      split; [done|]. split; [lia|]. apply (takes_set _ _ _ s); [done| |done]. intros _. simpl. split; [done|lia].
    + destruct (_ <? _); (split; [done|split; [lia|apply (takes_set _ _ _ s); [done..|lia]]]).
  - destruct (copy_from_slice _ _ _ _); injection Ha as <- <-;
      (split; [done|split; [by destruct (decide _)|apply (takes_set _ _ _ s); [done| |]]]); destruct (decide _); simpl; intros; lia.
  - injection Ha as <- <-. split; [done|split; [by destruct (decide _)|apply (takes_set _ _ _ s); [done| |]]]; destruct (decide _); simpl; intros; lia.
  - injection Ha as <- <-. split; [done|split; [by destruct (decide _)|apply (takes_set _ _ _ s); [done| |]]]; destruct (decide _); simpl; intros; lia.
  - injection Ha as <- <-. split; [done|split; [by destruct (decide _)|apply (takes_set _ _ _ s); [done| |]]];
      destruct (seg_index_enabled s), (decide _); simpl; intros; lia.
Qed.

Lemma has_space_lookup m r k : current_has_space m r = Some k → is_Some (sm_segments m !! k).
Proof.
  unfold current_has_space. destruct (current_segment m) as [[k' s]|] eqn:Hc; [|done].
  destruct (RecordSegment_has_space _ _); [|done]. intros [= ->]. exists s. by apply current_lookup.
Qed.

(** A step that creates no segment. *)
Lemma mstep_takes n i m lock t m' lock' t' :
  in_place n t → (length (sm_segments m) ≤ S n)%nat → room n m (demand n t) →
  (∀ r, t = MLocked r → current_has_space m r ≠ None) →
  mstep_thread i m lock t = Some (m', lock', t') →
  in_place n t' ∧ keeps n m m' ∧ ∃ d, takes n m m' d ∧ 0 ≤ d ∧ d + demand n t' ≤ demand n t.
Proof.
  intros Hp Hlen Hroom Hlk Hs.
  assert (∀ t', in_place n t' → demand n t' ≤ demand n t → m' = m →
    in_place n t' ∧ keeps n m m' ∧ ∃ d, takes n m m' d ∧ 0 ≤ d ∧ d + demand n t' ≤ demand n t) as Hsame.
  { intros u Hu Hd ->. split; [done|]. split; [apply keeps_refl|]. exists 0. split; [apply takes_none|lia]. }
  destruct t as [r|r k t|r|r|r res].
  - injection Hs as <- <- <-. destruct (current_has_space m r) as [k|] eqn:Hc; apply Hsame; try done.
    + destruct (has_space_lookup _ _ _ Hc) as [s Hk%lookup_lt_Some]. split; [done|]. split; [lia|done].
    + cbn [demand]. by destruct (decide _).
  - assert ((∃ r' res, t = ADone r' res) ∨ ∀ r' res, t ≠ ADone r' res) as [(r' & res & ->)|Hnd]
      by (destruct t; try (by right); left; by eexists _, _).
    + destruct Hp as (Hr & Hkn & Ht). cbn [mstep_thread] in Hs.
      pose proof (demand_nonneg n (MAppend r k (ADone r' res))).
      destruct res as [off|e|]; [|destruct e|]; injection Hs as <- <- <-; apply Hsame; try done.
      cbn [demand]. by rewrite decide_False.
    + assert (∃ s s2, sm_segments m !! k = Some s ∧ action s t = Some s2 ∧
        (m', lock', t') = (set_segment m k s2.1, lock, MAppend r k s2.2)) as (s & [s' u] & Hk & Ha & [= -> -> ->]).
      { destruct t; try (by edestruct Hnd);
          apply bind_Some in Hs as (s & Hk & ([s' u] & Ha & [= <- <- <-])%bind_Some); by exists s, (s', u). }
      destruct (action_takes n m r k t s s' u Hp Hroom Hk Ha) as (Hp' & Hd & Ht). split; [done|].
      split. { unfold keeps. simpl. by rewrite length_insert. }
      eexists. split; [exact Ht|]. cbn [fst snd] in *. lia.
  - cbn [mstep_thread] in Hs. destruct lock; [done|]. injection Hs as <- <- <-. by apply Hsame.
  - cbn [mstep_thread] in Hs. specialize (Hlk r eq_refl). destruct (current_has_space m r); [|done].
    injection Hs as <- <- <-. by apply Hsame.
  - done.
Qed.

Lemma one_more_room n T c i t :
  one_more n T c → mc_threads c !! i = Some t →
  (length (sm_segments (mc_manager c)) ≤ S n)%nat ∧ room n (mc_manager c) (demand n t).
Proof.
  intros [_ Hsz [[Hlen Hsum]|(s & Hlen & _ & Hs & Hmax & Hp & Hsum)]] Hi.
  - split; [lia|]. intros s Hs%lookup_lt_Some. lia.
  - split; [lia|]. intros s' Hs'. rewrite Hs in Hs'. injection Hs' as <-.
    pose proof (zsum_lookup_le (demand n) _ i t (demand_nonneg n) Hi). lia.
Qed.

(** Once the segment exists, whoever gets the lock finds room in it. *)
Lemma locked_finds_room n s m r :
  sm_current_segment m = Some n → sm_segments m !! n = Some s →
  0 ≤ seg_write_pos s → seg_write_pos s + serialized_size r ≤ seg_max_size s < 2 ^ 63 →
  record_wf r → current_has_space m r = Some n.
Proof.
  intros Hc Hs Hp Hfit Hr. pose proof (serialized_size_bounds r Hr).
  unfold current_has_space, current_segment. rewrite Hc. cbn [mbind option_bind]. rewrite Hs.
  cbn [mbind option_bind]. unfold RecordSegment_has_space.
  rewrite wrap_id by (unfold in_range; lia). by rewrite (proj2 (Z.leb_le _ _)) by lia.
Qed.

Lemma create_segment_cases m m' res :
  create_new_segment m = (m', res) →
  (m' = m ∧ ∀ u, res ≠ Ok u) ∨
  res = Ok tt ∧ sm_segment_size m' = sm_segment_size m ∧ sm_current_segment m' = Some (length (sm_segments m)) ∧
    ∃ s, sm_segments m' = sm_segments m ++ [s] ∧ seg_write_pos s = 0 ∧ seg_max_size s = sm_segment_size m.
Proof.
  unfold create_new_segment, RecordSegment_new. destruct (os_map_file _ _) as [mm|e|]; cbn [map_err mbind outcome_bind].
  - intros [= <- <-]. right. simpl. split_and!; try done. by eexists.
  - intros [= <- <-]. by left.
  - intros [= <- <-]. by left.
Qed.

Lemma one_more_keeps n T c i t m' lock' t' :
  one_more n T c → mc_threads c !! i = Some t →
  (∀ r, t = MLocked r → current_has_space (mc_manager c) r ≠ None) →
  mstep_thread i (mc_manager c) (mc_lock c) t = Some (m', lock', t') →
  one_more n T (mkMConfig m' lock' (<[i := t']> (mc_threads c))).
Proof.
  intros Hom Hi Hlk Hs. destruct (one_more_room _ _ _ _ _ Hom Hi) as [Hlen Hroom].
  pose proof (Forall_lookup_1 _ _ _ _ (om_place _ _ _ Hom) Hi) as Hp.
  destruct (mstep_takes _ _ _ _ _ _ _ _ Hp Hlen Hroom Hlk Hs) as (Hp' & (Hl & Hc & Hz) & d & Ht & Hd & Hdd).
  destruct Hom as [Hpl Hsz Hst]. split; cbn [mc_manager mc_threads mc_lock].
  - by apply Forall_insert.
  - by rewrite Hz.
  - rewrite Hl, Hc, Hz. rewrite (zsum_insert _ _ _ _ _ Hi). destruct Hst as [[Hn Hsum]|(s & Hn & Hcur & Hsn & Hmax & H0' & Hsum)].
    + left. split; [done|lia].
    + right. destruct (Ht s Hsn) as (s' & Hs' & Hm' & Hw'). exists s'. split_and!; try done; [congruence|lia..].
Qed.

Lemma one_more_step n T c c' : one_more n T c → mconc_step c c' → one_more n T c'.
Proof.
  intros Hom [i (t & Hi & ([[m' lock'] t'] & Hs & [= <-])%bind_Some)%bind_Some].
  assert ((∃ r, t = MLocked r ∧ current_has_space (mc_manager c) r = None) ∨
    ∀ r, t = MLocked r → current_has_space (mc_manager c) r ≠ None) as [(r & -> & Hnone)|Hlk].
  { destruct t as [| | |r|]; try by right. destruct (current_has_space (mc_manager c) r) eqn:Hc; [right|left; by eexists].
    intros r' [= <-]. by rewrite Hc. }
  2: by apply (one_more_keeps n T c i t).
  pose proof (Forall_lookup_1 _ _ _ _ (om_place _ _ _ Hom) Hi) as Hp.
  destruct Hom as [Hpl Hsz [[Hn Hsum]|(s & Hn & Hcur & Hsn & Hmax & H0' & Hsum)]].
  2: { pose proof (zsum_lookup_le _ _ _ _ (demand_nonneg n) Hi) as Hle. cbn [demand] in Hle.
       rewrite (locked_finds_room n s) in Hnone; [done..|lia|done]. }
  cbn [mstep_thread] in Hs. rewrite Hnone in Hs.
  pose proof (serialized_size_bounds r Hp) as Hr.
  assert (∀ u, in_place n u → demand n u ≤ serialized_size r → T ≤ sm_segment_size (mc_manager c) < 2 ^ 63 →
    Forall (in_place n) (<[i := u]> (mc_threads c)) ∧ zsum (demand n) (<[i := u]> (mc_threads c)) ≤ T) as Hupd.
  { intros u Hu Hd _. split; [by apply Forall_insert|]. rewrite (zsum_insert _ _ _ _ _ Hi). cbn [demand]. lia. }
  destruct (create_new_segment (mc_manager c)) as [m1 res] eqn:Hcr.
  destruct (create_segment_cases _ _ _ Hcr) as [[-> Hne]|(-> & Hz & Hcur & s & Hseg & Hw & Hm)].
  - destruct (Hupd (MDone r (match res with Err e => Err e | _ => Panic end)) I) as [Hf Hz]; [simpl; lia|done|].
    destruct res as [u|e|]; [by destruct (Hne u)|injection Hs as <- <- <-..]; (split; [done|done|by left]).
  - injection Hs as <- <- <-. destruct (Hupd (MStart r) Hp) as [Hf Hzs]; [simpl; lia|done|].
    split; cbn [mc_manager mc_threads]; [done|by rewrite Hz|]. right. exists s. rewrite Hseg, length_app, Hcur, Hz, Hw, Hm, Hn. simpl.
    split_and!; [lia|done|by rewrite lookup_app_r, Hn, Nat.sub_diag by lia|done|done|lia].
Qed.

Lemma one_more_start m rs :
  Forall record_wf rs → log_size rs ≤ sm_segment_size m < 2 ^ 63 →
  one_more (length (sm_segments m)) (log_size rs) (start_threads m rs).
Proof.
  intros Hrs Hsz. split; [by apply Forall_fmap|done|]. left. split; [done|]. cbn [start_threads mc_threads].
  apply Z.eq_le_incl. unfold log_size. clear. induction rs as [|r rs IH]; [done|]. simpl. by rewrite IH.
Qed.
End one_segment.

(** ** Nobody waits for ever *)

(** A thread inside a segment is inside one that exists, and appends there. *)
Definition inside (m : SegmentManager) (t : mthread) : Prop :=
  match t with
  | MAppend r k t => (k < length (sm_segments m))%nat ∧
      match t with RStart _ | RLoaded _ _ | RDone _ _ => False | _ => True end
  | _ => True
  end.

(** The holder of the lock is the thread at [MLocked]. *)
Record locked_ok (c : mconfig) : Prop := {
  lk_holder : ∀ i, mc_lock c = Some i → ∃ r, mc_threads c !! i = Some (MLocked r);
  lk_inside : Forall (inside (mc_manager c)) (mc_threads c) }.

Section progress.
Context `{Crc32Ok} `{Os}.

Lemma action_inside s t s' t' :
  match t with RStart _ | RLoaded _ _ | RDone _ _ => False | _ => True end →
  action s t = Some (s', t') → match t' with RStart _ | RLoaded _ _ | RDone _ _ => False | _ => True end.
Proof.
  destruct t; cbn [action]; try done.
  - intros _ [= _ <-]. by destruct (_ <? _).
  - intros _. by destruct (copy_from_slice _ _ _ _); intros [= _ <-].
  - by intros _ [= _ <-].
  - by intros _ [= _ <-].
  - by intros _ [= _ <-].
Qed.

Lemma mstep_inside_ok i m lock t m' lock' t' :
  inside m t → mstep_thread i m lock t = Some (m', lock', t') →
  inside m' t' ∧ (length (sm_segments m) ≤ length (sm_segments m'))%nat.
Proof.
  destruct t as [r|r k t|r|r|r res]; cbn [mstep_thread].
  - intros _ [= <- <- <-]. destruct (current_has_space m r) as [k|] eqn:Hc; [|done].
    by destruct (has_space_lookup _ _ _ Hc) as [s Hk%lookup_lt_Some].
  - intros [Hk Ht]. destruct t; try (intros (s & Hs & ([s' u] & Ha & [= <- <- <-])%bind_Some)%bind_Some;
      cbn [inside]; unfold set_segment; cbn [sm_segments]; rewrite length_insert;
      apply action_inside in Ha; done).
    destruct res as [|[]|]; by intros [= <- <- <-].
  - destruct lock; [done|]. by intros _ [= <- <- <-].
  - intros _. destruct (current_has_space m r); [by intros [= <- <- <-]|].
    destruct (create_new_segment m) as [m1 res] eqn:Hcr.
    assert (length (sm_segments m) ≤ length (sm_segments m1))%nat.
    { destruct (create_segment_cases _ _ _ Hcr) as [[-> _]|(_ & _ & _ & s & -> & _)]; [done|]. rewrite length_app. lia. }
    by destruct res; intros [= <- <- <-].
  - done.
Qed.

Lemma mstep_lock i m lock t m' lock' t' :
  mstep_thread i m lock t = Some (m', lock', t') →
  (lock' = lock ∧ ∀ r, t ≠ MLocked r) ∨ (lock' = Some i ∧ ∃ r, t' = MLocked r) ∨ lock' = None.
Proof.
  destruct t as [r|r k t|r|r|r res]; cbn [mstep_thread].
  - intros [= <- <- <-]. by left.
  - intros Hs. left. destruct t; try (by apply bind_Some in Hs as (s & Hk & ([s' u] & Ha & [= <- <- <-])%bind_Some)).
    by destruct res as [|[]|]; injection Hs as <- <- <-.
  - destruct lock; [done|]. intros [= <- <- <-]. right. left. eauto.
  - intros Hs. right. right. destruct (current_has_space m r); [by injection Hs|].
    destruct (create_new_segment m) as [? []]; by injection Hs.
  - done.
Qed.

Lemma locked_ok_step c c' : locked_ok c → mconc_step c c' → locked_ok c'.
Proof.
  intros [Hh Hin] [i (t & Hi & ([[m' lock'] t'] & Hs & [= <-])%bind_Some)%bind_Some].
  pose proof (Forall_lookup_1 _ _ _ _ Hin Hi) as Ht. pose proof (lookup_lt_Some _ _ _ Hi) as Hlt.
  destruct (mstep_inside_ok _ _ _ _ _ _ _ Ht Hs) as [Ht' Hlen].
  split; cbn [mc_manager mc_lock mc_threads].
  - intros j Hj. destruct (mstep_lock _ _ _ _ _ _ _ Hs) as [[-> Hne]|[[-> [r ->]]| ->]]; [|injection Hj as <-|done].
    + destruct (Hh j Hj) as [r Hr]. exists r. rewrite list_lookup_insert_ne; [done|].
      intros ->. rewrite Hi in Hr. injection Hr as ->. by destruct (Hne r).
    + exists r. by apply list_lookup_insert_eq.
  - apply Forall_insert; [|done]. eapply Forall_impl; [exact Hin|]. intros u. destruct u as [|r k u| | |]; simpl; try done.
    intros [? ?]. split; [lia|done].
Qed.

(** The lock's holder, and any thread that does not wait for the lock, can step. *)
Lemma inside_steps i m lock t :
  inside m t → (∀ r res, t ≠ MDone r res) → (∀ r, t = MSlow r → lock = None) →
  is_Some (mstep_thread i m lock t).
Proof.
  destruct t as [r|r k t|r|r|r res]; cbn [mstep_thread inside]; intros Ht Hd Hs.
  - done.
  - destruct Ht as [[s Hk]%lookup_lt_is_Some Ht].
    destruct t; try done; try (by (rewrite Hk; cbn [mbind option_bind action];
      repeat case_match; eauto)).
    by destruct res as [|[]|].
  - by rewrite (Hs r eq_refl).
  - destruct (current_has_space m r); [done|]. by destruct (create_new_segment m) as [? []].
  - by destruct (Hd r res).
Qed.
End progress.

Definition returned (t : mthread) : bool := match t with MDone _ _ => true | _ => false end.

Section manager_properties.
Context `{Crc32Ok} `{Os}.

(** The double check creates at most one segment: when the records of any
    number of threads that append at once fit together in one new segment,
    then in every reachable state at most one segment has been added, however
    many of the threads found the current segment full. *)
Lemma double_check_creates_one_segment m rs c :
  Forall record_wf rs → log_size rs ≤ sm_segment_size m < 2 ^ 63 →
  rtc mconc_step (start_threads m rs) c →
  (length (sm_segments (mc_manager c)) ≤ S (length (sm_segments m)))%nat.
Proof.
  intros Hrs Hsz Hc.
  assert (one_more (length (sm_segments m)) (log_size rs) c) as Hom.
  { revert Hc. apply rtc_invariant; [apply one_more_step|by apply one_more_start]. }
  destruct (om_state _ _ _ Hom) as [[Hn _]|(s & Hn & _)]; lia.
Qed.

(** Appends do not deadlock: in every reachable state either all threads
    have returned or some thread can take a step. *)
Lemma appends_never_deadlock m rs c :
  rtc mconc_step (start_threads m rs) c →
  (∀ i t, mc_threads c !! i = Some t → ∃ r res, t = MDone r res) ∨ ∃ c', mconc_step c c'.
Proof.
  intros Hc. assert (locked_ok c) as [Hh Hin].
  { revert Hc. apply rtc_invariant; [apply locked_ok_step|]. split; [done|].
    apply Forall_fmap, Forall_true. by intros r. }
  assert (∀ i t, mc_threads c !! i = Some t → (∀ r res, t ≠ MDone r res) →
    (∀ r, t = MSlow r → mc_lock c = None) → ∃ c', mconc_step c c') as Hgo.
  { intros i t Hi Hd Hs. destruct (inside_steps i (mc_manager c) (mc_lock c) t) as [[[m' lock'] t'] Hstep];
      [by eapply Forall_lookup_1|done|done|].
    eexists. exists i. unfold mstep. rewrite Hi. cbn [mbind option_bind]. by rewrite Hstep. }
  destruct (mc_lock c) as [i|] eqn:Hlock.
  { right. destruct (Hh i eq_refl) as [r Hr]. by apply (Hgo i (MLocked r)). }
  destruct (decide (Forall (λ t, Is_true (returned t)) (mc_threads c))) as [Hall|Hall].
  - left. intros i t Hi. pose proof (Forall_lookup_1 _ _ _ _ Hall Hi) as Ht. simpl in Ht. destruct t; try done. eauto.
  - right. apply not_Forall_Exists, Exists_exists in Hall as (t & [i Hi]%list_elem_of_lookup & Ht); [|apply _].
    apply (Hgo i t Hi); [|done]. intros r res ->. by apply Ht.
Qed.
End manager_properties.

(** ** Concrete executions *)

(** Three threads find no room in a 64-byte manager whose segment is nearly
    full; one creates the new segment, all three append there. *)
Definition crowded_manager : SegmentManager :=
  set_segment sample_manager 0 (with_write_pos (sample_segment 64) 60).
Definition crowd : list Rec := [letters 1 1; letters 0 2; letters 1 3].
Definition crowd_schedule : list nat :=
  [0; 1; 2; 0; 0; 0; 1; 1; 1; 2; 2; 2]%nat ++ concat (replicate 5 [2; 0; 1]%nat).

Lemma alone_runs_append_witness :
  ∃ m', rtc mconc_step (start_threads sample_manager [sample_record])
    (mkMConfig m' None [MDone sample_record (Ok (mkOffset 25 25))]).
Proof. eexists. apply (alone_runs_append 2). vm_compute. reflexivity. Defined.

Lemma double_check_creates_one_segment_witness :
  ∃ c, rtc mconc_step (start_threads crowded_manager crowd) c ∧
    mc_threads c = [MDone (letters 1 1) (Ok (mkOffset 21 21)); MDone (letters 0 2) (Ok (mkOffset 42 20));
                    MDone (letters 1 3) (Ok (mkOffset 0 21))] ∧
    (length (sm_segments (mc_manager c)) ≤ 2)%nat.
Proof.
  eexists. assert (rtc mconc_step (start_threads crowded_manager crowd) _) as Hsteps
    by (apply (run_mschedule_steps crowd_schedule); vm_compute; reflexivity).
  split; [exact Hsteps|]. split; [reflexivity|].
  apply (double_check_creates_one_segment crowded_manager crowd); [repeat constructor; by vm_compute|by vm_compute|].
  exact Hsteps.
Defined.

Lemma appends_never_deadlock_witness :
  ∃ c c', rtc mconc_step (start_threads crowded_manager crowd) c ∧ mc_lock c = Some 1%nat ∧ mconc_step c c'.
Proof.
  eexists. assert (rtc mconc_step (start_threads crowded_manager crowd) _) as Hsteps
    by (apply (run_mschedule_steps [0; 1; 2; 1]%nat); vm_compute; reflexivity).
  destruct (appends_never_deadlock crowded_manager crowd _ Hsteps) as [Hall|[c' Hc']].
  - exfalso. specialize (Hall 0%nat _ eq_refl) as (r & res & [=]).
  - exists c'. split; [exact Hsteps|]. split; [reflexivity|exact Hc'].
Defined.
