(* ===== verification/ManagerLinear.v ===== *)
(** * Concurrent appends that fit in the current segment (src/src/storage.rs)

    Threads that append through a segment manager whose current segment has
    room for all their records: the manager's threads, seen as threads of that
    one segment, take the atomic actions of [StorageConc], so what
    [SegmentLinear] shows of a segment holds of the manager, and every append
    returns within six steps of its own. *)

From stdpp Require Import base list numbers strings relations.
From Stdlib Require Import Strings.Byte.
From S2P Require Import Prelude Crc32 RecordFormat StorageEngine StorageConc SegmentLinear ManagerConc.
Local Open Scope Z_scope.

(** ** The manager's threads as threads of one segment *)

(** Where a thread of the manager stands in the [append_record] of the segment. *)
Definition segment_thread (t : mthread) : thread :=
  match t with
  | MStart r | MSlow r | MLocked r => AStart r
  | MAppend _ _ t => t
  | MDone r res => ADone r res
  end.

(** A thread that never leaves segment [n] for another. *)
Definition sharing (n : nat) (t : mthread) : Prop :=
  match t with
  | MStart _ | MDone _ _ => True
  | MAppend r k t => k = n ∧ append_rec t = Some r
  | MSlow _ | MLocked _ => False
  end.

(** The steps a thread has left when it stays in its segment. *)
Definition steps_left (t : mthread) : nat :=
  match t with
  | MStart _ => 6
  | MAppend _ _ t =>
      match t with AStart _ => 5 | AReserved _ _ => 4 | AWritten _ _ => 3 | ACounted _ _ _ => 2 | _ => 1 end
  | MSlow _ | MLocked _ => 7
  | MDone _ _ => 0
  end.

(** The manager [m], with the segment at index [n] shared by the threads. *)
Record shared `{Crc32} (m : SegmentManager) (n : nat) (l : list Rec) (f : nat → option Rec) (c : mconfig) : Prop := {
  sh_segment : ∃ s ws, mc_manager c = set_segment m n s ∧ conc_inv l (s, map segment_thread (mc_threads c)) ∧
    ordered l f ws (s, map segment_thread (mc_threads c)) ∧ seg_index_enabled s = false;
  sh_threads : Forall (sharing n) (mc_threads c)
}.

Section lemmas.
Context `{Crc32Ok} `{Os}.

Lemma segment_insert ts i t' :
  map segment_thread (<[i := t']> ts) = <[i := segment_thread t']> (map segment_thread ts).
Proof. apply list_fmap_insert. Qed.
Lemma segment_same ts i t t' :
  ts !! i = Some t → segment_thread t' = segment_thread t → map segment_thread (<[i := t']> ts) = map segment_thread ts.
Proof. intros Hi He. rewrite segment_insert, He. apply list_insert_id. by rewrite list_lookup_fmap, Hi. Qed.

(** Thread [i] moves to a place that is the same one in the segment. *)
Lemma shared_stay m n l f c i t t' :
  shared m n l f c → mc_threads c !! i = Some t → segment_thread t' = segment_thread t → sharing n t' →
  shared m n l f (mkMConfig (mc_manager c) (mc_lock c) (<[i := t']> (mc_threads c))).
Proof.
  intros [Hs Hts] Hi He Ht. split; cbn [mc_manager mc_threads]; [|by apply Forall_insert].
  by rewrite (segment_same _ i t).
Qed.

(** Thread [i] takes an atomic action of the segment. *)
Lemma shared_action m n s0 l f c i r t :
  current_segment m = Some (n, s0) → shared m n l f c → mc_threads c !! i = Some (MAppend r n t) →
  finished t = false →
  ∃ c' t', mstep i c = Some c' ∧ mc_threads c' = <[i := MAppend r n t']> (mc_threads c) ∧
    S (steps_left (MAppend r n t')) = steps_left (MAppend r n t) ∧ shared m n l f c'.
Proof.
  intros Hcur [(s & ws & Hm & Hinv & Hor & Hen) Hts] Hi Hfin.
  pose proof (Forall_lookup_1 _ _ _ _ Hts Hi) as [_ Hrec].
  assert (map segment_thread (mc_threads c) !! i = Some t) as Hi' by (by rewrite list_lookup_fmap, Hi).
  pose proof (Forall_lookup_1 _ _ _ _ (ci_wf _ _ Hinv) Hi') as Hwf. cbn [fst snd] in Hwf.
  assert (∃ s' t', action s t = Some (s', t')) as (s' & t' & Ha).
  { destruct t; try done; cbn [action]; [by repeat eexists| |by repeat eexists..].
    destruct (copy_from_slice _ _ _ _); by repeat eexists. }
  pose proof (action_inv _ _ _ _ _ _ _ Hinv Hi' Ha) as Hinv'.
  destruct (ordered_action _ _ _ _ _ _ _ _ _ Hinv Hor Hi' Ha) as [ws' Hor'].
  destruct (action_keeps _ _ _ _ Ha) as (Hrec' & Hen' & _).
  assert (sm_segments (mc_manager c) !! n = Some s) as Hn.
  { rewrite Hm. cbn. apply list_lookup_insert_eq. apply current_lookup in Hcur. by eapply lookup_lt_Some. }
  exists (mkMConfig (set_segment (mc_manager c) n s') (mc_lock c) (<[i := MAppend r n t']> (mc_threads c))), t'.
  split; [|split; [done|split]].
  - unfold mstep. rewrite Hi. cbn [mbind option_bind]. by rewrite (mstep_inside _ _ _ _ _ _ _ _ _ Hn Ha).
  - pose proof (Forall_lookup_1 _ _ _ _ (ci_wf _ _ Hinv') (list_lookup_insert_eq _ _ t' (lookup_lt_Some _ _ _ Hi'))) as Hwf'.
    cbn [fst snd] in Hwf'. destruct t; cbn [action] in Ha; try done.
    + injection Ha as _ <-. by destruct (_ <? _).
    + by destruct (copy_from_slice _ _ _ _); injection Ha as _ <-.
    + by injection Ha as _ <-.
    + by injection Ha as _ <-.
  - split; cbn [mc_manager mc_threads].
    + exists s', ws'. rewrite Hm, set_segment_twice, segment_insert. split_and!; [done..|congruence].
    + apply Forall_insert; [done|]. split; [done|]. congruence.
Qed.

(** Every thread that has not returned can step, and the segment stays shared. *)
Lemma shared_step m n s0 l f c i t :
  current_segment m = Some (n, s0) → shared m n l f c → mc_threads c !! i = Some t → (0 < steps_left t)%nat →
  ∃ c' t', mstep i c = Some c' ∧ mc_threads c' = <[i := t']> (mc_threads c) ∧
    S (steps_left t') = steps_left t ∧ shared m n l f c'.
Proof.
  intros Hcur Hsh Hi Ht. pose proof (Forall_lookup_1 _ _ _ _ (sh_threads _ _ _ _ _ Hsh) Hi) as Hst.
  destruct (sh_segment _ _ _ _ _ Hsh) as (s & ws & Hm & Hinv & _).
  assert (map segment_thread (mc_threads c) !! i = Some (segment_thread t)) as Hi' by (by rewrite list_lookup_fmap, Hi).
  pose proof (Forall_lookup_1 _ _ _ _ (ci_wf _ _ Hinv) Hi') as Hwf. cbn [fst snd] in Hwf.
  destruct t as [r|r k t|r|r|r res]; try done; [| |cbn in Ht; lia].
  - assert (current_has_space (mc_manager c) r = Some n) as Hsp.
    { rewrite Hm. unfold current_has_space. rewrite (current_set_segment _ _ _ s Hcur).
      pose proof (zsum_lookup_le pending _ i _ pending_nonneg Hi') as Hle. cbn [pending segment_thread] in Hle.
      pose proof (ci_room _ _ Hinv). pose proof (ci_max _ _ Hinv). pose proof (ci_base _ _ Hinv).
      pose proof (log_size_bound l (ci_log _ _ Hinv)). pose proof (len_nonneg l). cbn [fst snd] in *.
      pose proof (serialized_size_bounds r Hwf). unfold RecordSegment_has_space.
      rewrite wrap_id by (unfold in_range; lia). by rewrite (proj2 (Z.leb_le _ _)) by lia. }
    eexists _, (MAppend r n (AStart r)). split.
    { unfold mstep. rewrite Hi. cbn [mbind option_bind mstep_thread]. rewrite Hsp. done. }
    split; [done|]. split; [done|]. by apply (shared_stay m n l f c i (MStart r)).
  - destruct Hst as [-> Hrec]. destruct (finished t) eqn:Hfin.
    + destruct t as [| | | | |r' res| | |]; try done. injection Hrec as ->. cbn in Hwf. destruct res as [o| |]; [|done..].
      eexists _, (MDone r (Ok o)). split; [unfold mstep; by rewrite Hi|]. split; [done|]. split; [done|].
      by apply (shared_stay m n l f c i (MAppend r n (ADone r (Ok o)))).
    + destruct (shared_action m n s0 l f c i r t Hcur Hsh Hi Hfin) as (c' & t' & Hs & Hts & Hl & Hsh').
      by exists c', (MAppend r n t').
Qed.

Lemma shared_total m n s0 l f c c' i :
  current_segment m = Some (n, s0) → shared m n l f c → mstep i c = Some c' →
  shared m n l f c' ∧ S (total steps_left (mc_threads c')) = total steps_left (mc_threads c) ∧
  length (mc_threads c') = length (mc_threads c).
Proof.
  intros Hcur Hsh Hs. assert (∃ t, mc_threads c !! i = Some t ∧ (0 < steps_left t)%nat) as (t & Hi & Ht).
  { pose proof Hs as Hs'. unfold mstep in Hs'. apply bind_Some in Hs' as (t & Hi & (x & Hx & _)%bind_Some).
    exists t. split; [done|]. destruct t as [|r k t| | |]; cbn [steps_left]; try lia; [destruct t; lia|done]. }
  destruct (shared_step _ _ _ _ _ _ _ _ Hcur Hsh Hi Ht) as (c2 & t' & Hs2 & Hts & Hl & Hsh').
  rewrite Hs in Hs2. injection Hs2 as <-. split; [done|]. rewrite Hts, length_insert.
  split; [by apply (total_insert _ _ _ t)|done].
Qed.

Lemma shared_start m n s l rs :
  current_segment m = Some (n, s) → seg_repr s l → seg_index_enabled s = false → Forall record_wf rs →
  log_size (l ++ rs) ≤ seg_max_size s → shared m n l (λ i, rs !! i) (start_threads m rs).
Proof.
  intros Hcur Hs Hen Hrs Hfit. pose proof (repr_max _ _ Hs) as Hmax.
  assert (Forall record_wf (l ++ rs)) as Hall by (apply Forall_app; split; [apply (repr_wf _ _ Hs)|done]).
  pose proof (log_size_bound _ Hall) as Hb. rewrite len_app in Hb. rewrite log_size_app in *.
  pose proof (len_nonneg l). pose proof (len_nonneg rs).
  assert (map segment_thread (map MStart rs) = map AStart rs) as Hmap by (by rewrite map_map).
  assert (set_segment m n s = m) as Hset.
  { destruct m. unfold set_segment. cbn. f_equal. apply list_insert_id. by apply current_lookup in Hcur. }
  assert (zsum pending (map AStart rs) = log_size rs) as Hpend by (by clear; induction rs as [|r rs IH]; [done|]; cbn [map zsum foldr pending]; change (foldr _ 0 (map AStart rs)) with (zsum pending (map AStart rs)); rewrite IH, log_size_cons).
  assert (Forall is_start (map AStart rs)) as Hst by (by apply Forall_fmap).
  split; cbn [start_threads mc_manager mc_threads]; [|by apply Forall_fmap, Forall_true].
  rewrite Hmap. exists s, []. split; [done|]. split; [|split; [|done]].
  - apply conc_inv_start; [done..|]. rewrite Hpend, (repr_pos _ _ Hs). lia.
  - pose proof (ordered_start s l (map AStart rs) Hs Hst) as Hor.
    assert (len l + len (map AStart rs) < 2 ^ 64) as Hlen by (unfold len in *; rewrite length_map; lia).
    specialize (Hor Hlen). destruct Hor as [K1 K2 K3 K4 K5 K6 K7 K8].
    split; try done.
    + intros i t Hi. rewrite (K1 i t Hi), list_lookup_fmap. by destruct (rs !! i).
    + intros i t p Hi Hp. destruct (K5 i t p Hi Hp) as (w1 & w2 & Hw & _). by destruct w1.
Qed.

(** The appends have returned as if they had been made one after the other, in
    the order of [ws]. *)
Definition linearized (m : SegmentManager) (n : nat) (l rs ws : list Rec) (c : mconfig) : Prop :=
  ∃ s', mc_manager c = set_segment m n s' ∧ ws ≡ₚ rs ∧ seg_repr s' (l ++ ws) ∧
    ∀ i t, mc_threads c !! i = Some t → ∃ r w1 w2, rs !! i = Some r ∧ ws = w1 ++ r :: w2 ∧
      t = MDone r (Ok {| ro_offset := log_size (l ++ w1); ro_size := serialized_size r |}).

(** When all have returned. *)
Lemma shared_end m n l rs c :
  shared m n l (λ i, rs !! i) c → length (mc_threads c) = length rs →
  (∀ i t, mc_threads c !! i = Some t → steps_left t = 0%nat) →
  ∃ ws, linearized m n l rs ws c.
Proof.
  intros [(s & ws & Hm & Hinv & Hor & Hen) Hts] Hlen Hdone.
  assert (∀ i t, mc_threads c !! i = Some t → ∃ r res, t = MDone r res) as Hret.
  { intros i t Hi. pose proof (Hdone i t Hi). destruct t as [|r k t| | |]; try done; [by destruct t|eauto]. }
  assert (∀ i t, map segment_thread (mc_threads c) !! i = Some t → finished t = true) as Hfin.
  { intros i t (u & -> & Hu)%list_lookup_fmap_Some. by destruct (Hret i u Hu) as (r & res & ->). }
  exists (omap (λ i, rs !! i) ws), s. split; [done|].
  destruct (ordered_all _ _ _ _ Hor Hinv Hfin) as [Hp _]. cbn [fst snd] in Hp.
  assert (omap append_rec (map segment_thread (mc_threads c)) = rs) as Hrs.
  { rewrite omap_map. apply list_eq. intros i.
    assert (map append_rec (map segment_thread (mc_threads c)) = map Some rs) as ->.
    { apply list_eq. intros j. rewrite !list_lookup_fmap. destruct (mc_threads c !! j) as [t|] eqn:Hj; cbn.
      - pose proof (or_rec _ _ _ _ Hor j (segment_thread t)) as Hr. cbn [snd] in Hr. rewrite Hr by (by rewrite list_lookup_fmap, Hj).
        destruct (Hret j t Hj) as (r & res & ->). specialize (Hr ltac:(by rewrite list_lookup_fmap, Hj)). cbn in Hr. by rewrite <- Hr.
      - rewrite lookup_ge_None_2; [done|]. apply lookup_ge_None in Hj. lia. }
    f_equal. clear. induction rs as [|r rs IH]; [done|]. cbn in *. by rewrite IH. }
  rewrite Hrs in Hp. split; [done|]. split; [by apply (ordered_repr l (λ i, rs !! i) ws (s, map segment_thread (mc_threads c)))|].
  intros i t Hi. destruct (Hret i t Hi) as (r & res & ->).
  assert (map segment_thread (mc_threads c) !! i = Some (ADone r res)) as Hi' by (by rewrite list_lookup_fmap, Hi).
  pose proof (Forall_lookup_1 _ _ _ _ (ci_wf _ _ Hinv) Hi') as Hwf. destruct res as [[off sz]| |]; [|done..].
  destruct Hwf as [_ Hsz]. cbn in Hsz. subst sz.
  destruct (or_owned _ _ _ _ Hor i _ _ Hi' eq_refl) as (w1 & w2 & -> & Hoff). cbn in Hoff. subst off.
  pose proof (or_rec _ _ _ _ Hor i _ Hi') as Hr. cbn in Hr.
  exists r, (omap (λ i, rs !! i) w1), (omap (λ i, rs !! i) w2). split; [done|]. split; [|done].
  rewrite omap_app. cbn [omap list_omap]. by rewrite <- Hr.
Qed.
End lemmas.

(** ** Properties *)
Section properties.
Context `{Crc32Ok} `{Os}.

(** C3. Concurrent appends through a manager are total and linearizable when
    they fit in the current segment: no run of the threads has more than six
    steps for each record, a run stops only when all have returned, and then no
    segment was added, the current one, kept without an index, stores its log
    followed by the records in some order, and each append has returned the
    place of its record there. *)
Theorem manager_appends_linearize m n s l rs j c :
  current_segment m = Some (n, s) → seg_repr s l → seg_index_enabled s = false → Forall record_wf rs →
  log_size (l ++ rs) ≤ seg_max_size s → nsteps mconc_step j (start_threads m rs) c →
  (j ≤ 6 * length rs)%nat ∧ ((∃ c', mconc_step c c') ∨ ∃ ws, linearized m n l rs ws c).
Proof.
  intros Hcur Hs Hen Hrs Hfit Hsteps.
  pose proof (shared_start m n s l rs Hcur Hs Hen Hrs Hfit) as Hsh.
  assert (∀ j c0, nsteps mconc_step j c0 c → shared m n l (λ i, rs !! i) c0 →
    shared m n l (λ i, rs !! i) c ∧ (j + total steps_left (mc_threads c) = total steps_left (mc_threads c0))%nat ∧
    length (mc_threads c) = length (mc_threads c0)) as Hrun.
  { clear Hsteps Hsh. intros k. induction k as [|k IH]; intros c0 Hsteps Hsh; [by inversion Hsteps; subst|].
    inversion Hsteps as [|? ? c1 ? [i Hi] Hrest]; subst.
    destruct (shared_total _ _ _ _ _ _ _ _ Hcur Hsh Hi) as (Hsh1 & Ht & Hl).
    destruct (IH c1 Hrest Hsh1) as (Hc & Htot & Hlen). split; [done|]. lia. }
  destruct (Hrun j _ Hsteps Hsh) as (Hc & Htot & Hlen). cbn [start_threads mc_threads] in Htot, Hlen. rewrite length_map in Hlen.
  assert (total steps_left (map MStart rs) = (6 * length rs)%nat) as Hstart.
  { clear. induction rs as [|r rs IH]; [done|]. unfold total in *. cbn in *. lia. }
  split; [lia|]. destruct (first_pending steps_left (mc_threads c)) as [Hall|(i & t & Hi & Ht & _)].
  - right. by apply shared_end.
  - left. destruct (shared_step _ _ _ _ _ _ _ _ Hcur Hc Hi Ht) as (c' & _ & Hstep & _). by exists c', i.
Qed.
End properties.

(** Two records appended at once to a manager with one stored. *)
Definition shared_manager : SegmentManager :=
  {| sm_partition_id := 1; sm_segments := [race_segment]; sm_current_segment := Some 0%nat;
     sm_segment_size := 200; sm_storage_dir := "d"; sm_index_enabled := false |}.
Definition shared_run : mconfig :=
  from_option id (start_threads shared_manager [])
    (run_mschedule [1; 0; 1; 0; 0; 1; 0; 0; 1; 1; 0; 1]%nat (start_threads shared_manager [letters 10 6; letters 20 7])).

Lemma nsteps_of_schedule `{Crc32} `{Os} sched c c' : run_mschedule sched c = Some c' → nsteps mconc_step (length sched) c c'.
Proof.
  revert c. induction sched as [|i sched IH]; intros c; simpl; [intros [= ->]; constructor|].
  intros (c1 & Hstep & Hrun)%bind_Some. econstructor; [by exists i|]. by apply IH.
Qed.

Lemma manager_appends_linearize_witness :
  mc_threads shared_run = [MDone (letters 10 6) (Ok (mkOffset 140 30)); MDone (letters 20 7) (Ok (mkOffset 100 40))] ∧
  ((∃ c', mconc_step shared_run c') ∨
   ∃ s ws, mc_manager shared_run = set_segment shared_manager 0 s ∧ ws ≡ₚ [letters 10 6; letters 20 7] ∧
     seg_repr s (letters 80 1 :: ws)).
Proof.
  split; [vm_compute; reflexivity|].
  assert (nsteps mconc_step 12 (start_threads shared_manager [letters 10 6; letters 20 7]) shared_run) as Hsteps
    by (apply (nsteps_of_schedule [1; 0; 1; 0; 0; 1; 0; 0; 1; 1; 0; 1]%nat); vm_compute; reflexivity).
  destruct (manager_appends_linearize shared_manager 0 race_segment [letters 80 1] [letters 10 6; letters 20 7] 12 shared_run
    eq_refl race_segment_repr eq_refl) as [_ [Hgo|(ws & s & Hm & Hp & Hr & _)]];
    [repeat constructor; by vm_compute|by vm_compute|exact Hsteps|left; exact Hgo|].
  right. exists s, ws. split; [exact Hm|]. split; [exact Hp|exact Hr].
Defined.
