(* ===== verification/Compaction.v ===== *)
(** * Segment compaction and merging (src/src/compaction.rs)

    A compaction copies the records of a segment into a new segment under an
    in-progress flag; a merge copies several segments into one; a background
    worker compacts the candidates of each tick.  A call runs to completion
    without interference of other threads on its segments. *)

From stdpp Require Import base list numbers strings.
From Stdlib Require Import Strings.Byte.
From S2P Require Import Prelude Crc32 F64 RecordFormat StorageEngine.
Local Open Scope Z_scope.

(** Source: src/src/compaction.rs:16-32 (CompactionError) *)
Inductive CompactionError :=
  | CompactionRecord (e : RecordError)
  | CompactionIo (e : io_error)
  | CompactionStorage (e : StorageError)
  | InProgress
  | NoWork.

(** Durations are in nanoseconds.
    Source: src/src/compaction.rs:36-56 (CompactionPolicy) *)
Record CompactionPolicy := mkPolicy {
  min_utilization : f64;
  min_age : Z;
  max_segments_per_run : Z;
  target_segment_size : Z;
  auto_compact : bool;
  check_interval : Z
}.

Definition from_secs (s : Z) : Z := s * 1000000000.

(** Source: src/src/compaction.rs:59-68 (CompactionPolicy::default) *)
Definition CompactionPolicy_default : CompactionPolicy :=
  {| min_utilization := f64_lit 1 2; min_age := from_secs 300; max_segments_per_run := 5;
     target_segment_size := 10 * 1024 * 1024; auto_compact := true;
     check_interval := from_secs 60 |}.

(** An [Instant] is a reading of the monotonic clock in nanoseconds.
    Source: src/src/compaction.rs:71-88 (CompactionStats) *)
Record CompactionStats := mkCompactionStats {
  total_compactions : Z;
  bytes_reclaimed : Z;
  records_removed : Z;
  last_compaction : option Z;
  total_duration : Z
}.

(** Source: src/src/compaction.rs:91-99 (CompactionStats::default) *)
Definition CompactionStats_default : CompactionStats :=
  {| total_compactions := 0; bytes_reclaimed := 0; records_removed := 0;
     last_compaction := None; total_duration := 0 |}.

(** Source: src/src/compaction.rs:102-112 (CompactionManager) *)
Record CompactionManager := mkCompaction {
  cm_policy : CompactionPolicy;
  cm_stats : CompactionStats;
  cm_in_progress : bool
}.

(** Source: src/src/compaction.rs:115-122 (CompactionManager::new) *)
Definition CompactionManager_new (policy : CompactionPolicy) : CompactionManager :=
  {| cm_policy := policy; cm_stats := CompactionStats_default; cm_in_progress := false |}.

(** Source: src/src/compaction.rs:124-133 (CompactionManager::needs_compaction) *)
Definition needs_compaction (m : CompactionManager) (stats : SegmentStats) (age : Z) : bool :=
  let utilization := if 0 <? ss_max_size stats
    then f64_div (f64_of_int (ss_used_bytes stats)) (f64_of_int (ss_max_size stats))
    else f64_of_int 1 in
  f64_lt utilization (min_utilization (cm_policy m)) && (min_age (cm_policy m) <=? age).

(** Source: src/src/compaction.rs:213-222 (CompactionManager::should_keep_record) *)
Definition should_keep_record (_ : Rec) : bool := true.

(** Source: src/src/compaction.rs:224-227 (CompactionManager::stats) *)
Definition CompactionManager_stats (m : CompactionManager) : CompactionStats := cm_stats m.

Definition set_in_progress (m : CompactionManager) (b : bool) : CompactionManager :=
  {| cm_policy := cm_policy m; cm_stats := cm_stats m; cm_in_progress := b |}.

(** The local variables of the copy loop. *)
Record copy_state := mkCopy {
  cp_iter : RecordIterator;
  cp_new : RecordSegment;
  cp_copied : Z;
  cp_skipped : Z;
  cp_saved : Z
}.

Section compaction.
Context `{Crc32} `{Os}.

(** One iteration of the loop over the records of the segment.
    Source: src/src/compaction.rs:161-183 (CompactionManager::compact_segment, copy loop) *)
Definition compact_body (segment : RecordSegment) (st : copy_state)
    : loop_step copy_state (outcome CompactionError unit) :=
  let '(mkCopy it new copied skipped saved) := st in
  match RecordIterator_next segment it with
  | (it, None) => Return (mkCopy it new copied skipped saved) (Ok tt)
  | (it, Some (Ok (offset, record))) =>
      if should_keep_record record then
        match RecordSegment_append_record new record with
        | (new, Ok _) => Continue (mkCopy it new (u64 (copied + 1)) skipped saved)
        | (new, Err e) => Return (mkCopy it new copied skipped saved) (Err (CompactionStorage e))
        | (new, Panic) => Return (mkCopy it new copied skipped saved) Panic
        end
      else Continue (mkCopy it new copied (u64 (skipped + 1)) (u64 (saved + ro_size offset)))
  | (it, Some (Err e)) => Continue (mkCopy it new copied (u64 (skipped + 1)) saved)
  | (it, Some Panic) => Return (mkCopy it new copied skipped saved) Panic
  end.

(** The statistics after a finished run: [now] and [elapsed] are the clock
    readings of the call.
    Source: src/src/compaction.rs:185-193 (CompactionManager::compact_segment, statistics) *)
Definition update_stats (stats : CompactionStats) (st : copy_state) (now elapsed : Z)
    : CompactionStats :=
  {| total_compactions := u64 (total_compactions stats + 1);
     bytes_reclaimed := u64 (bytes_reclaimed stats + cp_saved st);
     records_removed := u64 (records_removed stats + cp_skipped st);
     last_compaction := Some now;
     total_duration := total_duration stats + elapsed |}.

(** Every [?] returns with the flag still set.
    Source: src/src/compaction.rs:135-211 (CompactionManager::compact_segment) *)
Definition compact_segment (fuel : nat) (now elapsed : Z) (m : CompactionManager)
    (segment : RecordSegment) (output_path : string)
    : option (CompactionManager * outcome CompactionError RecordSegment) :=
  if cm_in_progress m then Some (m, Err InProgress) else
  let m := set_in_progress m true in
  match RecordSegment_new output_path (target_segment_size (cm_policy m))
          (ss_index_enabled (RecordSegment_stats segment)) with
  | Err e => Some (m, Err (CompactionStorage e))
  | Panic => Some (m, Panic)
  | Ok new_segment =>
      '(st, copied) ← run_loop fuel (compact_body segment)
                        (mkCopy (iter_records segment) new_segment 0 0 0);
      match copied with
      | Err e => Some (m, Err e)
      | Panic => Some (m, Panic)
      | Ok _ =>
          Some ({| cm_policy := cm_policy m;
                   cm_stats := update_stats (cm_stats m) st now elapsed;
                   cm_in_progress := false |}, Ok (cp_new st))
      end
  end.

(** The candidates of one tick, with their ages; [clock i] gives the clock
    readings of the compaction of the i-th candidate.
    Source: src/src/compaction.rs:243-283 (CompactionManager::start_background_worker, tick) *)
Fixpoint tick (fuel : nat) (clock : nat → Z * Z) (i : nat) (m : CompactionManager)
    (compacted : Z) (candidates : list (RecordSegment * Z)) : option (CompactionManager * Z) :=
  match candidates with
  | [] => Some (m, compacted)
  | (segment, age) :: candidates =>
      let stats := RecordSegment_stats segment in
      if needs_compaction m stats age then
        '(m, result) ← compact_segment fuel (clock i).1 (clock i).2 m segment
                         (ss_path stats +:+ ".compacted");
        let compacted := match result with Ok _ => usize (compacted + 1) | _ => compacted end in
        if max_segments_per_run (cm_policy m) <=? compacted then Some (m, compacted)
        else tick fuel clock (S i) m compacted candidates
      else tick fuel clock (S i) m compacted candidates
  end.

(** The worker over the batches its provider returns at successive ticks.
    Source: src/src/compaction.rs:229-284 (CompactionManager::start_background_worker) *)
Fixpoint start_background_worker (fuel : nat) (clock : nat → Z * Z) (m : CompactionManager)
    (batches : list (list (RecordSegment * Z))) : option CompactionManager :=
  if negb (auto_compact (cm_policy m)) then Some m else
  match batches with
  | [] => Some m
  | candidates :: batches =>
      '(m, _) ← tick fuel clock 0 m 0 candidates;
      start_background_worker fuel clock m batches
  end.

(** Source: src/src/compaction.rs:305-315 (merge_segments, inner loop) *)
Definition merge_body (segment : RecordSegment) (st : RecordIterator * RecordSegment * Z)
    : loop_step (RecordIterator * RecordSegment * Z) (outcome CompactionError unit) :=
  let '(it, merged, total_records) := st in
  match RecordIterator_next segment it with
  | (it, None) => Return (it, merged, total_records) (Ok tt)
  | (it, Some (Ok (_, record))) =>
      match RecordSegment_append_record merged record with
      | (merged, Ok _) => Continue (it, merged, u64 (total_records + 1))
      | (merged, Err e) => Return (it, merged, total_records) (Err (CompactionStorage e))
      | (merged, Panic) => Return (it, merged, total_records) Panic
      end
  | (it, Some (Err _)) => Continue (it, merged, total_records)
  | (it, Some Panic) => Return (it, merged, total_records) Panic
  end.

Fixpoint merge_loop (fuel : nat) (segments : list RecordSegment) (merged : RecordSegment)
    (total_records : Z) : option (outcome CompactionError RecordSegment) :=
  match segments with
  | [] => Some (Ok merged)
  | segment :: segments =>
      '((_, merged, total_records), copied) ←
        run_loop fuel (merge_body segment) (iter_records segment, merged, total_records);
      match copied with
      | Ok _ => merge_loop fuel segments merged total_records
      | Err e => Some (Err e)
      | Panic => Some Panic
      end
  end.

(** Source: src/src/compaction.rs:287-326 (merge_segments) *)
Definition merge_segments (fuel : nat) (segments : list RecordSegment) (output_path : string)
    (target_size : Z) (index_enabled : bool) : option (outcome CompactionError RecordSegment) :=
  match map_err CompactionStorage (RecordSegment_new output_path target_size index_enabled) with
  | Ok merged => merge_loop fuel segments merged 0
  | Err e => Some (Err e)
  | Panic => Some Panic
  end.
End compaction.

(** ** Copy loops

    What the loops of [compact_segment] and [merge_segments] have in common: a
    body that appends the record under the iterator to the new segment. *)
Section copy_loop.
Context `{Crc32Ok} {S : Type}.
Context (body : S → loop_step S (outcome CompactionError unit)).
Context (st : RecordIterator → RecordSegment → Z → S) (s : RecordSegment).

(** The body copies, stops on a failed append, and stops at the end. *)
Hypothesis body_copies : ∀ it it' off r new new' o n,
  RecordIterator_next s it = (it', Some (Ok (off, r))) →
  RecordSegment_append_record new r = (new', Ok o) →
  body (st it new n) = Continue (st it' new' (u64 (n + 1))).
Hypothesis body_fails : ∀ it it' off r new new' e n,
  RecordIterator_next s it = (it', Some (Ok (off, r))) →
  RecordSegment_append_record new r = (new', Err e) →
  body (st it new n) = Return (st it' new' n) (Err (CompactionStorage e)).
Hypothesis body_ends : ∀ it it' new n,
  RecordIterator_next s it = (it', None) → body (st it new n) = Return (st it' new n) (Ok tt).

Definition iter_at (l : list Rec) : RecordIterator :=
  {| it_current_offset := log_size l; it_end_offset := seg_write_pos s |}.

Lemma next_at l1 r l2 tail :
  seg_stored s (l1 ++ r :: l2) tail →
  RecordIterator_next s (iter_at l1) = (iter_at (l1 ++ [r]),
    Some (Ok ({| ro_offset := log_size l1; ro_size := serialized_size r |}, r))).
Proof. apply next_stored. Qed.

(** The records that fit are copied in order. *)
Lemma copy_records l1 l2 tail new k n fuel :
  seg_stored s (l1 ++ l2) tail → seg_repr new k →
  log_size k + log_size l2 ≤ seg_max_size new →
  ∃ new' n', run_loop (length l2 + fuel) body (st (iter_at l1) new n) =
      run_loop fuel body (st (iter_at (l1 ++ l2)) new' n') ∧
    seg_repr new' (k ++ l2) ∧ same_config new new'.
Proof.
  revert l1 new k n. induction l2 as [|r l2 IH]; intros l1 new k n Hs Hnew Hfit.
  { exists new, n. by rewrite !app_nil_r. }
  pose proof (st_wf _ _ _ Hs) as [_ [Hr Hl2]%Forall_cons]%Forall_app.
  rewrite log_size_cons in Hfit. pose proof (log_size_bound l2 Hl2). pose proof (len_nonneg l2).
  destruct (append_fits new k r Hnew Hr) as (new1 & Ha & Hnew1 & Hc1); [lia|].
  pose proof (next_at l1 r l2 tail Hs) as Hnext.
  destruct (IH (l1 ++ [r]) new1 (k ++ [r]) (u64 (n + 1))) as (new' & n' & Hrun & Hnew' & Hc').
  { by rewrite <- app_assoc. }
  { done. }
  { destruct Hc1 as (_ & -> & _). rewrite log_size_app, log_size_one. lia. }
  exists new', n'. cbn [length Nat.add run_loop].
  rewrite (body_copies _ _ _ _ _ _ _ n Hnext Ha). rewrite <- !app_assoc in *.
  split; [done|]. split; [done|]. destruct Hc1 as (? & ? & ?), Hc' as (? & ? & ?).
  split_and!; congruence.
Qed.

(** When the log does not fit, the loop stops with the error of the append
    that overflows. *)
Lemma copy_overflows l1 l2 tail new k n fuel :
  seg_stored s (l1 ++ l2) tail → seg_repr new k →
  seg_max_size new < log_size k + log_size l2 → (length l2 ≤ fuel)%nat →
  ∃ st' need avail, run_loop fuel body (st (iter_at l1) new n) =
    Some (st', Err (CompactionStorage (SegmentFull need avail))).
Proof.
  revert l1 new k n fuel. induction l2 as [|r l2 IH]; intros l1 new k n fuel Hs Hnew Hfull Hf.
  { pose proof (repr_pos_le _ _ Hnew). change (log_size []) with 0 in Hfull. lia. }
  destruct fuel as [|fuel]; [simpl in Hf; lia|].
  pose proof (st_wf _ _ _ Hs) as [_ [Hr Hl2]%Forall_cons]%Forall_app.
  rewrite log_size_cons in Hfull. pose proof (next_at l1 r l2 tail Hs) as Hnext.
  cbn [run_loop].
  destruct (Z.le_gt_cases (log_size k + serialized_size r) (seg_max_size new)) as [Hle|Hgt].
  - destruct (append_fits new k r Hnew Hr Hle) as (new1 & Ha & Hnew1 & _ & Hmax & _).
    rewrite (body_copies _ _ _ _ _ _ _ n Hnext Ha). apply (IH (l1 ++ [r]) new1 (k ++ [r])).
    + by rewrite <- app_assoc.
    + done.
    + rewrite Hmax, log_size_app, log_size_one. lia.
    + simpl in Hf. lia.
  - rewrite (body_fails _ _ _ _ _ _ _ n Hnext (append_full new k r Hnew Hr Hgt)). eauto.
Qed.

(** Copying the whole of a segment that stores [l]. *)
Lemma copy_all l new k n fuel :
  seg_repr s l → seg_repr new k → log_size k + log_size l ≤ seg_max_size new →
  (length l < fuel)%nat →
  ∃ new' it' n', run_loop fuel body (st (iter_records s) new n) = Some (st it' new' n', Ok tt) ∧
    seg_repr new' (k ++ l) ∧ same_config new new'.
Proof.
  intros Hs Hnew Hfit Hf.
  destruct (copy_records [] l [] new k n 1 (repr_stored _ _ Hs) Hnew Hfit)
    as (new' & n' & Hrun & Hrest).
  exists new', (iter_at l), n'. split; [|done].
  apply (run_loop_more _ (length l + 1)); [|lia].
  change (iter_records s) with (iter_at []). rewrite Hrun. cbn [run_loop app].
  rewrite (body_ends _ (iter_at l)); [done|].
  unfold RecordIterator_next, iter_at; cbn [it_current_offset it_end_offset].
  rewrite (repr_pos _ _ Hs). by zif.
Qed.
End copy_loop.

Section compaction_lemmas.
Context `{Crc32Ok} `{OsOk}.

Lemma compact_copies s it it' off r new new' o n :
  RecordIterator_next s it = (it', Some (Ok (off, r))) →
  RecordSegment_append_record new r = (new', Ok o) →
  compact_body s (mkCopy it new n 0 0) = Continue (mkCopy it' new' (u64 (n + 1)) 0 0).
Proof. intros Hn Ha. cbn. by rewrite Hn, Ha. Qed.
Lemma compact_fails s it it' off r new new' e n :
  RecordIterator_next s it = (it', Some (Ok (off, r))) →
  RecordSegment_append_record new r = (new', Err e) →
  compact_body s (mkCopy it new n 0 0) =
    Return (mkCopy it' new' n 0 0) (Err (CompactionStorage e)).
Proof. intros Hn Ha. cbn. by rewrite Hn, Ha. Qed.
Lemma compact_ends s it it' new n :
  RecordIterator_next s it = (it', None) →
  compact_body s (mkCopy it new n 0 0) = Return (mkCopy it' new n 0 0) (Ok tt).
Proof. intros Hn. cbn. by rewrite Hn. Qed.

Lemma merge_copies s it it' off r new new' o n :
  RecordIterator_next s it = (it', Some (Ok (off, r))) →
  RecordSegment_append_record new r = (new', Ok o) →
  merge_body s (it, new, n) = Continue (it', new', u64 (n + 1)).
Proof. intros Hn Ha. cbn. by rewrite Hn, Ha. Qed.
Lemma merge_fails s it it' off r new new' e n :
  RecordIterator_next s it = (it', Some (Ok (off, r))) →
  RecordSegment_append_record new r = (new', Err e) →
  merge_body s (it, new, n) = Return (it', new', n) (Err (CompactionStorage e)).
Proof. intros Hn Ha. cbn. by rewrite Hn, Ha. Qed.
Lemma merge_ends s it it' new n :
  RecordIterator_next s it = (it', None) →
  merge_body s (it, new, n) = Return (it', new, n) (Ok tt).
Proof. intros Hn. cbn. by rewrite Hn. Qed.

Lemma compact_in_progress fuel now el m seg path :
  cm_in_progress m = true → compact_segment fuel now el m seg path = Some (m, Err InProgress).
Proof. intros Hm. unfold compact_segment. by rewrite Hm. Qed.

(** Once the flag is set a tick changes nothing. *)
Lemma tick_in_progress fuel clock i m n cands :
  cm_in_progress m = true → ∃ n', tick fuel clock i m n cands = Some (m, n').
Proof.
  intros Hm. revert i n. induction cands as [|[seg age] cands IH]; intros i n; simpl; [eauto|].
  destruct (needs_compaction _ _ _); [|apply IH]. rewrite compact_in_progress by done. cbn.
  destruct (_ <=? n); [eauto|apply IH].
Qed.

Lemma worker_in_progress fuel clock m batches :
  cm_in_progress m = true → start_background_worker fuel clock m batches = Some m.
Proof.
  intros Hm. induction batches as [|b batches IH]; simpl; [by destruct (auto_compact _)|].
  destruct (auto_compact _); [|done]. cbn.
  destruct (tick_in_progress fuel clock 0 m 0 b Hm) as [n' ->]. apply IH.
Qed.

Lemma merge_loop_concat segs ls merged k n fuel :
  Forall2 seg_repr segs ls → seg_repr merged k →
  log_size k + log_size (concat ls) ≤ seg_max_size merged →
  Forall (λ l, (length l < fuel)%nat) ls →
  ∃ new, merge_loop fuel segs merged n = Some (Ok new) ∧ seg_repr new (k ++ concat ls).
Proof.
  intros Hsegs. revert merged k n.
  induction Hsegs as [|s l segs ls Hs _ IH]; intros merged k n Hk Hfit Hf; cbn [merge_loop concat].
  { exists merged. by rewrite app_nil_r. }
  apply Forall_cons in Hf as [Hf Hf']. cbn [concat] in Hfit. rewrite log_size_app in Hfit.
  assert (0 ≤ log_size (concat ls)) as Hpos
    by (apply zsum_nonneg; intros r; by apply (wrap_range 64)).
  destruct (copy_all (merge_body s) (λ it new n, (it, new, n)) s (merge_copies s)
    (merge_ends s) l merged k n fuel Hs Hk) as (new' & it' & n' & Hrun & Hnew' & _ & Hmax & _);
    [lia|done|].
  rewrite Hrun. cbn. destruct (IH new' (k ++ l) n' Hnew') as (new & Hm & Hnew); [|done|].
  { rewrite Hmax, log_size_app. lia. }
  exists new. by rewrite app_assoc.
Qed.
End compaction_lemmas.

(** ** Properties *)
Section compaction_properties.
Context `{Crc32Ok} `{OsOk}.

Lemma compact_segment_ok fuel now el m s l path mm :
  seg_repr s l → cm_in_progress m = false →
  0 ≤ target_segment_size (cm_policy m) < 2 ^ 63 →
  log_size l ≤ target_segment_size (cm_policy m) →
  os_map_file path (target_segment_size (cm_policy m)) = Ok mm → (length l < fuel)%nat →
  ∃ new m', compact_segment fuel now el m s path = Some (m', Ok new) ∧
    seg_repr new l ∧ seg_index_enabled new = seg_index_enabled s ∧
    cm_in_progress m' = false ∧
    total_compactions (cm_stats m') = u64 (total_compactions (cm_stats m) + 1) ∧
    records_removed (cm_stats m') = u64 (records_removed (cm_stats m)).
Proof.
  intros Hs Hm Hsz Hfit Hos Hf. unfold compact_segment. rewrite Hm. cbn [set_in_progress cm_policy].
  destruct (RecordSegment_new path _ _) as [new|e|] eqn:Hnew;
    [|by unfold RecordSegment_new in Hnew; rewrite Hos in Hnew..].
  destruct (segment_new_repr _ _ _ _ Hsz Hnew) as (Hr & Hmax & Hen).
  destruct (copy_all (compact_body s) (λ it new n, mkCopy it new n 0 0) s (compact_copies s)
    (compact_ends s) l new [] 0 fuel Hs Hr)
    as (new' & it' & n' & Hrun & Hnew' & _ & _ & Hen'); [|done|].
  { change (log_size []) with 0. lia. }
  rewrite Hrun. eexists new', _. split; [done|]. cbn. rewrite Z.add_0_r.
  split_and!; [done|by rewrite Hen', Hen|done..].
Qed.

(** C18. Compaction loses nothing: compacting a segment that stores the log
    [l] into a file that can hold it returns a segment that stores exactly
    [l], in the same order and with the index kept, counts one more
    compaction and no removed record, and clears the in-progress flag. *)
Theorem compaction_preserves_log fuel now el m s l path mm :
  seg_repr s l → cm_in_progress m = false →
  0 ≤ target_segment_size (cm_policy m) < 2 ^ 63 →
  log_size l ≤ target_segment_size (cm_policy m) →
  os_map_file path (target_segment_size (cm_policy m)) = Ok mm → (length l < fuel)%nat →
  ∃ new m', compact_segment fuel now el m s path = Some (m', Ok new) ∧
    seg_repr new l ∧ seg_index_enabled new = seg_index_enabled s ∧
    cm_in_progress m' = false ∧
    total_compactions (cm_stats m') = u64 (total_compactions (cm_stats m) + 1) ∧
    records_removed (cm_stats m') = u64 (records_removed (cm_stats m)).
Proof. apply compact_segment_ok. Qed.

(** C37. A failed compaction disables compaction for good: when the live
    records do not fit in the target size, [compact_segment] returns a
    segment-full error and leaves the in-progress flag set; from then on every
    call, on any segment, returns [InProgress], and the background worker
    changes nothing. *)
Theorem failed_compaction_blocks_forever fuel now el m s l path mm :
  seg_repr s l → cm_in_progress m = false →
  0 ≤ target_segment_size (cm_policy m) < 2 ^ 63 →
  target_segment_size (cm_policy m) < log_size l →
  os_map_file path (target_segment_size (cm_policy m)) = Ok mm → (length l ≤ fuel)%nat →
  ∃ m' need avail,
    compact_segment fuel now el m s path =
      Some (m', Err (CompactionStorage (SegmentFull need avail))) ∧
    (∀ fuel now el s path, compact_segment fuel now el m' s path = Some (m', Err InProgress)) ∧
    (∀ fuel clock batches, start_background_worker fuel clock m' batches = Some m').
Proof.
  intros Hs Hm Hsz Hfull Hos Hf.
  exists (set_in_progress m true). unfold compact_segment at 1. rewrite Hm. cbn [set_in_progress cm_policy].
  destruct (RecordSegment_new path _ _) as [new|e|] eqn:Hnew;
    [|by unfold RecordSegment_new in Hnew; rewrite Hos in Hnew..].
  destruct (segment_new_repr _ _ _ _ Hsz Hnew) as (Hr & Hmax & Hen).
  destruct (copy_overflows (compact_body s) (λ it new n, mkCopy it new n 0 0) s (compact_copies s)
    (compact_fails s) [] l [] new [] 0 fuel (repr_stored _ _ Hs) Hr)
    as (st' & need & avail & Hrun); [|done|].
  { change (log_size []) with 0. lia. }
  exists need, avail. change (iter_records s) with (iter_at s []). rewrite Hrun.
  split_and!; [done| |]; intros; [by apply compact_in_progress|by apply worker_in_progress].
Qed.

(** A merge is a concatenation: merging segments that store the logs [ls]
    into a file that can hold them returns a segment that stores the records
    of all of them, segment by segment and in order. *)
Lemma merge_concatenates fuel segs ls path size en mm :
  Forall2 seg_repr segs ls → 0 ≤ size < 2 ^ 63 → log_size (concat ls) ≤ size →
  os_map_file path size = Ok mm → Forall (λ l, (length l < fuel)%nat) ls →
  ∃ new, merge_segments fuel segs path size en = Some (Ok new) ∧ seg_repr new (concat ls).
Proof.
  intros Hsegs Hsz Hfit Hos Hf. unfold merge_segments.
  destruct (RecordSegment_new path size en) as [new|e|] eqn:Hnew;
    [|by unfold RecordSegment_new in Hnew; rewrite Hos in Hnew..].
  destruct (segment_new_repr _ _ _ _ Hsz Hnew) as (Hr & Hmax & _). cbn [map_err].
  apply (merge_loop_concat segs ls new [] 0 fuel Hsegs Hr); [|done].
  change (log_size []) with 0. lia.
Qed.

(** A corrupted record hangs a compaction: when a frame with a wrong
    checksum follows the log [l], [compact_segment] never returns (its
    iterator repeats the error, which the loop only counts). *)
Lemma corrupted_compaction_never_returns now el m s l c t data rest path mm :
  seg_stored s l (frame RECORD_MAGIC (len data) c t data ++ rest) →
  in_range 32 c → in_range 64 t → len data ≤ MAX_RECORD_SIZE →
  c ≠ calculate_checksum t data → cm_in_progress m = false →
  0 ≤ target_segment_size (cm_policy m) < 2 ^ 63 →
  log_size l ≤ target_segment_size (cm_policy m) →
  os_map_file path (target_segment_size (cm_policy m)) = Ok mm →
  ∀ fuel, compact_segment fuel now el m s path = None.
Proof.
  intros Hs Hc Ht Hd Hne Hm Hsz Hfit Hos fuel. unfold compact_segment. rewrite Hm.
  cbn [set_in_progress cm_policy].
  destruct (RecordSegment_new path _ _) as [new|e|] eqn:Hnew;
    [|by unfold RecordSegment_new in Hnew; rewrite Hos in Hnew..].
  destruct (segment_new_repr _ _ _ _ Hsz Hnew) as (Hr & Hmax & _).
  destruct (run_loop fuel _ _) as [x|] eqn:Hrun; [exfalso|done].
  apply (run_loop_more _ _ (length l + fuel)) in Hrun; [|lia].
  destruct (copy_records (compact_body s) (λ it new n, mkCopy it new n 0 0) s (compact_copies s)
    [] l _ new [] 0 fuel Hs Hr) as (new' & n' & Hrun' & _).
  { change (log_size []) with 0. lia. }
  change (iter_records s) with (iter_at s []) in Hrun. rewrite Hrun' in Hrun.
  rewrite (run_loop_diverges _ (λ st, cp_iter st = iter_at s l)) in Hrun; [done| |done].
  intros [it nw cp sk sv]; cbn [cp_iter]; intros ->. eexists. cbn [compact_body].
  unfold RecordIterator_next, iter_at; cbn [it_current_offset it_end_offset].
  pose proof (read_corrupt s l c t data rest Hs Hc Ht Hd Hne) as [Hlt ->].
  rewrite (proj2 (Z.leb_gt _ _)) by done. done.
Qed.
End compaction_properties.

(** ** Concrete runs *)
Definition sample_compaction (target : Z) : CompactionManager :=
  CompactionManager_new
    {| min_utilization := f64_lit 1 2; min_age := 0; max_segments_per_run := 5;
       target_segment_size := target; auto_compact := true; check_interval := 1 |}.

(** The 64-byte sample segment is 25/64 full, below one half. *)
Example sample_needs_compaction :
  needs_compaction (sample_compaction 32) (RecordSegment_stats (sample_segment 64)) 0 = true.
Proof. vm_compute. reflexivity. Qed.

Lemma compaction_preserves_log_witness :
  ∃ new m', compact_segment 2 7 1 (sample_compaction 32) (sample_segment 64) "c" = Some (m', Ok new) ∧
    seg_repr new [sample_record].
Proof.
  destruct (compaction_preserves_log 2 7 1 (sample_compaction 32) _ _ "c" (replicate 32 x00)
    sample_segment_repr) as (new & m' & Hc & Hr & _);
    [reflexivity|by vm_compute|by vm_compute|reflexivity|simpl; lia|].
  exists new, m'. split; [exact Hc|exact Hr].
Defined.

Lemma failed_compaction_blocks_forever_witness :
  ∃ m', compact_segment 2 7 1 (sample_compaction 24) (sample_segment 64) "c" =
    Some (m', Err (CompactionStorage (SegmentFull 25 24))) ∧
    compact_segment 0 8 1 m' (sample_segment 64) "d" = Some (m', Err InProgress).
Proof.
  destruct (failed_compaction_blocks_forever 2 7 1 (sample_compaction 24) _ _ "c" (replicate 24 x00)
    sample_segment_repr) as (m' & need & avail & Hc & Hb & _);
    [reflexivity|by vm_compute|by vm_compute|reflexivity|simpl; lia|].
  vm_compute in Hc. injection Hc as Hm <- <-. exists m'. split; [|apply Hb].
  rewrite <- Hm. vm_compute. reflexivity.
Defined.

Lemma merge_concatenates_witness :
  ∃ new, merge_segments 2 [sample_segment 64; sample_segment 64] "m" 64 true = Some (Ok new) ∧
    seg_repr new [sample_record; sample_record].
Proof.
  destruct (merge_concatenates 2 [sample_segment 64; sample_segment 64]
    [[sample_record]; [sample_record]] "m" 64 true (replicate 64 x00)) as (new & Hm & Hr).
  - repeat (apply Forall2_cons; split; [apply sample_segment_repr|]). by apply Forall2_nil.
  - lia.
  - by vm_compute.
  - reflexivity.
  - repeat constructor.
  - exists new. split; [exact Hm|exact Hr].
Defined.

Lemma corrupted_compaction_never_returns_witness :
  compact_segment 1000 7 1 (sample_compaction 32) corrupted_segment "c" = None.
Proof.
  apply (corrupted_compaction_never_returns 7 1 (sample_compaction 32) _ _ _ _ _ _ "c" (replicate 32 x00)
    corrupted_segment_stored); by vm_compute.
Defined.
