(* ===== verification/StorageTests.v ===== *)
(** * The tests of the record format, the storage engine and compaction
      (src/src/record.rs, src/src/storage.rs, src/src/compaction.rs, [mod tests])

    The tests of the three modules with their assertions, and a proof that all
    of them pass: those of a corrupted record because the checksum detects a
    changed byte, those of the engine on a machine that grants its files. *)

From stdpp Require Import base list list_numbers numbers strings pretty.
From coqutil Require Import Byte.
From Stdlib Require Import Strings.Byte.
From S2P Require Import Prelude Crc32 F64 RecordFormat StorageEngine StorageRuns Compaction.
Local Open Scope Z_scope.

(** ** Definitions *)
Section record_tests.
Context `{Crc32} (now : nat → Z).

(** [bytes[i] ^= 0xFF], which panics past the end. *)
Definition flip (b : Init.Byte.byte) : Init.Byte.byte := byte.of_Z (Z.lxor (byte.unsigned b) 0xFF).
Definition flip_at (i : nat) (l : bytes) : outcome string bytes :=
  b ← unwrap (l !! i); Ok (<[i := flip b]> l).

(** Source: src/src/record.rs:191-202 (tests::test_record_roundtrip) *)
Definition test_record_roundtrip : verdict :=
  let data := str_bytes "Hello, production world!" in
  record ← unwrap_ok (record_new (now 0) data);
  let framed := serialize record in
  '(deserialized, size) ← unwrap_ok (deserialize (fr_bytes framed));
  _ ← assert_that (bool_decide (rec_data deserialized = data));
  _ ← assert_that (rec_timestamp deserialized =? rec_timestamp record);
  assert_that (size =? len (fr_bytes framed)).

(** Source: src/src/record.rs:204-212 (tests::test_invalid_magic) *)
Definition test_invalid_magic : verdict :=
  let bytes := replicate 30 x00 in
  bytes ← unwrap (copy_from_slice bytes 0 4 (to_le_bytes 4 0xDEADBEEF));
  assert_that (match deserialize bytes with Err (InvalidMagic _) => true | _ => false end).

Definition is_mismatch (m : outcome RecordError (Rec * Z)) : bool :=
  match m with Err (ChecksumMismatch _ _) => true | _ => false end.

(** Source: src/src/record.rs:214-225 (tests::test_checksum_corruption) *)
Definition test_checksum_corruption : verdict :=
  record ← unwrap_ok (record_new (now 0) (str_bytes "Test data"));
  bytes ← flip_at 8 (fr_bytes (serialize record));
  assert_that (is_mismatch (deserialize bytes)).

(** Source: src/src/record.rs:227-238 (tests::test_data_corruption) *)
Definition test_data_corruption : verdict :=
  record ← unwrap_ok (record_new (now 0) (str_bytes "Test data"));
  bytes ← flip_at (Z.to_nat RECORD_HEADER_SIZE) (fr_bytes (serialize record));
  assert_that (is_mismatch (deserialize bytes)).

(** Source: src/src/record.rs:240-251 (tests::test_incomplete_record) *)
Definition test_incomplete_record : verdict :=
  record ← unwrap_ok (record_new (now 0) (str_bytes "Test data"));
  let framed := serialize record in
  incomplete ← unwrap (slice (fr_bytes framed) 0 (len (fr_bytes framed) - 5));
  assert_that (match deserialize incomplete with Err (IncompleteRecord _ _) => true | _ => false end).

Definition is_too_large (m : outcome RecordError Rec) : bool := match m with Err (RecordTooLarge _) => true | _ => false end.
Definition large_data : bytes := replicate (Z.to_nat (MAX_RECORD_SIZE + 1)) x00.
(** Source: src/src/record.rs:253-258 (tests::test_max_record_size) *)
Definition test_max_record_size : verdict :=
  assert_that (is_too_large (record_new (now 0) large_data)).

(** Source: src/src/record.rs:260-267 (tests::test_empty_record) *)
Definition test_empty_record : verdict :=
  record ← unwrap_ok (record_new (now 0) []);
  '(deserialized, _) ← unwrap_ok (deserialize (fr_bytes (serialize record)));
  assert_that (len (rec_data deserialized) =? 0).

(** Source: src/src/record.rs:284-289 (tests::test_multiple_records, reads) *)
Fixpoint read_back (buffer : bytes) (offset : Z) (records : list Rec) : outcome string Z :=
  match records with
  | [] => Ok offset
  | original :: records =>
      rest ← unwrap (slice buffer offset (len buffer));
      '(deserialized, size) ← unwrap_ok (deserialize rest);
      _ ← assert_that (bool_decide (rec_data deserialized = rec_data original));
      read_back buffer (usize (offset + size)) records
  end.

(** Source: src/src/record.rs:269-292 (tests::test_multiple_records) *)
Definition test_multiple_records : verdict :=
  record1 ← unwrap_ok (record_new (now 0) (str_bytes "Record 1"));
  record2 ← unwrap_ok (record_new (now 1) (str_bytes "Record 2 with more data"));
  record3 ← unwrap_ok (record_new (now 2) (str_bytes "Record 3"));
  let records := [record1; record2; record3] in
  let buffer := foldl (λ buffer record, buffer ++ fr_bytes (serialize record)) [] records in
  offset ← read_back buffer 0 records;
  assert_that (offset =? len buffer).
End record_tests.

Section storage_tests.
Context `{Crc32} `{Os} (now : nat → Z).

(** Source: src/src/storage.rs:443-468 (tests::test_record_segment_basic) *)
Definition test_record_segment_basic : verdict :=
  segment ← unwrap_ok (RecordSegment_new "/tmp/dolda_storage_test/test.dat" (1024 * 1024) true);
  record ← unwrap_ok (record_new (now 0) (str_bytes "Hello, production!"));
  let '(segment, appended) := RecordSegment_append_record segment record in
  offset ← unwrap_ok appended;
  retrieved ← unwrap_ok (RecordSegment_read_record segment (ro_offset offset));
  _ ← assert_that (bool_decide (rec_data retrieved = str_bytes "Hello, production!"));
  let stats := RecordSegment_stats segment in
  _ ← assert_that (ss_record_count stats =? 1);
  assert_that (0 <? ss_used_bytes stats).

(** Source: src/src/storage.rs:491-497 (tests::test_record_iteration, loop) *)
Fixpoint check_items (items : list (outcome StorageError (RecordOffset * Rec))) (records : list Rec) (count : nat)
    : outcome string nat :=
  match items with
  | [] => Ok count
  | result :: items =>
      '(_, record) ← unwrap_ok result;
      expected ← unwrap (records !! count);
      _ ← assert_that (bool_decide (rec_data record = rec_data expected));
      check_items items records (S count)
  end.

(** Source: src/src/storage.rs:470-502 (tests::test_record_iteration) *)
Definition test_record_iteration (fuel : nat) : option verdict :=
  let payloads := map str_bytes ["Record 1"; "Record 2"; "Record 3"]%string in
  match RecordSegment_new "/tmp/dolda_storage_iter/test.dat" (1024 * 1024) false with
  | Ok segment =>
      match segment_writes now 0 segment payloads with
      | Ok segment =>
          items ← iter_collect fuel segment (iter_records segment);
          Some (count ← check_items items (new_records now 0 payloads) 0;
                assert_that (Z.of_nat count =? 3))
      | _ => Some Panic
      end
  | _ => Some Panic
  end.

(** Source: src/src/storage.rs:504-529 (tests::test_segment_manager) *)
Definition test_segment_manager : option verdict :=
  match SegmentManager_new 1 (64 * 1024) "/tmp/dolda_storage_manager" true with
  | Ok manager =>
      written ← manager_writes 2 now 0 manager (replicate 10 (replicate (10 * 1024) x00));
      Some (manager ← unwrap_ok written;
            let stats := SegmentManager_stats manager in
            _ ← assert_that (1 <? ms_segment_count stats);
            assert_that (ms_total_records stats =? 10))
  | _ => Some Panic
  end.
End storage_tests.

Section compaction_tests.
Context `{Crc32} `{Os}.

(** Source: src/src/compaction.rs:362-367 (tests::test_compaction_policy_default) *)
Definition test_compaction_policy_default : verdict :=
  let policy := CompactionPolicy_default in
  _ ← assert_that (f64_le (min_utilization policy) (f64_lit 5 10) && f64_ge (min_utilization policy) (f64_lit 5 10));
  assert_that (auto_compact policy).

Definition stats_of (used : Z) : SegmentStats :=
  {| ss_path := "test"; ss_max_size := 1000; ss_used_bytes := used; ss_record_count := 10;
     ss_index_enabled := false; ss_index_size := 0 |}.

(** Source: src/src/compaction.rs:369-399 (tests::test_needs_compaction) *)
Definition test_needs_compaction : verdict :=
  let policy := {| min_utilization := f64_lit 5 10; min_age := from_secs 60;
                   max_segments_per_run := max_segments_per_run CompactionPolicy_default;
                   target_segment_size := target_segment_size CompactionPolicy_default;
                   auto_compact := auto_compact CompactionPolicy_default;
                   check_interval := check_interval CompactionPolicy_default |} in
  let manager := CompactionManager_new policy in
  _ ← assert_that (negb (needs_compaction manager (stats_of 400) (from_secs 30)));
  _ ← assert_that (needs_compaction manager (stats_of 400) (from_secs 120));
  assert_that (negb (needs_compaction manager (stats_of 800) (from_secs 120))).

(** Source: src/src/compaction.rs:411-412 (tests::test_compact_segment, data) *)
Definition compact_data (i : nat) : bytes := str_bytes ("Record " +:+ pretty (Z.of_nat i)).

(** Source: src/src/compaction.rs:401-432 (tests::test_compact_segment) *)
Definition test_compact_segment (fuel : nat) (now : nat → Z) (at_time elapsed : Z) : option verdict :=
  match RecordSegment_new "/tmp/dolda_compaction_test/source.dat" (1024 * 1024) false with
  | Ok source =>
      match segment_writes now 0 source (map compact_data (seq 0 100)) with
      | Ok source =>
          let manager := CompactionManager_new CompactionPolicy_default in
          '(manager, result) ← compact_segment fuel at_time elapsed manager source "/tmp/dolda_compaction_test/compacted.dat";
          Some (compacted ← unwrap_ok result;
                _ ← assert_that (ss_record_count (RecordSegment_stats compacted) =? 100);
                assert_that (total_compactions (CompactionManager_stats manager) =? 1))
      | _ => Some Panic
      end
  | _ => Some Panic
  end.

(** Source: src/src/compaction.rs:446-447 (tests::test_merge_segments, data) *)
Definition merge_data (i j : nat) : bytes :=
  str_bytes ("Segment " +:+ pretty (Z.of_nat i) +:+ " Record " +:+ pretty (Z.of_nat j)).

(** The three segments.
    Source: src/src/compaction.rs:440-453 (tests::test_merge_segments, segments) *)
Fixpoint merge_sources (now : nat → nat → Z) (ids : list nat) : outcome run_error (list RecordSegment) :=
  match ids with
  | [] => Ok []
  | i :: rest =>
      segment ← map_err RunStorage
        (RecordSegment_new ("/tmp/dolda_merge_test/segment_" +:+ pretty (Z.of_nat i) +:+ ".dat") (1024 * 1024) false);
      segment ← segment_writes (now i) 0 segment (map (merge_data i) (seq 0 10));
      segments ← merge_sources now rest;
      Ok (segment :: segments)
  end.

(** Source: src/src/compaction.rs:434-464 (tests::test_merge_segments) *)
Definition test_merge_segments (fuel : nat) (now : nat → nat → Z) : option verdict :=
  match merge_sources now (seq 0 3) with
  | Ok segments =>
      merged ← merge_segments fuel segments "/tmp/dolda_merge_test/merged.dat" (10 * 1024 * 1024) false;
      Some (merged ← unwrap_ok merged;
            assert_that (ss_record_count (RecordSegment_stats merged) =? 30))
  | _ => Some Panic
  end.
End compaction_tests.

(** ** Lemmas *)
Lemma flip_changes b : flip b ≠ b.
Proof. by destruct b. Qed.

Section record_lemmas.
Context `{Crc32Ok} `{!Crc32Detects} (now : nat → Z) (Hnow : ∀ i, in_range 64 (now i)).

Definition made (i : nat) (data : bytes) : Rec := {| rec_timestamp := now i; rec_data := data |}.

Lemma made_wf i data : len data ≤ MAX_RECORD_SIZE → record_wf (made i data).
Proof. apply (new_record_wf now Hnow). Qed.

Lemma flip_detected i k data :
  len data ≤ MAX_RECORD_SIZE → (8 ≤ k)%nat → Z.of_nat k < 20 + len data →
  ∃ bytes, flip_at k (fr_bytes (serialize (made i data))) = Ok bytes ∧ is_mismatch (deserialize bytes) = true.
Proof.
  intros Hd Hk Hlt. pose proof (made_wf i data Hd) as Hr.
  destruct (lookup_lt_is_Some_2 (fr_bytes (serialize (made i data))) k) as [b Hb].
  { pose proof (framed_size_wf _ Hr) as Hs. rewrite serialized_size_wf in Hs by done. unfold framed_size, len in *. cbn [rec_data made] in Hs. lia. }
  destruct (changed_byte_mismatch _ k b (flip b) Hr Hk Hb (flip_changes b)) as (e & a & _ & Hdes).
  exists (<[k:=flip b]> (fr_bytes (serialize (made i data)))). unfold flip_at. rewrite Hb. cbn [unwrap mbind outcome_bind].
  split; [done|]. by rewrite Hdes.
Qed.

Lemma record_made i data : len data ≤ MAX_RECORD_SIZE → record_new (now i) data = Ok (made i data).
Proof. apply record_new_ok. Qed.

Lemma deserialize_made i data :
  len data ≤ MAX_RECORD_SIZE →
  deserialize (fr_bytes (serialize (made i data))) = Ok (made i data, len (fr_bytes (serialize (made i data)))).
Proof.
  intros Hd. pose proof (made_wf i data Hd) as Hr. rewrite <- (app_nil_r (fr_bytes _)) at 1.
  rewrite deserialize_serialize by done. by rewrite <- (framed_size_wf _ Hr).
Qed.

Lemma roundtrip_passes : test_record_roundtrip now = Ok tt.
Proof.
  unfold test_record_roundtrip. rewrite record_made by by vm_compute. cbn [unwrap_ok mbind outcome_bind].
  rewrite deserialize_made by by vm_compute. cbn [unwrap_ok mbind outcome_bind].
  rewrite bool_decide_eq_true_2, !Z.eqb_refl by done. done.
Qed.

Lemma corruptions_pass : test_checksum_corruption now = Ok tt ∧ test_data_corruption now = Ok tt.
Proof.
  unfold test_checksum_corruption, test_data_corruption. rewrite record_made by by vm_compute. cbn [unwrap_ok mbind outcome_bind].
  destruct (flip_detected 0 8 (str_bytes "Test data")) as (b1 & -> & Hb1); [by vm_compute|lia|by vm_compute|].
  destruct (flip_detected 0 20 (str_bytes "Test data")) as (b2 & Hf2 & Hb2); [by vm_compute|lia|by vm_compute|].
  change (Z.to_nat RECORD_HEADER_SIZE) with 20%nat. rewrite Hf2. cbn [mbind outcome_bind]. by rewrite Hb1, Hb2.
Qed.

Lemma incomplete_passes : test_incomplete_record now = Ok tt.
Proof.
  unfold test_incomplete_record. rewrite record_made by by vm_compute. cbn [unwrap_ok mbind outcome_bind].
  assert (len (str_bytes "Test data") ≤ MAX_RECORD_SIZE) as Hd by by vm_compute. pose proof (made_wf 0 _ Hd) as Hr.
  assert (len (fr_bytes (serialize (made 0 (str_bytes "Test data")))) = 29) as Hlen.
  { change (framed_size (serialize (made 0 (str_bytes "Test data"))) = 29). by rewrite framed_size_wf, serialized_size_wf. }
  rewrite Hlen. change (29 - 5) with 24.
  destruct (truncated_record_incomplete _ 24 Hr) as (e & _ & Ht); [by rewrite serialized_size_wf|].
  assert (slice (fr_bytes (serialize (made 0 (str_bytes "Test data")))) 0 24 = Some (ztake 24 (fr_bytes (serialize (made 0 (str_bytes "Test data")))))) as ->.
  { rewrite <- (ztake_zdrop 24 (fr_bytes (serialize (made 0 (str_bytes "Test data"))))) at 1.
    apply slice_head; [done|]. rewrite len_ztake; [done|]. rewrite Hlen. lia. }
  cbn [unwrap mbind outcome_bind]. by rewrite Ht.
Qed.

Lemma empty_passes : test_empty_record now = Ok tt.
Proof.
  unfold test_empty_record. rewrite record_made by by vm_compute. cbn [unwrap_ok mbind outcome_bind].
  by rewrite deserialize_made by by vm_compute.
Qed.

Lemma read_back_ok pre records :
  Forall record_wf records → len pre + log_size records < 2 ^ 64 →
  read_back (pre ++ log_bytes records) (len pre) records = Ok (len pre + log_size records).
Proof.
  intros Hwf. revert pre. induction Hwf as [|r records Hr Hwf IH]; intros pre Hb.
  - cbn. f_equal. unfold log_size. cbn. lia.
  - rewrite log_size_cons, log_bytes_cons in *. cbn [read_back].
    pose proof (len_nonneg pre). pose proof (serialized_size_bounds r Hr). pose proof (log_size_bound _ Hwf). pose proof (len_nonneg records).
    rewrite slice_tail by (done || apply len_app). cbn [unwrap mbind outcome_bind]. rewrite deserialize_serialize by done. cbn [unwrap_ok mbind outcome_bind].
    rewrite bool_decide_eq_true_2 by done. cbn [assert_that mbind outcome_bind].
    pose proof (framed_size_wf r Hr) as Hs. unfold framed_size in Hs.
    rewrite wrap_id by (unfold in_range; lia). rewrite app_assoc, <- Hs, <- len_app. rewrite IH by (rewrite len_app; lia).
    f_equal. rewrite len_app. lia.
Qed.

Lemma multiple_passes : test_multiple_records now = Ok tt.
Proof.
  unfold test_multiple_records. rewrite !record_made by by vm_compute. cbn [unwrap_ok mbind outcome_bind foldl].
  set (records := [made 0 (str_bytes "Record 1"); made 1 (str_bytes "Record 2 with more data"); made 2 (str_bytes "Record 3")]).
  assert (Forall record_wf records) as Hwf by (repeat constructor; apply made_wf; by vm_compute).
  set (buffer := _ ++ _). assert (buffer = [] ++ log_bytes records) as ->.
  { unfold buffer, records. rewrite !log_bytes_cons. unfold log_bytes. cbn. by rewrite !app_nil_r, <- !app_assoc. }
  assert (log_size records = 99) as Hsize.
  { unfold records. rewrite !log_size_cons, !serialized_size_wf by (apply made_wf; by vm_compute). by vm_compute. }
  pose proof (read_back_ok [] records Hwf) as Hread. rewrite Hsize in Hread. change (len []) with 0 in Hread.
  rewrite Hread by done. cbn [mbind outcome_bind]. by rewrite app_nil_l, len_log_bytes, Hsize.
Qed.
End record_lemmas.

Section storage_lemmas.
Context `{Crc32Ok} `{OsOk} (Hos : os_grants).

Lemma max_size_passes (now : nat → Z) : test_max_record_size now = Ok tt.
Proof.
  unfold test_max_record_size, record_new. assert (len large_data = MAX_RECORD_SIZE + 1) as ->.
  { unfold large_data. rewrite len_replicate. unfold MAX_RECORD_SIZE. lia. }
  rewrite (proj2 (Z.ltb_lt _ _)) by lia. reflexivity.
Qed.

Lemma basic_passes now : (∀ i, in_range 64 (now i)) → test_record_segment_basic now = Ok tt.
Proof.
  intros Hnow. unfold test_record_segment_basic.
  destruct (segment_opens Hos "/tmp/dolda_storage_test/test.dat" (1024 * 1024) true) as (s & -> & Hs & Hmax & _); [lia|].
  cbn [unwrap_ok mbind outcome_bind]. assert (len (str_bytes "Hello, production!") ≤ MAX_RECORD_SIZE) as Hd by by vm_compute.
  rewrite record_new_ok by done. cbn [unwrap_ok mbind outcome_bind].
  pose proof (new_record_wf now Hnow 0 _ Hd) as Hr. set (r := {| rec_timestamp := now 0%nat; rec_data := str_bytes "Hello, production!" |}) in *.
  assert (serialized_size r = 38) as Hsz by (by rewrite serialized_size_wf).
  destruct (append_fits s [] r Hs Hr) as (s' & -> & Hs' & _); [rewrite Hmax, Hsz; by vm_compute|]. cbn [unwrap_ok mbind outcome_bind ro_offset].
  rewrite (read_record_repr s' [] r [] Hs'). cbn [unwrap_ok mbind outcome_bind]. rewrite bool_decide_eq_true_2 by done. cbn [assert_that mbind outcome_bind].
  unfold RecordSegment_stats. cbn [ss_record_count ss_used_bytes]. rewrite (repr_count _ _ Hs'), (repr_pos _ _ Hs'), app_nil_l, log_size_one, Hsz. done.
Qed.

Lemma check_items_ok pre rest off :
  check_items (map Ok (log_entries off rest)) (pre ++ rest) (length pre) = Ok (length pre + length rest)%nat.
Proof.
  revert pre off. induction rest as [|r rest IH]; intros pre off; [cbn; f_equal; lia|]. cbn [log_entries map check_items].
  cbn [unwrap_ok mbind outcome_bind]. rewrite list_lookup_middle by done. cbn [unwrap mbind outcome_bind].
  rewrite bool_decide_eq_true_2 by done. cbn [assert_that mbind outcome_bind].
  specialize (IH (pre ++ [r]) (off + serialized_size r)). rewrite <- app_assoc, length_app in IH. cbn [length app] in IH.
  replace (length pre + 1)%nat with (S (length pre)) in IH by lia. rewrite IH. f_equal. cbn [length]. lia.
Qed.

Lemma iteration_passes now fuel : (∀ i, in_range 64 (now i)) → (3 < fuel)%nat → test_record_iteration now fuel = Some (Ok tt).
Proof.
  intros Hnow Hf. unfold test_record_iteration.
  destruct (segment_opens Hos "/tmp/dolda_storage_iter/test.dat" (1024 * 1024) false) as (s & -> & Hs & Hmax & _); [lia|].
  set (payloads := map str_bytes _).
  destruct (segment_writes_ok now Hnow payloads 0 s [] Hs) as (s' & -> & Hs' & _); [repeat constructor; by vm_compute|rewrite Hmax; by vm_compute|].
  rewrite (iter_records_repr s' _ fuel Hs') by (cbn; lia). cbn [mbind option_bind]. rewrite app_nil_l.
  by rewrite (check_items_ok [] (new_records now 0 payloads) 0 : check_items _ (new_records now 0 payloads) 0 = _).
Qed.

Lemma manager_passes now : (∀ i, in_range 64 (now i)) → test_segment_manager now = Some (Ok tt).
Proof.
  intros Hnow. unfold test_segment_manager.
  destruct (manager_opens Hos 1 (64 * 1024) "/tmp/dolda_storage_manager" true) as (m & seg & -> & Hm & Hsz & _); [lia|].
  set (payloads := replicate 10 _). assert (record_sizes payloads = replicate 10 10260) as Hsizes by (by vm_compute).
  assert (Forall (λ d, len d ≤ MAX_RECORD_SIZE) payloads) as Hd by (apply Forall_replicate; by vm_compute).
  destruct (manager_writes_ok now Hnow payloads 0 m [] seg [] [] Hm) as (m' & init & seg' & linit & l & -> & Hm' & _ & Hcat & Hpack);
    [intros path; rewrite Hsz; by apply (og_map Hos)|done|rewrite Hsizes, Hsz; apply Forall_replicate; lia|].
  cbn [mbind option_bind unwrap_ok outcome_bind]. change (concat (linit ++ [l]) = new_records now 0 payloads) in Hcat.
  destruct (stats_of_logs m' init seg' linit l Hm') as (Hc & Hr & _); [rewrite Hcat, new_records_size, Hsizes by done; by vm_compute|].
  rewrite Hc, Hr, Hcat. rewrite Hsizes, Hsz in Hpack. change (log_size []) with 0 in Hpack. change (@len RecordSegment []) with 0 in Hpack.
  assert (foldl (pack (64 * 1024)) (0, 0 + 1) (replicate 10 10260) = (41040, 2)) as Hv by (by vm_compute). rewrite Hv in Hpack.
  injection Hpack as _ Hlen. rewrite Hlen. unfold len. rewrite new_records_length. done.
Qed.

Lemma compact_passes now fuel at_time elapsed :
  (∀ i, in_range 64 (now i)) → (100 < fuel)%nat → test_compact_segment fuel now at_time elapsed = Some (Ok tt).
Proof.
  intros Hnow Hf. unfold test_compact_segment.
  destruct (segment_opens Hos "/tmp/dolda_compaction_test/source.dat" (1024 * 1024) false) as (s & -> & Hs & Hmax & _); [lia|].
  set (payloads := map compact_data (seq 0 100)).
  assert (Forall (λ d, len d ≤ MAX_RECORD_SIZE) payloads) as Hd by (repeat constructor; by vm_compute).
  assert (length (new_records now 0 payloads) = 100%nat) as Hlen by (by rewrite new_records_length).
  destruct (segment_writes_ok now Hnow payloads 0 s [] Hs Hd) as (s' & -> & Hs' & _); [rewrite Hmax; by vm_compute|]. rewrite app_nil_l in Hs'.
  destruct (os_map_file "/tmp/dolda_compaction_test/compacted.dat" (target_segment_size CompactionPolicy_default)) as [mm| |] eqn:Hmm;
    [|pose proof (og_map Hos "/tmp/dolda_compaction_test/compacted.dat" (target_segment_size CompactionPolicy_default) ltac:(done)) as Hg; by rewrite Hmm in Hg..].
  destruct (compact_segment_ok fuel at_time elapsed (CompactionManager_new CompactionPolicy_default) s' (new_records now 0 payloads) "/tmp/dolda_compaction_test/compacted.dat" mm Hs' eq_refl)
    as (new & m' & -> & Hr & _ & _ & Htot & _); [done|rewrite new_records_size by done; by vm_compute|done|by rewrite Hlen|].
  cbn [mbind option_bind unwrap_ok outcome_bind]. unfold RecordSegment_stats, CompactionManager_stats. cbn [ss_record_count].
  rewrite (repr_count _ _ Hr), Htot. unfold len. by rewrite Hlen.
Qed.

Definition short (payloads : list bytes) : bool := forallb (λ d, len d <=? 100) payloads.
Lemma short_spec payloads : short payloads = true →
  Forall (λ d, len d ≤ MAX_RECORD_SIZE) payloads ∧ zsum id (record_sizes payloads) ≤ 120 * len payloads.
Proof.
  unfold short. induction payloads as [|d ds IH]; [done|]. cbn [forallb]. intros [Hd Hds]%andb_true_iff.
  apply Z.leb_le in Hd. destruct (IH Hds) as [Hf Hz]. split; [constructor; [unfold MAX_RECORD_SIZE; lia|done]|].
  rewrite len_cons. cbn [record_sizes map zsum foldr id]. change (foldr _ 0 (map _ ds)) with (zsum id (record_sizes ds)).
  unfold RECORD_HEADER_SIZE. lia.
Qed.

Lemma merge_sources_ok now ids :
  (∀ i k, in_range 64 (now i k)) → forallb (λ i, short (map (merge_data i) (seq 0 10))) ids = true →
  ∃ segs, merge_sources now ids = Ok segs ∧
    Forall2 seg_repr segs (map (λ i, new_records (now i) 0 (map (merge_data i) (seq 0 10))) ids).
Proof.
  intros Hnow. induction ids as [|i ids IH]; [by exists []|]. cbn [forallb]. intros [[Hd Hz]%short_spec Hids]%andb_true_iff.
  destruct (IH Hids) as (segs & Hsegs & Hrs). cbn [merge_sources map].
  destruct (segment_opens Hos ("/tmp/dolda_merge_test/segment_" +:+ pretty (Z.of_nat i) +:+ ".dat") (1024 * 1024) false) as (s & -> & Hs & Hmax & _); [lia|].
  cbn [map_err mbind outcome_bind].
  destruct (segment_writes_ok (now i) (Hnow i) (map (merge_data i) (seq 0 10)) 0 s [] Hs Hd) as (s' & -> & Hs' & _).
  { rewrite Hmax. change (log_size []) with 0. unfold len in Hz. rewrite length_map, length_seq in Hz. lia. }
  cbn [mbind outcome_bind]. rewrite Hsegs. exists (s' :: segs). split; [done|]. constructor; [exact Hs'|done].
Qed.

Lemma merge_passes now fuel :
  (∀ i k, in_range 64 (now i k)) → (10 < fuel)%nat → test_merge_segments fuel now = Some (Ok tt).
Proof.
  intros Hnow Hf. unfold test_merge_segments. destruct (merge_sources_ok now (seq 0 3) Hnow) as (segs & -> & Hsegs); [by vm_compute|].
  set (ls := map _ _) in Hsegs.
  assert (Forall (λ l, length l = 10%nat ∧ log_size l ≤ 1200) ls) as Hls.
  { unfold ls. repeat constructor; rewrite ?new_records_length, ?length_map, ?length_seq; try done;
      (rewrite new_records_size; [|apply Hnow|]; [|apply short_spec; by vm_compute]); by vm_compute. }
  assert (log_size (concat ls) ≤ 3600 ∧ len (concat ls) = 30) as [Hsize Hlen].
  { assert (length ls = 3%nat) as Hl by done. destruct ls as [|l1 [|l2 [|l3 [|]]]]; try done.
    repeat apply Forall_cons in Hls as [[? ?] Hls]. cbn [concat]. rewrite !log_size_app, !len_app. unfold len. change (log_size []) with 0. cbn [length]. lia. }
  destruct (os_map_file "/tmp/dolda_merge_test/merged.dat" (10 * 1024 * 1024)) as [mm| |] eqn:Hmm;
    [|pose proof (og_map Hos "/tmp/dolda_merge_test/merged.dat" (10 * 1024 * 1024) ltac:(done)) as Hg; by rewrite Hmm in Hg..].
  destruct (merge_concatenates fuel segs ls "/tmp/dolda_merge_test/merged.dat" (10 * 1024 * 1024) false mm Hsegs) as (new & -> & Hr); [lia|lia|done| |].
  { eapply Forall_impl; [exact Hls|]. intros l [-> _]. done. }
  cbn [mbind option_bind unwrap_ok outcome_bind]. unfold RecordSegment_stats. cbn [ss_record_count]. by rewrite (repr_count _ _ Hr), Hlen.
Qed.
End storage_lemmas.

(** ** Properties *)
Section properties.
Context `{Crc32Ok} `{!Crc32Detects} `{OsOk}.

(** The tests of the three modules all pass, whatever the clock shows, on
    a machine that grants its files and with a checksum that detects a changed
    byte. *)
Lemma storage_tests_pass now nows fuel at_time elapsed :
  os_grants → (∀ i, in_range 64 (now i)) → (∀ i k, in_range 64 (nows i k)) → (100 < fuel)%nat →
  (test_record_roundtrip now = Ok tt ∧ test_invalid_magic = Ok tt ∧ test_checksum_corruption now = Ok tt ∧
   test_data_corruption now = Ok tt ∧ test_incomplete_record now = Ok tt ∧ test_max_record_size now = Ok tt ∧
   test_empty_record now = Ok tt ∧ test_multiple_records now = Ok tt) ∧
  (test_record_segment_basic now = Ok tt ∧ test_record_iteration now fuel = Some (Ok tt) ∧
   test_segment_manager now = Some (Ok tt)) ∧
  (test_compaction_policy_default = Ok tt ∧ test_needs_compaction = Ok tt ∧
   test_compact_segment fuel now at_time elapsed = Some (Ok tt) ∧ test_merge_segments fuel nows = Some (Ok tt)).
Proof.
  intros Hos Hnow Hnows Hf. split; [|split].
  - destruct (corruptions_pass now Hnow) as [Hc Hd].
    split; [by apply roundtrip_passes|]. split; [reflexivity|]. split; [exact Hc|]. split; [exact Hd|].
    split; [by apply incomplete_passes|]. split; [apply max_size_passes|]. split; [by apply empty_passes|by apply multiple_passes].
  - split; [by apply basic_passes|]. split; [apply iteration_passes; [done|done|lia]|by apply manager_passes].
  - split; [vm_compute; reflexivity|]. split; [vm_compute; reflexivity|].
    split; [by apply compact_passes|apply merge_passes; [done|done|lia]].
Qed.
End properties.

Lemma storage_tests_pass_witness :
  test_data_corruption (λ _, 7) = Ok tt ∧ test_segment_manager (λ _, 7) = Some (Ok tt) ∧ test_merge_segments 101 (λ _ _, 7) = Some (Ok tt).
Proof.
  destruct (storage_tests_pass (λ _, 7) (λ _ _, 7) 101 0 0 zero_os_grants) as ((_ & _ & _ & Hd & _) & (_ & _ & Hm) & (_ & _ & _ & Hg));
    [intros i; split; [lia|reflexivity]|intros i k; split; [lia|reflexivity]|lia|].
  split; [exact Hd|]. split; [exact Hm|exact Hg].
Defined.
