(* ===== verification/StressTests.v ===== *)
(** * Stress tests of the storage engine (src/tests/storage_stress.rs)

    The tests with their assertions.  What they require of speed is a condition
    on the readings of the clock; the writers of the two concurrent ones are
    loops around the atomic actions of [StorageConc], in any interleaving. *)

From stdpp Require Import base list list_numbers sorting numbers strings.
From coqutil Require Import Byte.
From Stdlib Require Import Strings.Byte.
From S2P Require Import Prelude Crc32 F64 RecordFormat StorageEngine StorageRuns StorageConc.
Local Open Scope Z_scope.

(** ** Definitions *)
Section stress.
Context `{Crc32} `{Os} (now : nat → Z).

Definition throughput (count : Z) (secs : f64) : f64 := f64_div (f64_of_int count) secs.

(** Source: src/tests/storage_stress.rs:94-100 (stress_sequential_writes, reads) *)
Fixpoint verify_reads (n : nat) (segment : RecordSegment) (it : RecordIterator) (count : Z) : Z :=
  match n with
  | O => count
  | S n =>
      match RecordIterator_next segment it with
      | (it, Some (Ok _)) => verify_reads n segment it (count + 1)
      | (it, _) => verify_reads n segment it count
      end
  end.

Definition sequential_data (i : nat) : bytes := replicate (Z.to_nat 1024) (byte.of_Z (Z.of_nat i mod 256)).

(** [latencies] and [secs] are the readings of the clock; the result is the
    number of records verified.
    Source: src/tests/storage_stress.rs:28-109 (stress_sequential_writes) *)
Definition stress_sequential_writes (latencies : list Z) (secs : f64) : outcome string Z :=
  segment ← unwrap_ok (RecordSegment_new "test.dat" (100 * 1024 * 1024) false);
  let record_count := 50000 in
  segment ← unwrap_ok (segment_writes now 0 segment (map sequential_data (seq 0 (Z.to_nat record_count))));
  let latencies := merge_sort Z.le latencies in
  avg_latency ← (if len latencies =? 0 then Panic else Ok (sum_u64 id latencies `div` len latencies));
  p50_latency ← unwrap (latencies !! Z.to_nat (len latencies `div` 2));
  p95_latency ← unwrap (latencies !! Z.to_nat ((len latencies * 95) `div` 100));
  p99_latency ← unwrap (latencies !! Z.to_nat ((len latencies * 99) `div` 100));
  let count := verify_reads 100 segment (iter_records segment) 0 in
  _ ← assert_that (f64_gt (throughput record_count secs) (f64_of_int 50000));
  _ ← assert_that (avg_latency <? 100);
  _ ← assert_that (p99_latency <? 500);
  Ok count.

(** Source: src/tests/storage_stress.rs:192-250 (stress_segment_manager) *)
Definition stress_segment_manager (secs : f64) : option verdict :=
  match SegmentManager_new 1 (512 * 1024) "manager" false with
  | Ok manager =>
      let record_count := 10000 in
      written ← manager_writes 2 now 0 manager (replicate (Z.to_nat record_count) (replicate (Z.to_nat 1024) x42));
      Some (manager ← unwrap_ok written;
            _ ← unwrap_ok (SegmentManager_flush manager);
            let stats := SegmentManager_stats manager in
            _ ← assert_that (ms_total_records stats =? record_count);
            _ ← assert_that (10 <? ms_segment_count stats);
            assert_that (f64_gt (throughput record_count secs) (f64_of_int 20000)))
  | _ => Some Panic
  end.

(** Source: src/tests/storage_stress.rs:265-270 (stress_large_records, sizes) *)
Definition test_sizes : list (Z * Z) := [(1024, 1000); (10 * 1024, 500); (100 * 1024, 100); (1024 * 1024, 20)].

(** Source: src/tests/storage_stress.rs:252-300 (stress_large_records) *)
Definition stress_large_records : outcome string SegmentStats :=
  segment ← unwrap_ok (RecordSegment_new "test.dat" (100 * 1024 * 1024) false);
  segment ← unwrap_ok (segment_writes now 0 segment
    (concat (map (λ '(size, count), replicate (Z.to_nat count) (replicate (Z.to_nat size) xaa)) test_sizes)));
  Ok (RecordSegment_stats segment).

(** Source: src/tests/storage_stress.rs:302-350 (stress_iteration_performance) *)
Definition stress_iteration_performance (fuel : nat) (secs : f64) : option verdict :=
  match RecordSegment_new "test.dat" (50 * 1024 * 1024) false with
  | Ok segment =>
      let record_count := 10000 in
      match segment_writes now 0 segment (replicate (Z.to_nat record_count) (replicate (Z.to_nat 256) x55)) with
      | Ok segment =>
          results ← iter_collect fuel segment (iter_records segment);
          let count := len (filter (λ r, is_ok r = true) results) in
          Some (_ ← assert_that (count =? record_count);
                assert_that (f64_gt (throughput count secs) (f64_of_int 500000)))
      | _ => Some Panic
      end
  | _ => Some Panic
  end.
End stress.

(** *** The writers of the concurrent tests *)

(** Where a writer is: at the head of its loop, inside [append_record], or
    done. *)
Inductive writer_pc := LoopHead | Appending (t : thread) | Returned.

(** [wr_left] counts the rounds to go in a counted loop; without it the loop runs
    until the stop flag is set. *)
Record writer := mkWriter { wr_data : bytes; wr_left : option nat; wr_pc : writer_pc }.
Record load := mkLoad {
  ld_segment : RecordSegment; ld_writers : list writer; ld_stop : bool; ld_writes : Z; ld_errors : Z }.

Section writers.
Context `{Crc32}.

(** One action of a writer: the segment, the writer, and what is added to the
    counters of writes and of errors.
    Source: src/tests/storage_stress.rs:142-157 (stress_concurrent_writes, writer) *)
Definition writer_step (stop : bool) (at_time : Z) (s : RecordSegment) (w : writer) : RecordSegment * writer * Z * Z :=
  match wr_pc w with
  | LoopHead =>
      let more := match wr_left w with Some n => negb (n =? 0)%nat | None => negb stop end in
      if more then
        match record_new at_time (wr_data w) with
        | Ok r => (s, mkWriter (wr_data w) (pred <$> wr_left w) (Appending (AStart r)), 0, 0)
        | _ => (s, mkWriter (wr_data w) (wr_left w) Returned, 0, 0)
        end
      else (s, mkWriter (wr_data w) (wr_left w) Returned, 0, 0)
  | Appending t =>
      match action s t with
      | Some (s, t) => (s, mkWriter (wr_data w) (wr_left w) (Appending t), 0, 0)
      | None =>
          match t with
          | ADone _ (Ok _) => (s, mkWriter (wr_data w) (wr_left w) LoopHead, 1, 0)
          | ADone _ (Err _) => (s, mkWriter (wr_data w) (wr_left w) LoopHead, 0, 1)
          | _ => (s, mkWriter (wr_data w) (wr_left w) Returned, 0, 0)
          end
      end
  | Returned => (s, w, 0, 0)
  end.

(** A writer acts at some time, or the stop flag is set. *)
Inductive load_event := Acts (i : nat) (at_time : Z) | Stops.

Definition load_step (ld : load) (ev : load_event) : load :=
  match ev with
  | Acts i at_time =>
      match ld_writers ld !! i with
      | Some w =>
          let '(s, w, ok, err) := writer_step (ld_stop ld) at_time (ld_segment ld) w in
          mkLoad s (<[i := w]> (ld_writers ld)) (ld_stop ld) (u64 (ld_writes ld + ok)) (u64 (ld_errors ld + err))
      | None => ld
      end
  | Stops => mkLoad (ld_segment ld) (ld_writers ld) true (ld_writes ld) (ld_errors ld)
  end.
Definition load_run : load → list load_event → load := foldl load_step.

Definition thread_data (size thread_id : Z) : bytes := replicate (Z.to_nat size) (byte.of_Z (thread_id mod 256)).

(** Source: src/tests/storage_stress.rs:111-190 (stress_concurrent_writes) *)
Definition concurrent_load (s : RecordSegment) : load :=
  mkLoad s ((λ i, mkWriter (thread_data 512 i) (Some (Z.to_nat 5000)) LoopHead) <$> seqZ 0 16) false 0 0.
Definition concurrent_verdict (ld : load) (secs : f64) : verdict :=
  _ ← assert_that (ld_errors ld =? 0);
  assert_that (f64_gt (throughput (ld_writes ld) secs) (f64_of_int 100000)).

(** Source: src/tests/storage_stress.rs:352-422 (stress_sustained_load) *)
Definition sustained_load (s : RecordSegment) : load :=
  mkLoad s ((λ i, mkWriter (thread_data 1024 i) None LoopHead) <$> seqZ 0 8) false 0 0.
Definition sustained_verdict (ld : load) (secs : f64) : verdict :=
  assert_that (f64_gt (throughput (ld_writes ld) secs) (f64_of_int 100000)).
End writers.

(** ** Lemmas *)

(** *** Writers of equal records

    Every reservation of the segment is held by a writer or counted, or is about
    to be rolled back. *)
Definition holds (w : writer) : Z :=
  match wr_pc w with
  | Appending (AReserved _ _ | AWritten _ _ | ACounted _ _ _ | ADone _ (Ok _)) => 1
  | _ => 0
  end.
Definition failing (w : writer) : Z := match wr_pc w with Appending (AOverflow _ _) => 1 | _ => 0 end.
(** The rounds a counted loop has still to finish. *)
Definition budget (w : writer) : Z :=
  Z.of_nat (default 0%nat (wr_left w)) + match wr_pc w with Appending _ => 1 | _ => 0 end.

Section load_lemmas.
Context `{Crc32Ok} (max R : Z) (HR : 20 ≤ R ≤ 2 ^ 40) (Hmax : 0 ≤ max < 2 ^ 62).

Definition sized (r : Rec) : Prop := record_wf r ∧ serialized_size r = R.
Definition writer_ok (w : writer) : Prop :=
  len (wr_data w) ≤ MAX_RECORD_SIZE ∧ 20 + len (wr_data w) = R ∧
  match wr_pc w with
  | Appending t =>
      match t with
      | AStart r | AOverflow r _ | AWritten r _ | ACounted r _ _ => sized r
      | AReserved r off => sized r ∧ 0 ≤ off ∧ off + R ≤ max
      | ADone _ Panic => False
      | ADone _ _ => True
      | _ => False
      end
  | _ => True
  end.

Record load_inv (ld : load) : Prop := {
  li_ok : Forall writer_ok (ld_writers ld);
  li_few : len (ld_writers ld) ≤ 1024;
  li_max : seg_max_size (ld_segment ld) = max;
  li_mmap : len (seg_mmap (ld_segment ld)) = max;
  li_pos : seg_write_pos (ld_segment ld) = R * (ld_writes ld + zsum holds (ld_writers ld) + zsum failing (ld_writers ld));
  li_room : R * (ld_writes ld + zsum holds (ld_writers ld)) ≤ max;
  li_writes : 0 ≤ ld_writes ld
}.

Lemma holds_nonneg w : 0 ≤ holds w.
Proof. unfold holds. by repeat case_match. Qed.
Lemma failing_nonneg w : 0 ≤ failing w.
Proof. unfold failing. by repeat case_match. Qed.
Lemma budget_nonneg w : 0 ≤ budget w.
Proof. unfold budget. case_match; lia. Qed.
Lemma failing_few ws : zsum failing ws ≤ len ws.
Proof.
  induction ws as [|w ws IH]; [done|]. rewrite len_cons. cbn. unfold zsum in IH.
  assert (failing w ≤ 1) by (unfold failing; by repeat case_match). lia.
Qed.

Lemma load_update ld i w s' w' stop' ok err' :
  load_inv ld → ld_writers ld !! i = Some w → writer_ok w' → 0 ≤ ok →
  seg_max_size s' = max → len (seg_mmap s') = max →
  seg_write_pos s' = seg_write_pos (ld_segment ld) + R * (ok + holds w' - holds w + failing w' - failing w) →
  R * (ld_writes ld + ok + zsum holds (ld_writers ld) + holds w' - holds w) ≤ max →
  load_inv (mkLoad s' (<[i := w']> (ld_writers ld)) stop' (u64 (ld_writes ld + ok)) err').
Proof.
  intros [Hok Hfew Hm Hmm Hpos Hroom Hw] Hi Hok' Hok0 Hm' Hmm' Hpos' Hroom'.
  assert (0 ≤ zsum holds (<[i:=w']> (ld_writers ld))) as Hh by (apply zsum_nonneg, holds_nonneg).
  rewrite (zsum_insert _ _ _ _ _ Hi) in Hh.
  assert (in_range 64 (ld_writes ld + ok)) as Hr by (unfold in_range; nia).
  split; cbn [ld_writers ld_segment ld_writes]; rewrite ?(wrap_id _ _ Hr), ?(zsum_insert _ _ _ _ _ Hi); try done.
  - by apply Forall_insert.
  - unfold len in *. by rewrite length_insert.
  - rewrite Hpos', Hpos. ring.
  - etrans; [|exact Hroom']. apply Z.eq_le_incl. ring.
  - lia.
Qed.

(** The writer at its place goes from [w0] on; left over is what it takes for the
    new one to be well formed. *)
Ltac loaded w0 :=
  apply (load_update _ _ w0);
  unfold with_write_pos, with_mmap, with_count, with_index;
  cbn [holds failing wr_pc wr_data wr_left seg_max_size seg_mmap seg_write_pos]; unfold writer_ok; cbn [wr_pc wr_data wr_left];
  rewrite ?Z.add_0_r, ?Z.sub_0_r, ?Z.mul_0_r; try assumption; try reflexivity; try lia; try (split_and!; try done; try lia); try nia.

Lemma writer_step_inv ld i at_time w s' w' ok err :
  load_inv ld → ld_writers ld !! i = Some w → in_range 64 at_time →
  writer_step (ld_stop ld) at_time (ld_segment ld) w = (s', w', ok, err) →
  load_inv (mkLoad s' (<[i := w']> (ld_writers ld)) (ld_stop ld) (u64 (ld_writes ld + ok)) (u64 (ld_errors ld + err))).
Proof.
  intros Hinv Hi Hat Hstep. pose proof (Forall_lookup_1 _ _ _ _ (li_ok _ Hinv) Hi) as (Hd & Hsz & Hpc).
  pose proof (li_max _ Hinv) as Hm. pose proof (li_mmap _ Hinv) as Hmm. pose proof (li_room _ Hinv) as Hroom.
  pose proof (li_pos _ Hinv) as Hpos. pose proof (li_writes _ Hinv) as Hw. pose proof (li_few _ Hinv) as Hfew.
  pose proof (failing_few (ld_writers ld)) as Hff. pose proof (zsum_nonneg failing (ld_writers ld) failing_nonneg) as Hf0.
  pose proof (zsum_nonneg holds (ld_writers ld) holds_nonneg) as Hh0.
  pose proof (zsum_lookup_le failing _ _ _ failing_nonneg Hi) as Hfw.
  assert (R * (ld_writes ld + zsum holds (ld_writers ld) + zsum failing (ld_writers ld)) ≤ max + 1024 * 2 ^ 40) as Hbig by nia.
  destruct w as [data left pc]. unfold writer_step in Hstep. cbn [wr_pc wr_data wr_left] in *.
  destruct pc as [|t|].
  - pose proof (record_new_ok (λ _, at_time) 0 data Hd) as Hnew. cbv beta in Hnew. rewrite Hnew in Hstep.
    destruct (match left with Some n => _ | None => _ end); simplify_eq; loaded (mkWriter data left LoopHead).
    split; [by split|]. by rewrite serialized_size_wf by (by split).
  - destruct t as [r|r off|r off|r off|r off num|r res|off|off pos|off res]; try done; cbn [action] in Hstep.
    + destruct Hpc as [Hr Hs]. rewrite framed_size_wf, Hs in Hstep by done.
      rewrite (wrap_id 64) in Hstep by (unfold in_range; nia).
      destruct (seg_max_size (ld_segment ld) <? _) eqn:Hfull; zbool; simplify_eq; loaded (mkWriter data left (Appending (AStart r))). all: by split.
    + destruct Hpc as ([Hr Hs] & Ho & Hom). rewrite framed_size_wf, Hs in Hstep by done.
      rewrite (wrap_id 64 (off + R)) in Hstep by (unfold in_range; lia).
      destruct (copy_from_slice_ok (seg_mmap (ld_segment ld)) (fr_bytes (serialize r)) off (off + R)) as [mm Hcopy];
        [done|by rewrite <- Hs, <- (framed_size_wf r Hr)|by rewrite Hmm|].
      rewrite Hcopy in Hstep. simplify_eq. destruct (copy_from_slice_spec _ _ _ _ _ Hcopy) as (_ & Hl & _).
      loaded (mkWriter data left (Appending (AReserved r off))).
    + destruct Hpc as [Hr Hs]. cbn [failing wr_pc] in Hfw. rewrite framed_size_wf, Hs in Hstep by done.
      rewrite (wrap_id 64 (seg_write_pos (ld_segment ld) - R)) in Hstep by (unfold in_range; nia). simplify_eq.
      loaded (mkWriter data left (Appending (AOverflow r off))).
    + simplify_eq. loaded (mkWriter data left (Appending (AWritten r off))).
    + destruct (seg_index_enabled (ld_segment ld)); simplify_eq; loaded (mkWriter data left (Appending (ACounted r off num))).
    + destruct res as [o|e|]; [| |done]; simplify_eq.
      * loaded (mkWriter data left (Appending (ADone r (Ok o)))).
      * loaded (mkWriter data left (Appending (ADone r (Err e)))).
  - simplify_eq. loaded (mkWriter data left Returned).
Qed.

Definition timely (ev : load_event) : Prop := match ev with Acts _ at_time => in_range 64 at_time | Stops => True end.

Lemma load_step_inv ld ev : load_inv ld → timely ev → load_inv (load_step ld ev).
Proof.
  intros Hinv Hev. destruct ev as [i at_time|]; cbn [load_step]; [|by destruct Hinv].
  destruct (ld_writers ld !! i) as [w|] eqn:Hi; [|done].
  destruct (writer_step _ _ _ w) as [[[s' w'] ok] err] eqn:Hs. by apply (writer_step_inv ld i at_time w s' w' ok err).
Qed.

(** *** Counted loops that fit *)

(** No append of the writer fails. *)
Definition quiet (w : writer) : Prop :=
  wr_left w ≠ None ∧
  match wr_pc w with Appending (AOverflow _ _) | Appending (ADone _ (Err _)) => False | _ => True end.

Record counted_inv (N : Z) (ld : load) : Prop := {
  co_inv : load_inv ld;
  co_quiet : Forall quiet (ld_writers ld);
  co_errors : ld_errors ld = 0;
  co_budget : ld_writes ld + zsum budget (ld_writers ld) = N
}.

Lemma quiet_failing ws : Forall quiet ws → zsum failing ws = 0.
Proof.
  induction 1 as [|w ws [_ Hw] _ IH]; [done|]. cbn. unfold zsum in IH. rewrite IH, Z.add_0_r.
  unfold failing. destruct (wr_pc w) as [|[]|]; done.
Qed.
Lemma holds_budget ws i w :
  Forall quiet ws → ws !! i = Some w → zsum holds ws + budget w - holds w ≤ zsum budget ws.
Proof.
  intros _ Hi. assert (∀ w, holds w ≤ budget w) as Hle.
  { intros v. unfold holds, budget. repeat case_match; lia. }
  revert i Hi. induction ws as [|v ws IH]; intros [|i] Hi; [done..| |].
  - cbn in *. simplify_eq. assert (zsum holds ws ≤ zsum budget ws); [|unfold zsum in *; lia].
    clear IH. induction ws as [|u ws IH]; [done|]. cbn. unfold zsum in IH. specialize (Hle u). lia.
  - cbn in *. specialize (IH i Hi). unfold zsum in IH. specialize (Hle v). lia.
Qed.

(** A step of a quiet writer finishes at most one round, and well. *)
Lemma writer_step_quiet N ld i at_time w s' w' ok err :
  R * N ≤ max → counted_inv N ld → ld_writers ld !! i = Some w → in_range 64 at_time →
  writer_step (ld_stop ld) at_time (ld_segment ld) w = (s', w', ok, err) →
  quiet w' ∧ err = 0 ∧ ok + budget w' = budget w.
Proof.
  intros HN [Hinv Hq He Hb] Hi Hat Hstep. pose proof (Forall_lookup_1 _ _ _ _ (li_ok _ Hinv) Hi) as (Hd & Hsz & Hpc).
  pose proof (Forall_lookup_1 _ _ _ _ Hq Hi) as [Hleft Hqp]. pose proof (holds_budget _ _ _ Hq Hi) as Hhb.
  pose proof (quiet_failing _ Hq) as Hf. pose proof (li_pos _ Hinv) as Hpos. pose proof (li_max _ Hinv) as Hm.
  pose proof (li_writes _ Hinv) as Hw. pose proof (zsum_nonneg holds (ld_writers ld) holds_nonneg) as Hh0.
  destruct w as [data [n|] pc]; [|done]. unfold writer_step in Hstep. cbn [wr_pc wr_data wr_left] in *.
  destruct pc as [|t|].
  - pose proof (record_new_ok (λ _, at_time) 0 data Hd) as Hnew. cbv beta in Hnew. rewrite Hnew in Hstep.
    destruct n as [|n]; cbn in Hstep; simplify_eq; unfold quiet, budget; cbn; [done|split_and!; [done..|lia]].
  - destruct t as [r|r off|r off|r off|r off num|r res|off|off pos|off res]; try done; cbn [action] in Hstep.
    + destruct Hpc as [Hr Hs]. rewrite framed_size_wf, Hs in Hstep by done. unfold budget at 1 in Hhb. cbn [holds wr_pc wr_left default from_option] in Hhb.
      assert (ld_writes ld + zsum holds (ld_writers ld) + 1 ≤ N) as Hone by lia.
      assert (0 ≤ seg_write_pos (ld_segment ld) ∧ seg_write_pos (ld_segment ld) + R ≤ max) as [Hp0 Hfit] by (rewrite Hpos, Hf; nia).
      rewrite (wrap_id 64) in Hstep by (unfold in_range; lia).
      rewrite (proj2 (Z.ltb_ge _ _)) in Hstep by lia. simplify_eq. by unfold quiet, budget.
    + destruct Hpc as ([Hr Hs] & Ho & Hom). rewrite framed_size_wf, Hs in Hstep by done.
      rewrite (wrap_id 64 (off + R)) in Hstep by (unfold in_range; lia).
      destruct (copy_from_slice _ _ _ _); simplify_eq; by unfold quiet, budget.
    + simplify_eq. by unfold quiet, budget.
    + simplify_eq. by unfold quiet, budget.
    + destruct res as [o|e|]; [|done..]. simplify_eq. unfold quiet, budget. cbn. split_and!; [done..|lia].
  - simplify_eq. by unfold quiet, budget.
Qed.

Lemma counted_step N ld ev : R * N ≤ max → counted_inv N ld → timely ev → counted_inv N (load_step ld ev).
Proof.
  intros HN Hc Hev. pose proof (load_step_inv ld ev (co_inv _ _ Hc) Hev) as Hinv.
  destruct ev as [i at_time|]; cbn [load_step] in *; [|by destruct Hc].
  destruct (ld_writers ld !! i) as [w|] eqn:Hi; [|done].
  destruct (writer_step _ _ _ w) as [[[s' w'] ok] err] eqn:Hs.
  destruct (writer_step_quiet N ld i at_time w s' w' ok err HN Hc Hi Hev Hs) as (Hq & -> & Hb).
  destruct Hc as [Hl Hqs He Hbud]. split; [done|by apply Forall_insert| |].
  - cbn [ld_errors]. by rewrite He.
  - pose proof (li_room _ Hinv) as Hroom. pose proof (li_writes _ Hinv) as Hw. cbn [ld_writes ld_writers] in *.
    pose proof (li_writes _ Hl). pose proof (zsum_nonneg budget (<[i:=w']> (ld_writers ld)) budget_nonneg) as Hz.
    rewrite (zsum_insert _ _ _ _ _ Hi) in *.
    assert (0 ≤ ok) by (revert Hs; unfold writer_step; intros; repeat case_match; simplify_eq; lia).
    rewrite wrap_id by (unfold in_range; nia). lia.
Qed.
End load_lemmas.

(** *** Uniform payloads *)
Lemma sizes_uniform payloads k :
  Forall (λ d, len d = k) payloads → record_sizes payloads = replicate (length payloads) (20 + k).
Proof. induction 1 as [|d ds Hd _ IH]; [done|]. cbn. by rewrite Hd, <- IH. Qed.

Lemma zsum_replicate n (x : Z) : zsum id (replicate n x) = Z.of_nat n * x.
Proof.
  induction n as [|n IH]; [done|].
  change (zsum id (replicate (S n) x)) with (x + zsum id (replicate n x)). rewrite IH. lia.
Qed.

Lemma zsum_budget_repeat {A} (f : A → writer) (l : list A) k :
  (∀ x, budget (f x) = k) → zsum budget (f <$> l) = len l * k.
Proof. intros Hf. induction l as [|x l IH]; [done|]. rewrite fmap_cons, len_cons. cbn. unfold zsum in IH. rewrite IH, Hf. lia. Qed.
Lemma zsum_none {A} (f : writer → Z) (g : A → writer) (l : list A) : (∀ x, f (g x) = 0) → zsum f (g <$> l) = 0.
Proof. intros Hf. induction l as [|x l IH]; [done|]. cbn. unfold zsum in IH. by rewrite IH, Hf. Qed.

Section stress_lemmas.
Context `{Crc32Ok} `{OsOk} (Hos : os_grants) (now : nat → Z) (Hnow : ∀ i, in_range 64 (now i)).

(** A new segment of [max] bytes holds uniform payloads that fit in it. *)
Lemma uniform_writes max payloads k :
  0 ≤ max < 2 ^ 63 → k ≤ MAX_RECORD_SIZE → Forall (λ d, len d = k) payloads → len payloads * (20 + k) ≤ max →
  ∃ s s', RecordSegment_new "test.dat" max false = Ok s ∧ segment_writes now 0 s payloads = Ok s' ∧
    seg_repr s' (new_records now 0 payloads).
Proof.
  intros Hmax Hk Hp Hfit. destruct (segment_opens Hos "test.dat" max false Hmax) as (s & Hs & Hr & Hm & _).
  destruct (segment_writes_ok now Hnow payloads 0 s [] Hr) as (s' & Hw & Hr' & _).
  - eapply Forall_impl; [exact Hp|]. cbn. intros d ->. done.
  - rewrite (sizes_uniform _ _ Hp), zsum_replicate, Hm. exact Hfit.
  - by exists s, s'.
Qed.

Lemma verify_reads_stored s l1 l2 n count :
  seg_repr s (l1 ++ l2) → (n ≤ length l2)%nat →
  verify_reads n s {| it_current_offset := log_size l1; it_end_offset := seg_write_pos s |} count = count + Z.of_nat n.
Proof.
  intros Hs. revert l1 l2 count Hs. induction n as [|n IH]; intros l1 [|r l2] count Hs Hn; cbn [length] in Hn; try lia; [cbn; lia..|].
  cbn [verify_reads]. rewrite (next_stored s l1 r l2 [] (repr_stored _ _ Hs)).
  rewrite (IH (l1 ++ [r]) l2); [lia|by rewrite <- app_assoc|lia].
Qed.

Lemma large_sizes :
  let payloads := concat (map (λ '(size, count), replicate (Z.to_nat count) (replicate (Z.to_nat size) xaa)) test_sizes) in
  Forall (λ d, len d ≤ MAX_RECORD_SIZE) payloads ∧ zsum id (record_sizes payloads) = 37387920 ∧ len payloads = 1620.
Proof.
  assert (∀ l : list (Z * Z), Forall (λ sc, 0 ≤ sc.1 ≤ MAX_RECORD_SIZE ∧ 0 ≤ sc.2) l →
    let payloads := concat (map (λ '(size, count), replicate (Z.to_nat count) (replicate (Z.to_nat size) xaa)) l) in
    Forall (λ d, len d ≤ MAX_RECORD_SIZE) payloads ∧
    zsum id (record_sizes payloads) = zsum (λ sc, sc.2 * (20 + sc.1)) l ∧ len payloads = zsum snd l) as Hgen.
  { intros l Hl payloads. subst payloads. induction Hl as [|[size count] l [Hs Hc] _ (IH1 & IH2 & IH3)]; [by split_and!|]. cbn [fst snd] in *.
    assert (Forall (λ d, len d = size) (replicate (Z.to_nat count) (replicate (Z.to_nat size) xaa))) as Hd.
    { apply Forall_replicate. rewrite len_replicate. lia. }
    cbn [map concat zsum foldr fst snd]. split_and!.
    - apply Forall_app. split; [|done]. eapply Forall_impl; [exact Hd|]. cbn. intros d ->. lia.
    - unfold record_sizes in *. rewrite map_app, zsum_app, IH2.
      change (map _ (replicate _ _)) with (record_sizes (replicate (Z.to_nat count) (replicate (Z.to_nat size) xaa))).
      rewrite (sizes_uniform _ _ Hd), zsum_replicate, length_replicate. unfold zsum. lia.
    - rewrite len_app, IH3, len_replicate. unfold zsum. lia. }
  intros payloads. destruct (Hgen test_sizes) as (Hd & Hz & Hl); [repeat constructor; by vm_compute|].
  split; [exact Hd|]. split; [exact Hz|exact Hl].
Qed.

#[local] Opaque Z.to_nat.
Lemma sequential_verdict latencies secs :
  len latencies = 50000 →
  ∃ p99, merge_sort Z.le latencies !! Z.to_nat 49500 = Some p99 ∧
    stress_sequential_writes now latencies secs =
      if f64_gt (throughput 50000 secs) (f64_of_int 50000) && (sum_u64 id (merge_sort Z.le latencies) `div` 50000 <? 100) &&
         (p99 <? 500) then Ok 100 else Panic.
Proof.
  intros Hlen. set (ls := merge_sort Z.le latencies).
  assert (len ls = 50000) as Hls.
  { unfold len, ls in *. by rewrite (Permutation_length (merge_sort_Permutation Z.le latencies)). }
  assert (∀ k, 0 ≤ k < 50000 → ∃ x, ls !! Z.to_nat k = Some x) as Hget.
  { intros k Hk. apply lookup_lt_is_Some_2. unfold len in Hls. lia. }
  destruct (Hget 49500) as [p99 H99]; [lia|]. exists p99. split; [exact H99|].
  unfold stress_sequential_writes. fold ls. rewrite Hls.
  set (payloads := map sequential_data _).
  assert (len payloads = 50000) as Hcount by (unfold payloads, len; rewrite length_map, length_seq; lia).
  destruct (uniform_writes (100 * 1024 * 1024) payloads 1024) as (s & s' & -> & Hw & Hr);
    [lia|by vm_compute| |rewrite Hcount; lia|].
  { apply Forall_forall. intros d [i [-> _]]%list_elem_of_fmap. unfold sequential_data. rewrite len_replicate. lia. }
  cbn [unwrap_ok mbind outcome_bind]. rewrite Hw. cbn [unwrap_ok mbind outcome_bind].
  change (50000 =? 0) with false. change ((50000 * 99) `div` 100) with 49500.
  destruct (ls !! Z.to_nat (50000 `div` 2)) as [x50|] eqn:H50;
    [|exfalso; destruct (Hget 25000) as [x Hx]; [lia|]; change (50000 `div` 2) with 25000 in H50; rewrite Hx in H50; discriminate].
  destruct (ls !! Z.to_nat ((50000 * 95) `div` 100)) as [x95|] eqn:H95;
    [|exfalso; destruct (Hget 47500) as [x Hx]; [lia|]; change ((50000 * 95) `div` 100) with 47500 in H95; rewrite Hx in H95; discriminate].
  rewrite H99.
  assert (verify_reads 100 s' (iter_records s') 0 = 100) as ->.
  { apply (verify_reads_stored s' [] (new_records now 0 payloads) 100 0 Hr). rewrite new_records_length. unfold len in Hcount. lia. }
  cbn [unwrap mbind outcome_bind]. clear H50 H95 H99 Hget. unfold assert_that. destruct (f64_gt _ _); [|done]. cbn [mbind outcome_bind andb].
  destruct (_ <? 100); [|done]. cbn [mbind outcome_bind andb]. by destruct (p99 <? 500).
Qed.
#[local] Transparent Z.to_nat.

Lemma manager_verdict secs :
  stress_segment_manager now secs = Some (assert_that (f64_gt (throughput 10000 secs) (f64_of_int 20000))).
Proof.
  unfold stress_segment_manager.
  destruct (manager_opens Hos 1 (512 * 1024) "manager" false) as (m & seg & -> & Hm & Hsz & _); [lia|].
  set (payloads := replicate (Z.to_nat 10000) _).
  assert (Forall (λ d, len d = 1024) payloads) as Hd by (apply Forall_replicate; rewrite len_replicate; lia).
  assert (record_sizes payloads = replicate (Z.to_nat 10000) 1044) as Hsizes.
  { rewrite (sizes_uniform _ _ Hd). unfold payloads. by rewrite length_replicate. }
  assert (Forall (λ d, len d ≤ MAX_RECORD_SIZE) payloads) as Hdm by (eapply Forall_impl; [exact Hd|]; cbn; intros d ->; done).
  assert (len payloads = 10000) as Hl by (unfold payloads; rewrite len_replicate; lia). clearbody payloads.
  destruct (manager_writes_ok now Hnow payloads 0 m [] seg [] [] Hm) as (m' & init & seg' & linit & l & -> & Hm' & _ & Hcat & Hpack);
    [intros path; rewrite Hsz; by apply (og_map Hos)|exact Hdm|rewrite Hsizes, Hsz; apply Forall_replicate; lia|].
  cbn [mbind option_bind unwrap_ok outcome_bind]. rewrite manager_flush_ok by done. cbn [unwrap_ok mbind outcome_bind].
  change (concat (linit ++ [l]) = new_records now 0 payloads) in Hcat.
  destruct (stats_of_logs m' init seg' linit l Hm') as (Hc & Hr & _);
    [rewrite Hcat, new_records_size, Hsizes, zsum_replicate by done; by vm_compute|].
  rewrite Hc, Hr, Hcat. rewrite Hsizes, Hsz in Hpack. change (log_size []) with 0 in Hpack. change (@len RecordSegment []) with 0 in Hpack.
  assert (foldl (pack (512 * 1024)) (0, 0 + 1) (replicate (Z.to_nat 10000) 1044) = (482328, 20)) as Hv by (by vm_compute). rewrite Hv in Hpack.
  injection Hpack as _ ->. unfold len. rewrite new_records_length. unfold len in Hl. by rewrite Hl.
Qed.

Lemma large_verdict :
  ∃ stats, stress_large_records now = Ok stats ∧ ss_record_count stats = 1620 ∧ ss_used_bytes stats = 37387920.
Proof.
  unfold stress_large_records. destruct large_sizes as (Hd & Hz & Hl). set (payloads := concat _) in *. clearbody payloads.
  destruct (segment_opens Hos "test.dat" (100 * 1024 * 1024) false) as (s & -> & Hr & Hm & _); [lia|].
  destruct (segment_writes_ok now Hnow payloads 0 s [] Hr Hd) as (s' & Hw & Hr' & _); [rewrite Hz, Hm; by vm_compute|].
  cbn [unwrap_ok mbind outcome_bind]. rewrite Hw. cbn [unwrap_ok mbind outcome_bind]. eexists. split; [done|].
  unfold RecordSegment_stats. cbn [ss_record_count ss_used_bytes]. rewrite (repr_count _ _ Hr'), (repr_pos _ _ Hr'), app_nil_l.
  rewrite new_records_size, Hz by done. unfold len in *. rewrite new_records_length. done.
Qed.

Lemma iteration_verdict fuel secs :
  (10000 < Z.of_nat fuel) →
  stress_iteration_performance now fuel secs = Some (assert_that (f64_gt (throughput 10000 secs) (f64_of_int 500000))).
Proof.
  intros Hf. unfold stress_iteration_performance. set (payloads := replicate (Z.to_nat 10000) _).
  assert (Forall (λ d, len d = 256) payloads) as Hd by (apply Forall_replicate; rewrite len_replicate; lia).
  assert (len payloads = 10000) as Hl by (unfold payloads; rewrite len_replicate; lia). clearbody payloads.
  destruct (uniform_writes (50 * 1024 * 1024) payloads 256) as (s & s' & -> & Hw & Hr); [lia|by vm_compute|done|rewrite Hl; lia|].
  rewrite Hw, (iter_records_repr s' _ fuel Hr) by (rewrite new_records_length; unfold len in Hl; lia). cbn [mbind option_bind].
  assert (∀ off l, len (filter (λ r, is_ok r = true) (map (@Ok StorageError _) (log_entries off l))) = len l) as ->.
  { intros off l. revert off. induction l as [|r l IH]; intros off; [done|]. cbn [log_entries map].
    rewrite filter_cons_True by done. by rewrite !len_cons, IH. }
  unfold len. rewrite new_records_length. unfold len in Hl. by rewrite Hl.
Qed.
End stress_lemmas.

(** *** The two loads *)
Section loads.
Context `{Crc32Ok} `{OsOk}.

Lemma load_start s max (data : Z → bytes) left threads R :
  seg_repr s [] → seg_max_size s = max → 0 ≤ max → len threads ≤ 1024 →
  (∀ i, len (data i) ≤ MAX_RECORD_SIZE ∧ 20 + len (data i) = R) →
  load_inv max R (mkLoad s ((λ i, mkWriter (data i) left LoopHead) <$> threads) false 0 0).
Proof.
  intros Hr Hm Hmax Hlen Hd. split; cbn [ld_writers ld_segment ld_writes].
  - apply Forall_fmap, Forall_true. intros i. destruct (Hd i). unfold writer_ok. cbn. by split_and!.
  - unfold len in *. by rewrite length_fmap.
  - done.
  - by rewrite (repr_len _ _ Hr).
  - rewrite !zsum_none, (repr_pos _ _ Hr) by done. change (log_size []) with 0. lia.
  - rewrite zsum_none by done. lia.
  - done.
Qed.

Lemma concurrent_load_inv s evs :
  seg_repr s [] → seg_max_size s = 200 * 1024 * 1024 → Forall timely evs →
  counted_inv (200 * 1024 * 1024) 532 80000 (load_run (concurrent_load s) evs).
Proof.
  intros Hr Hm Hevs. unfold load_run. assert (counted_inv (200 * 1024 * 1024) 532 80000 (concurrent_load s)) as Hc.
  { split; [|apply Forall_fmap, Forall_true; by unfold quiet| done|].
    - by apply load_start.
    - unfold concurrent_load. cbn [ld_writes ld_writers]. rewrite (zsum_budget_repeat _ _ 5000); [done|].
      intros i. reflexivity. }
  revert Hc. generalize (concurrent_load s). induction Hevs as [|ev evs Hev _ IH]; intros ld Hc; [done|].
  cbn [foldl]. apply IH. apply counted_step; [lia|lia|lia|done|done].
Qed.

Lemma sustained_load_inv s evs :
  seg_repr s [] → seg_max_size s = 500 * 1024 * 1024 → Forall timely evs →
  load_inv (500 * 1024 * 1024) 1044 (load_run (sustained_load s) evs).
Proof.
  intros Hr Hm Hevs. unfold load_run. assert (load_inv (500 * 1024 * 1024) 1044 (sustained_load s)) as Hl.
  { by apply load_start. }
  revert Hl. generalize (sustained_load s). induction Hevs as [|ev evs Hev _ IH]; intros ld Hl; [done|].
  cbn [foldl]. apply IH. apply load_step_inv; [lia|lia|done|done].
Qed.
End loads.

(** ** Properties *)
Section properties.
Context `{Crc32Ok} `{OsOk}.

(** C36. The two stress tests with several writers, in every interleaving of
    their atomic actions: sixteen writers of five thousand records have no failed
    append, and eighty thousand writes when all have returned; the eight
    writers of the sustained load have at most 502191 successful writes
    together, since the segment is full then, so over the sixty seconds the test
    runs, or more, their rate is below 8371 a second, where the test asks for more
    than 100000. *)
Theorem stress_loads_bounded (Hos : os_grants) evs :
  Forall timely evs →
  (∃ s, RecordSegment_new "test.dat" (200 * 1024 * 1024) false = Ok s ∧
     let ld := load_run (concurrent_load s) evs in
     ld_errors ld = 0 ∧ ld_writes ld ≤ 80000 ∧
     (Forall (λ w, wr_pc w = Returned ∧ wr_left w = Some 0%nat) (ld_writers ld) → ld_writes ld = 80000)) ∧
  (∃ s, RecordSegment_new "test.dat" (500 * 1024 * 1024) false = Ok s ∧
     let ld := load_run (sustained_load s) evs in
     ld_writes ld ≤ 502191 ∧
     ∀ elapsed_ns, 60 * 10 ^ 9 ≤ elapsed_ns → ld_writes ld * 10 ^ 9 < 8371 * elapsed_ns).
Proof.
  intros Hevs. split.
  - destruct (segment_opens Hos "test.dat" (200 * 1024 * 1024) false) as (s & Hs & Hr & Hm & _); [lia|].
    exists s. split; [done|]. destruct (concurrent_load_inv s evs Hr Hm Hevs) as [Hl Hq He Hb]. cbv zeta.
    set (ld := load_run _ evs) in *. clearbody ld. pose proof (zsum_nonneg budget (ld_writers ld) budget_nonneg).
    split; [done|]. split; [lia|]. intros Hall. assert (zsum budget (ld_writers ld) = 0) as Hz; [|lia].
    clear -Hall. induction Hall as [|w ws [Hpc Hleft] _ IH]; [done|]. cbn. unfold zsum in IH. rewrite IH.
    unfold budget. rewrite Hpc, Hleft. done.
  - destruct (segment_opens Hos "test.dat" (500 * 1024 * 1024) false) as (s & Hs & Hr & Hm & _); [lia|].
    exists s. split; [done|]. pose proof (sustained_load_inv s evs Hr Hm Hevs) as Hl. cbv zeta.
    set (ld := load_run _ evs) in *. clearbody ld. pose proof (li_room _ _ _ Hl) as Hroom.
    pose proof (zsum_nonneg holds (ld_writers ld) holds_nonneg).
    assert (ld_writes ld ≤ 502191) as Hw by lia. split; [done|]. intros ns Hns. lia.
Qed.

(** The other stress tests do what they announce, and pass when the clock shows
    the speed they ask for. *)
Lemma stress_verdicts (Hos : os_grants) now latencies secs fuel :
  (∀ i, in_range 64 (now i)) → len latencies = 50000 → 10000 < Z.of_nat fuel →
  (∃ p99, merge_sort Z.le latencies !! Z.to_nat 49500 = Some p99 ∧
    stress_sequential_writes now latencies secs =
      if f64_gt (throughput 50000 secs) (f64_of_int 50000) && (sum_u64 id (merge_sort Z.le latencies) `div` 50000 <? 100) &&
         (p99 <? 500) then Ok 100 else Panic) ∧
  stress_segment_manager now secs = Some (assert_that (f64_gt (throughput 10000 secs) (f64_of_int 20000))) ∧
  (∃ stats, stress_large_records now = Ok stats ∧ ss_record_count stats = 1620 ∧ ss_used_bytes stats = 37387920) ∧
  stress_iteration_performance now fuel secs = Some (assert_that (f64_gt (throughput 10000 secs) (f64_of_int 500000))).
Proof.
  intros Hnow Hl Hf. split; [by apply sequential_verdict|]. split; [by apply manager_verdict|].
  split; [by apply large_verdict|by apply iteration_verdict].
Qed.
End properties.

(** A run: a writer of each load acts until its record is stored. *)
Definition one_record : list load_event := replicate 6 (Acts 3 77).

Lemma stress_loads_bounded_witness :
  (∃ s, RecordSegment_new "test.dat" (200 * 1024 * 1024) false = Ok s ∧
     ld_errors (load_run (concurrent_load s) one_record) = 0) ∧
  (∃ s, RecordSegment_new "test.dat" (500 * 1024 * 1024) false = Ok s ∧
     ld_writes (load_run (sustained_load s) one_record) ≤ 502191).
Proof.
  destruct (stress_loads_bounded zero_os_grants one_record) as [(s1 & Hs1 & He & _) (s2 & Hs2 & Hw & _)].
  - repeat constructor; done.
  - split; [exists s1; split; [exact Hs1|exact He]|exists s2; split; [exact Hs2|exact Hw]].
Defined.
