(* ===== verification/PersistQueue.v ===== *)
(** * The partitioned persistent queue (src/src/persistq.rs)

    [PersistQ] routes a payload to one of [num_partitions] segment managers by
    its CRC32 and keeps a map from global offsets to places.  A payload has no
    header in its segment.  Definitions first; then the contract of the queue
    as a sequence of payloads, and its properties. *)

From stdpp Require Import base list numbers strings gmap pretty.
From Stdlib Require Import Strings.Byte.
From coqutil Require Import Byte.
From S2P Require Import Prelude Crc32 F64 StorageEngine.
Local Open Scope Z_scope.

(** [Path::canonicalize], read back as a string: the answer for the directory
    as it is ([false]) and after [create_dir_all] made it ([true]). *)
Class Fs := { fs_canonicalize : bool → string → outcome io_error string }.

(** Source: src/src/persistq.rs:32-38 (PartitionKey) *)
Inductive PartitionKey :=
  | KeyString (s : string)
  | KeyInteger (i : Z)
  | KeyTimestamp (t : Z).

(** Source: src/src/persistq.rs:49-55 (PartitionKey::simple_hash) *)
Definition simple_hash (data : bytes) : Z :=
  foldl (λ hash b, u64 (u64 (hash * 33) + byte.unsigned b)) 5381 data.

(** Source: src/src/persistq.rs:41-47 (PartitionKey::hash) *)
Definition key_hash (k : PartitionKey) : Z :=
  match k with
  | KeyString s => simple_hash (str_bytes s)
  | KeyInteger i => u64 i
  | KeyTimestamp t => t
  end.

(** Source: src/src/persistq.rs:72-77 (OffsetMapping) *)
Record OffsetMapping := mkMapping { om_partition_id : Z; om_local_offset : Z }.

(** Source: src/src/persistq.rs:108-117 (CacheConfig) *)
Record CacheConfig := mkCache {
  cc_enabled : bool; cc_size_bytes : Z; hot_data_threshold : f64 }.

(** Source: src/src/persistq.rs:93-106 (PersistQConfig) *)
Record PersistQConfig := mkConfig {
  storage_dir : string;
  segment_size : Z;
  num_partitions : Z;
  replication_factor : Z;
  cache_config : CacheConfig
}.

(** Source: src/src/persistq.rs:135-147 (Segment) *)
Record Segment := mkQSegment {
  qs_path : string; qs_max_size : Z; qs_write_pos : Z; qs_mmap : bytes }.

(** [current_segment] is the index of the shared segment in [segments].
    Source: src/src/persistq.rs:119-133 (SegmentManager) *)
Record QManager := mkQManager {
  qm_partition_id : Z;
  qm_segments : list Segment;
  qm_current_segment : option nat;
  qm_segment_size : Z;
  qm_storage_dir : string
}.

(** Source: src/src/persistq.rs:79-91 (PersistQ) *)
Record PersistQ := mkPersistQ {
  segment_managers : gmap Z QManager;
  global_offset : Z;
  offset_map : gmap Z OffsetMapping;
  pq_config : PersistQConfig
}.

(** Source: src/src/persistq.rs:149-160 (QueueRecord) *)
Record QueueRecord := mkQueueRecord {
  qr_offset : Z; qr_data : bytes; qr_timestamp : Z; qr_partition_id : Z }.

(** Source: src/src/persistq.rs:162-173 (AppendResult) *)
Record AppendResult := mkAppendResult {
  ar_global_offset : Z; ar_partition_id : Z; ar_node_id : Z; ar_latency_us : Z }.

(** Source: src/src/persistq.rs:175-184 (ReadResult) *)
Record ReadResult := mkReadResult {
  rr_record : QueueRecord; rr_cache_hit : bool; rr_latency_us : Z }.

(** Source: src/src/persistq.rs:393-400 (PersistQStats) *)
Record PersistQStats := mkPersistQStats {
  ps_total_records : Z; ps_num_partitions : Z; ps_total_segments : Z;
  ps_replication_factor : Z }.

(** Source: src/src/persistq.rs:596-608 (PersistQConfig::default) *)
Definition PersistQConfig_default : PersistQConfig :=
  {| storage_dir := "/tmp/persistq"; segment_size := 64 * 1024 * 1024;
     num_partitions := 8; replication_factor := 3;
     cache_config := {| cc_enabled := true; cc_size_bytes := 512 * 1024 * 1024;
                        hot_data_threshold := f64_lit 1 10 |} |}.

(** [str::contains]. *)
Fixpoint str_contains (needle hay : string) : bool :=
  String.prefix needle hay ||
  match hay with EmptyString => false | String _ hay => str_contains needle hay end.

Definition MIN_SEGMENT_SIZE : Z := 1024.
Definition MAX_SEGMENT_SIZE : Z := 10 * 1024 * 1024 * 1024.

(** Source: src/src/persistq.rs:226-271 (PersistQ::validate_config) *)
Definition validate_config (config : PersistQConfig) : outcome string unit :=
  if num_partitions config =? 0 then Err "num_partitions must be greater than 0" else
  if 1024 <? num_partitions config then Err "num_partitions must be at most 1024" else
  if segment_size config <? MIN_SEGMENT_SIZE then
    Err ("segment_size must be at least " +:+ pretty MIN_SEGMENT_SIZE +:+ " bytes") else
  if MAX_SEGMENT_SIZE <? segment_size config then
    Err ("segment_size must be at most " +:+ pretty MAX_SEGMENT_SIZE +:+ " bytes") else
  if replication_factor config =? 0 then Err "replication_factor must be greater than 0" else
  if 10 <? replication_factor config then Err "replication_factor must be at most 10" else
  if String.eqb (storage_dir config) EmptyString then Err "storage_dir cannot be empty" else
  if str_contains ".." (storage_dir config) then
    Err "storage_dir cannot contain '..' (directory traversal)" else
  if str_contains (String Ascii.zero EmptyString) (storage_dir config) then
    Err "storage_dir cannot contain null bytes" else
  if f64_lt (hot_data_threshold (cache_config config)) (f64_of_int 0)
     || f64_gt (hot_data_threshold (cache_config config)) (f64_of_int 1) then
    Err "hot_data_threshold must be between 0.0 and 1.0" else
  Ok tt.

(** *** Segment *)
Section segment.
Context `{Os}.

Definition map_failure (e : map_stage * io_error) : string :=
  match e.1 with
  | OpenFile => "Failed to open segment file: "
  | SetLen => "Failed to set file length: "
  | MapFile => "Failed to mmap file: "
  end +:+ e.2.

(** Source: src/src/persistq.rs:514-540 (Segment::new) *)
Definition Segment_new (path : string) (max_size : Z) : outcome string Segment :=
  mmap ← map_err map_failure (os_map_file path max_size);
  Ok {| qs_path := path; qs_max_size := max_size; qs_write_pos := 0; qs_mmap := mmap |}.

Definition with_pos (s : Segment) (pos : Z) : Segment :=
  {| qs_path := qs_path s; qs_max_size := qs_max_size s; qs_write_pos := pos;
     qs_mmap := qs_mmap s |}.

(** Source: src/src/persistq.rs:542-560 (Segment::append) *)
Definition Segment_append (s : Segment) (data : bytes) : Segment * outcome string Z :=
  let offset := qs_write_pos s in
  let s := with_pos s (u64 (offset + len data)) in
  if qs_max_size s <? u64 (offset + len data) then
    (with_pos s (u64 (qs_write_pos s - len data)), Err "Segment full")
  else
  match copy_from_slice (qs_mmap s) offset (usize (offset + len data)) data with
  | None => (s, Panic)
  | Some mmap =>
      ({| qs_path := qs_path s; qs_max_size := qs_max_size s;
          qs_write_pos := qs_write_pos s; qs_mmap := mmap |}, Ok offset)
  end.

(** Source: src/src/persistq.rs:562-578 (Segment::read) *)
Definition Segment_read (s : Segment) (offset : Z) : outcome string bytes :=
  let current_pos := qs_write_pos s in
  if current_pos <=? offset then Err "Offset out of bounds" else
  unwrap (slice (qs_mmap s) offset current_pos).

(** Source: src/src/persistq.rs:580-584 (Segment::has_space) *)
Definition Segment_has_space (s : Segment) (size : Z) : bool :=
  u64 (qs_write_pos s + size) <=? qs_max_size s.

(** Source: src/src/persistq.rs:586-592 (Segment::flush) *)
Definition Segment_flush (s : Segment) : outcome string unit :=
  map_err (λ e, "Failed to flush mmap: " +:+ e) (os_flush (qs_path s) (qs_mmap s)).
End segment.

(** *** SegmentManager *)
Section manager.
Context `{Os}.

Definition qsegment_path (m : QManager) (segment_id : Z) : string :=
  qm_storage_dir m +:+ "/partition_" +:+ pretty (qm_partition_id m) +:+
  "_segment_" +:+ pretty segment_id +:+ ".dat".

Definition qcurrent (m : QManager) : option (nat * Segment) :=
  i ← qm_current_segment m; s ← qm_segments m !! i; Some (i, s).

Definition set_qsegment (m : QManager) (i : nat) (s : Segment) : QManager :=
  {| qm_partition_id := qm_partition_id m; qm_segments := <[i := s]> (qm_segments m);
     qm_current_segment := qm_current_segment m; qm_segment_size := qm_segment_size m;
     qm_storage_dir := qm_storage_dir m |}.

(** Source: src/src/persistq.rs:495-510 (SegmentManager::create_new_segment) *)
Definition qcreate_new_segment (m : QManager) : QManager * outcome string unit :=
  let segment_id := len (qm_segments m) in
  match Segment_new (qsegment_path m segment_id) (qm_segment_size m) with
  | Ok segment =>
      ({| qm_partition_id := qm_partition_id m; qm_segments := qm_segments m ++ [segment];
          qm_current_segment := Some (length (qm_segments m));
          qm_segment_size := qm_segment_size m; qm_storage_dir := qm_storage_dir m |}, Ok tt)
  | Err e => (m, Err e)
  | Panic => (m, Panic)
  end.

(** Source: src/src/persistq.rs:403-422 (SegmentManager::new) *)
Definition QManager_new (partition_id segment_size : Z) (storage_dir : string)
    : outcome string QManager :=
  _ ← map_err (λ e, "Failed to create storage directory: " +:+ e) (os_create_dir_all storage_dir);
  let manager := {| qm_partition_id := partition_id; qm_segments := [];
                    qm_current_segment := None; qm_segment_size := segment_size;
                    qm_storage_dir := storage_dir |} in
  let '(manager, created) := qcreate_new_segment manager in
  _ ← created; Ok manager.

(** One iteration of the loop, run without interference: the second check of
    the space under the lock of the segment, and the one under the creation
    lock, see the state of the first.
    Source: src/src/persistq.rs:426-470 (SegmentManager::append, loop body) *)
Definition qappend_body (data : bytes) (m : QManager) : loop_step QManager (outcome string Z) :=
  let slow :=
    let has_space := match qcurrent m with
      | Some (_, s) => Segment_has_space s (len data)
      | None => false
      end in
    if has_space then Continue m else
    match qcreate_new_segment m with
    | (m, Ok _) => Continue m
    | (m, Err e) => Return m (Err e)
    | (m, Panic) => Return m Panic
    end in
  match qcurrent m with
  | Some (i, s) =>
      if Segment_has_space s (len data) then
        let '(s, result) := Segment_append s data in Return (set_qsegment m i s) result
      else slow
  | None => slow
  end.

(** Source: src/src/persistq.rs:424-471 (SegmentManager::append) *)
Definition QManager_append (fuel : nat) (m : QManager) (data : bytes)
    : option (QManager * outcome string Z) :=
  run_loop fuel (qappend_body data) m.

(** Source: src/src/persistq.rs:473-483 (SegmentManager::read) *)
Definition QManager_read (m : QManager) (offset : Z) : outcome string bytes :=
  match qm_segments m with
  | segment :: _ => Segment_read segment offset
  | [] => Err "No segments available"
  end.

Fixpoint flush_segments (segments : list Segment) : outcome string unit :=
  match segments with
  | [] => Ok tt
  | s :: rest => _ ← Segment_flush s; flush_segments rest
  end.

(** Source: src/src/persistq.rs:485-493 (SegmentManager::flush) *)
Definition QManager_flush (m : QManager) : outcome string unit := flush_segments (qm_segments m).
End manager.

(** *** PersistQ *)
Section queue.
Context `{Crc32} `{Os} `{Fs}.

(** Source: src/src/persistq.rs:192-204 (PersistQ::new, storage directory) *)
Definition canonical_dir (dir : string) : outcome string string :=
  match fs_canonicalize false dir with
  | Ok path => Ok path
  | _ =>
      _ ← map_err (λ e, "Failed to create storage directory: " +:+ e) (os_create_dir_all dir);
      map_err (λ e, "Failed to canonicalize storage path: " +:+ e) (fs_canonicalize true dir)
  end.

(** The managers of the partitions [1 ..= n].
    Source: src/src/persistq.rs:206-215 (PersistQ::new, managers) *)
Fixpoint create_managers (n : nat) (segment_size : Z) (dir : string)
    : outcome string (gmap Z QManager) :=
  match n with
  | O => Ok ∅
  | S n' =>
      managers ← create_managers n' segment_size dir;
      manager ← QManager_new (Z.of_nat n) segment_size dir;
      Ok (<[Z.of_nat n := manager]> managers)
  end.

(** Source: src/src/persistq.rs:187-224 (PersistQ::new) *)
Definition PersistQ_new (config : PersistQConfig) : outcome string PersistQ :=
  _ ← validate_config config;
  dir ← canonical_dir (storage_dir config);
  let config := {| storage_dir := dir; segment_size := segment_size config;
                   num_partitions := num_partitions config;
                   replication_factor := replication_factor config;
                   cache_config := cache_config config |} in
  managers ← create_managers (Z.to_nat (num_partitions config)) (segment_size config) dir;
  Ok {| segment_managers := managers; global_offset := 0; offset_map := ∅; pq_config := config |}.

Definition partition_of (q : PersistQ) (data : bytes) : Z :=
  u32 (crc32_hash data `mod` num_partitions (pq_config q) + 1).

Definition no_manager (partition_id : Z) : string :=
  "No segment manager for partition " +:+ pretty partition_id.

(** [start_time] and [end_time] are the clock readings in microseconds.
    Source: src/src/persistq.rs:273-321 (PersistQ::append) *)
Definition PersistQ_append (fuel : nat) (start_time end_time : Z) (q : PersistQ) (data : bytes)
    : option (PersistQ * outcome string AppendResult) :=
  let partition_id := partition_of q data in
  match segment_managers q !! partition_id with
  | None => Some (q, Err (no_manager partition_id))
  | Some manager =>
      '(manager, appended) ← QManager_append fuel manager data;
      let managers := <[partition_id := manager]> (segment_managers q) in
      match appended with
      | Ok local_offset =>
          let current := global_offset q in
          Some ({| segment_managers := managers; global_offset := u64 (current + 1);
                   offset_map := <[current := mkMapping partition_id local_offset]> (offset_map q);
                   pq_config := pq_config q |},
                Ok {| ar_global_offset := current; ar_partition_id := partition_id;
                      ar_node_id := partition_id;
                      ar_latency_us := saturating_sub end_time start_time |})
      | Err e => Some ({| segment_managers := managers; global_offset := global_offset q;
                          offset_map := offset_map q; pq_config := pq_config q |}, Err e)
      | Panic => Some ({| segment_managers := managers; global_offset := global_offset q;
                          offset_map := offset_map q; pq_config := pq_config q |}, Panic)
      end
  end.

(** Source: src/src/persistq.rs:323-363 (PersistQ::read) *)
Definition PersistQ_read (start_time end_time : Z) (q : PersistQ) (offset : Z)
    : outcome string ReadResult :=
  mapping ← ok_or (offset_map q !! offset) ("Global offset " +:+ pretty offset +:+ " not found");
  let partition_id := om_partition_id mapping in
  manager ← ok_or (segment_managers q !! partition_id) (no_manager partition_id);
  data ← QManager_read manager (om_local_offset mapping);
  Ok {| rr_record := {| qr_offset := offset; qr_data := data;
                        qr_timestamp := start_time `div` 1000000;
                        qr_partition_id := partition_id |};
        rr_cache_hit := false;
        rr_latency_us := saturating_sub end_time start_time |}.

(** Source: src/src/persistq.rs:365-379 (PersistQ::stats) *)
Definition PersistQ_stats (q : PersistQ) : PersistQStats :=
  {| ps_total_records := global_offset q;
     ps_num_partitions := Z.of_nat (size (segment_managers q));
     ps_total_segments :=
       sum_u64 (λ kv : Z * QManager, len (qm_segments kv.2)) (map_to_list (segment_managers q));
     ps_replication_factor := replication_factor (pq_config q) |}.

Fixpoint flush_managers (managers : list (Z * QManager)) : outcome string unit :=
  match managers with
  | [] => Ok tt
  | (_, m) :: rest => _ ← QManager_flush m; flush_managers rest
  end.

(** A [HashMap] iterates in no particular order: here, the order of
    [map_to_list].
    Source: src/src/persistq.rs:381-390 (PersistQ::shutdown) *)
Definition PersistQ_shutdown (q : PersistQ) : outcome string unit :=
  flush_managers (map_to_list (segment_managers q)).
End queue.

(** ** The contract: a queue as the sequence of payloads appended *)

(** [qseg_repr s content]: the segment [s] holds the bytes [content]. *)
Record qseg_repr (s : Segment) (content : bytes) : Prop := {
  qsr_max : qs_max_size s < 2 ^ 63;
  qsr_mmap : ∃ free, qs_mmap s = content ++ free;
  qsr_len : len (qs_mmap s) = qs_max_size s;
  qsr_pos : qs_write_pos s = len content
}.

(** A manager before its first rollover: one segment, the current one. *)
Record qmgr_repr (m : QManager) (size : Z) (content : bytes) : Prop := {
  qmr_segment : ∃ s, qm_segments m = [s] ∧ qseg_repr s content ∧ qs_max_size s = size;
  qmr_current : qm_current_segment m = Some 0%nat;
  qmr_size : qm_segment_size m = size
}.

(** The partition a payload is routed to, among [n], and the bytes of the
    payloads of [log] routed to partition [p]. *)
Definition route `{Crc32} (n : Z) (data : bytes) : Z := crc32_hash data `mod` n + 1.
Definition partition_content `{Crc32} (n p : Z) (log : list bytes) : bytes :=
  concat (filter (λ d, route n d = p) log).

(** The place of the payload at position [i] of [log]. *)
Definition place `{Crc32} (n : Z) (log : list bytes) (i : nat) : option OffsetMapping :=
  d ← log !! i;
  Some (mkMapping (route n d) (len (partition_content n (route n d) (take i log)))).

Record queue_repr `{Crc32} (q : PersistQ) (log : list bytes) : Prop := {
  qr_parts : 1 ≤ num_partitions (pq_config q) ≤ 1024;
  qr_size : 0 ≤ segment_size (pq_config q) < 2 ^ 63;
  qr_managers : ∀ p, 1 ≤ p ≤ num_partitions (pq_config q) →
    ∃ m, segment_managers q !! p = Some m ∧
      qmgr_repr m (segment_size (pq_config q))
        (partition_content (num_partitions (pq_config q)) p log);
  qr_global : global_offset q = len log;
  qr_map : ∀ i, 0 ≤ i →
    offset_map q !! i = place (num_partitions (pq_config q)) log (Z.to_nat i)
}.

Section segment_lemmas.
Context `{OsOk}.

Lemma qseg_pos_le s c : qseg_repr s c → len c ≤ qs_max_size s.
Proof.
  intros Hs. destruct (qsr_mmap _ _ Hs) as [free Hm]. pose proof (qsr_len _ _ Hs) as Hl.
  rewrite Hm, len_app in Hl. pose proof (len_nonneg free). lia.
Qed.

Lemma qhas_space s c n :
  qseg_repr s c → 0 ≤ n < 2 ^ 63 → Segment_has_space s n = (len c + n <=? qs_max_size s).
Proof.
  intros Hs Hn. unfold Segment_has_space. rewrite (qsr_pos _ _ Hs).
  pose proof (qseg_pos_le _ _ Hs). pose proof (qsr_max _ _ Hs). pose proof (len_nonneg c).
  by rewrite wrap_id by (unfold in_range; lia).
Qed.

Lemma qappend_fits s c data :
  qseg_repr s c → len c + len data ≤ qs_max_size s →
  ∃ s', Segment_append s data = (s', Ok (len c)) ∧ qseg_repr s' (c ++ data) ∧
    qs_max_size s' = qs_max_size s.
Proof.
  intros Hs Hfit. pose proof (qsr_max _ _ Hs). pose proof (qsr_len _ _ Hs) as Hlen.
  pose proof (len_nonneg c). pose proof (len_nonneg data).
  destruct (qsr_mmap _ _ Hs) as [free Hm]. rewrite Hm, len_app in Hlen.
  unfold Segment_append, with_pos; cbn [qs_max_size qs_mmap qs_path qs_write_pos].
  rewrite (qsr_pos _ _ Hs), wrap_id by (unfold in_range; lia). zif.
  rewrite Hm, <- (ztake_zdrop (len data) free).
  rewrite copy_from_slice_app; [|done|by rewrite len_ztake by lia|by rewrite len_ztake by lia].
  eexists. split; [done|]. split; [|done]. split; cbn.
  - lia.
  - eexists. by rewrite <- app_assoc.
  - rewrite !len_app, len_zdrop by lia. lia.
  - by rewrite len_app.
Qed.

Lemma qread_from s c1 c2 :
  qseg_repr s (c1 ++ c2) →
  Segment_read s (len c1) = if len c2 <=? 0 then Err "Offset out of bounds" else Ok c2.
Proof.
  intros Hs. unfold Segment_read. rewrite (qsr_pos _ _ Hs), len_app.
  pose proof (len_nonneg c2). destruct (qsr_mmap _ _ Hs) as [free ->].
  destruct (len c2 <=? 0) eqn:Hc; zbool; [by zif|]. zif.
  rewrite <- app_assoc, slice_app by (rewrite ?len_app; lia). done.
Qed.

Lemma segment_new_qrepr path size s :
  0 ≤ size < 2 ^ 63 → Segment_new path size = Ok s → qseg_repr s [] ∧ qs_max_size s = size.
Proof.
  intros Hsz. unfold Segment_new. destruct (os_map_file path size) as [mm|e|] eqn:Hos; [|done..].
  intros [= <-]. split; [|done]. split; cbn; [lia|by exists mm|by eapply os_map_len|done].
Qed.
End segment_lemmas.

Section manager_lemmas.
Context `{OsOk}.

Lemma qappend_one m size c data fuel :
  qmgr_repr m size c → len c + len data ≤ size →
  ∃ m', QManager_append (S fuel) m data = Some (m', Ok (len c)) ∧ qmgr_repr m' size (c ++ data).
Proof.
  intros [(s & Hsegs & Hs & Hmax) Hcur Hsz] Hfit.
  pose proof (qsr_max _ _ Hs). pose proof (len_nonneg c). pose proof (len_nonneg data).
  unfold QManager_append. cbn [run_loop]. unfold qappend_body, qcurrent.
  rewrite Hcur, Hsegs. cbn [mbind option_bind list_lookup lookup].
  rewrite (qhas_space s c) by (done || lia). zif.
  destruct (qappend_fits s c data Hs) as (s' & -> & Hs' & Hmax'); [lia|].
  eexists. split; [done|]. split; cbn; [|done|done].
  exists s'. rewrite Hsegs. split_and!; [done..|lia].
Qed.

(** The payload does not fit: a second segment holds it alone. *)
Lemma qappend_rollover m size c data fuel :
  qmgr_repr m size c → 0 ≤ size < 2 ^ 63 → len data ≤ size → size < len c + len data →
  is_ok (os_map_file (qsegment_path m 1) size) = true →
  ∃ m' s1 s2, QManager_append (S (S fuel)) m data = Some (m', Ok 0) ∧
    qm_segments m' = [s1; s2] ∧ qseg_repr s1 c ∧ qseg_repr s2 data.
Proof.
  intros [(s & Hsegs & Hs & Hmax) Hcur Hsz] Hsize Hfit Hfull Hos.
  pose proof (len_nonneg c). pose proof (len_nonneg data).
  destruct (os_map_file _ size) as [mm|e|] eqn:Hmap; [|done..].
  assert (∃ s2, Segment_new (qsegment_path m 1) size = Ok s2) as [s2 Hnew]
    by (unfold Segment_new; rewrite Hmap; by eexists).
  destruct (segment_new_qrepr _ _ _ Hsize Hnew) as [Hs2 Hmax2].
  unfold QManager_append. cbn [run_loop]. unfold qappend_body at 1, qcurrent.
  rewrite Hcur, Hsegs. cbn [mbind option_bind list_lookup lookup].
  rewrite (qhas_space s c) by (done || lia). zif.
  unfold qcreate_new_segment. rewrite Hsegs, Hsz. change (len [s]) with 1. rewrite Hnew.
  unfold qappend_body, qcurrent; cbn.
  rewrite (qhas_space s2 []) by (done || lia). rewrite len_nil. zif.
  destruct (qappend_fits s2 [] data Hs2) as (s2' & -> & Hs2' & _); [rewrite len_nil; lia|].
  eexists _, s, s2'. split_and!; [by rewrite len_nil|done..].
Qed.

Lemma qmanager_new_repr p size dir m :
  0 ≤ size < 2 ^ 63 → QManager_new p size dir = Ok m → qmgr_repr m size [].
Proof.
  intros Hsz. unfold QManager_new. destruct (os_create_dir_all dir) as [[]| |]; [|done..].
  cbn. unfold qcreate_new_segment. cbn [qm_segments qm_segment_size].
  destruct (Segment_new _ size) as [s| |] eqn:Hnew; [|done..]. intros [= <-].
  destruct (segment_new_qrepr _ _ _ Hsz Hnew). split; cbn; [|done|done]. by exists s.
Qed.

(** A payload larger than a segment: every iteration creates one more. *)
Lemma qappend_diverges m data :
  0 ≤ qm_segment_size m < 2 ^ 63 → qm_segment_size m < len data < 2 ^ 63 →
  (∃ s c, qcurrent m = Some s ∧ qseg_repr s.2 c ∧ qs_max_size s.2 = qm_segment_size m) →
  (∀ path, is_ok (os_map_file path (qm_segment_size m)) = true) →
  ∀ fuel, QManager_append fuel m data = None.
Proof.
  intros Hsz Hbig Hcur Hos.
  apply (run_loop_diverges _ (λ m', qm_segment_size m' = qm_segment_size m ∧
    ∃ s c, qcurrent m' = Some s ∧ qseg_repr s.2 c ∧ qs_max_size s.2 = qm_segment_size m));
    [|by split].
  intros m' (Hsz' & [i s] & c & Hc & Hs & Hmax). unfold qappend_body. rewrite Hc. cbn in Hs, Hmax.
  pose proof (len_nonneg c). rewrite (qhas_space s c) by (done || lia). zif.
  unfold qcreate_new_segment. rewrite Hsz'.
  specialize (Hos (qsegment_path m' (len (qm_segments m')))).
  destruct (Segment_new _ _) as [s'|e|] eqn:Hnew;
    [|unfold Segment_new in Hnew; by destruct (os_map_file _ _)..].
  eexists. split; [done|]. split; [done|].
  destruct (segment_new_qrepr _ _ _ Hsz Hnew) as [Hs' Hmax'].
  exists (length (qm_segments m'), s'), []. split; [|by cbn].
  unfold qcurrent; cbn. by rewrite list_lookup_middle.
Qed.
End manager_lemmas.

Section queue_lemmas.
Context `{Crc32Ok} `{OsOk} `{Fs}.

Lemma route_range n d : 1 ≤ n → 1 ≤ route n d ≤ n.
Proof. intros Hn. unfold route. pose proof (Z.mod_pos_bound (crc32_hash d) n). lia. Qed.

Lemma partition_of_route q d :
  1 ≤ num_partitions (pq_config q) ≤ 1024 →
  partition_of q d = route (num_partitions (pq_config q)) d.
Proof.
  intros Hn. unfold partition_of. pose proof (route_range (num_partitions (pq_config q)) d).
  apply wrap_id. unfold in_range, route in *. lia.
Qed.

Lemma partition_content_app n p l k :
  partition_content n p (l ++ k) = partition_content n p l ++ partition_content n p k.
Proof. unfold partition_content. by rewrite filter_app, concat_app. Qed.

Lemma partition_content_one n p d :
  partition_content n p [d] = if decide (route n d = p) then d else [].
Proof.
  unfold partition_content. cbn. destruct (decide _); [|done]. apply app_nil_r.
Qed.

Lemma place_app n log d i :
  place n (log ++ [d]) i =
    if decide (i = length log) then Some (mkMapping (route n d) (len (partition_content n (route n d) log)))
    else place n log i.
Proof.
  unfold place. destruct (decide (i = length log)) as [->|Hne].
  - rewrite list_lookup_middle, take_app_length by done. done.
  - destruct (decide (i < length log)%nat) as [Hlt|Hge].
    + rewrite lookup_app_l by done. destruct (log !! i); [cbn|done].
      by rewrite take_app_le by lia.
    + rewrite !lookup_ge_None_2 by (rewrite ?length_app; simpl; lia). done.
Qed.

Lemma queue_manager q log d :
  queue_repr q log →
  ∃ m, segment_managers q !! route (num_partitions (pq_config q)) d = Some m ∧
    qmgr_repr m (segment_size (pq_config q))
      (partition_content (num_partitions (pq_config q)) (route (num_partitions (pq_config q)) d) log).
Proof. intros Hq. apply (qr_managers _ _ Hq), route_range, (qr_parts _ _ Hq). Qed.

Lemma queue_append q log d fuel t0 t1 :
  queue_repr q log → len log < 2 ^ 64 - 1 →
  len (partition_content (num_partitions (pq_config q)) (route (num_partitions (pq_config q)) d) log)
    + len d ≤ segment_size (pq_config q) →
  let p := route (num_partitions (pq_config q)) d in
  ∃ q', PersistQ_append (S fuel) t0 t1 q d =
      Some (q', Ok (mkAppendResult (len log) p p (saturating_sub t1 t0))) ∧
    queue_repr q' (log ++ [d]) ∧ pq_config q' = pq_config q.
Proof.
  intros Hq Hcount Hfit p. pose proof (qr_parts _ _ Hq) as Hn. pose proof (qr_global _ _ Hq) as Hg.
  destruct (queue_manager q log d Hq) as (m & Hm & Hr). pose proof (len_nonneg log).
  destruct (qappend_one m _ _ d fuel Hr Hfit) as (m' & Ha & Hr').
  unfold PersistQ_append. rewrite partition_of_route by done. rewrite Hm, Ha. cbn.
  rewrite Hg. eexists. split; [done|]. split; [|done]. split; cbn; [done|by destruct Hq| | |].
  - intros p' Hp'. rewrite partition_content_app, partition_content_one.
    destruct (decide (route (num_partitions (pq_config q)) d = p')) as [<-|Hne].
    + exists m'. by rewrite lookup_insert_eq.
    + rewrite lookup_insert_ne, app_nil_r by done. by apply (qr_managers _ _ Hq).
  - rewrite wrap_id by (unfold in_range; lia). rewrite len_app. done.
  - intros i Hi. rewrite place_app. unfold len. destruct (decide _) as [He|Hne].
    + replace i with (Z.of_nat (length log)) by lia. by rewrite lookup_insert_eq.
    + rewrite lookup_insert_ne by lia. by apply (qr_map _ _ Hq).
Qed.

Lemma queue_read q log i t0 t1 :
  queue_repr q log → 0 ≤ i →
  let n := num_partitions (pq_config q) in
  PersistQ_read t0 t1 q i =
    match log !! Z.to_nat i with
    | None => Err ("Global offset " +:+ pretty i +:+ " not found")
    | Some d =>
        let data := partition_content n (route n d) (drop (Z.to_nat i) log) in
        if len data <=? 0 then Err "Offset out of bounds"
        else Ok (mkReadResult (mkQueueRecord i data (t0 `div` 1000000) (route n d)) false
                   (saturating_sub t1 t0))
    end.
Proof.
  intros Hq Hi n. unfold PersistQ_read. rewrite (qr_map _ _ Hq i Hi). unfold place. fold n.
  destruct (log !! Z.to_nat i) as [d|]; [|done]. cbn.
  destruct (queue_manager q log d Hq) as (m & Hm & [(s & Hsegs & Hs & _) _ _]). fold n in Hm, Hs.
  rewrite Hm. cbn. unfold QManager_read. rewrite Hsegs.
  rewrite <- (take_drop (Z.to_nat i) log) in Hs at 1. rewrite partition_content_app in Hs.
  rewrite (qread_from _ _ _ Hs). by destruct (_ <=? 0).
Qed.

Lemma create_managers_repr k size dir ms :
  0 ≤ size < 2 ^ 63 → create_managers k size dir = Ok ms →
  ∀ p, 1 ≤ p ≤ Z.of_nat k → ∃ m, ms !! p = Some m ∧ qmgr_repr m size [].
Proof.
  intros Hsz. revert ms. induction k as [|k IH]; intros ms; [intros _ p Hp; lia|].
  cbn [create_managers]. destruct (create_managers k size dir) as [ms'| |]; [|done..].
  cbn [mbind outcome_bind]. destruct (QManager_new _ size dir) as [m| |] eqn:Hm; [|done..].
  intros [= <-] p Hp. destruct (decide (p = Z.of_nat (S k))) as [->|Hne].
  - exists m. rewrite lookup_insert_eq. split; [done|]. by eapply qmanager_new_repr.
  - rewrite lookup_insert_ne by done. apply IH; [done|lia].
Qed.

(** The checks of [validate_config], as propositions. *)
Record config_valid (c : PersistQConfig) : Prop := {
  cv_parts : 1 ≤ num_partitions c ≤ 1024;
  cv_segment : MIN_SEGMENT_SIZE ≤ segment_size c ≤ MAX_SEGMENT_SIZE;
  cv_replication : 1 ≤ replication_factor c ≤ 10;
  cv_dir : storage_dir c ≠ EmptyString;
  cv_traversal : str_contains ".." (storage_dir c) = false;
  cv_nul : str_contains (String Ascii.zero EmptyString) (storage_dir c) = false;
  cv_threshold_low : f64_lt (hot_data_threshold (cache_config c)) (f64_of_int 0) = false;
  cv_threshold_high : f64_gt (hot_data_threshold (cache_config c)) (f64_of_int 1) = false
}.

Definition cv_threshold_free (c : PersistQConfig) : Prop :=
  1 ≤ num_partitions c ≤ 1024 ∧ MIN_SEGMENT_SIZE ≤ segment_size c ≤ MAX_SEGMENT_SIZE ∧
  1 ≤ replication_factor c ≤ 10 ∧ storage_dir c ≠ EmptyString ∧
  str_contains ".." (storage_dir c) = false ∧
  str_contains (String Ascii.zero EmptyString) (storage_dir c) = false.

Lemma validate_config_ok c :
  in_range 32 (num_partitions c) → in_range 32 (replication_factor c) →
  validate_config c = Ok tt ↔ config_valid c.
Proof.
  intros Hn Hrep. unfold in_range in *. unfold validate_config. split.
  - repeat case_match; try done; intros _.
    match goal with H : _ || _ = false |- _ => apply orb_false_iff in H as [? ?] end.
    match goal with H : String.eqb _ _ = false |- _ => apply String.eqb_neq in H end.
    zbool. split; (done || lia).
  - intros []. unfold MIN_SEGMENT_SIZE, MAX_SEGMENT_SIZE in *.
    do 6 zif. by rewrite (proj2 (String.eqb_neq _ _)), cv_traversal0, cv_nul0,
      cv_threshold_low0, cv_threshold_high0 by done.
Qed.

Lemma queue_new_repr c q :
  in_range 32 (num_partitions c) → in_range 32 (replication_factor c) →
  PersistQ_new c = Ok q →
  queue_repr q [] ∧ num_partitions (pq_config q) = num_partitions c ∧
  segment_size (pq_config q) = segment_size c.
Proof.
  intros Hn Hr. unfold PersistQ_new.
  destruct (validate_config c) as [[]| |] eqn:Hv; [|done..]. cbn.
  apply validate_config_ok in Hv as [Hp Hs _ _ _ _ _ _]; [|done..].
  destruct (canonical_dir _) as [dir| |]; [|done..]. cbn.
  destruct (create_managers _ _ dir) as [ms| |] eqn:Hms; [|done..]. intros [= <-].
  unfold MIN_SEGMENT_SIZE, MAX_SEGMENT_SIZE in Hs.
  split; [|done]. split; cbn; [done|lia| |done|done].
  intros p Hp'. eapply create_managers_repr; [|exact Hms|]; lia.
Qed.
End queue_lemmas.

(** *** Opening a queue where every mapping is granted *)
Section opening.
Context `{Os} `{Fs}.

Lemma create_managers_ok k sz dir :
  (∀ path, is_ok (os_map_file path sz) = true) → is_ok (os_create_dir_all dir) = true →
  ∃ ms, create_managers k sz dir = Ok ms.
Proof.
  intros Hos Hdir. induction k as [|k [ms IH]]; [by eexists|]. cbn [create_managers]. rewrite IH.
  cbn [mbind outcome_bind]. unfold QManager_new. destruct (os_create_dir_all dir); [|done..].
  cbn [map_err mbind outcome_bind]. unfold qcreate_new_segment, Segment_new. cbn [qm_segment_size qm_segments].
  specialize (Hos (qsegment_path {| qm_partition_id := Z.of_nat (S k); qm_segments := [];
                    qm_current_segment := None; qm_segment_size := sz; qm_storage_dir := dir |} (@len Segment []))).
  destruct (os_map_file _ sz); [|done..]. by eexists.
Qed.

Lemma queue_opens c dir :
  validate_config c = Ok tt → canonical_dir (storage_dir c) = Ok dir →
  (∀ path, is_ok (os_map_file path (segment_size c)) = true) → is_ok (os_create_dir_all dir) = true →
  ∃ q, PersistQ_new c = Ok q.
Proof.
  intros Hv Hdir Hos Hcreate. unfold PersistQ_new. rewrite Hv. cbn [mbind outcome_bind]. rewrite Hdir. cbn [mbind outcome_bind].
  destruct (create_managers_ok (Z.to_nat (num_partitions c)) (segment_size c) dir Hos Hcreate) as [ms Hms].
  cbn [num_partitions segment_size]. rewrite Hms. by eexists.
Qed.
End opening.

(** ** Properties *)
Section queue_properties.
Context `{Crc32Ok} `{OsOk} `{Fs}.

(** Configuration validation accepts exactly the configurations within
    the documented bounds, with one gap: the threshold test is two float
    comparisons, so a threshold that is not a number is accepted. *)
Lemma validate_config_iff c :
  in_range 32 (num_partitions c) → in_range 32 (replication_factor c) →
  (validate_config c = Ok tt ↔ config_valid c) ∧
  (hot_data_threshold (cache_config c) = f64_nan →
   cv_threshold_free c → validate_config c = Ok tt).
Proof.
  intros Hn Hr. split; [by apply validate_config_ok|].
  intros Hnan (? & ? & ? & ? & ? & ?). apply validate_config_ok; [done..|].
  split; rewrite ?Hnan; done.
Qed.

(** C17. A new queue is the empty sequence, and every append whose partition
    has room is acknowledged with the next global offset and the partition
    its checksum selects, and extends the sequence by the payload: no append
    fails for a missing partition. *)
Theorem queue_append_extends c q0 q log d fuel t0 t1 :
  in_range 32 (num_partitions c) → in_range 32 (replication_factor c) →
  PersistQ_new c = Ok q0 → queue_repr q log → pq_config q = pq_config q0 →
  len log < 2 ^ 64 - 1 →
  let n := num_partitions c in
  len (partition_content n (route n d) log) + len d ≤ segment_size c →
  queue_repr q0 [] ∧ 1 ≤ route n d ≤ n ∧
  ∃ q', PersistQ_append (S fuel) t0 t1 q d =
      Some (q', Ok (mkAppendResult (len log) (route n d) (route n d) (saturating_sub t1 t0))) ∧
    queue_repr q' (log ++ [d]).
Proof.
  intros Hn Hr Hnew Hq Hcfg Hcount n Hfit.
  destruct (queue_new_repr c q0 Hn Hr Hnew) as (Hq0 & Hparts & Hsize).
  rewrite <- Hcfg in Hparts, Hsize. pose proof (qr_parts _ _ Hq).
  unfold n in *. rewrite <- Hparts, <- Hsize in *.
  split; [done|]. split; [apply route_range; lia|].
  destruct (queue_append q log d fuel t0 t1 Hq Hcount Hfit) as (q' & Ha & Hq' & _).
  by exists q'.
Qed.

(** What a read returns: on a queue that holds the sequence [log], reading
    global offset [i] gives the payload [i] followed by every later payload of
    the same partition (payloads carry no length), an error when those are
    all empty, and a not-found error past the end. *)
Lemma queue_read_returns_suffix q log i t0 t1 :
  queue_repr q log → 0 ≤ i →
  let n := num_partitions (pq_config q) in
  PersistQ_read t0 t1 q i =
    match log !! Z.to_nat i with
    | None => Err ("Global offset " +:+ pretty i +:+ " not found")
    | Some d =>
        let data := partition_content n (route n d) (drop (Z.to_nat i) log) in
        if len data <=? 0 then Err "Offset out of bounds"
        else Ok (mkReadResult (mkQueueRecord i data (t0 `div` 1000000) (route n d)) false
                   (saturating_sub t1 t0))
    end.
Proof. apply queue_read. Qed.

(** After a rollover, reads go to the wrong segment: when a payload does
    not fit in its partition's only segment, the append is acknowledged from
    a second segment, and reading the acknowledged offset returns the whole
    content of the first segment instead of the payload. *)
Lemma rollover_read_returns_first_segment q log d fuel t0 t1 :
  queue_repr q log →
  let n := num_partitions (pq_config q) in
  let content := partition_content n (route n d) log in
  len d ≤ segment_size (pq_config q) → segment_size (pq_config q) < len content + len d →
  (∀ path, is_ok (os_map_file path (segment_size (pq_config q))) = true) →
  ∃ q' res, PersistQ_append (S (S fuel)) t0 t1 q d = Some (q', Ok res) ∧
    ar_global_offset res = len log ∧
    qr_data ∘ rr_record <$> PersistQ_read t0 t1 q' (len log) = Ok content.
Proof.
  intros Hq n content Hfit Hfull Hos. pose proof (qr_parts _ _ Hq) as Hn.
  destruct (queue_manager q log d Hq) as (m & Hm & Hr).
  destruct (qappend_rollover m _ _ d fuel Hr (qr_size _ _ Hq) Hfit Hfull (Hos _))
    as (m' & s1 & s2 & Ha & Hsegs & Hs1 & Hs2).
  unfold PersistQ_append. rewrite partition_of_route by done. rewrite Hm, Ha. cbn.
  eexists _, _. split; [done|]. cbn. rewrite (qr_global _ _ Hq). split; [done|].
  unfold PersistQ_read; cbn. rewrite !lookup_insert_eq. cbn. rewrite lookup_insert_eq. cbn.
  unfold QManager_read. rewrite Hsegs.
  pose proof (qread_from s1 [] _ Hs1) as Hread. rewrite len_nil in Hread. rewrite Hread.
  fold n content. fold n content in Hread. by rewrite (proj2 (Z.leb_gt _ _)) by (fold n content in Hfull; lia).
Qed.

(** A payload larger than a segment is never refused: whatever its
    partition holds, [append] loops forever, creating segments as long as the
    file system grants them. *)
Lemma oversize_payload_never_returns q log d t0 t1 :
  queue_repr q log → segment_size (pq_config q) < len d < 2 ^ 63 →
  (∀ path, is_ok (os_map_file path (segment_size (pq_config q))) = true) →
  ∀ fuel, PersistQ_append fuel t0 t1 q d = None.
Proof.
  intros Hq Hbig Hos fuel. pose proof (qr_parts _ _ Hq) as Hn.
  destruct (queue_manager q log d Hq) as (m & Hm & [(s & Hsegs & Hs & Hmax) Hcur Hsz]).
  unfold PersistQ_append. rewrite partition_of_route by done. rewrite Hm.
  rewrite (qappend_diverges m d); rewrite ?Hsz; try done; [by destruct Hq|].
  eexists (0%nat, s), _. split; [|by split]. unfold qcurrent. by rewrite Hcur, Hsegs.
Qed.
End queue_properties.

(** ** Concrete runs *)
#[export] Instance sample_fs : Fs := { fs_canonicalize created dir := Ok dir }.

Definition sample_config (n : Z) : PersistQConfig :=
  {| storage_dir := "/q"; segment_size := 1024; num_partitions := n; replication_factor := 1;
     cache_config := {| cc_enabled := false; cc_size_bytes := 0; hot_data_threshold := f64_of_int 0 |} |}.

Definition empty_queue (n : Z) : PersistQ :=
  {| segment_managers := ∅; global_offset := 0; offset_map := ∅; pq_config := sample_config n |}.
Definition sample_queue (n : Z) : PersistQ := from_ok (empty_queue n) (PersistQ_new (sample_config n)).
Definition push (q : PersistQ) (d : bytes) : PersistQ :=
  match PersistQ_append 1 5 7 q d with Some (q, Ok _) => q | _ => q end.

Lemma sample_new : PersistQ_new (sample_config 1) = Ok (sample_queue 1).
Proof. by vm_compute. Qed.

Lemma sample_queue_repr : queue_repr (sample_queue 1) [].
Proof. eapply queue_new_repr; [| |apply sample_new]; by vm_compute. Qed.

Lemma sample_push_repr :
  queue_repr (push (push (sample_queue 1) (str_bytes "ab")) (str_bytes "cd"))
    [str_bytes "ab"; str_bytes "cd"].
Proof.
  pose proof sample_queue_repr as Hq0.
  destruct (queue_append (sample_queue 1) [] (str_bytes "ab") 0 5 7 Hq0) as (q1 & H1 & Hq1 & Hc1);
    [by vm_compute|by vm_compute|].
  destruct (queue_append q1 _ (str_bytes "cd") 0 5 7 Hq1) as (q2 & H2 & Hq2 & _);
    [by vm_compute|rewrite Hc1; by vm_compute|].
  unfold push at 2. rewrite H1. unfold push. by rewrite H2.
Qed.

Lemma validate_config_iff_witness : validate_config (sample_config 3) = Ok tt.
Proof.
  destruct (validate_config_iff (sample_config 3)) as [Hiff _]; [by vm_compute|by vm_compute|].
  apply Hiff. split; by vm_compute.
Defined.

Lemma queue_append_extends_witness :
  ∃ q', PersistQ_append 1 5 7 (sample_queue 1) (str_bytes "ab") =
    Some (q', Ok (mkAppendResult 0 1 1 2)) ∧ queue_repr q' [str_bytes "ab"].
Proof.
  destruct (queue_append_extends (sample_config 1) (sample_queue 1) (sample_queue 1) []
    (str_bytes "ab") 0 5 7) as (_ & _ & q' & Ha & Hq');
    [by vm_compute|by vm_compute|apply sample_new|apply sample_queue_repr|done
    |by vm_compute|by vm_compute|].
  exists q'. split; [exact Ha|exact Hq'].
Defined.

Lemma queue_read_returns_suffix_witness :
  PersistQ_read 3000000 3000004 (push (push (sample_queue 1) (str_bytes "ab")) (str_bytes "cd")) 0 =
    Ok (mkReadResult (mkQueueRecord 0 (str_bytes "abcd") 3 1) false 4).
Proof.
  rewrite (queue_read_returns_suffix _ _ 0 3000000 3000004 sample_push_repr); [|lia].
  vm_compute. reflexivity.
Defined.

Lemma rollover_read_returns_first_segment_witness :
  ∃ q' res, PersistQ_append 2 5 7 (push (push (sample_queue 1) (str_bytes "ab")) (str_bytes "cd"))
      (replicate 1022 x61) = Some (q', Ok res) ∧
    qr_data ∘ rr_record <$> PersistQ_read 5 7 q' 2 = Ok (str_bytes "abcd").
Proof.
  destruct (rollover_read_returns_first_segment _ _ (replicate 1022 x61) 0 5 7 sample_push_repr)
    as (q' & res & Ha & _ & Hr); [by vm_compute|by vm_compute|done|].
  exists q', res. split; [exact Ha|exact Hr].
Defined.

Lemma oversize_payload_never_returns_witness :
  PersistQ_append 100 5 7 (sample_queue 1) (replicate 1025 x61) = None.
Proof.
  apply (oversize_payload_never_returns _ [] _ 5 7 sample_queue_repr); [by vm_compute|done].
Defined.
