(* ===== verification/QueueSegments.v ===== *)
(** * The segments of a queue as it fills (src/src/persistq.rs)

    Appends past the first segment of a partition: on a machine that grants
    every mapping, a payload no larger than a segment is always appended, by at
    most two turns of the loop, and the segments of each partition fill as in
    next-fit packing. *)

From stdpp Require Import base list list_numbers numbers strings gmap pretty.
From Stdlib Require Import Strings.Byte.
From S2P Require Import Prelude Crc32 F64 StorageEngine PersistQueue.
Local Open Scope Z_scope.

(** ** Definitions *)

(** The lengths of the payloads of [log] that go to partition [p] of [n]. *)
Definition lengths_of `{Crc32} (n p : Z) (log : list bytes) : list Z :=
  map len (filter (λ d, route n d = p) log).

(** A manager with [st.2] segments, the last one current and holding [st.1] bytes. *)
Record qlive (size : Z) (st : Z * Z) (m : QManager) : Prop := {
  ql_current : ∃ i s c, qcurrent m = Some (i, s) ∧ qseg_repr s c ∧ qs_max_size s = size ∧ len c = st.1;
  ql_count : len (qm_segments m) = st.2;
  ql_size : qm_segment_size m = size
}.

(** A queue to which [log] was appended, whatever its order of segments. *)
Record queue_live `{Crc32} (q : PersistQ) (log : list bytes) : Prop := {
  qv_parts : 1 ≤ num_partitions (pq_config q) ≤ 1024;
  qv_size : 0 ≤ segment_size (pq_config q) < 2 ^ 63;
  qv_global : global_offset q = len log;
  qv_managers : ∀ p, 1 ≤ p ≤ num_partitions (pq_config q) →
    ∃ m, segment_managers q !! p = Some m ∧
      qlive (segment_size (pq_config q))
        (packed (segment_size (pq_config q)) (lengths_of (num_partitions (pq_config q)) p log)) m
}.

(** ** Lemmas *)
Section live_manager.
Context `{OsOk}.

Lemma qcurrent_set m i s s' :
  qcurrent m = Some (i, s) → qcurrent (set_qsegment m i s') = Some (i, s').
Proof.
  unfold qcurrent, set_qsegment. cbn. destruct (qm_current_segment m) as [j|]; [|done]. cbn.
  destruct (qm_segments m !! j) as [u|] eqn:Hj; [|done]. cbn. intros [= -> ->].
  by rewrite list_lookup_insert_eq by (by eapply lookup_lt_Some).
Qed.

(** The turn of the loop that finds space. *)
Lemma qlive_fits size st m data :
  qlive size st m → 0 ≤ len data < 2 ^ 63 → st.1 + len data ≤ size →
  ∃ m', qappend_body data m = Return m' (Ok st.1) ∧ qlive size (st.1 + len data, st.2) m'.
Proof.
  intros [(i & s & c & Hcur & Hs & Hmax & Hc) Hcount Hsz] Hd Hfit. unfold qappend_body. rewrite Hcur.
  rewrite (qhas_space s c) by done. rewrite (proj2 (Z.leb_le _ _)) by lia.
  destruct (qappend_fits s c data Hs) as (s' & -> & Hs' & Hmax'); [lia|]. rewrite Hc.
  eexists. split; [done|]. split; [|by cbn; unfold len in *; rewrite length_insert|done].
  exists i, s', (c ++ data). split; [by eapply qcurrent_set|]. rewrite len_app. cbn [fst]. split_and!; [done|lia..].
Qed.

(** The turn that makes a segment. *)
Lemma qlive_full size st m data :
  qlive size st m → 0 ≤ size < 2 ^ 63 → 0 ≤ len data < 2 ^ 63 → size < st.1 + len data →
  (∀ path, is_ok (os_map_file path size) = true) →
  ∃ m', qappend_body data m = Continue m' ∧ qlive size (0, st.2 + 1) m'.
Proof.
  intros [(i & s & c & Hcur & Hs & Hmax & Hc) Hcount Hsz] Hsize Hd Hfull Hos. unfold qappend_body. rewrite Hcur.
  rewrite (qhas_space s c) by done. rewrite (proj2 (Z.leb_gt _ _)) by lia. unfold qcreate_new_segment.
  rewrite Hsz. specialize (Hos (qsegment_path m (len (qm_segments m)))).
  destruct (Segment_new _ size) as [s'|e|] eqn:Hnew; [|unfold Segment_new in Hnew; by destruct (os_map_file _ _)..].
  destruct (segment_new_qrepr _ _ _ Hsize Hnew) as [Hs' Hmax']. eexists. split; [done|]. split; [| |done].
  - exists (length (qm_segments m)), s', []. split; [|by cbn]. unfold qcurrent. cbn. by rewrite list_lookup_middle.
  - cbn [qm_segments snd]. rewrite len_snoc. lia.
Qed.

Lemma qlive_append size st m data fuel :
  qlive size st m → 0 ≤ size < 2 ^ 63 → len data ≤ size → (∀ path, is_ok (os_map_file path size) = true) →
  ∃ m' off, QManager_append (S (S fuel)) m data = Some (m', Ok off) ∧ qlive size (pack size st (len data)) m'.
Proof.
  intros Hm Hsize Hd Hos. pose proof (len_nonneg data). unfold QManager_append, pack.
  destruct (Z.leb_spec (st.1 + len data) size) as [Hfit|Hfull].
  - destruct (qlive_fits _ _ _ data Hm) as (m' & Hb & Hm'); [lia|lia|].
    exists m', st.1. cbn [run_loop]. by rewrite Hb.
  - destruct (qlive_full _ _ _ data Hm Hsize) as (m1 & Hb & Hm1); [lia|lia|done|].
    destruct (qlive_fits _ _ _ data Hm1) as (m' & Hb' & Hm'); [lia|cbn [fst]; lia|].
    exists m', 0. cbn [run_loop]. rewrite Hb. cbn [run_loop]. by rewrite Hb'.
Qed.

Lemma qmgr_repr_live m size : qmgr_repr m size [] → qlive size (0, 1) m.
Proof.
  intros [(s & Hsegs & Hs & Hmax) Hcur Hsz]. split; [|by rewrite Hsegs|done].
  exists 0%nat, s, []. unfold qcurrent. rewrite Hcur, Hsegs. by split_and!.
Qed.
End live_manager.

Section live_queue.
Context `{Crc32Ok} `{OsOk} `{Fs}.

Lemma queue_live_new q : queue_repr q [] → queue_live q [].
Proof.
  intros Hq. split; try by destruct Hq.
  intros p Hp. destruct (qr_managers _ _ Hq p Hp) as (m & Hm & Hr). exists m. split; [done|]. by apply qmgr_repr_live.
Qed.

Lemma packed_snoc n size p log d :
  packed size (lengths_of n p (log ++ [d])) =
    if decide (route n d = p) then pack size (packed size (lengths_of n p log)) (len d)
    else packed size (lengths_of n p log).
Proof.
  unfold lengths_of, packed. rewrite filter_app, map_app, foldl_app. cbn. by destruct (decide _).
Qed.

Lemma queue_live_append q log d fuel t0 t1 :
  queue_live q log → len log < 2 ^ 64 - 1 → len d ≤ segment_size (pq_config q) →
  (∀ path, is_ok (os_map_file path (segment_size (pq_config q))) = true) →
  let p := route (num_partitions (pq_config q)) d in
  ∃ q', PersistQ_append (S (S fuel)) t0 t1 q d = Some (q', Ok (mkAppendResult (len log) p p (saturating_sub t1 t0))) ∧
    queue_live q' (log ++ [d]) ∧ pq_config q' = pq_config q.
Proof.
  intros Hq Hb Hd Hos p. pose proof (qv_parts _ _ Hq) as Hn. pose proof (len_nonneg log).
  pose proof (route_range (num_partitions (pq_config q)) d ltac:(lia)) as Hp. fold p in Hp.
  destruct (qv_managers _ _ Hq p Hp) as (m & Hm & Hl).
  destruct (qlive_append _ _ m d fuel Hl (qv_size _ _ Hq) Hd Hos) as (m' & off & Ha & Hl').
  unfold PersistQ_append. rewrite partition_of_route by done. fold p. rewrite Hm, Ha. cbn [mbind option_bind].
  rewrite (qv_global _ _ Hq). eexists. split; [done|]. split; [|done]. split; cbn; [done|by destruct Hq| |].
  - rewrite wrap_id by (unfold in_range; lia). by rewrite len_snoc.
  - intros p' Hp'. rewrite packed_snoc. fold p. destruct (decide (p = p')) as [<-|Hne].
    + exists m'. by rewrite lookup_insert_eq.
    + rewrite lookup_insert_ne by done. by apply (qv_managers _ _ Hq).
Qed.

(** A sequence of appends, each of which must succeed. *)
Fixpoint push_all (fuel : nat) (t : nat → Z * Z) (i : nat) (q : PersistQ) (ds : list bytes) : option PersistQ :=
  match ds with
  | [] => Some q
  | d :: ds =>
      '(q, result) ← PersistQ_append fuel (t i).1 (t i).2 q d;
      match result with Ok _ => push_all fuel t (S i) q ds | _ => None end
  end.

Lemma push_all_live ds fuel t i q log :
  queue_live q log → len log + len ds < 2 ^ 64 → Forall (λ d, len d ≤ segment_size (pq_config q)) ds →
  (∀ path, is_ok (os_map_file path (segment_size (pq_config q))) = true) →
  ∃ q', push_all (S (S fuel)) t i q ds = Some q' ∧ queue_live q' (log ++ ds) ∧ pq_config q' = pq_config q.
Proof.
  revert i q log. induction ds as [|d ds IH]; intros i q log Hq Hb Hd Hos.
  - exists q. by rewrite app_nil_r.
  - rewrite len_cons in Hb. pose proof (len_nonneg ds). apply Forall_cons in Hd as [Hd Hds].
    destruct (queue_live_append q log d fuel (t i).1 (t i).2 Hq) as (q1 & Ha & Hq1 & Hc1); [lia|done..|].
    destruct (IH (S i) q1 _ Hq1) as (q' & Hp & Hq' & Hc'); [rewrite len_snoc; lia|by rewrite Hc1..|].
    exists q'. cbn [push_all]. rewrite Ha. cbn [mbind option_bind]. rewrite Hp, Hc', Hc1, <- app_assoc in *. done.
Qed.
End live_queue.

(** ** Properties *)
Section properties.
Context `{Crc32Ok} `{OsOk} `{Fs}.

(** C19. Appends are available: on a machine that grants every mapping, a new
    queue takes any sequence of payloads none of which is larger than a
    segment, each in at most two turns of the loop, counts them, and a
    partition then has the segments of next-fit packing, so that all but one
    are on average at least half full. *)
Theorem appends_pack_segments c q ds fuel t :
  in_range 32 (num_partitions c) → in_range 32 (replication_factor c) → PersistQ_new c = Ok q →
  len ds < 2 ^ 64 → Forall (λ d, len d ≤ segment_size c) ds →
  (∀ path, is_ok (os_map_file path (segment_size c)) = true) →
  ∃ q', push_all (S (S fuel)) t 0 q ds = Some q' ∧ global_offset q' = len ds ∧
    ∀ p, 1 ≤ p ≤ num_partitions c →
      let lengths := lengths_of (num_partitions c) p ds in
      ∃ m, segment_managers q' !! p = Some m ∧
        len (qm_segments m) = (packed (segment_size c) lengths).2 ∧
        (len (qm_segments m) - 1) * segment_size c ≤ 2 * zsum id lengths ≤ 2 * len (qm_segments m) * segment_size c.
Proof.
  intros Hn Hr Hnew Hb Hd Hos. destruct (queue_new_repr c q Hn Hr Hnew) as (Hq & Hnq & Hsq).
  pose proof (queue_live_new q Hq) as Hl. rewrite <- Hsq in Hd, Hos.
  destruct (push_all_live ds fuel t 0 q [] Hl) as (q' & Hp & Hq' & Hc); [exact Hb|done..|].
  exists q'. split; [done|]. split; [exact (qv_global _ _ Hq')|]. intros p Hp' lengths.
  destruct (qv_managers _ _ Hq' p) as (m & Hm & Hlm); [by rewrite Hc, Hnq|].
  rewrite Hc, Hnq, Hsq in Hlm. change ([] ++ ds) with ds in Hlm. fold lengths in Hlm. pose proof (qv_size _ _ Hl) as Hsize. rewrite Hsq in Hsize.
  assert (Forall (λ n, 0 ≤ n ≤ segment_size c) lengths) as Hlen.
  { apply Forall_fmap, Forall_forall. intros d [_ Hin]%list_elem_of_filter. cbn. pose proof (len_nonneg d).
    rewrite Hsq, Forall_forall in Hd. specialize (Hd d Hin). lia. }
  pose proof (packed_bounds (segment_size c) lengths ltac:(lia) Hlen) as Hbounds. cbv zeta in Hbounds.
  exists m. split; [done|]. rewrite (ql_count _ _ _ Hlm). split; [done|].
  destruct Hbounds as (Hu & Hk & Hlow & Hup). lia.
Qed.
End properties.

(** ** A concrete run: three payloads of 600 bytes take three segments of 1024. *)
Lemma appends_pack_segments_witness :
  ∃ q', push_all 2 (λ _, (0, 0)) 0 (sample_queue 1) (replicate 3 (replicate 600 x00)) = Some q' ∧
    ∃ m, segment_managers q' !! 1 = Some m ∧ len (qm_segments m) = 3.
Proof.
  destruct (appends_pack_segments (sample_config 1) (sample_queue 1) (replicate 3 (replicate 600 x00)) 0 (λ _, (0, 0)))
    as (q' & Hp & _ & Hm); [by vm_compute|by vm_compute|apply sample_new|by vm_compute| |done|].
  { repeat constructor; by vm_compute. }
  exists q'. split; [exact Hp|]. destruct (Hm 1) as (m & Hm1 & Hl & _); [cbn; lia|]. exists m. split; [exact Hm1|].
  rewrite Hl. vm_compute. reflexivity.
Defined.
