(* ===== verification/QueueRestart.v ===== *)
(** * Restarting a queue on the files it left (src/src/persistq.rs)

    Two machines that differ only in the old contents of their files run the
    queue in the same way: the queue writes a byte of a file before it reads it,
    keeps the positions and the offset map in memory only, and opens every
    segment at position zero. *)

From stdpp Require Import base list numbers strings gmap pretty.
From S2P Require Import Prelude Crc32 F64 StorageEngine Disk PersistQueue.
Local Open Scope Z_scope.

(** ** Definitions *)

(** Machines that answer alike, but for the bytes in the files. *)
Class SameMachine (O1 O2 : Os) : Prop := {
  same_map path size :
    outcome_rel (λ m1 m2, len m1 = size ∧ len m2 = size) (os_map_file (Os := O1) path size) (os_map_file (Os := O2) path size);
  same_flush path m1 m2 : len m1 = len m2 → os_flush (Os := O1) path m1 = os_flush (Os := O2) path m2;
  same_create_dir dir : os_create_dir_all (Os := O1) dir = os_create_dir_all (Os := O2) dir
}.

#[export] Instance disks_same d1 d2 : SameMachine (disk_os d1) (disk_os d2).
Proof.
  split; [|done|done]. intros path size. cbn. destruct (size <? 0) eqn:Hs; [done|]. zbool.
  split; by apply resize_len.
Qed.

(** The calls a client makes, and what it gets back. *)
Inductive queue_op :=
  | OpAppend (start_time end_time : Z) (data : bytes)
  | OpRead (start_time end_time offset : Z)
  | OpStats
  | OpShutdown.
Inductive queue_answer :=
  | AnsAppend (r : outcome string AppendResult)
  | AnsRead (r : outcome string ReadResult)
  | AnsStats (s : PersistQStats)
  | AnsShutdown (r : outcome string unit)
  | AnsHangs.

(** A client's calls, one after the other, up to the first that does not come
    back within the fuel. *)
Fixpoint answers `{Crc32, Os} (fuel : nat) (q : PersistQ) (ops : list queue_op) : list queue_answer :=
  match ops with
  | [] => []
  | OpAppend t0 t1 data :: ops =>
      match PersistQ_append fuel t0 t1 q data with
      | Some (q, r) => AnsAppend r :: answers fuel q ops
      | None => [AnsHangs]
      end
  | OpRead t0 t1 off :: ops => AnsRead (PersistQ_read t0 t1 q off) :: answers fuel q ops
  | OpStats :: ops => AnsStats (PersistQ_stats q) :: answers fuel q ops
  | OpShutdown :: ops => AnsShutdown (PersistQ_shutdown q) :: answers fuel q ops
  end.

(** Opening the queue and then calling it. *)
Definition session `{Crc32, Os, Fs} (fuel : nat) (c : PersistQConfig) (ops : list queue_op)
    : outcome string (list queue_answer) :=
  q ← PersistQ_new c; Ok (answers fuel q ops).

Definition op_wf (op : queue_op) : Prop :=
  match op with OpAppend _ _ data => len data < 2 ^ 63 | _ => True end.

(** ** Queues that differ in bytes they have not written *)

Record same_segment (s t : Segment) : Prop := {
  ss_same_path : qs_path s = qs_path t;
  ss_same_max : qs_max_size s = qs_max_size t;
  ss_same_pos : qs_write_pos s = qs_write_pos t;
  ss_same_bytes : ∃ w f g, qs_mmap s = w ++ f ∧ qs_mmap t = w ++ g ∧ len f = len g ∧ qs_write_pos s = len w;
  ss_same_len : len (qs_mmap s) = qs_max_size s;
  ss_same_small : qs_max_size s < 2 ^ 63
}.

Record same_manager (m n : QManager) : Prop := {
  sm_same_id : qm_partition_id m = qm_partition_id n;
  sm_same_segments : Forall2 same_segment (qm_segments m) (qm_segments n);
  sm_same_current : qm_current_segment m = qm_current_segment n;
  sm_same_size : qm_segment_size m = qm_segment_size n;
  sm_same_dir : qm_storage_dir m = qm_storage_dir n;
  sm_same_small : qm_segment_size m < 2 ^ 63
}.

Record same_queue (q r : PersistQ) : Prop := {
  sq_managers : map_Forall2 (λ _, same_manager) (segment_managers q) (segment_managers r);
  sq_offset : global_offset q = global_offset r;
  sq_map : offset_map q = offset_map r;
  sq_config : pq_config q = pq_config r
}.

Section segments.
Lemma same_has_space s t n : same_segment s t → Segment_has_space s n = Segment_has_space t n.
Proof. intros Hs. unfold Segment_has_space. by rewrite (ss_same_pos _ _ Hs), (ss_same_max _ _ Hs). Qed.

Lemma same_segment_append s t data :
  same_segment s t → len data < 2 ^ 63 →
  same_segment (Segment_append s data).1 (Segment_append t data).1 ∧
  (Segment_append s data).2 = (Segment_append t data).2.
Proof.
  intros Hs Hd. pose proof Hs as [Hp Hm Hpos (w & f & g & Hmf & Hmg & Hfg & Hw) Hl Hsm].
  pose proof (len_nonneg w). pose proof (len_nonneg f). pose proof (len_nonneg data).
  rewrite Hmf, len_app in Hl. unfold Segment_append, with_pos. cbn [qs_path qs_max_size qs_write_pos qs_mmap].
  rewrite <- Hpos, <- Hm, Hw, Hmf, Hmg.
  rewrite !(wrap_id 64 (len w + len data)) by (unfold in_range; lia).
  destruct (qs_max_size s <? len w + len data) eqn:Hfull; zbool.
  - rewrite wrap_id by (unfold in_range; lia). replace (len w + len data - len data) with (len w) by lia.
    cbn. split; [|done]. split; cbn; try done; [by exists w, f, g|by rewrite len_app].
  - rewrite <- (ztake_zdrop (len data) f), <- (ztake_zdrop (len data) g).
    rewrite !copy_from_slice_app by (rewrite ?len_ztake by lia; done).
    cbn. split; [|done]. split; cbn; try done.
    + exists (w ++ data), (zdrop (len data) f), (zdrop (len data) g).
      rewrite !len_zdrop, len_app by lia. rewrite <- !app_assoc. split_and!; [done|done|lia|done].
    + rewrite !len_app, len_zdrop by lia. lia.
Qed.

Lemma same_segment_read s t off : same_segment s t → Segment_read s off = Segment_read t off.
Proof.
  intros [_ _ Hpos (w & f & g & Hmf & Hmg & Hfg & Hw) _ _]. unfold Segment_read.
  rewrite <- Hpos, Hw, Hmf, Hmg. destruct (len w <=? off) eqn:Hoff; [done|]. zbool. f_equal.
  destruct (Z.lt_ge_cases off 0) as [Hneg|Hge].
  - unfold slice. by rewrite (proj2 (Z.leb_gt 0 off)) by lia.
  - by rewrite !slice_left by lia.
Qed.
End segments.

Section related.
Context {O1 O2 : Os} {Hsame : SameMachine O1 O2}.

Lemma same_segment_new path size :
  size < 2 ^ 63 → outcome_rel same_segment (Segment_new (H := O1) path size) (Segment_new (H := O2) path size).
Proof.
  intros Hs. unfold Segment_new. eapply outcome_rel_bind; [apply outcome_rel_map_err, same_map|].
  intros m1 m2 [H1 H2]. split; cbn; try done. exists [], m1, m2. by rewrite H1, H2.
Qed.

Lemma same_qcreate m n :
  same_manager m n →
  same_manager (qcreate_new_segment (H := O1) m).1 (qcreate_new_segment (H := O2) n).1 ∧
  (qcreate_new_segment (H := O1) m).2 = (qcreate_new_segment (H := O2) n).2.
Proof.
  intros Hm. pose proof Hm as [Hid Hsegs Hcur Hsize Hdir Hsmall]. unfold qcreate_new_segment, qsegment_path, len.
  rewrite <- Hid, <- Hsize, <- Hdir, <- (Forall2_length _ _ _ Hsegs).
  pose proof (same_segment_new (qm_storage_dir m +:+ "/partition_" +:+ pretty (qm_partition_id m) +:+ "_segment_" +:+
    pretty (Z.of_nat (length (qm_segments m))) +:+ ".dat") (qm_segment_size m) Hsmall) as Hnew.
  destruct (Segment_new (H := O1) _ _), (Segment_new (H := O2) _ _); try done; cbn in Hnew.
  - cbn. split; [|done]. split; cbn; try done. apply Forall2_app; [done|]. by constructor.
  - by rewrite Hnew.
Qed.

Lemma same_current m n :
  same_manager m n →
  match qcurrent m, qcurrent n with
  | Some (i, s), Some (j, t) => i = j ∧ same_segment s t
  | None, None => True
  | _, _ => False
  end.
Proof.
  intros [_ Hsegs Hcur _ _ _]. unfold qcurrent. rewrite <- Hcur. destruct (qm_current_segment m) as [i|]; [|done]. cbn.
  destruct (qm_segments m !! i) as [s|] eqn:Hi.
  - destruct (Forall2_lookup_l _ _ _ _ _ Hsegs Hi) as (t & -> & Hst). done.
  - destruct (qm_segments n !! i) as [t|] eqn:Hj; [|done].
    destruct (Forall2_lookup_r _ _ _ _ _ Hsegs Hj) as (s & Hs & _). by rewrite Hi in Hs.
Qed.

Lemma same_set m n i s t :
  same_manager m n → same_segment s t → same_manager (set_qsegment m i s) (set_qsegment n i t).
Proof. intros [Hid Hsegs Hcur Hsize Hdir Hsmall] Hst. split; cbn; try done. by apply Forall2_insert. Qed.

Lemma same_manager_append fuel m n data :
  same_manager m n → len data < 2 ^ 63 →
  match QManager_append (H := O1) fuel m data, QManager_append (H := O2) fuel n data with
  | Some (m', r), Some (n', r') => same_manager m' n' ∧ r = r'
  | None, None => True
  | _, _ => False
  end.
Proof.
  intros Hmn Hd. apply (run_loop_related same_manager); [|done]. clear m n Hmn. intros m n Hmn.
  pose proof (same_qcreate m n Hmn) as [Hc1 Hc2]. pose proof (same_current m n Hmn) as Hcur.
  assert (match (match qcreate_new_segment (H := O1) m with (m, Ok _) => Continue m | (m, Err e) => Return m (Err e) | (m, Panic) => Return m Panic end),
                (match qcreate_new_segment (H := O2) n with (n, Ok _) => Continue n | (n, Err e) => Return n (Err e) | (n, Panic) => Return n Panic end)
          with Continue m, Continue n => same_manager m n | Return m a, Return n b => same_manager m n ∧ (a : outcome string Z) = b | _, _ => False end) as Hcreate.
  { destruct (qcreate_new_segment (H := O1) m) as [m' r], (qcreate_new_segment (H := O2) n) as [n' r']. cbn in Hc1, Hc2. subst r'. by destruct r. }
  unfold qappend_body. destruct (qcurrent m) as [[i s]|], (qcurrent n) as [[j t]|]; try done.
  destruct Hcur as [<- Hst]. rewrite <- (same_has_space s t) by done.
  destruct (Segment_has_space s (len data)); [|exact Hcreate].
  destruct (same_segment_append s t data Hst Hd) as [Hs' Hr].
  destruct (Segment_append s data) as [s' r], (Segment_append t data) as [t' r']. cbn in Hs', Hr. subst r'.
  split; [by apply same_set|done].
Qed.

Lemma same_manager_read m n off : same_manager m n → QManager_read m off = QManager_read n off.
Proof.
  intros [_ Hsegs _ _ _ _]. unfold QManager_read. destruct Hsegs as [|s t ss ts Hst Hrest]; [done|]. by apply same_segment_read.
Qed.

Lemma same_manager_flush m n : same_manager m n → QManager_flush (H := O1) m = QManager_flush (H := O2) n.
Proof.
  intros [_ Hsegs _ _ _ _]. unfold QManager_flush. induction Hsegs as [|s t ss ts Hst Hrest IH]; [done|]. cbn [flush_segments].
  rewrite IH. f_equal. unfold Segment_flush. rewrite (ss_same_path _ _ Hst). f_equal. apply same_flush.
  destruct (ss_same_bytes _ _ Hst) as (w & f & g & -> & -> & Hfg & _). rewrite !len_app. lia.
Qed.

Lemma same_manager_new id size dir :
  size < 2 ^ 63 → outcome_rel same_manager (QManager_new (H := O1) id size dir) (QManager_new (H := O2) id size dir).
Proof.
  intros Hs. unfold QManager_new. rewrite same_create_dir. eapply outcome_rel_bind; [apply outcome_rel_eq|]. intros _ _ _.
  match goal with |- context [qcreate_new_segment (H := O1) ?m] => destruct (same_qcreate m m) as [H1 H2] end; [by split|].
  destruct (qcreate_new_segment (H := O1) _) as [m' r], (qcreate_new_segment (H := O2) _) as [n' r']. cbn in H1, H2. subst r'.
  by destruct r.
Qed.
End related.

(** Related maps list their entries in the same order. *)
Lemma map_to_list_related {A B} (R : A → B → Prop) (m1 : gmap Z A) (m2 : gmap Z B) :
  map_Forall2 (λ _, R) m1 m2 →
  Forall2 (λ a b, a.1 = b.1 ∧ R a.2 b.2) (map_to_list m1) (map_to_list m2).
Proof.
  intros Hm.
  assert (∀ k, is_Some (m1 !! k) ↔ is_Some (m2 !! k)) as Hdom.
  { intros k. specialize (Hm k). unfold is_Some. destruct Hm; split; intros [? ?]; eauto; done. }
  rewrite <- (fst_map_zip m1 m2) at 1 by (intros k; apply Hdom).
  rewrite <- (snd_map_zip m1 m2) at 2 by (intros k; apply Hdom).
  rewrite !map_to_list_fmap, Forall2_fmap. apply Forall_Forall2_diag, Forall_forall.
  intros [k [a b]] Hk%elem_of_map_to_list. split; [done|]. cbn.
  apply map_lookup_zip_Some in Hk as [Ha Hb]. specialize (Hm k). rewrite Ha, Hb in Hm. by inversion Hm.
Qed.

Section related_queue.
Context `{Crc32} {O1 O2 : Os} {Hsame : SameMachine O1 O2}.

Lemma same_queue_append fuel q r t0 t1 data :
  same_queue q r → len data < 2 ^ 63 →
  match PersistQ_append (H0 := O1) fuel t0 t1 q data, PersistQ_append (H0 := O2) fuel t0 t1 r data with
  | Some (q', a), Some (r', b) => same_queue q' r' ∧ a = b
  | None, None => True
  | _, _ => False
  end.
Proof.
  intros Hq Hd. pose proof Hq as [Hms Ho Hm Hc]. unfold PersistQ_append, partition_of. rewrite <- Ho, <- Hm, <- Hc.
  set (p := u32 _). pose proof (Hms p) as Hp.
  destruct (segment_managers q !! p) as [m|], (segment_managers r !! p) as [n|]; try (by inversion Hp).
  assert (same_manager m n) as Hmn by (by inversion Hp).
  pose proof (same_manager_append fuel m n data Hmn Hd) as Ha.
  destruct (QManager_append (H := O1) fuel m data) as [[m' a]|], (QManager_append (H := O2) fuel n data) as [[n' b]|]; try done.
  destruct Ha as [Hmn' <-].
  assert (map_Forall2 (λ _, same_manager) (<[p := m']> (segment_managers q)) (<[p := n']> (segment_managers r))) as Hms'
    by (by apply map_Forall2_insert_2).
  cbn [mbind option_bind]. destruct a; (split; [by split|done]).
Qed.

Lemma same_queue_read q r t0 t1 off : same_queue q r → PersistQ_read t0 t1 q off = PersistQ_read t0 t1 r off.
Proof.
  intros [Hms _ Hm _]. unfold PersistQ_read. rewrite <- Hm. destruct (offset_map q !! off) as [[p o]|]; [|done]. cbn.
  pose proof (Hms p) as Hp. destruct (segment_managers q !! p) as [m|], (segment_managers r !! p) as [n|]; try (by inversion Hp).
  cbn. rewrite (same_manager_read m n); [done|by inversion Hp].
Qed.

Lemma same_queue_stats q r : same_queue q r → PersistQ_stats q = PersistQ_stats r.
Proof.
  intros [Hms Ho _ Hc]. unfold PersistQ_stats. rewrite <- Ho, <- Hc.
  pose proof (map_to_list_related _ _ _ Hms) as Hl. rewrite <- !length_map_to_list, (Forall2_length _ _ _ Hl).
  f_equal. unfold sum_u64. generalize 0. induction Hl as [|a b l k [_ Hab] Hl IH]; intros z; [done|]. cbn [foldl].
  rewrite IH. do 3 f_equal. unfold len. by rewrite (Forall2_length _ _ _ (sm_same_segments _ _ Hab)).
Qed.

Lemma same_queue_shutdown q r : same_queue q r → PersistQ_shutdown (H0 := O1) q = PersistQ_shutdown (H0 := O2) r.
Proof.
  intros [Hms _ _ _]. unfold PersistQ_shutdown. pose proof (map_to_list_related _ _ _ Hms) as Hl.
  induction Hl as [|[i m] [j n] l k [_ Hmn] Hl IH]; [done|]. cbn in Hmn |- *. by rewrite IH, (same_manager_flush m n).
Qed.

Lemma same_answers fuel q r ops :
  same_queue q r → Forall op_wf ops → answers (H0 := O1) fuel q ops = answers (H0 := O2) fuel r ops.
Proof.
  intros Hq Hops. revert q r Hq. induction Hops as [|op ops Hop Hops IH]; intros q r Hq; [done|]. cbn [answers].
  destruct op as [t0 t1 data|t0 t1 off| |].
  - pose proof (same_queue_append fuel q r t0 t1 data Hq Hop) as Ha.
    destruct (PersistQ_append (H0 := O1) fuel t0 t1 q data) as [[q' a]|], (PersistQ_append (H0 := O2) fuel t0 t1 r data) as [[r' b]|];
      try done. destruct Ha as [Hq' <-]. by rewrite (IH q' r').
  - by rewrite (same_queue_read q r), (IH q r).
  - by rewrite (same_queue_stats q r), (IH q r).
  - by rewrite (same_queue_shutdown q r), (IH q r).
Qed.

Lemma same_create_managers n size dir :
  size < 2 ^ 63 →
  outcome_rel (map_Forall2 (λ _, same_manager)) (create_managers (H0 := O1) n size dir) (create_managers (H0 := O2) n size dir).
Proof.
  intros Hs. induction n as [|n IH]; [by apply map_Forall2_empty|]. cbn [create_managers].
  eapply outcome_rel_bind; [exact IH|]. intros m1 m2 Hm.
  eapply outcome_rel_bind; [by apply same_manager_new|]. intros a b Hab. by apply map_Forall2_insert_2.
Qed.

Context `{Fs}.

Lemma same_queue_new c :
  segment_size c < 2 ^ 63 → outcome_rel same_queue (PersistQ_new (H0 := O1) c) (PersistQ_new (H0 := O2) c).
Proof.
  intros Hs. unfold PersistQ_new, canonical_dir. rewrite same_create_dir.
  eapply outcome_rel_bind; [apply outcome_rel_eq|]. intros _ _ _.
  eapply outcome_rel_bind; [apply outcome_rel_eq|]. intros dir _ <-.
  eapply outcome_rel_bind; [by apply same_create_managers|]. intros m1 m2 Hm. by split.
Qed.

Lemma same_session fuel c ops :
  segment_size c < 2 ^ 63 → Forall op_wf ops → session (H0 := O1) fuel c ops = session (H0 := O2) fuel c ops.
Proof.
  intros Hs Hops. unfold session. pose proof (same_queue_new c Hs) as Hn.
  destruct (PersistQ_new (H0 := O1) c) as [q|e|], (PersistQ_new (H0 := O2) c) as [r|e'|]; try done; cbn in *; [|by subst].
  by rewrite (same_answers fuel q r).
Qed.
End related_queue.

(** ** Properties *)
Section restart_properties.
Context `{Crc32Ok} `{Fs}.

(** C13. A restarted queue starts from nothing, whatever the earlier run left
    in the files: every sequence of calls is answered as it is on any other
    disk, an empty one for instance, so no byte of an earlier run is ever
    returned; every offset the earlier run acknowledged is unknown, and the first
    payload appended gets the global offset 0 again. *)
Theorem restart_forgets left fuel c ops :
  in_range 32 (num_partitions c) → in_range 32 (replication_factor c) → segment_size c < 2 ^ 63 →
  Forall op_wf ops →
  session (H0 := disk_os left) fuel c ops = session (H0 := disk_os ∅) fuel c ops ∧
  ∀ q, PersistQ_new (H0 := disk_os left) c = Ok q →
    (∀ t0 t1 off, 0 ≤ off → PersistQ_read t0 t1 q off = Err ("Global offset " +:+ pretty off +:+ " not found")) ∧
    ∀ t0 t1 data, len data ≤ segment_size c →
      ∃ q' r, PersistQ_append (H0 := disk_os left) 1 t0 t1 q data = Some (q', Ok r) ∧ ar_global_offset r = 0.
Proof.
  intros Hn Hr Hs Hops. split; [by apply same_session|]. intros q Hq.
  destruct (queue_new_repr (H1 := disk_os left) c q Hn Hr Hq) as (Hrepr & _ & Hsize). split.
  - intros t0 t1 off Hoff. rewrite (queue_read q [] off t0 t1 Hrepr Hoff). by rewrite lookup_nil.
  - intros t0 t1 data Hd.
    destruct (queue_append (H1 := disk_os left) q [] data 0 t0 t1 Hrepr) as (q' & Ha & _); [done|by rewrite Hsize|].
    eexists _, _. split; [exact Ha|done].
Qed.
End restart_properties.

(** ** A concrete run: the first file has the bytes of an earlier run *)

Lemma restart_forgets_witness :
  let left := {[ "/data/partition_1_segment_0.dat"%string := str_bytes "an earlier payload" ]} : disk in
  let ops := [OpRead 0 0 0; OpAppend 0 0 (str_bytes "new"); OpRead 0 0 0; OpStats] in
  session (H0 := disk_os left) 1 (sample_config 1) ops = session (H0 := disk_os ∅) 1 (sample_config 1) ops.
Proof.
  intros left ops.
  apply (restart_forgets left 1 (sample_config 1) ops); [done|done|done|by repeat constructor].
Defined.
