(* ===== verification/QueueConc.v ===== *)
(** * Concurrent appends to the queue (src/src/persistq.rs)

    [PersistQ::append] as several threads run it.  A segment is used under its
    mutex, the global offset under its lock, the map of offsets is concurrent
    and a new segment is made under the creation lock of its partition; between
    these steps the threads interleave. *)

From stdpp Require Import base list list_numbers numbers strings gmap relations pretty.
From Stdlib Require Import Strings.Byte.
From S2P Require Import Prelude Crc32 F64 StorageEngine PersistQueue.
Local Open Scope Z_scope.

(** ** Definitions *)

(** Where a thread that appends a payload stands: at the loop head, with a
    segment that had space, waiting for the creation lock, holding it, with its
    place in the segment, with its global offset, returned. *)
Inductive qthread :=
  | QStart (data : bytes)
  | QTry (data : bytes) (k : nat)
  | QSlow (data : bytes)
  | QLocked (data : bytes)
  | QAppended (data : bytes) (local_offset : Z)
  | QNumbered (data : bytes) (local_offset global : Z)
  | QDone (data : bytes) (result : outcome string Z).

(** The queue, the holders of the creation locks by partition, the threads. *)
Record qconfig := mkQConfig {
  qc_queue : PersistQ; qc_locks : gmap Z nat; qc_threads : list qthread }.

Section steps.
Context `{Crc32} `{Os}.

Definition with_manager (q : PersistQ) (p : Z) (m : QManager) : PersistQ :=
  {| segment_managers := <[p := m]> (segment_managers q); global_offset := global_offset q;
     offset_map := offset_map q; pq_config := pq_config q |}.
Definition with_global (q : PersistQ) (g : Z) : PersistQ :=
  {| segment_managers := segment_managers q; global_offset := g;
     offset_map := offset_map q; pq_config := pq_config q |}.
Definition with_mapping (q : PersistQ) (g : Z) (om : OffsetMapping) : PersistQ :=
  {| segment_managers := segment_managers q; global_offset := global_offset q;
     offset_map := <[g := om]> (offset_map q); pq_config := pq_config q |}.

(** The current segment, when it has space for the payload. *)
Definition qcurrent_has_space (m : QManager) (data : bytes) : option nat :=
  match qcurrent m with
  | Some (k, s) => if Segment_has_space s (len data) then Some k else None
  | None => None
  end.

(** The steps of [append] on the manager [m] of the payload's partition.
    Source: src/src/persistq.rs:424-471 (SegmentManager::append) *)
Definition manager_step (i : nat) (lock : option nat) (m : QManager) (t : qthread)
    : option (QManager * option nat * qthread) :=
  match t with
  | QStart data =>
      Some (m, lock, match qcurrent_has_space m data with
                     | Some k => QTry data k
                     | None => QSlow data
                     end)
  | QTry data k =>
      s ← qm_segments m !! k;
      if Segment_has_space s (len data) then
        let '(s, result) := Segment_append s data in
        Some (set_qsegment m k s, lock,
              match result with
              | Ok local_offset => QAppended data local_offset
              | Err e => QDone data (Err e)
              | Panic => QDone data Panic
              end)
      else Some (m, lock, QSlow data)
  | QSlow data => match lock with None => Some (m, Some i, QLocked data) | Some _ => None end
  | QLocked data =>
      match qcurrent_has_space m data with
      | Some _ => Some (m, None, QStart data)
      | None =>
          match qcreate_new_segment m with
          | (m, Ok _) => Some (m, None, QStart data)
          | (m, Err e) => Some (m, None, QDone data (Err e))
          | (m, Panic) => Some (m, None, QDone data Panic)
          end
      end
  | _ => None
  end.

Definition payload (t : qthread) : bytes :=
  match t with
  | QStart d | QTry d _ | QSlow d | QLocked d | QAppended d _ | QNumbered d _ _ | QDone d _ => d
  end.

(** The next step of thread [i].
    Source: src/src/persistq.rs:273-321 (PersistQ::append) *)
Definition qstep_thread (i : nat) (q : PersistQ) (locks : gmap Z nat) (t : qthread)
    : option (PersistQ * gmap Z nat * qthread) :=
  let partition_id := partition_of q (payload t) in
  match t with
  | QAppended data local_offset =>
      Some (with_global q (u64 (global_offset q + 1)), locks, QNumbered data local_offset (global_offset q))
  | QNumbered data local_offset global =>
      Some (with_mapping q global (mkMapping partition_id local_offset), locks, QDone data (Ok global))
  | QDone _ _ => None
  | _ =>
      match segment_managers q !! partition_id with
      | None => Some (q, locks, QDone (payload t) (Err (no_manager partition_id)))
      | Some manager =>
          '(manager, lock, t) ← manager_step i (locks !! partition_id) manager t;
          Some (with_manager q partition_id manager, partial_alter (λ _, lock) partition_id locks, t)
      end
  end.

Definition qstep (i : nat) (c : qconfig) : option qconfig :=
  t ← qc_threads c !! i;
  '(q, locks, t) ← qstep_thread i (qc_queue c) (qc_locks c) t;
  Some (mkQConfig q locks (<[i := t]> (qc_threads c))).
Definition qconc_step (c c' : qconfig) : Prop := ∃ i, qstep i c = Some c'.

Fixpoint run_qschedule (sched : list nat) (c : qconfig) : option qconfig :=
  match sched with
  | [] => Some c
  | i :: sched => c ← qstep i c; run_qschedule sched c
  end.
Lemma run_qschedule_steps sched c c' : run_qschedule sched c = Some c' → rtc qconc_step c c'.
Proof.
  revert c. induction sched as [|i sched IH]; intros c; simpl; [intros [= ->]; done|].
  intros (c1 & Hstep & Hrun)%bind_Some. eapply rtc_l; [by exists i|]. by apply IH.
Qed.

Definition start_appends (q : PersistQ) (ds : list bytes) : qconfig := mkQConfig q ∅ (map QStart ds).
End steps.

(** ** The invariant

    [ws] lists the payloads in the order in which they got their places. *)
Section invariant.
Context `{Crc32}.

(** The bytes a thread may still take from partition [p] of [n]. *)
Definition wanted (n p : Z) (t : qthread) : Z :=
  match t with
  | QStart d | QTry d _ | QSlow d | QLocked d => if decide (route n d = p) then len d else 0
  | _ => 0
  end.

(** The place of a thread's payload, once it has one. *)
Definition placed (t : qthread) : option (bytes * Z) :=
  match t with
  | QAppended d off | QNumbered d off _ => Some (d, off)
  | _ => None
  end.
Definition has_place (t : qthread) : bool :=
  match t with QAppended _ _ | QNumbered _ _ _ | QDone _ (Ok _) => true | _ => false end.

(** A payload at a place of a partition, followed by [rest]. *)
Definition at_place (n : Z) (log : list bytes) (d : bytes) (off : Z) : Prop :=
  ∃ l1 l2, log = l1 ++ d :: l2 ∧ off = len (partition_content n (route n d) l1).

(** The global offset a thread holds or has returned. *)
Definition number_of (t : qthread) : option Z :=
  match t with QNumbered _ _ g | QDone _ (Ok g) => Some g | _ => None end.

(** Threads hold distinct numbers, and the counter has counted them from [lo]. *)
Record numbers_ok (lo next : Z) (ts : list qthread) : Prop := {
  no_count : next = lo + len (filter (λ t, is_Some (number_of t)) ts);
  no_range : ∀ i t g, ts !! i = Some t → number_of t = Some g → lo ≤ g < next;
  no_distinct : ∀ i j t u g, ts !! i = Some t → ts !! j = Some u →
    number_of t = Some g → number_of u = Some g → i = j }.

(** What a thread's state says of the queue. *)
Definition thread_ok (n : Z) (full : list bytes) (om : gmap Z OffsetMapping) (t : qthread) : Prop :=
  match t with
  | QSlow _ | QLocked _ | QDone _ (Err _) | QDone _ Panic => False
  | QTry _ k => k = 0%nat
  | QStart _ => True
  | QAppended d off | QNumbered d off _ => at_place n full d off
  | QDone d (Ok g) => ∃ off, om !! g = Some (mkMapping (route n d) off) ∧ at_place n full d off
  end.

Record queue_inv (n : Z) (log ws : list bytes) (c : qconfig) : Prop := {
  qi_n : num_partitions (pq_config (qc_queue c)) = n;
  qi_parts : 1 ≤ n ≤ 1024;
  qi_size : 0 ≤ segment_size (pq_config (qc_queue c)) < 2 ^ 63;
  qi_managers : ∀ p, 1 ≤ p ≤ n → ∃ m, segment_managers (qc_queue c) !! p = Some m ∧
    qmgr_repr m (segment_size (pq_config (qc_queue c))) (partition_content n p (log ++ ws));
  qi_room : ∀ p, 1 ≤ p ≤ n →
    len (partition_content n p (log ++ ws)) + zsum (wanted n p) (qc_threads c) ≤
      segment_size (pq_config (qc_queue c));
  qi_ws : ws ≡ₚ map payload (filter (λ t, Is_true (has_place t)) (qc_threads c));
  qi_threads : Forall (thread_ok n (log ++ ws) (offset_map (qc_queue c))) (qc_threads c);
  qi_bound : len log + len (qc_threads c) < 2 ^ 64;
  qi_numbers : numbers_ok (len log) (global_offset (qc_queue c)) (qc_threads c);
  qi_log : ∀ i, 0 ≤ i < len log → offset_map (qc_queue c) !! i = place n log (Z.to_nat i) }.
End invariant.

(** ** Lemmas *)

Section lemmas.
Context `{Crc32Ok} `{OsOk}.

Lemma wanted_nonneg n p t : 0 ≤ wanted n p t.
Proof. destruct t; simpl; try done; destruct (decide _); done || apply len_nonneg. Qed.

Lemma at_place_app n log k d off : at_place n log d off → at_place n (log ++ k) d off.
Proof. intros (l1 & l2 & -> & ->). exists l1, (l2 ++ k). by rewrite <- app_assoc. Qed.

Lemma payload_wanted n t : match t with QStart _ | QTry _ _ => True | _ => False end →
  wanted n (route n (payload t)) t = len (payload t).
Proof. by destruct t; simpl; try done; rewrite decide_True. Qed.

(** A current segment with enough room has space. *)
Lemma repr_has_space m size c d :
  qmgr_repr m size c → 0 ≤ size < 2 ^ 63 → len c + len d ≤ size → qcurrent_has_space m d = Some 0%nat.
Proof.
  intros [(s & Hsegs & Hs & Hmax) Hcur Hsz] Hsize Hfit. pose proof (len_nonneg c). pose proof (len_nonneg d).
  unfold qcurrent_has_space, qcurrent. rewrite Hcur, Hsegs. cbn.
  rewrite (qhas_space s c) by (done || lia). by rewrite (proj2 (Z.leb_le _ _)) by lia.
Qed.

(** Appending under the mutex of the segment. *)
Lemma repr_try i lock m size c d :
  qmgr_repr m size c → 0 ≤ size < 2 ^ 63 → len c + len d ≤ size →
  ∃ m', manager_step i lock m (QTry d 0) = Some (m', lock, QAppended d (len c)) ∧ qmgr_repr m' size (c ++ d).
Proof.
  intros [(s & Hsegs & Hs & Hmax) Hcur Hsz] Hsize Hfit. pose proof (len_nonneg c). pose proof (len_nonneg d).
  cbn [manager_step]. rewrite Hsegs. cbn [lookup list_lookup mbind option_bind].
  rewrite (qhas_space s c) by (done || lia). rewrite (proj2 (Z.leb_le _ _)) by lia.
  destruct (qappend_fits s c d Hs) as (s' & -> & Hs' & Hmax'); [lia|].
  eexists. split; [done|]. split; cbn; [|done|done]. exists s'. rewrite Hsegs. split_and!; [done..|lia].
Qed.

Lemma numbers_keep lo g (ts : list qthread) i t t' :
  ts !! i = Some t → number_of t' = number_of t → numbers_ok lo g ts → numbers_ok lo g (<[i := t']> ts).
Proof.
  intros Hi Hn [Hc Hr Hd].
  assert (∀ j u x, (<[i := t']> ts) !! j = Some u → number_of u = Some x →
    ∃ u0, ts !! j = Some u0 ∧ number_of u0 = Some x) as Hold.
  { intros j u x Hj Hg. apply list_lookup_insert_Some in Hj as [(-> & -> & _)|[_ Hj]]; [|by exists u].
    exists t. by rewrite <- Hn. }
  split.
  - rewrite (filter_insert_len _ ts i t t' Hi); [done|]. by rewrite Hn.
  - intros j u x Hj Hx. destruct (Hold j u x Hj Hx) as (u0 & Hj0 & Hx0). by apply (Hr j u0).
  - intros j k u v x Hj Hk Hu Hv. destruct (Hold j u x Hj Hu) as (u0 & Hj0 & Hu0), (Hold k v x Hk Hv) as (v0 & Hk0 & Hv0).
    by apply (Hd j k u0 v0 x).
Qed.

Lemma numbers_new lo g (ts : list qthread) i t t' :
  ts !! i = Some t → number_of t = None → number_of t' = Some g → numbers_ok lo g ts →
  numbers_ok lo (g + 1) (<[i := t']> ts).
Proof.
  intros Hi Hn Hg [Hc Hr Hd]. split.
  - rewrite (filter_insert_len_new _ ts i t t' Hi); [lia|by rewrite Hn; intros []|by rewrite Hg].
  - intros j u x Hj Hx. apply list_lookup_insert_Some in Hj as [(-> & -> & _)|[_ Hj]].
    + rewrite Hg in Hx. injection Hx as <-. pose proof (len_nonneg (filter (λ t, is_Some (number_of t)) ts)). lia.
    + pose proof (Hr j u x Hj Hx). lia.
  - intros j k u v x Hj Hk Hu Hv.
    apply list_lookup_insert_Some in Hj as [(-> & -> & _)|[Hij Hj]];
      apply list_lookup_insert_Some in Hk as [(-> & -> & _)|[Hik Hk]]; try done.
    + rewrite Hg in Hu. injection Hu as <-. pose proof (Hr k v g Hk Hv). lia.
    + rewrite Hg in Hv. injection Hv as <-. pose proof (Hr j u g Hj Hu). lia.
    + by apply (Hd j k u v x).
Qed.

Lemma thread_ok_app n full k om t : thread_ok n full om t → thread_ok n (full ++ k) om t.
Proof.
  destruct t as [d|d j|d|d|d off|d off g|d [g| |]]; simpl; try done; try apply at_place_app.
  intros (off & Hom & Hp). exists off. split; [done|]. by apply at_place_app.
Qed.
Lemma thread_ok_insert n full om t g x :
  number_of t ≠ Some g → thread_ok n full om t → thread_ok n full (<[g := x]> om) t.
Proof.
  destruct t as [d|d j|d|d|d off|d off g'|d [g'| |]]; simpl; try done.
  intros Hg (off & Hom & Hp). exists off. split; [|done]. rewrite lookup_insert_ne; [done|]. intros ->. by apply Hg.
Qed.

(** Manager steps leave the other partitions alone. *)
Lemma managers_insert n q p m' size (content content' : Z → bytes) :
  (∀ p', 1 ≤ p' ≤ n → ∃ m, segment_managers q !! p' = Some m ∧ qmgr_repr m size (content p')) →
  qmgr_repr m' size (content' p) → (∀ p', p' ≠ p → content' p' = content p') →
  ∀ p', 1 ≤ p' ≤ n → ∃ m, segment_managers (with_manager q p m') !! p' = Some m ∧ qmgr_repr m size (content' p').
Proof.
  intros Hm Hp Hne p' Hp'. cbn. destruct (decide (p' = p)) as [->|Hd].
  - exists m'. by rewrite lookup_insert_eq.
  - rewrite lookup_insert_ne, (Hne p' Hd) by done. by apply Hm.
Qed.

(** What the invariant gives the thread at index [i] that still wants room. *)
Lemma inv_room n log ws c i t :
  queue_inv n log ws c → qc_threads c !! i = Some t →
  match t with QStart _ | QTry _ _ => True | _ => False end →
  ∃ m, partition_of (qc_queue c) (payload t) = route n (payload t) ∧
    segment_managers (qc_queue c) !! route n (payload t) = Some m ∧
    qmgr_repr m (segment_size (pq_config (qc_queue c))) (partition_content n (route n (payload t)) (log ++ ws)) ∧
    len (partition_content n (route n (payload t)) (log ++ ws)) + len (payload t) ≤
      segment_size (pq_config (qc_queue c)).
Proof.
  intros Hinv Hi Ht. pose proof (qi_parts _ _ _ _ Hinv) as Hn. pose proof (qi_n _ _ _ _ Hinv) as Hn'.
  pose proof (route_range n (payload t) ltac:(lia)) as Hp.
  destruct (qi_managers _ _ _ _ Hinv _ Hp) as (m & Hm & Hr). exists m.
  split; [rewrite <- Hn'; apply partition_of_route; rewrite Hn'; lia|]. split; [done|]. split; [done|].
  pose proof (qi_room _ _ _ _ Hinv _ Hp) as Hroom.
  pose proof (zsum_lookup_le (wanted n (route n (payload t))) _ _ _ (wanted_nonneg n _) Hi) as Hle.
  rewrite (payload_wanted n t Ht) in Hle. lia.
Qed.

Lemma step_start n log ws c i d q' locks' t' :
  queue_inv n log ws c → qc_threads c !! i = Some (QStart d) →
  qstep_thread i (qc_queue c) (qc_locks c) (QStart d) = Some (q', locks', t') →
  queue_inv n log ws (mkQConfig q' locks' (<[i := t']> (qc_threads c))).
Proof.
  intros Hinv Hi Hs. destruct (inv_room _ _ _ _ _ _ Hinv Hi I) as (m & Hp & Hm & Hr & Hfit). cbn [payload] in *.
  cbn [qstep_thread payload] in Hs. rewrite Hp, Hm in Hs. cbn [manager_step mbind option_bind] in Hs.
  rewrite (repr_has_space _ _ _ _ Hr (qi_size _ _ _ _ Hinv) Hfit) in Hs. injection Hs as <- <- <-.
  destruct Hinv as [Hn Hparts Hsize Hms Hroom Hws Hts Hb Hno Hlog]. split; cbn [qc_queue qc_threads]; try done.
  - by apply (managers_insert n _ _ _ _ (λ p, partition_content n p (log ++ ws))).
  - intros p Hpp. rewrite (zsum_insert _ _ _ _ _ Hi). cbn [wanted pq_config with_manager]. specialize (Hroom p Hpp). lia.
  - by rewrite (filter_insert_old _ _ _ _ _ _ Hi) by done.
  - by apply Forall_insert.
  - unfold len. rewrite length_insert. done.
  - by apply (numbers_keep _ _ _ _ (QStart d)).
Qed.

Lemma step_try n log ws c i d q' locks' t' :
  queue_inv n log ws c → qc_threads c !! i = Some (QTry d 0) →
  qstep_thread i (qc_queue c) (qc_locks c) (QTry d 0) = Some (q', locks', t') →
  queue_inv n log (ws ++ [d]) (mkQConfig q' locks' (<[i := t']> (qc_threads c))).
Proof.
  intros Hinv Hi Hs. destruct (inv_room _ _ _ _ _ _ Hinv Hi I) as (m & Hp & Hm & Hr & Hfit). cbn [payload] in *.
  destruct (repr_try i (qc_locks c !! route n d) m _ _ _ Hr (qi_size _ _ _ _ Hinv) Hfit) as (m' & Hst & Hr').
  cbn [qstep_thread payload] in Hs. rewrite Hp, Hm in Hs. cbn [mbind option_bind] in Hs. rewrite Hst in Hs.
  injection Hs as <- <- <-.
  destruct Hinv as [Hn Hparts Hsize Hms Hroom Hws Hts Hb Hno Hlog]. split; cbn [qc_queue qc_threads]; try done.
  - apply (managers_insert n _ _ _ _ (λ p, partition_content n p (log ++ ws))
      (λ p, partition_content n p (log ++ ws ++ [d]))); [done| |].
    + by rewrite app_assoc, (partition_content_app _ _ _ [d]), partition_content_one, decide_True.
    + intros p' Hne. by rewrite app_assoc, (partition_content_app _ _ _ [d]), partition_content_one, decide_False, app_nil_r.
  - intros p Hpp. rewrite (zsum_insert _ _ _ _ _ Hi). cbn [wanted pq_config with_manager]. specialize (Hroom p Hpp).
    rewrite app_assoc, (partition_content_app _ _ _ [d]), partition_content_one, len_app.
    destruct (decide _); [lia|]. rewrite len_nil. lia.
  - eapply perm_trans; [symmetry; apply Permutation_cons_append|].
    eapply perm_trans; [apply perm_skip, Hws|]. symmetry.
    by apply (filter_insert_new (λ t, Is_true (has_place t)) payload _ i (QTry d 0)); [|intros []|].
  - apply Forall_insert.
    + rewrite app_assoc. eapply Forall_impl; [exact Hts|]. intros t. apply thread_ok_app.
    + exists (log ++ ws), []. by rewrite app_assoc.
  - unfold len. rewrite length_insert. done.
  - by apply (numbers_keep _ _ _ _ (QTry d 0)).
Qed.

Lemma step_number n log ws c i d off q' locks' t' :
  queue_inv n log ws c → qc_threads c !! i = Some (QAppended d off) →
  qstep_thread i (qc_queue c) (qc_locks c) (QAppended d off) = Some (q', locks', t') →
  queue_inv n log ws (mkQConfig q' locks' (<[i := t']> (qc_threads c))).
Proof.
  intros Hinv Hi Hs. cbn [qstep_thread] in Hs. injection Hs as <- <- <-.
  destruct Hinv as [Hn Hparts Hsize Hms Hroom Hws Hts Hb Hno Hlog].
  pose proof (numbers_new _ _ _ _ _ (QNumbered d off (global_offset (qc_queue c))) Hi eq_refl eq_refl Hno) as Hno'.
  assert (u64 (global_offset (qc_queue c) + 1) = global_offset (qc_queue c) + 1) as Hwrap.
  { rewrite wrap_id; [done|]. pose proof (no_count _ _ _ Hno') as Hc. pose proof (no_count _ _ _ Hno) as Hc0.
    pose proof (len_nonneg (filter (λ t, is_Some (number_of t)) (qc_threads c))).
    pose proof (length_filter (λ t, is_Some (number_of t)) (<[i := QNumbered d off (global_offset (qc_queue c))]> (qc_threads c))) as Hle.
    rewrite length_insert in Hle. unfold in_range, len in *. lia. }
  rewrite Hwrap. split; cbn [qc_queue qc_threads]; try done.
  - intros p Hpp. rewrite (zsum_insert _ _ _ _ _ Hi). cbn [wanted pq_config with_global]. specialize (Hroom p Hpp). lia.
  - by rewrite (filter_insert_old _ _ _ _ _ _ Hi) by done.
  - apply Forall_insert; [done|]. by apply (Forall_lookup_1 _ _ _ _ Hts Hi).
  - unfold len. rewrite length_insert. done.
Qed.

Lemma step_map n log ws c i d off g q' locks' t' :
  queue_inv n log ws c → qc_threads c !! i = Some (QNumbered d off g) →
  qstep_thread i (qc_queue c) (qc_locks c) (QNumbered d off g) = Some (q', locks', t') →
  queue_inv n log ws (mkQConfig q' locks' (<[i := t']> (qc_threads c))).
Proof.
  intros Hinv Hi Hs. cbn [qstep_thread payload] in Hs.
  destruct Hinv as [Hn Hparts Hsize Hms Hroom Hws Hts Hb Hno Hlog].
  rewrite partition_of_route, Hn in Hs by (by rewrite Hn). injection Hs as <- <- <-.
  pose proof (no_range _ _ _ Hno _ _ g Hi eq_refl) as Hg.
  split; cbn [qc_queue qc_threads]; try done.
  - intros p Hpp. rewrite (zsum_insert _ _ _ _ _ Hi). cbn [wanted pq_config with_mapping]. specialize (Hroom p Hpp). lia.
  - by rewrite (filter_insert_old _ _ _ _ _ _ Hi) by done.
  - cbn [offset_map with_mapping]. apply Forall_lookup_2. intros j u Hj.
    apply list_lookup_insert_Some in Hj as [(<- & <- & _)|[Hne Hj]].
    + exists off. rewrite lookup_insert_eq. split; [done|]. by apply (Forall_lookup_1 _ _ _ _ Hts Hi).
    + apply thread_ok_insert; [|by apply (Forall_lookup_1 _ _ _ _ Hts Hj)].
      intros Hu. by destruct (Hne (no_distinct _ _ _ Hno i j _ u g Hi Hj eq_refl Hu)).
  - unfold len. rewrite length_insert. done.
  - by apply (numbers_keep _ _ _ _ (QNumbered d off g)).
  - intros j Hj. cbn [offset_map with_mapping]. rewrite lookup_insert_ne by lia. by apply Hlog.
Qed.

Lemma queue_inv_step n log ws c c' : queue_inv n log ws c → qconc_step c c' → ∃ ws', queue_inv n log ws' c'.
Proof.
  intros Hinv [i (t & Hi & ([[q' l'] t'] & Hs & [= <-])%bind_Some)%bind_Some].
  pose proof (Forall_lookup_1 _ _ _ _ (qi_threads _ _ _ _ Hinv) Hi) as Hok.
  destruct t as [d|d k|d|d|d off|d off g|d res]; [..|done]; try by destruct Hok.
  - exists ws. by eapply step_start.
  - cbn [thread_ok] in Hok. subst k. exists (ws ++ [d]). by eapply step_try.
  - exists ws. by eapply step_number.
  - exists ws. by eapply step_map.
Qed.

Lemma wanted_start n p ds : zsum (wanted n p) (map QStart ds) = len (partition_content n p ds).
Proof.
  induction ds as [|d ds IH]; [done|]. unfold partition_content in *. rewrite filter_cons. simpl. rewrite IH.
  destruct (decide _); simpl; rewrite ?len_app; lia.
Qed.
Lemma filter_start (P : qthread → Prop) `{!∀ t, Decision (P t)} ds :
  (∀ d, ¬ P (QStart d)) → filter P (map QStart ds) = [].
Proof. intros Hp. induction ds as [|d ds IH]; [done|]. simpl. by rewrite filter_cons, decide_False. Qed.

Lemma queue_inv_start q log ds :
  let n := num_partitions (pq_config q) in
  queue_repr q log → len log + len ds < 2 ^ 64 →
  (∀ p, 1 ≤ p ≤ n → len (partition_content n p (log ++ ds)) ≤ segment_size (pq_config q)) →
  queue_inv n log [] (start_appends q ds).
Proof.
  intros n Hq Hb Hroom. split; cbn [start_appends qc_queue qc_threads]; rewrite ?app_nil_r; try by destruct Hq.
  - intros p Hp. specialize (Hroom p Hp). rewrite partition_content_app, len_app in Hroom. rewrite wanted_start. done.
  - by rewrite filter_start by (intros d []).
  - apply Forall_fmap, Forall_true. done.
  - unfold len. rewrite length_map. done.
  - split.
    + rewrite filter_start by (intros d []; done). rewrite (qr_global _ _ Hq). change (@len qthread []) with 0. lia.
    + intros i t g (d & -> & _)%list_lookup_fmap_Some Hg. done.
    + intros i j t u g (d & -> & _)%list_lookup_fmap_Some _ Hg. done.
  - intros i Hi. apply (qr_map _ _ Hq). lia.
Qed.

(** Reading a placed payload. *)
Lemma inv_read n log ws c g l1 d l2 t0 t1 :
  queue_inv n log ws c → log ++ ws = l1 ++ d :: l2 → d ≠ [] →
  offset_map (qc_queue c) !! g = Some (mkMapping (route n d) (len (partition_content n (route n d) l1))) →
  qr_data ∘ rr_record <$> PersistQ_read t0 t1 (qc_queue c) g = Ok (d ++ partition_content n (route n d) l2).
Proof.
  intros Hinv Hsplit Hd Hg. pose proof (qi_parts _ _ _ _ Hinv) as Hn.
  destruct (qi_managers _ _ _ _ Hinv _ (route_range n d ltac:(lia))) as (m & Hm & [(s & Hsegs & Hs & _) _ _]).
  unfold PersistQ_read. rewrite Hg. cbn [ok_or mbind outcome_bind om_partition_id om_local_offset]. rewrite Hm.
  cbn [ok_or mbind outcome_bind]. unfold QManager_read. rewrite Hsegs.
  rewrite Hsplit, partition_content_app in Hs. rewrite (qread_from _ _ _ Hs).
  assert (partition_content n (route n d) (d :: l2) = d ++ partition_content n (route n d) l2) as ->.
  { unfold partition_content. by rewrite filter_cons, decide_True. }
  rewrite len_app. pose proof (len_nonneg (partition_content n (route n d) l2)).
  assert (0 < len d) by (destruct d; [done|rewrite len_cons; pose proof (len_nonneg d); lia]).
  by rewrite (proj2 (Z.leb_gt _ _)) by lia.
Qed.

(** No append waits for long: under the invariant a thread that has not
    returned can take its next step, which is one of four. *)
Definition remaining (t : qthread) : nat :=
  match t with
  | QStart _ => 4 | QTry _ _ => 3 | QAppended _ _ => 2 | QNumbered _ _ _ => 1
  | QDone _ _ => 0 | QSlow _ | QLocked _ => 5
  end.

Lemma inv_qstep n log ws c i t :
  queue_inv n log ws c → qc_threads c !! i = Some t → (0 < remaining t)%nat →
  ∃ c' t', qstep i c = Some c' ∧ qc_threads c' = <[i := t']> (qc_threads c) ∧
    payload t' = payload t ∧ S (remaining t') = remaining t.
Proof.
  intros Hinv Hi Ht. pose proof (Forall_lookup_1 _ _ _ _ (qi_threads _ _ _ _ Hinv) Hi) as Hok.
  unfold qstep. rewrite Hi. cbn [mbind option_bind].
  destruct t as [d|d k|d|d|d off|d off g|d res]; cbn [thread_ok] in Hok; try done; [| |by repeat eexists..|simpl in Ht; lia].
  - destruct (inv_room _ _ _ _ _ _ Hinv Hi I) as (m & Hp & Hm & Hr & Hfit). cbn [payload] in *.
    cbn [qstep_thread payload]. rewrite Hp, Hm. cbn [manager_step mbind option_bind].
    rewrite (repr_has_space _ _ _ _ Hr (qi_size _ _ _ _ Hinv) Hfit). by repeat eexists.
  - subst k. destruct (inv_room _ _ _ _ _ _ Hinv Hi I) as (m & Hp & Hm & Hr & Hfit). cbn [payload] in *.
    destruct (repr_try i (qc_locks c !! route n d) m _ _ _ Hr (qi_size _ _ _ _ Hinv) Hfit) as (m' & Hst & Hr').
    cbn [qstep_thread payload]. rewrite Hp, Hm. cbn [mbind option_bind]. rewrite Hst. by repeat eexists.
Qed.

(** The invariant holds of what is reachable. *)
Lemma queue_inv_reachable q log ds c :
  let n := num_partitions (pq_config q) in
  queue_repr q log → len log + len ds < 2 ^ 64 →
  (∀ p, 1 ≤ p ≤ n → len (partition_content n p (log ++ ds)) ≤ segment_size (pq_config q)) →
  rtc qconc_step (start_appends q ds) c → ∃ ws, queue_inv n log ws c.
Proof.
  intros n Hq Hb Hroom. apply (rtc_invariant qconc_step (λ c, ∃ ws, queue_inv n log ws c)).
  - intros c1 c2 [ws Hinv] Hs. by eapply queue_inv_step.
  - exists []. by apply queue_inv_start.
Qed.
End lemmas.

(** ** Properties *)
Section properties.
Context `{Crc32Ok} `{OsOk}.

(** C7. Concurrent appends are linearizable in the order in which they get
    their places: from a queue that holds the sequence [log], when the payloads
    of any number of threads fit in their partitions, in every reachable state
    the partitions hold [log] followed by the placed payloads in some order
    [ws]; every append that has returned succeeded, under a global offset of
    its own that had not been used; if its payload is not empty, that offset
    reads back the payload followed by the later ones of its partition in that
    order (an empty payload can be the last of its partition, and then a read
    fails as out of bounds); and the offsets of [log] still map to their places. *)
Theorem appends_linearize q log ds c :
  let n := num_partitions (pq_config q) in
  queue_repr q log → len log + len ds < 2 ^ 64 →
  (∀ p, 1 ≤ p ≤ n → len (partition_content n p (log ++ ds)) ≤ segment_size (pq_config q)) →
  rtc qconc_step (start_appends q ds) c →
  ∃ ws, ws ≡ₚ map payload (filter (λ t, Is_true (has_place t)) (qc_threads c)) ∧
    (∀ p, 1 ≤ p ≤ n → ∃ m, segment_managers (qc_queue c) !! p = Some m ∧
       qmgr_repr m (segment_size (pq_config (qc_queue c))) (partition_content n p (log ++ ws))) ∧
    (∀ i d res, qc_threads c !! i = Some (QDone d res) → ∃ g l1 l2, res = Ok g ∧ len log ≤ g ∧
       log ++ ws = l1 ++ d :: l2 ∧
       (d ≠ [] → ∀ t0 t1, qr_data ∘ rr_record <$> PersistQ_read t0 t1 (qc_queue c) g =
          Ok (d ++ partition_content n (route n d) l2))) ∧
    (∀ i j d d' g, qc_threads c !! i = Some (QDone d (Ok g)) → qc_threads c !! j = Some (QDone d' (Ok g)) → i = j) ∧
    (∀ i, 0 ≤ i < len log → offset_map (qc_queue c) !! i = place n log (Z.to_nat i)).
Proof.
  intros n Hq Hb Hroom Hc.
  destruct (queue_inv_reachable q log ds c Hq Hb Hroom Hc) as [ws Hinv].
  exists ws. split; [apply (qi_ws _ _ _ _ Hinv)|]. split; [apply (qi_managers _ _ _ _ Hinv)|]. split_and!.
  - intros i d res Hi. pose proof (Forall_lookup_1 _ _ _ _ (qi_threads _ _ _ _ Hinv) Hi) as Hok.
    destruct res as [g| |]; [|done..]. destruct Hok as (off & Hg & l1 & l2 & Hsplit & ->).
    exists g, l1, l2. split; [done|]. split; [by apply (no_range _ _ _ (qi_numbers _ _ _ _ Hinv) i _ g Hi)|].
    split; [done|]. intros Hd t0 t1. by apply (inv_read n log ws c g l1).
  - intros i j d d' g Hi Hj. by apply (no_distinct _ _ _ (qi_numbers _ _ _ _ Hinv) i j _ _ g Hi Hj).
  - apply (qi_log _ _ _ _ Hinv).
Qed.
End properties.

(** ** Concrete executions *)

(** Global offsets need not follow the order of the places: the payload stored
    first can get the later offset, and reading it returns the other one too. *)
Lemma offsets_out_of_order :
  ∃ c, rtc qconc_step (start_appends (sample_queue 1) [str_bytes "ab"; str_bytes "cd"]) c ∧
    qc_threads c = [QDone (str_bytes "ab") (Ok 1); QDone (str_bytes "cd") (Ok 0)] ∧
    qr_data ∘ rr_record <$> PersistQ_read 0 0 (qc_queue c) 0 = Ok (str_bytes "cd") ∧
    qr_data ∘ rr_record <$> PersistQ_read 0 0 (qc_queue c) 1 = Ok (str_bytes "abcd").
Proof.
  destruct (run_qschedule [0; 1; 0; 1; 1; 0; 1; 0]%nat (start_appends (sample_queue 1) [str_bytes "ab"; str_bytes "cd"]))
    as [c|] eqn:Hrun; [|by vm_compute in Hrun].
  exists c. split; [by eapply run_qschedule_steps|]. vm_compute in Hrun. injection Hrun as <-. split_and!; by vm_compute.
Qed.

Lemma appends_linearize_witness :
  ∃ c ws, rtc qconc_step (start_appends (sample_queue 1) [str_bytes "ab"; str_bytes "cd"]) c ∧
    qc_threads c = [QDone (str_bytes "ab") (Ok 1); QDone (str_bytes "cd") (Ok 0)] ∧
    ws ≡ₚ [str_bytes "ab"; str_bytes "cd"].
Proof.
  destruct (run_qschedule [0; 1; 0; 1; 1; 0; 1; 0]%nat (start_appends (sample_queue 1) [str_bytes "ab"; str_bytes "cd"]))
    as [c|] eqn:Hrun; [|by vm_compute in Hrun].
  pose proof (run_qschedule_steps _ _ _ Hrun) as Hc.
  destruct (appends_linearize (sample_queue 1) [] [str_bytes "ab"; str_bytes "cd"] c sample_queue_repr) as (ws & Hws & _);
    [by vm_compute|intros p Hp; assert (p = 1) as -> by (change (num_partitions (pq_config (sample_queue 1))) with 1 in Hp; lia); by vm_compute|exact Hc|].
  exists c, ws. split; [exact Hc|]. vm_compute in Hrun. injection Hrun as <-.
  split; [reflexivity|exact Hws].
Defined.
