(* ===== verification/QueuePerf.v ===== *)
(** * The queue's measurements (src/src/persistq.rs, modules [perf] and
    [large_scale_test])

    Latency percentiles, the append and read measurements, and the test that
    appends ten million numbers and reads them back.  The clock readings are
    arguments; what is printed is not modelled. *)

From stdpp Require Import base list list_numbers sorting numbers strings gmap sets pretty.
From Stdlib Require Import Strings.Byte.
From coqutil Require Import Byte.
From S2P Require Import Prelude Crc32 F64 StorageEngine PersistQueue.
Local Open Scope Z_scope.

(** ** Definitions *)

(** Source: src/src/persistq.rs:616-629 (PerfResults) *)
Record PerfResults := mkPerf {
  pr_test_name : string; pr_duration_ms : Z; pr_operations : Z;
  pr_throughput_ops_sec : f64; pr_avg_latency_us : f64;
  pr_p50_latency_us : f64; pr_p95_latency_us : f64; pr_p99_latency_us : f64;
  pr_total_bytes : Z; pr_throughput_mb_sec : f64 }.

(** [(operations as f64 * p) as usize]
    Source: src/src/persistq.rs:642-644 (PerfResults::new, ranks) *)
Definition rank (operations : Z) (p : f64) : nat :=
  Z.to_nat (f64_as_u64 (f64_mul (f64_of_int operations) p)).

(** The latencies in ascending order; indexing past their end panics.
    Source: src/src/persistq.rs:638-644 (PerfResults::new, percentiles) *)
Definition percentile (latencies : list Z) (p : f64) : option Z :=
  merge_sort Z.le latencies !! rank (len latencies) p.

(** Source: src/src/persistq.rs:632-658 (PerfResults::new) *)
Definition PerfResults_new (test_name : string) (latencies : list Z) (total_bytes duration_ms : Z)
    : outcome string PerfResults :=
  let operations := len latencies in
  let seconds := f64_div (f64_of_int duration_ms) (f64_of_int 1000) in
  let throughput_ops_sec := f64_div (f64_of_int operations) seconds in
  let throughput_mb_sec :=
    f64_div (f64_div (f64_of_int total_bytes) (f64_of_int (1024 * 1024))) seconds in
  let avg_latency_us := f64_div (f64_of_int (sum_u64 (λ x, x) latencies)) (f64_of_int operations) in
  p50 ← unwrap (percentile latencies (f64_lit 1 2));
  p95 ← unwrap (percentile latencies (f64_lit 95 100));
  p99 ← unwrap (percentile latencies (f64_lit 99 100));
  Ok {| pr_test_name := test_name; pr_duration_ms := duration_ms; pr_operations := operations;
        pr_throughput_ops_sec := throughput_ops_sec; pr_avg_latency_us := avg_latency_us;
        pr_p50_latency_us := f64_of_int p50; pr_p95_latency_us := f64_of_int p95;
        pr_p99_latency_us := f64_of_int p99;
        pr_total_bytes := total_bytes; pr_throughput_mb_sec := throughput_mb_sec |}.

(** The clock readings, in microseconds, around the [i]-th operation of a loop. *)
Definition clock := nat → Z * Z.
Definition latency (t : clock) (i : nat) : Z := saturating_sub (t i).2 (t i).1.

Section perf.
Context `{Crc32} `{Os}.

(** Source: src/src/persistq.rs:738-743 (perf_test_append, loop) *)
Fixpoint append_ops (fuel : nat) (t : clock) (q : PersistQ) (data : bytes) (i n : nat)
    (latencies : list Z) : option (PersistQ * outcome string (list Z)) :=
  match n with
  | O => Some (q, Ok latencies)
  | S n =>
      '(q, result) ← PersistQ_append fuel (t i).1 (t i).2 q data;
      match result with
      | Ok _ => append_ops fuel t q data (S i) n (latencies ++ [latency t i])
      | Err e => Some (q, Err e)
      | Panic => Some (q, Panic)
      end
  end.

(** Source: src/src/persistq.rs:733-749 (perf_test_append) *)
Definition perf_test_append (fuel : nat) (t : clock) (duration_ms : Z) (q : PersistQ) (data : bytes)
    (num_operations : nat) : option (PersistQ * outcome string PerfResults) :=
  '(q, latencies) ← append_ops fuel t q data 0 num_operations [];
  Some (q, l ← latencies;
    PerfResults_new "Append" l (u64 (usize (len data * Z.of_nat num_operations))) duration_ms).

(** Source: src/src/persistq.rs:757-763 (perf_test_read, loop) *)
Fixpoint read_ops (t : clock) (q : PersistQ) (i n : nat) (latencies : list Z) (total_bytes : Z)
    : outcome string (list Z * Z) :=
  match n with
  | O => Ok (latencies, total_bytes)
  | S n =>
      result ← PersistQ_read (t i).1 (t i).2 q (Z.of_nat i);
      read_ops t q (S i) n (latencies ++ [latency t i])
        (u64 (total_bytes + len (qr_data (rr_record result))))
  end.

(** Source: src/src/persistq.rs:751-768 (perf_test_read) *)
Definition perf_test_read (t : clock) (duration_ms : Z) (q : PersistQ) (num_operations : nat)
    : outcome string PerfResults :=
  '(latencies, total_bytes) ← read_ops t q 0 num_operations [] 0;
  PerfResults_new "Read" latencies total_bytes duration_ms.

(** One test configuration: append, then read back half as many.
    Source: src/src/persistq.rs:704-717 (run_performance_tests, one configuration) *)
Definition perf_config (fuel : nat) (ta tr : clock) (da dr : Z) (q : PersistQ)
    (num_operations : nat) (record_size : Z) : option (PersistQ * outcome string (list PerfResults)) :=
  let test_data := replicate (Z.to_nat record_size) (byte.of_Z 42) in
  '(q, append_results) ← perf_test_append fuel ta da q test_data num_operations;
  Some (q, a ← append_results; r ← perf_test_read tr dr q (num_operations / 2); Ok [a; r]).

(** Source: src/src/persistq.rs:704-717 (run_performance_tests, loop) *)
Fixpoint perf_configs (fuel : nat) (times : list (clock * clock * Z * Z)) (q : PersistQ)
    (configs : list (nat * Z)) (all_results : list PerfResults)
    : option (PersistQ * outcome string (list PerfResults)) :=
  match configs, times with
  | (n, size) :: configs, (ta, tr, da, dr) :: times =>
      '(q, results) ← perf_config fuel ta tr da dr q n size;
      match results with
      | Ok rs => perf_configs fuel times q configs (all_results ++ rs)
      | Err e => Some (q, Err e)
      | Panic => Some (q, Panic)
      end
  | _, _ => Some (q, Ok all_results)
  end.
End perf.

(** Source: src/src/persistq.rs:679-689 (run_performance_tests, configuration) *)
Definition perf_queue_config : PersistQConfig :=
  {| storage_dir := "/tmp/persistq_perf"; segment_size := 64 * 1024 * 1024; num_partitions := 8;
     replication_factor := 1;
     cache_config := {| cc_enabled := false; cc_size_bytes := 0; hot_data_threshold := f64_of_int 0 |} |}.
(** Source: src/src/persistq.rs:695-700 (run_performance_tests, configurations) *)
Definition test_configs : list (nat * Z) :=
  [(1000%nat, 1024); (1000%nat, 4096); (500%nat, 65536); (200%nat, 262144)].

Section suites.
Context `{Crc32} `{Os} `{Fs}.

(** Source: src/src/persistq.rs:674-731 (run_performance_tests) *)
Definition run_performance_tests (fuel : nat) (times : list (clock * clock * Z * Z))
    : option (outcome string (list PerfResults)) :=
  match PersistQ_new perf_queue_config with
  | Ok q =>
      '(q, results) ← perf_configs fuel times q test_configs [];
      Some (r ← results; _ ← PersistQ_shutdown q; Ok r)
  | Err e => Some (Err e)
  | Panic => Some Panic
  end.

(** *** The large-scale test *)

(** Source: src/src/persistq.rs:841-852 (LargeScaleTestResult) *)
Record LargeScaleTestResult := mkLarge {
  ls_total_numbers : Z; ls_append_duration_ms : Z; ls_append_throughput : f64;
  ls_verification_duration_ms : Z; ls_verification_correct : bool; ls_repeated_reads : Z;
  ls_read_durations : list Z; ls_memory_usage_mb : f64 }.

(** The linear congruential numbers.
    Source: src/src/persistq.rs:879-887 (test_10m_random_numbers, numbers) *)
Definition random_number (i : Z) : Z := u64 (u64 (1664525 * i) + 1013904223) `mod` 2 ^ 32.
Definition random_numbers (total : Z) : list Z := map random_number (seqZ 0 total).

(** Source: src/src/persistq.rs:896-908 (test_10m_random_numbers, append) *)
Fixpoint append_numbers (fuel : nat) (t : clock) (i : nat) (q : PersistQ) (numbers global_offsets : list Z)
    : option (PersistQ * outcome string (list Z)) :=
  match numbers with
  | [] => Some (q, Ok global_offsets)
  | number :: numbers =>
      '(q, result) ← PersistQ_append fuel (t i).1 (t i).2 q (to_le_bytes 8 number);
      match result with
      | Ok r => append_numbers fuel t (S i) q numbers (global_offsets ++ [ar_global_offset r])
      | Err e => Some (q, Err e)
      | Panic => Some (q, Panic)
      end
  end.

(** The read-back: whether every record had eight bytes, and the numbers.
    Source: src/src/persistq.rs:919-936 (test_10m_random_numbers, read back) *)
Fixpoint verify_numbers (t : clock) (i : nat) (q : PersistQ) (global_offsets : list Z) (retrieved : gset Z)
    : outcome string (bool * gset Z) :=
  match global_offsets with
  | [] => Ok (true, retrieved)
  | global_offset :: global_offsets =>
      read_result ← PersistQ_read (t i).1 (t i).2 q global_offset;
      let data := qr_data (rr_record read_result) in
      if decide (len data = 8) then
        verify_numbers t (S i) q global_offsets ({[ from_le_bytes (take 8 data) ]} ∪ retrieved)
      else Ok (false, retrieved)
  end.

(** Every 1000th offset.
    Source: src/src/persistq.rs:959-961 (test_10m_random_numbers, repeated reads) *)
Fixpoint read_subset (t : clock) (q : PersistQ) (i : nat) (global_offsets : list Z) : outcome string unit :=
  match global_offsets with
  | [] => Ok tt
  | global_offset :: global_offsets =>
      if (i mod 1000 =? 0)%nat then
        _ ← PersistQ_read (t i).1 (t i).2 q global_offset; read_subset t q (S i) global_offsets
      else read_subset t q (S i) global_offsets
  end.
(** Source: src/src/persistq.rs:955-966 (test_10m_random_numbers, iterations) *)
Fixpoint repeat_reads (t : clock) (q : PersistQ) (global_offsets durations : list Z) : outcome string (list Z) :=
  match durations with
  | [] => Ok []
  | read_duration :: durations =>
      _ ← read_subset t q 0 global_offsets;
      rest ← repeat_reads t q global_offsets durations; Ok (read_duration :: rest)
  end.

(** Source: src/src/persistq.rs:860-870 (test_10m_random_numbers, configuration) *)
Definition large_config : PersistQConfig :=
  {| storage_dir := "/tmp/persistq_10m_test"; segment_size := 512 * 1024 * 1024; num_partitions := 16;
     replication_factor := 1;
     cache_config := {| cc_enabled := false; cc_size_bytes := 0; hot_data_threshold := f64_of_int 0 |} |}.

(** The part after the queue is open; [total] stands for the constant
    10,000,000, and [read_ms] holds the ten durations of the repeated reads.
    Source: src/src/persistq.rs:879-987 (test_10m_random_numbers, queue) *)
Definition test_on_queue (fuel : nat) (total : Z) (ta tv tr : clock) (append_ms verification_ms : Z)
    (read_ms : list Z) (q : PersistQ) : option (outcome string LargeScaleTestResult) :=
  let numbers := random_numbers total in
  let original_set : gset Z := list_to_set numbers in
  '(q, appended) ← append_numbers fuel ta 0 q numbers [];
  Some (
    global_offsets ← appended;
    '(complete, retrieved) ← verify_numbers tv 0 q global_offsets ∅;
    let verification_correct := complete && bool_decide (retrieved = original_set) in
    if negb verification_correct then Err "Data verification failed" else
    read_durations ← repeat_reads tr q global_offsets (take 10 read_ms);
    let memory_usage_mb :=
      f64_div (f64_of_int (usize (Z.of_nat (size (segment_managers q)) * segment_size (pq_config q))))
        (f64_of_int (1024 * 1024)) in
    _ ← PersistQ_shutdown q;
    Ok {| ls_total_numbers := total; ls_append_duration_ms := append_ms;
          ls_append_throughput :=
            f64_div (f64_of_int total) (f64_div (f64_of_int append_ms) (f64_of_int 1000));
          ls_verification_duration_ms := verification_ms;
          ls_verification_correct := verification_correct; ls_repeated_reads := 10;
          ls_read_durations := read_durations; ls_memory_usage_mb := memory_usage_mb |}).

(** Source: src/src/persistq.rs:854-987 (test_10m_random_numbers) *)
Definition test_random_numbers (fuel : nat) (total : Z) (ta tv tr : clock) (append_ms verification_ms : Z)
    (read_ms : list Z) : option (outcome string LargeScaleTestResult) :=
  match PersistQ_new large_config with
  | Ok q => test_on_queue fuel total ta tv tr append_ms verification_ms read_ms q
  | Err e => Some (Err e)
  | Panic => Some Panic
  end.
Definition test_10m_random_numbers (fuel : nat) := test_random_numbers fuel 10000000.
End suites.

(** ** Percentiles *)

(** The floating-point ranks are the integer quotients, up to 1000 operations
    (the most a test configuration runs). *)
Definition ranks_exact (n : Z) : bool :=
  (rank n (f64_lit 1 2) =? Z.to_nat (n `div` 2))%nat &&
  (rank n (f64_lit 95 100) =? Z.to_nat ((n * 95) `div` 100))%nat &&
  (rank n (f64_lit 99 100) =? Z.to_nat ((n * 99) `div` 100))%nat.
Lemma ranks_exact_1000 : forallb ranks_exact (seqZ 1 1000) = true.
Proof. vm_compute. reflexivity. Qed.

Lemma rank_exact n :
  1 ≤ n ≤ 1000 →
  rank n (f64_lit 1 2) = Z.to_nat (n `div` 2) ∧ rank n (f64_lit 95 100) = Z.to_nat ((n * 95) `div` 100) ∧
  rank n (f64_lit 99 100) = Z.to_nat ((n * 99) `div` 100).
Proof.
  intros Hn. pose proof (proj1 (forallb_forall _ _) ranks_exact_1000 n) as Hr.
  assert (In n (seqZ 1 1000)) as Hin by (apply list_elem_of_In, elem_of_seqZ; lia).
  specialize (Hr Hin). unfold ranks_exact in Hr.
  apply andb_true_iff in Hr as [[H1 H2]%andb_true_iff H3]. by rewrite !Nat.eqb_eq in *.
Qed.

(** The element of rank [k] in the sorted list. *)
Lemma sorted_rank (l : list Z) (k : nat) :
  (k < length l)%nat → ∃ x : Z, merge_sort Z.le l !! k = Some x ∧ x ∈ l ∧
    (S k ≤ length (filter (λ y, (y ≤ x)%Z) l))%nat ∧ (length (filter (λ y, (y < x)%Z) l) ≤ k)%nat.
Proof.
  intros Hk. pose proof (merge_sort_Permutation Z.le l) as Hp.
  pose proof (StronglySorted_merge_sort Z.le l) as Hs.
  set (s := merge_sort Z.le l) in *. clearbody s.
  rewrite <- (Permutation_length Hp) in Hk.
  destruct (lookup_lt_is_Some_2 s k Hk) as [x Hx]. exists x. split; [done|].
  split. { rewrite <- Hp. by eapply list_elem_of_lookup_2. }
  rewrite <- (Permutation_length (filter_Permutation (λ y, (y ≤ x)%Z) _ _ Hp)),
    <- (Permutation_length (filter_Permutation (λ y, (y < x)%Z) _ _ Hp)).
  clear Hp l. revert k x Hk Hx. induction Hs as [|y s Hs IH Hy]; intros k x Hk Hx; [done|].
  destruct k as [|k]; simpl in *.
  - injection Hx as ->. rewrite !filter_cons, decide_True, decide_False by lia. split; [simpl; lia|].
    assert (filter (λ z, z < x) s = []) as ->; [|done].
    clear -Hy. induction Hy as [|z s Hz _ IH]; [done|]. rewrite filter_cons, decide_False by lia. done.
  - destruct (IH k x) as [IH1 IH2]; [lia|done|].
    assert (y ≤ x) by (eapply (Forall_lookup_1 _ _ _ _ Hy Hx)).
    rewrite !filter_cons. rewrite (decide_True _ _ H). destruct (decide (y < x)); simpl; lia.
Qed.

(** [x] is the [p]-th percentile of [l]: it is in [l], more than [p] percent of
    [l] is at most [x], and at most [p] percent is below. *)
Definition is_percentile (l : list Z) (p : Z) (x : Z) : Prop :=
  x ∈ l ∧ p * len l < 100 * len (filter (λ y, y ≤ x) l) ∧ 100 * len (filter (λ y, y < x) l) ≤ p * len l.

Lemma percentile_spec l f p :
  0 ≤ p < 100 → 0 < len l → rank (len l) f = Z.to_nat ((len l * p) `div` 100) →
  ∃ x, percentile l f = Some x ∧ is_percentile l p x.
Proof.
  intros Hp Hl Hr. unfold percentile. rewrite Hr.
  pose proof (Z.div_mod (len l * p) 100) as Hdm. pose proof (Z.mod_pos_bound (len l * p) 100).
  assert (0 ≤ (len l * p) `div` 100 < len l) as Hk.
  { split; [apply Z.div_pos; lia|apply Z.div_lt_upper_bound; nia]. }
  destruct (sorted_rank l (Z.to_nat ((len l * p) `div` 100))) as (x & Hx & Hin & Hle & Hlt); [unfold len in *; lia|].
  exists x. split; [done|]. split; [done|]. unfold len in *. lia.
Qed.

(** The report of the latencies of [m] operations. *)
Lemma PerfResults_counts name t m b ms :
  (1 ≤ m ≤ 1000)%nat → ∃ r, PerfResults_new name (map (latency t) (seq 0 m)) b ms = Ok r ∧
    pr_operations r = Z.of_nat m ∧ pr_total_bytes r = b.
Proof.
  intros Hm. assert (len (map (latency t) (seq 0 m)) = Z.of_nat m) as Hlen
    by (unfold len; by rewrite length_map, length_seq).
  unfold PerfResults_new. rewrite Hlen. destruct (rank_exact (Z.of_nat m) ltac:(lia)) as (R50 & R95 & R99).
  assert (∀ f p, rank (Z.of_nat m) f = Z.to_nat p → 0 ≤ p < Z.of_nat m →
    ∃ x, percentile (map (latency t) (seq 0 m)) f = Some x) as Hp.
  { intros f p Hr Hp. unfold percentile. rewrite Hlen, Hr.
    destruct (sorted_rank (map (latency t) (seq 0 m)) (Z.to_nat p)) as (x & Hx & _);
      [rewrite length_map, length_seq; lia|by exists x]. }
  destruct (Hp _ _ R50 ltac:(Z.to_euclidean_division_equations; lia)) as [? ->].
  destruct (Hp _ _ R95 ltac:(Z.to_euclidean_division_equations; lia)) as [? ->].
  destruct (Hp _ _ R99 ltac:(Z.to_euclidean_division_equations; lia)) as [? ->].
  eexists. split; [reflexivity|]. done.
Qed.

(** ** Measuring appends and reads *)
Section perf_lemmas.
Context `{Crc32Ok} `{OsOk}.

Lemma content_replicate n d k : partition_content n (route n d) (replicate k d) = concat (replicate k d).
Proof.
  unfold partition_content. f_equal. induction k as [|k IH]; [done|].
  simpl. rewrite filter_cons, decide_True by done. by rewrite IH.
Qed.
Lemma len_concat_replicate {A} (d : list A) k : len (concat (replicate k d)) = Z.of_nat k * len d.
Proof. induction k as [|k IH]; [done|]. simpl. rewrite len_app, IH. lia. Qed.

Lemma append_ops_ok k fuel t q d i n l :
  queue_repr q (replicate k d) → Z.of_nat (k + n) < 2 ^ 63 →
  Z.of_nat (k + n) * len d ≤ segment_size (pq_config q) →
  ∃ q', append_ops (S fuel) t q d i n l = Some (q', Ok (l ++ map (latency t) (seq i n))) ∧
    queue_repr q' (replicate (k + n) d) ∧ pq_config q' = pq_config q.
Proof.
  revert k q i l. induction n as [|n IH]; intros k q i l Hq Hk Hfit.
  - exists q. cbn [append_ops seq map]. by rewrite Nat.add_0_r, app_nil_r.
  - destruct (queue_append q (replicate k d) d fuel (t i).1 (t i).2 Hq) as (q1 & Ha & Hq1 & Hc1).
    { unfold len. rewrite length_replicate. lia. }
    { rewrite content_replicate, len_concat_replicate. pose proof (len_nonneg d). nia. }
    rewrite <- (replicate_S_end k d) in Hq1.
    destruct (IH (S k) q1 (S i) (l ++ [latency t i]) Hq1) as (q' & Ha' & Hq' & Hc');
      [lia|rewrite Hc1; replace (S k + n)%nat with (k + S n)%nat by lia; done|].
    exists q'. replace (k + S n)%nat with (S k + n)%nat by lia. split; [|by rewrite Hc', Hc1].
    cbn [append_ops]. rewrite Ha. cbn [mbind option_bind]. rewrite Ha'. cbn [seq map]. by rewrite <- app_assoc.
Qed.

(** A read returns everything from its record on. *)
Lemma read_copy q k d i t0 t1 :
  queue_repr q (replicate k d) → (i < k)%nat → 0 < len d →
  qr_data ∘ rr_record <$> PersistQ_read t0 t1 q (Z.of_nat i) = Ok (concat (replicate (k - i) d)).
Proof.
  intros Hq Hi Hd. rewrite (queue_read q _ _ _ _ Hq) by lia. rewrite Nat2Z.id, lookup_replicate_2 by done.
  cbv zeta. rewrite drop_replicate, content_replicate, len_concat_replicate.
  rewrite (proj2 (Z.leb_gt _ _)) by nia. done.
Qed.

Fixpoint suffix_bytes (k i n : nat) (size : Z) : Z :=
  match n with O => 0 | S n => Z.of_nat (k - i) * size + suffix_bytes k (S i) n size end.
Lemma suffix_bytes_closed k i n size :
  (i + n ≤ k)%nat → 2 * suffix_bytes k i n size = Z.of_nat n * (2 * Z.of_nat (k - i) - Z.of_nat n + 1) * size.
Proof.
  revert i. induction n as [|n IH]; intros i Hn; [done|]. cbn [suffix_bytes].
  rewrite Z.mul_add_distr_l, IH by lia. rewrite !Nat2Z.inj_sub, !Nat2Z.inj_succ by lia. ring.
Qed.

Lemma read_ops_ok q k d t i n l total :
  queue_repr q (replicate k d) → 0 < len d → (i + n ≤ k)%nat → 0 ≤ total →
  total + suffix_bytes k i n (len d) < 2 ^ 64 →
  read_ops t q i n l total = Ok (l ++ map (latency t) (seq i n), total + suffix_bytes k i n (len d)).
Proof.
  intros Hq Hd. revert i l total. induction n as [|n IH]; intros i l total Hn Ht Hb; cbn [read_ops seq map suffix_bytes] in *.
  - by rewrite app_nil_r, Z.add_0_r.
  - pose proof (read_copy q k d i (t i).1 (t i).2 Hq ltac:(lia) Hd) as Hr.
    destruct (PersistQ_read _ _ q (Z.of_nat i)) as [rd| |]; [|done..]. injection Hr as Hr. cbn [mbind outcome_bind].
    rewrite Hr, len_concat_replicate. pose proof (suffix_bytes_closed k (S i) n (len d)).
    rewrite wrap_id by (unfold in_range; nia). rewrite IH by (try done; nia).
    rewrite <- app_assoc. f_equal. f_equal. lia.
Qed.
End perf_lemmas.

(** ** The large-scale test *)
Section large_lemmas.
Context `{Crc32Ok} `{OsOk}.

Definition number_bytes (numbers : list Z) : list bytes := map (to_le_bytes 8) numbers.

Lemma len_partition_content n p log : len (partition_content n p log) ≤ zsum len log.
Proof.
  unfold partition_content. induction log as [|d log IH]; [done|]. rewrite filter_cons. pose proof (len_nonneg d).
  destruct (decide _); simpl; rewrite ?len_app; lia.
Qed.
Lemma zsum_number_bytes numbers : zsum len (number_bytes numbers) = 8 * len numbers.
Proof.
  induction numbers as [|x l IH]; [done|]. change (number_bytes (x :: l)) with (to_le_bytes 8 x :: number_bytes l).
  simpl. rewrite IH, len_to_le_bytes, len_cons. lia.
Qed.

(** Every append succeeds, and the offsets are consecutive. *)
Lemma append_numbers_ok numbers fuel t i q log offsets :
  queue_repr q log → len log + len numbers < 2 ^ 63 →
  zsum len log + 8 * len numbers ≤ segment_size (pq_config q) →
  ∃ q', append_numbers (S fuel) t i q numbers offsets =
      Some (q', Ok (offsets ++ seqZ (len log) (len numbers))) ∧
    queue_repr q' (log ++ number_bytes numbers) ∧ pq_config q' = pq_config q.
Proof.
  revert i q log offsets. induction numbers as [|x numbers IH]; intros i q log offsets Hq Hc Hfit.
  - exists q. cbn [append_numbers]. change (seqZ (len log) (len [])) with (@nil Z).
    unfold number_bytes. cbn [map]. by rewrite !app_nil_r.
  - rewrite len_cons in *. pose proof (len_nonneg numbers).
    pose proof (len_partition_content (num_partitions (pq_config q))
      (route (num_partitions (pq_config q)) (to_le_bytes 8 x)) log).
    destruct (queue_append q log (to_le_bytes 8 x) fuel (t i).1 (t i).2 Hq) as (q1 & Ha & Hq1 & Hc1);
      [lia|rewrite len_to_le_bytes; lia|].
    destruct (IH (S i) q1 _ (offsets ++ [len log]) Hq1) as (q' & Ha' & Hq' & Hc').
    { rewrite len_app, len_cons. change (@len bytes []) with 0. lia. }
    { rewrite Hc1, zsum_app. simpl. rewrite len_to_le_bytes. lia. }
    exists q'. split; [|split; [|by rewrite Hc', Hc1]].
    + cbn [append_numbers]. rewrite Ha. cbn [mbind option_bind ar_global_offset]. rewrite Ha'.
      rewrite <- app_assoc, len_app, len_cons. change (@len bytes []) with 0.
      rewrite (seqZ_cons (len log)) by lia. simpl.
      by replace (Z.pred (1 + len numbers)) with (len numbers) by lia.
    + by rewrite <- app_assoc in Hq'.
Qed.

(** When two payloads share a partition, the first reads back too long. *)
Lemma verify_numbers_fails q log k t i retrieved :
  queue_repr q log → Forall (λ d, len d = 8) log → (k ≤ length log)%nat →
  ¬ NoDup (map (route (num_partitions (pq_config q))) (drop k log)) →
  ∃ retrieved', verify_numbers t i q (seqZ (Z.of_nat k) (len log - Z.of_nat k)) retrieved = Ok (false, retrieved').
Proof.
  intros Hq H8. remember (length log - k)%nat as m eqn:Hm. revert k i retrieved Hm.
  induction m as [|m IH]; intros k i retrieved Hm Hk Hdup.
  { destruct Hdup. rewrite drop_ge by lia. constructor. }
  destruct (lookup_lt_is_Some_2 log k) as [d Hd]; [lia|].
  rewrite (drop_S log d k Hd) in Hdup. cbn [map] in Hdup.
  rewrite seqZ_cons by (unfold len; lia). cbn [verify_numbers].
  rewrite (queue_read _ _ _ _ _ Hq) by lia. rewrite Nat2Z.id, Hd, (drop_S log d k Hd). cbv zeta.
  set (n := num_partitions (pq_config q)) in *.
  assert (partition_content n (route n d) (d :: drop (S k) log) = d ++ partition_content n (route n d) (drop (S k) log)) as ->.
  { unfold partition_content. by rewrite filter_cons, decide_True by done. }
  rewrite len_app. pose proof (Forall_lookup_1 _ _ _ _ H8 Hd) as Hl. cbv beta in Hl.
  pose proof (len_nonneg (partition_content n (route n d) (drop (S k) log))).
  rewrite (proj2 (Z.leb_gt _ _)) by lia. cbn [mbind outcome_bind rr_record qr_data].
  destruct (decide _) as [He|Hne]; [|by eexists].
  rewrite len_app in He.
  replace (Z.pred (len log - Z.of_nat k)) with (len log - Z.of_nat (S k)) by lia.
  replace (Z.succ (Z.of_nat k)) with (Z.of_nat (S k)) by lia.
  apply IH; [lia|lia|]. intros Hnd. apply Hdup. constructor; [|done].
  intros (d' & Hr & Hin)%list_elem_of_fmap.
  apply list_elem_of_split in Hin as (l1 & l2 & Hsplit).
  rewrite Hsplit in He. rewrite partition_content_app in He.
  unfold partition_content at 2 in He. rewrite filter_cons, decide_True in He by done. cbn [concat] in He.
  rewrite !len_app in He.
  assert (len d' = 8) as Hd'.
  { pose proof (Forall_drop _ (S k) _ H8) as Hrest. rewrite Hsplit in Hrest.
    by apply Forall_app in Hrest as [_ [Hrest _]%Forall_cons]. }
  pose proof (len_nonneg (partition_content n (route n d) l1)).
  pose proof (len_nonneg (concat (filter (λ d0, route n d0 = route n d) l2))). lia.
Qed.

(** More payloads than partitions: two share one. *)
Lemma routes_collide n log : 1 ≤ n → n < len log → ¬ NoDup (map (route n) log).
Proof.
  intros Hn Hl Hnd. assert (map (route n) log ⊆+ seqZ 1 n) as Hsub%submseteq_length.
  { apply NoDup_submseteq; [done|]. intros p (d & -> & _)%list_elem_of_fmap.
    apply elem_of_seqZ. pose proof (route_range n d Hn). lia. }
  rewrite length_map, length_seqZ in Hsub. unfold len in Hl. lia.
Qed.

Lemma number_bytes_8 numbers : Forall (λ d, len d = 8) (number_bytes numbers).
Proof. apply Forall_fmap, Forall_true. intros x. apply len_to_le_bytes. Qed.

Lemma len_random_numbers total : 0 ≤ total → len (random_numbers total) = total.
Proof. intros Ht. unfold random_numbers, len. rewrite length_map, length_seqZ. lia. Qed.
End large_lemmas.

(** ** Properties *)
Section perf_properties.
Context `{Crc32Ok} `{OsOk} `{Fs}.

(** The measured latencies: for up to 1000 operations the report never
    indexes past the sorted latencies, and its three figures are the 50th,
    95th and 99th percentiles; with no operations it panics. *)
Lemma perf_percentiles name l total_bytes duration_ms :
  PerfResults_new name [] total_bytes duration_ms = Panic ∧
  (1 ≤ len l ≤ 1000 → ∃ r p50 p95 p99,
    PerfResults_new name l total_bytes duration_ms = Ok r ∧ pr_operations r = len l ∧
    pr_p50_latency_us r = f64_of_int p50 ∧ is_percentile l 50 p50 ∧
    pr_p95_latency_us r = f64_of_int p95 ∧ is_percentile l 95 p95 ∧
    pr_p99_latency_us r = f64_of_int p99 ∧ is_percentile l 99 p99).
Proof.
  split; [done|]. intros Hl. destruct (rank_exact (len l) Hl) as (R50 & R95 & R99).
  assert (len l `div` 2 = (len l * 50) `div` 100) as Hhalf.
  { change 100 with (2 * 50). by rewrite Z.div_mul_cancel_r by lia. }
  rewrite Hhalf in R50.
  destruct (percentile_spec l _ 50 ltac:(lia) ltac:(lia) R50) as (p50 & H50 & P50).
  destruct (percentile_spec l _ 95 ltac:(lia) ltac:(lia) R95) as (p95 & H95 & P95).
  destruct (percentile_spec l _ 99 ltac:(lia) ltac:(lia) R99) as (p99 & H99 & P99).
  eexists _, p50, p95, p99. unfold PerfResults_new. rewrite H50, H95, H99.
  split; [reflexivity|]. cbn. done.
Qed.

(** The read measurement counts bytes that were not asked for: after [n]
    appends of one payload to an empty queue, reading back the first [k]
    reports [k * (2n - k + 1) / 2] payloads' worth of bytes instead of [k]. *)
Lemma read_throughput_inflated q d n k ta tr ma mr fuel :
  queue_repr q [] → segment_size (pq_config q) ≤ MAX_SEGMENT_SIZE → 0 < len d →
  (1 ≤ k ≤ n)%nat → (n ≤ 1000)%nat → Z.of_nat n * len d ≤ segment_size (pq_config q) →
  ∃ q' a r, perf_test_append (S fuel) ta ma q d n = Some (q', Ok a) ∧
    pr_operations a = Z.of_nat n ∧ pr_total_bytes a = Z.of_nat n * len d ∧
    perf_test_read tr mr q' k = Ok r ∧ pr_operations r = Z.of_nat k ∧
    2 * pr_total_bytes r = Z.of_nat k * (2 * Z.of_nat n - Z.of_nat k + 1) * len d.
Proof.
  intros Hq Hmax Hd Hk Hn Hfit. unfold MAX_SEGMENT_SIZE in Hmax.
  destruct (append_ops_ok 0 fuel ta q d 0 n [] Hq ltac:(lia) Hfit) as (q' & Ha & Hq' & _).
  pose proof (suffix_bytes_closed n 0 k (len d) ltac:(lia)) as Hsum.
  pose proof (read_ops_ok q' n d tr 0 k [] 0 Hq' Hd ltac:(lia) ltac:(lia) ltac:(nia)) as Hr.
  destruct (PerfResults_counts "Append" ta n (u64 (usize (len d * Z.of_nat n))) ma) as (a & Hra & Hoa & Hba); [lia|].
  destruct (PerfResults_counts "Read" tr k (0 + suffix_bytes n 0 k (len d)) mr) as (r & Hrr & Hor & Hbr); [lia|].
  exists q', a, r. unfold perf_test_append, perf_test_read. rewrite Ha, Hr. cbn [mbind option_bind outcome_bind app].
  rewrite Hra, Hrr. split; [done|]. split; [done|]. split; [|split; [done|split; [done|]]].
  - rewrite Hba. rewrite (wrap_id _ (len d * Z.of_nat n)), wrap_id by (unfold in_range; lia). lia.
  - rewrite Hbr. replace (n - 0)%nat with n in Hsum by lia. lia.
Qed.

(** The read-back of the large-scale test finds a record longer than eight bytes. *)
Lemma large_scale_test_result fuel total ta tv tr append_ms verification_ms read_ms q :
  PersistQ_new large_config = Ok q → 16 < total ≤ 2 ^ 26 →
  test_random_numbers (S fuel) total ta tv tr append_ms verification_ms read_ms =
    Some (Err "Data verification failed").
Proof.
  intros Hnew Ht. unfold test_random_numbers. rewrite Hnew.
  destruct (queue_new_repr large_config q) as (Hq & Hn & Hs); [by vm_compute|by vm_compute|exact Hnew|].
  change (num_partitions large_config) with 16 in Hn. change (segment_size large_config) with 536870912 in Hs.
  pose proof (len_random_numbers total ltac:(lia)) as Hlen. unfold test_on_queue.
  set (numbers := random_numbers total) in *. clearbody numbers.
  destruct (append_numbers_ok numbers fuel ta 0 q [] [] Hq) as (q' & Ha & Hq' & Hc);
    [rewrite Hlen; change (@len bytes []) with 0; lia|rewrite Hlen, Hs; simpl; lia|].
  rewrite Ha. cbn [mbind option_bind outcome_bind app] in *.
  destruct (verify_numbers_fails q' (number_bytes numbers) 0 tv 0 ∅ Hq') as [retrieved Hv];
    [apply number_bytes_8|lia| |].
  { rewrite Hc, Hn. apply routes_collide; [lia|]. rewrite drop_0. unfold number_bytes, len in *. rewrite length_map. lia. }
  change (@len bytes []) with 0. replace (len (number_bytes numbers) - Z.of_nat 0) with (len numbers) in Hv
    by (unfold number_bytes, len; rewrite length_map; lia).
  change (Z.of_nat 0) with 0 in Hv. rewrite Hv. done.
Qed.

(** The large-scale test always reports failure: with any number of
    values above the sixteen partitions and small enough for the segments, on
    a file system that grants every mapping, the read-back finds a record
    longer than eight bytes and the test ends in an error. *)
Lemma large_scale_test_fails fuel total ta tv tr append_ms verification_ms read_ms q :
  PersistQ_new large_config = Ok q → 16 < total ≤ 2 ^ 26 →
  test_random_numbers (S fuel) total ta tv tr append_ms verification_ms read_ms =
    Some (Err "Data verification failed").
Proof. apply large_scale_test_result. Qed.
End perf_properties.

(** ** Concrete runs *)
Definition ticks : clock := λ i, (10 * Z.of_nat i, 10 * Z.of_nat i + 4).

(** The queue of the large-scale test opens where every mapping is granted. *)
Lemma large_queue_opens : ∃ q, PersistQ_new large_config = Ok q.
Proof. apply (queue_opens large_config "/tmp/persistq_10m_test"); done. Qed.

Lemma perf_percentiles_witness :
  ∃ r, PerfResults_new "test" [100; 200; 150; 300; 250] 1024 1000 = Ok r ∧ pr_operations r = 5.
Proof.
  destruct (perf_percentiles "test" [100; 200; 150; 300; 250] 1024 1000) as [_ Hr].
  destruct Hr as (r & p50 & p95 & p99 & Hr & Ho & _); [by vm_compute|].
  exists r. split; [exact Hr|exact Ho].
Defined.

(** Four 2-byte payloads; reading the first two back reports 14 bytes. *)
Lemma read_throughput_inflated_witness :
  ∃ q' a r, perf_test_append 1 ticks 1 (sample_queue 1) (str_bytes "ab") 4 = Some (q', Ok a) ∧
    perf_test_read ticks 1 q' 2 = Ok r ∧ pr_operations r = 2 ∧ pr_total_bytes r = 14.
Proof.
  destruct (read_throughput_inflated (sample_queue 1) (str_bytes "ab") 4 2 ticks ticks 1 1 0
    sample_queue_repr) as (q' & a & r & Ha & _ & _ & Hr & Ho & Hb); [by vm_compute|by vm_compute|lia|lia|by vm_compute|].
  exists q', a, r. split; [exact Ha|]. split; [exact Hr|]. split; [exact Ho|].
  change (len (str_bytes "ab")) with 2 in Hb. lia.
Defined.

Lemma large_scale_test_fails_witness :
  test_10m_random_numbers 1 ticks ticks ticks 9000 8000 [] = Some (Err "Data verification failed").
Proof.
  destruct large_queue_opens as [q Hq].
  exact (large_scale_test_fails 0 10000000 ticks ticks ticks 9000 8000 [] q Hq ltac:(lia)).
Defined.
