(* ===== verification/ByteQueue.v ===== *)
(** * What the mailboxes need of a persistent queue

    [ByteQueue] names the operations the mailbox layer calls on a queue,
    [ByteQueueOk] the promise it relies on: a queue is a sequence of payloads,
    appends with room extend it, and a read returns a payload together with all
    the later ones.  [persistq_queue] discharges the promise for the
    single-partition queues of src/src/persistq.rs. *)

From stdpp Require Import base list numbers strings gmap pretty.
From S2P Require Import Prelude Crc32 F64 StorageEngine PersistQueue.
Local Open Scope Z_scope.

Class ByteQueue := {
  bqueue : Type;
  bq_open : PersistQConfig → outcome string bqueue;
  bq_append : nat → bqueue → bytes → option (bqueue * outcome string Z);
  bq_read : bqueue → Z → outcome string bytes
}.

Class ByteQueueOk `{ByteQueue} := {
  bq_config : PersistQConfig → Prop;
  bq_repr : bqueue → list bytes → Prop;
  bq_room : list bytes → bytes → Prop;
  bq_open_repr c q : bq_config c → bq_open c = Ok q → bq_repr q [];
  bq_append_repr fuel q l d :
    bq_repr q l → bq_room l d →
    ∃ q', bq_append (S fuel) q d = Some (q', Ok (len l)) ∧ bq_repr q' (l ++ [d]);
  bq_read_repr q l i :
    bq_repr q l → 0 ≤ i →
    bq_read q i =
      if decide (Z.to_nat i < length l)%nat then
        if len (concat (drop (Z.to_nat i) l)) <=? 0 then Err "Offset out of bounds"
        else Ok (concat (drop (Z.to_nat i) l))
      else Err ("Global offset " +:+ pretty i +:+ " not found")
}.

Section persistq.
Context `{Crc32} `{Os} `{Fs}.

(** The mailbox layer ignores timestamps and latencies, so the clock readings
    are fixed. *)
Definition queue_append_payload (fuel : nat) (q : PersistQ) (d : bytes)
    : option (PersistQ * outcome string Z) :=
  match PersistQ_append fuel 0 0 q d with
  | Some (q, res) => Some (q, fmap (M:=outcome string) ar_global_offset res)
  | None => None
  end.
Definition queue_read_payload (q : PersistQ) (i : Z) : outcome string bytes :=
  fmap (M:=outcome string) (qr_data ∘ rr_record) (PersistQ_read 0 0 q i).

#[local] Instance persistq_queue : ByteQueue := {
  bqueue := PersistQ;
  bq_open := PersistQ_new;
  bq_append := queue_append_payload;
  bq_read := queue_read_payload
}.

Context `{!Crc32Ok} `{!OsOk}.

Lemma route_single d : route 1 d = 1.
Proof. unfold route. by rewrite Z.mod_1_r. Qed.

Lemma partition_content_single p log : p = 1 → partition_content 1 p log = concat log.
Proof.
  intros ->. induction log as [|d log IH]; [done|].
  change (d :: log) with ([d] ++ log).
  rewrite partition_content_app, partition_content_one, route_single, IH. done.
Qed.

(** [SIZE] is the segment size of the queues. *)
Context (SIZE : Z).

#[local] Instance persistq_queue_ok : ByteQueueOk.
Proof.
  refine {| bq_config c := num_partitions c = 1 ∧ in_range 32 (replication_factor c) ∧
              segment_size c = SIZE;
            bq_repr q l := queue_repr q l ∧ num_partitions (pq_config q) = 1 ∧
              segment_size (pq_config q) = SIZE;
            bq_room l d := len (concat l) + len d ≤ SIZE ∧ len l < 2 ^ 64 - 1 |}.
  - intros c q (Hn & Hr & Hs) Hq.
    destruct (queue_new_repr c q ltac:(rewrite Hn; done) Hr Hq) as (? & ? & ?).
    split_and!; [done|congruence..].
  - intros fuel q l d (Hq & Hn & Hs) [Hroom Hc].
    destruct (queue_append q l d fuel 0 0 Hq Hc) as (q' & Ha & Hq' & Hcfg).
    { by rewrite Hn, route_single, partition_content_single, Hs. }
    exists q'. cbn. unfold queue_append_payload. rewrite Ha. cbn. split; [done|]. by rewrite Hcfg.
  - intros q l i (Hq & Hn & Hs) Hi. cbn. unfold queue_read_payload. rewrite (queue_read q l i 0 0 Hq Hi), Hn.
    destruct (decide _) as [Hlt|Hge].
    + destruct (lookup_lt_is_Some_2 l _ Hlt) as [d ->].
      rewrite route_single, partition_content_single by done. cbn. by destruct (_ <=? 0).
    + by rewrite lookup_ge_None_2 by lia.
Defined.
End persistq.
