(* ===== verification/Mailboxes.v ===== *)
(** * Mailboxes (src/src/mailbox.rs)

    A mailbox is a single-partition queue of JSON-encoded messages.  The
    mailbox system maps addresses to queues and routes messages; a handle keeps
    its own read offset.  The queue is the interface of [ByteQueue], the JSON
    encoding of serde_json the interface [MessageCodec]. *)

From stdpp Require Import base list numbers strings gmap pretty countable.
From coqutil Require Import Byte.
From Stdlib Require Import Strings.Byte.
From S2P Require Import Prelude Crc32 F64 StorageEngine PersistQueue ByteQueue.
Local Open Scope Z_scope.

(** The payload of [Serialization] is serde_json's error text.
    Source: src/src/mailbox.rs:49-68 (MailboxError) *)
Inductive MailboxError :=
  | PersistQError (e : string)
  | MailboxNotFound (address : string)
  | InvalidAddress (reason : string)
  | Serialization (e : string)
  | MessageTooLarge (n : Z)
  | MailboxIo (e : io_error).

(** Source: src/src/mailbox.rs:72-74 (MailboxAddress) *)
Record MailboxAddress := mkAddress { as_str : string }.

#[export] Instance MailboxAddress_eq_dec : EqDecision MailboxAddress.
Proof. solve_decision. Defined.

(** Source: src/src/mailbox.rs:77-83 (MailboxAddress::new) *)
Definition MailboxAddress_new (address : string) : outcome MailboxError MailboxAddress :=
  if String.eqb address EmptyString then Err (InvalidAddress "Address cannot be empty")
  else Ok (mkAddress address).

(** Source: src/src/mailbox.rs:97-120 (Message) *)
Record Message := mkMessage {
  msg_from : MailboxAddress;
  msg_to : MailboxAddress;
  msg_id : string;
  msg_timestamp : Z;
  msg_body : bytes;
  msg_subject : option string;
  msg_reply_to : option MailboxAddress
}.

(** The fresh uuid and the clock reading are arguments.
    Source: src/src/mailbox.rs:123-140 (Message::new) *)
Definition Message_new (id : string) (now : Z) (from to : MailboxAddress) (body : bytes) : Message :=
  {| msg_from := from; msg_to := to; msg_id := id; msg_timestamp := now; msg_body := body;
     msg_subject := None; msg_reply_to := None |}.

(** Source: src/src/mailbox.rs:142-146 (Message::with_subject) *)
Definition with_subject (m : Message) (subject : string) : Message :=
  {| msg_from := msg_from m; msg_to := msg_to m; msg_id := msg_id m;
     msg_timestamp := msg_timestamp m; msg_body := msg_body m;
     msg_subject := Some subject; msg_reply_to := msg_reply_to m |}.

(** Source: src/src/mailbox.rs:148-152 (Message::with_reply_to) *)
Definition with_reply_to (m : Message) (reply_to : MailboxAddress) : Message :=
  {| msg_from := msg_from m; msg_to := msg_to m; msg_id := msg_id m;
     msg_timestamp := msg_timestamp m; msg_body := msg_body m;
     msg_subject := msg_subject m; msg_reply_to := Some reply_to |}.

(** serde_json on [Message]: [to_vec] and [from_slice].  [MessageCodecOk] states
    their documented behaviour: decoding an encoding gives the value back, an
    encoding is not empty, and an encoding followed by the start of another one
    (trailing characters) is refused. *)
Class MessageCodec := {
  json_to_vec : Message → outcome string bytes;
  json_from_slice : bytes → outcome string Message
}.
Class MessageCodecOk `{MessageCodec} := {
  json_roundtrip m bs : json_to_vec m = Ok bs → json_from_slice bs = Ok m;
  json_nonempty m bs : json_to_vec m = Ok bs → 0 < len bs;
  json_trailing m bs m' bs' rest :
    json_to_vec m = Ok bs → json_to_vec m' = Ok bs' →
    ∃ e, json_from_slice (bs ++ bs' ++ rest) = Err e
}.

(** The queue behind a handle is passed to its operations: entries of the
    system's map are never replaced or removed, so a handle's queue is the
    current entry of its address.
    Source: src/src/mailbox.rs:165-178 (Mailbox) *)
Record Mailbox := mkMailbox { mb_address : MailboxAddress; mb_read_offset : Z }.

(** Source: src/src/mailbox.rs:283-293 (MailboxSystemInner) *)
Record MailboxSystem `{ByteQueue} := mkSystem {
  mailboxes : gmap string bqueue;
  base_dir : string;
  default_config : PersistQConfig
}.
Arguments mkSystem {_} _ _ _.

(** Source: src/src/mailbox.rs:422-426 (MailboxStats) *)
Record MailboxStats := mkMailboxStats { total_messages : Z }.

Section mailbox.
Context `{ByteQueue} `{MessageCodec} `{Os}.

(** Source: src/src/mailbox.rs:154-157 (Message::to_bytes) *)
Definition to_bytes (m : Message) : outcome MailboxError bytes :=
  map_err Serialization (json_to_vec m).

(** Source: src/src/mailbox.rs:159-162 (Message::from_bytes) *)
Definition from_bytes (bs : bytes) : outcome MailboxError Message :=
  map_err Serialization (json_from_slice bs).

(** Source: src/src/mailbox.rs:296-310 (MailboxSystemInner::route_message) *)
Definition route_message (fuel : nat) (sys : MailboxSystem) (message : Message)
    : option (MailboxSystem * outcome MailboxError string) :=
  match mailboxes sys !! as_str (msg_to message) with
  | None => Some (sys, Err (MailboxNotFound (as_str (msg_to message))))
  | Some dest_queue =>
      match to_bytes message with
      | Err e => Some (sys, Err e)
      | Panic => Some (sys, Panic)
      | Ok bs =>
          match bq_append fuel dest_queue bs with
          | None => None
          | Some (dest_queue, appended) =>
              Some (mkSystem (<[as_str (msg_to message) := dest_queue]> (mailboxes sys))
                      (base_dir sys) (default_config sys),
                    _ ← map_err PersistQError appended; Ok (msg_id message))
          end
      end
  end.

(** Source: src/src/mailbox.rs:181-194 (Mailbox::send_to) *)
Definition send_to (fuel : nat) (id : string) (now : Z) (sys : MailboxSystem) (mb : Mailbox)
    (to : string) (body : bytes) : option (MailboxSystem * outcome MailboxError string) :=
  match MailboxAddress_new to with
  | Ok to_addr => route_message fuel sys (Message_new id now (mb_address mb) to_addr body)
  | Err e => Some (sys, Err e)
  | Panic => Some (sys, Panic)
  end.

(** Source: src/src/mailbox.rs:196-208 (Mailbox::send_with_subject) *)
Definition send_with_subject (fuel : nat) (id : string) (now : Z) (sys : MailboxSystem)
    (mb : Mailbox) (to subject : string) (body : bytes)
    : option (MailboxSystem * outcome MailboxError string) :=
  match MailboxAddress_new to with
  | Ok to_addr =>
      route_message fuel sys
        (with_subject (Message_new id now (mb_address mb) to_addr body) subject)
  | Err e => Some (sys, Err e)
  | Panic => Some (sys, Panic)
  end.

(** Source: src/src/mailbox.rs:210-227 (Mailbox::reply) *)
Definition reply (fuel : nat) (id : string) (now : Z) (sys : MailboxSystem) (mb : Mailbox)
    (original : Message) (body : bytes) : option (MailboxSystem * outcome MailboxError string) :=
  let to_addr := match msg_reply_to original with Some a => a | None => msg_from original end in
  let subject := match msg_subject original with
    | Some s => ("Re: " +:+ s)%string
    | None => "Re: (no subject)"%string
    end in
  route_message fuel sys (with_subject (Message_new id now (mb_address mb) to_addr body) subject).

(** The offset advances before the payload is decoded.
    Source: src/src/mailbox.rs:229-243 (Mailbox::receive) *)
Definition receive (queue : bqueue) (mb : Mailbox)
    : Mailbox * outcome MailboxError (option Message) :=
  match map_err PersistQError (bq_read queue (mb_read_offset mb)) with
  | Err e => (mb, Err e)
  | Panic => (mb, Panic)
  | Ok data =>
      if negb (len data =? 0) then
        ({| mb_address := mb_address mb; mb_read_offset := u64 (mb_read_offset mb + 1) |},
         Some <$> from_bytes data)
      else (mb, Ok None)
  end.

(** Source: src/src/mailbox.rs:245-258 (Mailbox::peek) *)
Definition peek (queue : bqueue) (mb : Mailbox) : outcome MailboxError (option Message) :=
  data ← map_err PersistQError (bq_read queue (mb_read_offset mb));
  if negb (len data =? 0) then Some <$> from_bytes data else Ok None.

(** Source: src/src/mailbox.rs:260-263 (Mailbox::address) *)
Definition Mailbox_address (mb : Mailbox) : MailboxAddress := mb_address mb.

(** Source: src/src/mailbox.rs:265-280 (Mailbox::pending_count) *)
Definition pending_count (queue : bqueue) (mb : Mailbox) : Z :=
  match bq_read queue (mb_read_offset mb) with
  | Ok data => if negb (len data =? 0) then 1 else 0
  | _ => 0
  end.

(** Source: src/src/mailbox.rs:319-344 (MailboxSystem::new) *)
Definition MailboxSystem_new (dir : string) : outcome MailboxError MailboxSystem :=
  _ ← map_err MailboxIo (os_create_dir_all dir);
  Ok (mkSystem ∅ dir
    {| storage_dir := dir; segment_size := 64 * 1024 * 1024; num_partitions := 1;
       replication_factor := 1;
       cache_config := {| cc_enabled := false; cc_size_bytes := 0;
                          hot_data_threshold := f64_of_int 0 |} |}).

Definition at_sign : Ascii.ascii := Ascii.ascii_of_nat 64.
Definition underscore : Ascii.ascii := Ascii.ascii_of_nat 95.

(** [address.replace('@', "_")]. *)
Fixpoint replace_at (s : string) : string :=
  match s with
  | EmptyString => EmptyString
  | String c s => String (if Ascii.eqb c at_sign then underscore else c) (replace_at s)
  end.

Definition mailbox_dir (sys : MailboxSystem) (address : string) : string :=
  base_dir sys +:+ "/mailbox_" +:+ replace_at address.

Definition mailbox_config (sys : MailboxSystem) (address : string) : PersistQConfig :=
  let c := default_config sys in
  {| storage_dir := mailbox_dir sys address; segment_size := segment_size c;
     num_partitions := num_partitions c; replication_factor := replication_factor c;
     cache_config := cache_config c |}.

(** Source: src/src/mailbox.rs:346-382 (MailboxSystem::create_mailbox) *)
Definition create_mailbox (sys : MailboxSystem) (address : string)
    : MailboxSystem * outcome MailboxError Mailbox :=
  match MailboxAddress_new address with
  | Err e => (sys, Err e)
  | Panic => (sys, Panic)
  | Ok addr =>
      match mailboxes sys !! as_str addr with
      | Some _ => (sys, Err (InvalidAddress ("Mailbox '" +:+ address +:+ "' already exists")))
      | None =>
          match (_ ← map_err MailboxIo (os_create_dir_all (mailbox_dir sys address));
                 map_err PersistQError (bq_open (mailbox_config sys address))) with
          | Ok queue =>
              (mkSystem (<[as_str addr := queue]> (mailboxes sys)) (base_dir sys)
                 (default_config sys),
               Ok {| mb_address := addr; mb_read_offset := 0 |})
          | Err e => (sys, Err e)
          | Panic => (sys, Panic)
          end
      end
  end.

(** Source: src/src/mailbox.rs:384-399 (MailboxSystem::get_mailbox) *)
Definition get_mailbox (sys : MailboxSystem) (address : string)
    : outcome MailboxError (option Mailbox) :=
  addr ← MailboxAddress_new address;
  match mailboxes sys !! as_str addr with
  | Some _ => Ok (Some {| mb_address := addr; mb_read_offset := 0 |})
  | None => Ok None
  end.

(** Source: src/src/mailbox.rs:401-405 (MailboxSystem::list_mailboxes) *)
Definition list_mailboxes (sys : MailboxSystem) : gset string := dom (mailboxes sys).

(** Source: src/src/mailbox.rs:407-419 (MailboxSystem::stats) *)
Definition mailbox_stats (sys : MailboxSystem) : gmap string MailboxStats :=
  (λ _, mkMailboxStats 0) <$> mailboxes sys.
End mailbox.

(** ** A queue of messages *)

(** [box_repr q msgs]: the queue holds the encodings of [msgs]. *)
Definition box_repr `{ByteQueueOk} `{MessageCodec} (q : bqueue) (msgs : list Message) : Prop :=
  ∃ l, bq_repr q l ∧ Forall2 (λ m bs, json_to_vec m = Ok bs) msgs l.

Section mailbox_lemmas.
Context `{ByteQueueOk} `{MessageCodecOk}.

Definition not_found (i : Z) : string := "Global offset " +:+ pretty i +:+ " not found".

(** What a read of the queue at a message position gives. *)
Lemma box_read q msgs i :
  box_repr q msgs → 0 ≤ i →
  match drop (Z.to_nat i) msgs with
  | [] => bq_read q i = Err (not_found i)
  | m :: rest => ∃ bs tail, json_to_vec m = Ok bs ∧ bq_read q i = Ok (bs ++ tail) ∧
      match rest with
      | [] => tail = []
      | m' :: _ => ∃ bs' tail', json_to_vec m' = Ok bs' ∧ tail = bs' ++ tail'
      end
  end.
Proof.
  intros (l & Hl & Hms) Hi. rewrite (bq_read_repr q l i Hl Hi).
  pose proof (Forall2_drop _ _ _ (Z.to_nat i) Hms) as Hdrop.
  pose proof (length_drop l (Z.to_nat i)) as Hlen.
  inversion Hdrop as [Hm Hb|m bs ms bss Hm Hrest Hms' Hb].
  - rewrite <- Hb in Hlen. cbn in Hlen. by rewrite decide_False by lia.
  - rewrite <- Hb in Hlen. cbn [length] in Hlen. rewrite decide_True by lia.
    cbn [concat]. pose proof (json_nonempty m bs Hm). rewrite len_app.
    pose proof (len_nonneg (concat bss)). rewrite (proj2 (Z.leb_gt _ _)) by lia.
    exists bs, (concat bss). split_and!; [done..|].
    inversion Hrest as [|m' bs' ms' bss' Hm' Hrest']; [done|]. by exists bs', (concat bss').
Qed.

Lemma receive_box q msgs addr i :
  box_repr q msgs → 0 ≤ i < 2 ^ 64 - 1 →
  let mb := mkMailbox addr i in
  match drop (Z.to_nat i) msgs with
  | [] => receive q mb = (mb, Err (PersistQError (not_found i)))
  | [m] => receive q mb = (mkMailbox addr (i + 1), Ok (Some m))
  | _ => ∃ e, receive q mb = (mkMailbox addr (i + 1), Err (Serialization e))
  end.
Proof.
  intros Hq Hi mb. pose proof (box_read q msgs i Hq ltac:(lia)) as Hread.
  unfold receive, mb; cbn [mb_read_offset mb_address].
  destruct (drop (Z.to_nat i) msgs) as [|m rest]; [by rewrite Hread|].
  destruct Hread as (bs & tail & Hm & -> & Hrest). cbn [map_err].
  pose proof (json_nonempty m bs Hm). pose proof (len_nonneg tail).
  rewrite (proj2 (Z.eqb_neq _ _)) by (rewrite len_app; lia). cbn [negb].
  rewrite wrap_id by (unfold in_range; lia). unfold from_bytes.
  destruct rest as [|m' rest].
  - rewrite Hrest, app_nil_r. by rewrite (json_roundtrip m bs Hm).
  - destruct Hrest as (bs' & tail' & Hm' & ->).
    destruct (json_trailing m bs m' bs' tail' Hm Hm') as [e ->]. by exists e.
Qed.

Lemma peek_box q msgs addr i :
  box_repr q msgs → 0 ≤ i < 2 ^ 64 - 1 →
  peek q (mkMailbox addr i) = (receive q (mkMailbox addr i)).2.
Proof.
  intros _ _. unfold peek, receive. cbn [mb_read_offset].
  destruct (map_err _ _) as [data| |]; [|done..]. cbn. by destruct (negb _).
Qed.

Lemma drop_len {A} (l k : list A) : drop (Z.to_nat (len l)) (l ++ k) = k.
Proof. apply zdrop_app. Qed.

(** A consumer that calls [receive] [n] times. *)
Fixpoint receive_n (n : nat) (q : bqueue) (mb : Mailbox)
    : list (outcome MailboxError (option Message)) :=
  match n with
  | O => []
  | S n => let '(mb, r) := receive q mb in r :: receive_n n q mb
  end.

Lemma receive_n_box q l1 l2 m addr :
  box_repr q (l1 ++ l2 ++ [m]) → len (l1 ++ l2 ++ [m]) < 2 ^ 64 - 1 →
  ∃ errs, receive_n (S (length l2)) q (mkMailbox addr (len l1)) = errs ++ [Ok (Some m)] ∧
    length errs = length l2 ∧ Forall (λ r, ∃ e, r = Err (Serialization e)) errs.
Proof.
  revert l1. induction l2 as [|m1 l2 IH]; intros l1 Hq Hlen.
  - pose proof (len_nonneg l1). autorewrite with dolda in Hlen.
    pose proof (receive_box q _ addr (len l1) Hq ltac:(lia)) as Hr.
    rewrite drop_len in Hr. cbn [app] in Hr.
    exists []. split; [|done]. cbn [length receive_n app]. by rewrite Hr.
  - pose proof (len_nonneg l1). pose proof (len_nonneg l2). autorewrite with dolda in Hlen.
    pose proof (receive_box q _ addr (len l1) Hq ltac:(lia)) as Hr.
    rewrite drop_len in Hr. cbn [app] in Hr.
    assert (∃ e, receive q (mkMailbox addr (len l1)) =
      (mkMailbox addr (len l1 + 1), Err (Serialization e))) as [e He] by (by destruct l2).
    destruct (IH (l1 ++ [m1])) as (errs & Hn & Hl & Hf).
    { by rewrite <- app_assoc. }
    { autorewrite with dolda. lia. }
    exists (Err (Serialization e) :: errs). cbn [length]. rewrite Hl. split_and!; [|done|by constructor; eauto].
    remember (S (length l2)) as k. cbn [receive_n]. rewrite He.
    rewrite len_app, len_cons, len_nil in Hn. rewrite Z.add_0_r in Hn. by rewrite Hn.
Qed.

(** Routing an encodable message to a mailbox with room. *)
Lemma route_delivers fuel sys m q l bs :
  mailboxes sys !! as_str (msg_to m) = Some q → bq_repr q l →
  json_to_vec m = Ok bs → bq_room l bs →
  ∃ q', route_message (S fuel) sys m =
      Some (mkSystem (<[as_str (msg_to m) := q']> (mailboxes sys)) (base_dir sys) (default_config sys),
            Ok (msg_id m)) ∧ bq_repr q' (l ++ [bs]).
Proof.
  intros Hlk Hq Hm Hroom. destruct (bq_append_repr fuel q l bs Hq Hroom) as (q' & Ha & Hq').
  exists q'. unfold route_message, to_bytes. by rewrite Hlk, Hm; cbn; rewrite Ha.
Qed.

Lemma address_new a : a ≠ EmptyString → MailboxAddress_new a = Ok (mkAddress a).
Proof. intros Ha. unfold MailboxAddress_new. by rewrite (proj2 (String.eqb_neq _ _)). Qed.

(** Two addresses that differ only in [@] and [_] have one directory. *)
Lemma mailbox_config_collision sys a b :
  replace_at a = replace_at b → mailbox_config sys a = mailbox_config sys b.
Proof. intros Hab. unfold mailbox_config, mailbox_dir. by rewrite Hab. Qed.

(** A message sent to an existing mailbox with room, and its receipt. *)
Lemma send_box fuel id now sys mb to body q msgs bs :
  let m := Message_new id now (mb_address mb) (mkAddress to) body in
  to ≠ EmptyString → mailboxes sys !! to = Some q →
  (∀ l, bq_repr q l → Forall2 (λ m bs, json_to_vec m = Ok bs) msgs l → bq_room l bs) →
  box_repr q msgs → len msgs < 2 ^ 64 - 1 → json_to_vec m = Ok bs →
  ∃ q', send_to (S fuel) id now sys mb to body =
      Some (mkSystem (<[to := q']> (mailboxes sys)) (base_dir sys) (default_config sys), Ok id) ∧
    box_repr q' (msgs ++ [m]) ∧
    peek q' (mkMailbox (mkAddress to) (len msgs)) = Ok (Some m) ∧
    receive q' (mkMailbox (mkAddress to) (len msgs)) =
      (mkMailbox (mkAddress to) (len msgs + 1), Ok (Some m)).
Proof.
  intros m Hto Hlk Hroom (l & Hl & Hms) Hlen Hm. pose proof (len_nonneg msgs).
  destruct (route_delivers fuel sys m q l bs Hlk Hl Hm (Hroom l Hl Hms)) as (q' & Hr & Hq').
  assert (box_repr q' (msgs ++ [m])) as Hbox.
  { exists (l ++ [bs]). split; [done|]. apply Forall2_app; [done|]. by constructor. }
  exists q'. unfold send_to. rewrite address_new by done. split; [exact Hr|]. split; [done|].
  pose proof (receive_box q' _ (mkAddress to) (len msgs) Hbox ltac:(lia)) as Hrec.
  rewrite drop_len in Hrec.
  rewrite (peek_box q' _ (mkAddress to) (len msgs) Hbox) by lia. by rewrite Hrec.
Qed.
End mailbox_lemmas.

(** ** Properties *)
Section mailbox_properties.
Context `{ByteQueueOk} `{MessageCodecOk} `{Os}.

(** Delivery: sending to an existing mailbox whose queue has room appends
    the message to that mailbox's queue alone and returns the message id; a
    handle of the recipient that had received everything before then peeks
    and receives exactly the message sent, with sender, recipient and body.
    (The queue's files are its own: no other address has the same directory.) *)
Lemma send_then_receive fuel id now sys mb to body q msgs bs :
  let m := Message_new id now (mb_address mb) (mkAddress to) body in
  to ≠ EmptyString → mailboxes sys !! to = Some q →
  (∀ l, bq_repr q l → Forall2 (λ m bs, json_to_vec m = Ok bs) msgs l → bq_room l bs) →
  box_repr q msgs → len msgs < 2 ^ 64 - 1 → json_to_vec m = Ok bs →
  ∃ q', send_to (S fuel) id now sys mb to body =
      Some (mkSystem (<[to := q']> (mailboxes sys)) (base_dir sys) (default_config sys), Ok id) ∧
    box_repr q' (msgs ++ [m]) ∧
    peek q' (mkMailbox (mkAddress to) (len msgs)) = Ok (Some m) ∧
    receive q' (mkMailbox (mkAddress to) (len msgs)) =
      (mkMailbox (mkAddress to) (len msgs + 1), Ok (Some m)).
Proof.
  apply send_box.
Qed.

(** Sending fails without effect: an empty address is refused, an unknown
    address is reported as not found, and in both cases the system is
    unchanged. *)
Lemma send_error_unchanged fuel id now sys mb to body :
  mailboxes sys !! to = None →
  send_to fuel id now sys mb to body =
    Some (sys, Err (if String.eqb to EmptyString
                    then InvalidAddress "Address cannot be empty" else MailboxNotFound to)).
Proof.
  intros Hlk. unfold send_to, MailboxAddress_new. destruct (String.eqb to EmptyString); [done|].
  unfold route_message. cbn. by rewrite Hlk.
Qed.

(** A backlog loses messages: with several messages waiting, a consumer
    that calls [receive] once per message gets a deserialization error for
    each of them but the last, and its offset has moved past all of them, so
    only the last message is ever delivered. *)
Lemma backlog_delivers_only_last q addr read backlog m :
  box_repr q (read ++ backlog ++ [m]) → len (read ++ backlog ++ [m]) < 2 ^ 64 - 1 →
  ∃ errs, receive_n (S (length backlog)) q (mkMailbox addr (len read)) = errs ++ [Ok (Some m)] ∧
    length errs = length backlog ∧ Forall (λ r, ∃ e, r = Err (Serialization e)) errs.
Proof. apply receive_n_box. Qed.

(** An exhausted mailbox is an error, not an empty answer: receiving or
    peeking past the last message returns the queue's not-found error and
    leaves the offset, and [Ok None] is never returned for it. *)
Lemma receive_exhausted q msgs addr i :
  box_repr q msgs → len msgs ≤ i < 2 ^ 64 - 1 →
  receive q (mkMailbox addr i) = (mkMailbox addr i, Err (PersistQError (not_found i))) ∧
  peek q (mkMailbox addr i) = Err (PersistQError (not_found i)) ∧
  pending_count q (mkMailbox addr i) = 0.
Proof.
  intros Hq Hi. pose proof (len_nonneg msgs).
  pose proof (receive_box q msgs addr i Hq ltac:(lia)) as Hr.
  pose proof (box_read q msgs i Hq ltac:(lia)) as Hread.
  rewrite (drop_ge msgs) in Hr, Hread by (unfold len in *; lia).
  rewrite (peek_box q msgs addr i Hq) by lia. unfold pending_count; cbn [mb_read_offset].
  by rewrite Hr, Hread.
Qed.

(** Creating a mailbox: a new address gets a handle at offset zero on an
    empty queue, registered beside the others; creating it again is refused
    and looking it up gives a handle that starts again at offset zero. *)
Lemma create_mailbox_spec sys address q :
  address ≠ EmptyString → mailboxes sys !! address = None →
  os_create_dir_all (mailbox_dir sys address) = Ok tt →
  bq_config (mailbox_config sys address) → bq_open (mailbox_config sys address) = Ok q →
  ∃ sys', create_mailbox sys address = (sys', Ok (mkMailbox (mkAddress address) 0)) ∧
    mailboxes sys' = <[address := q]> (mailboxes sys) ∧ box_repr q [] ∧
    create_mailbox sys' address =
      (sys', Err (InvalidAddress ("Mailbox '" +:+ address +:+ "' already exists"))) ∧
    get_mailbox sys' address = Ok (Some (mkMailbox (mkAddress address) 0)).
Proof.
  intros Ha Hlk Hdir Hcfg Hopen.
  exists (mkSystem (<[address := q]> (mailboxes sys)) (base_dir sys) (default_config sys)).
  unfold create_mailbox, get_mailbox. rewrite address_new by done. cbn.
  rewrite Hlk, Hdir. cbn. rewrite Hopen. cbn. rewrite lookup_insert_eq.
  split_and!; [done|done| |done|done]. exists []. split; [by eapply bq_open_repr|done].
Qed.
End mailbox_properties.

(** ** A concrete codec

    A self-delimiting encoding with the stated laws: the binary digits of the
    message's number in an enumeration of messages, ended by a terminator. *)
#[local] Instance byte_countable : Countable Init.Byte.byte.
Proof. exact (inj_countable' byte.unsigned byte.of_Z byte.of_Z_unsigned). Defined.
#[local] Instance address_countable : Countable MailboxAddress.
Proof. exact (inj_countable' as_str mkAddress (λ '(mkAddress _), eq_refl)). Defined.
#[local] Instance Message_eq_dec : EqDecision Message.
Proof. solve_decision. Defined.

Definition message_codes (m : Message) : list positive :=
  [encode (msg_from m); encode (msg_to m); encode (msg_id m); encode (msg_timestamp m);
   encode (msg_body m); encode (msg_subject m); encode (msg_reply_to m)].
Definition codes_message (l : list positive) : option Message :=
  match l with
  | [f; t; i; ts; b; s; r] =>
      f ← decode f; t ← decode t; i ← decode i; ts ← decode ts; b ← decode b;
      s ← decode s; r ← decode r; Some (mkMessage f t i ts b s r)
  | _ => None
  end.
#[local] Instance message_countable : Countable Message.
Proof.
  refine (inj_countable message_codes codes_message _).
  intros []; unfold message_codes, codes_message; cbn [msg_from msg_to msg_id msg_timestamp
    msg_body msg_subject msg_reply_to]. by rewrite !decode_encode; cbn; rewrite ?decode_encode.
Defined.

Fixpoint pos_digits (p : positive) : bytes :=
  match p with
  | xH => [x02]
  | xO p => x00 :: pos_digits p
  | xI p => x01 :: pos_digits p
  end.
Fixpoint digits_pos (l : bytes) : option positive :=
  match l with
  | [x02] => Some xH
  | x00 :: l => xO <$> digits_pos l
  | x01 :: l => xI <$> digits_pos l
  | _ => None
  end.

Lemma digits_roundtrip p : digits_pos (pos_digits p) = Some p.
Proof. by induction p as [p IH|p IH|]; cbn; rewrite ?IH. Qed.
Lemma digits_nonempty p : 0 < len (pos_digits p).
Proof. destruct p; cbn; rewrite len_cons; len_lia. Qed.
Lemma digits_trailing p x rest : digits_pos (pos_digits p ++ x :: rest) = None.
Proof. by induction p as [p IH|p IH|]; cbn; rewrite ?IH. Qed.

#[local] Instance digit_codec : MessageCodec := {
  json_to_vec m := Ok (pos_digits (encode m));
  json_from_slice bs := ok_or (digits_pos bs ≫= decode) "trailing characters"
}.
#[local] Instance digit_codec_ok : MessageCodecOk.
Proof.
  split; cbn.
  - intros m bs [= <-]. rewrite digits_roundtrip. cbn. by rewrite decode_encode.
  - intros m bs [= <-]. apply digits_nonempty.
  - intros m bs m' bs' rest [= <-] [= <-]. pose proof (digits_nonempty (encode m')).
    destruct (pos_digits (encode m')) as [|x k]; [done|]. cbn [app].
    rewrite digits_trailing. by eexists.
Qed.

(** ** Concrete runs: two mailboxes on queues of 1024-byte segments *)
#[local] Existing Instance persistq_queue.
#[local] Instance sample_queues : ByteQueueOk := persistq_queue_ok 1024.

Definition sample_system : MailboxSystem :=
  mkSystem {[ "bob@dolda"%string := sample_queue 1 ]} "/data" (sample_config 1).
Definition alice : Mailbox := mkMailbox (mkAddress "alice@dolda") 0.
Definition hello (n : Z) : Message :=
  Message_new "id" n (mkAddress "alice@dolda") (mkAddress "bob@dolda") (str_bytes "hi").
Definition hello_bytes (n : Z) : bytes := pos_digits (encode (hello n)).

Lemma sample_box : box_repr (sample_queue 1) [].
Proof. exists []. split; [|done]. split_and!; [apply sample_queue_repr|done|done]. Qed.

Lemma send_then_receive_witness :
  ∃ q', send_to 1 "id" 3 sample_system alice "bob@dolda" (str_bytes "hi") =
      Some (mkSystem {[ "bob@dolda"%string := q' ]} "/data" (sample_config 1), Ok "id"%string) ∧
    receive q' (mkMailbox (mkAddress "bob@dolda") 0) =
      (mkMailbox (mkAddress "bob@dolda") 1, Ok (Some (hello 3))).
Proof.
  destruct (send_then_receive 0 "id" 3 sample_system alice "bob@dolda" (str_bytes "hi")
    (sample_queue 1) [] (hello_bytes 3)) as (q' & Hs & _ & _ & Hr);
    [done|apply lookup_singleton_eq| |apply sample_box|done|done|].
  { intros l _ Hl. apply Forall2_nil_inv_l in Hl as ->. split; [by vm_compute|done]. }
  exists q'. split; [|exact Hr]. rewrite Hs. unfold sample_system; cbn [mailboxes base_dir default_config].
  by rewrite insert_singleton_eq.
Defined.

Lemma send_error_unchanged_witness :
  send_to 1 "id" 3 sample_system alice "carol@dolda" (str_bytes "hi") =
    Some (sample_system, Err (MailboxNotFound "carol@dolda")).
Proof. exact (send_error_unchanged 1 "id" 3 sample_system alice "carol@dolda" (str_bytes "hi") eq_refl). Defined.

(** Two messages waiting. *)
Definition backlog_queue : PersistQ := push (push (sample_queue 1) (hello_bytes 1)) (hello_bytes 2).

Lemma backlog_box : box_repr backlog_queue [hello 1; hello 2].
Proof.
  assert (len (hello_bytes 1) = 433) as Hl1 by (by vm_compute).
  assert (len (hello_bytes 2) = 435) as Hl2 by (by vm_compute).
  destruct (queue_append (sample_queue 1) [] (hello_bytes 1) 0 5 7 sample_queue_repr)
    as (q1 & Ha1 & Hq1 & Hc1);
    [done|rewrite Hl1; by vm_compute|].
  assert (num_partitions (pq_config q1) = 1) as Hn1 by (by rewrite Hc1).
  destruct (queue_append q1 _ (hello_bytes 2) 0 5 7 Hq1) as (q2 & Ha2 & Hq2 & Hc2);
    [done|rewrite Hc1, Hl2; by vm_compute|].
  exists [hello_bytes 1; hello_bytes 2]. split; [|by repeat constructor].
  unfold backlog_queue, push at 2. rewrite Ha1. unfold push. rewrite Ha2.
  split_and!; [exact Hq2|by rewrite Hc2|by rewrite Hc2, Hc1].
Qed.

Lemma backlog_delivers_only_last_witness :
  ∃ e, receive_n 2 backlog_queue (mkMailbox (mkAddress "bob@dolda") 0) =
    [Err (Serialization e); Ok (Some (hello 2))].
Proof.
  destruct (backlog_delivers_only_last (backlog_queue : @bqueue persistq_queue) (mkAddress "bob@dolda") [] [hello 1] (hello 2)
    backlog_box ltac:(done)) as (errs & Hn & Hl & Hf).
  destruct errs as [|r [|? ?]]; [done| |done].
  pose proof (Forall_inv Hf) as [e ->].
  exists e. exact Hn.
Defined.

Lemma receive_exhausted_witness :
  receive (sample_queue 1) (mkMailbox (mkAddress "bob@dolda") 0) =
    (mkMailbox (mkAddress "bob@dolda") 0, Err (PersistQError "Global offset 0 not found")).
Proof.
  destruct (receive_exhausted (sample_queue 1 : @bqueue persistq_queue) [] (mkAddress "bob@dolda") 0 sample_box) as [Hr _];
    [done|]. exact Hr.
Defined.

Lemma create_mailbox_spec_witness :
  ∃ sys', create_mailbox sample_system "carol@dolda" =
    (sys', Ok (mkMailbox (mkAddress "carol@dolda") 0)).
Proof.
  destruct (create_mailbox_spec sample_system "carol@dolda"
    (from_ok (sample_queue 1) (PersistQ_new (mailbox_config sample_system "carol@dolda")) : @bqueue persistq_queue))
    as (sys' & Hc & _); [done|reflexivity|reflexivity|split_and!; by vm_compute|by vm_compute|].
  exists sys'. exact Hc.
Defined.

(** The addresses [a@b] and [a_b] are distinct mailboxes on one directory. *)
Example addresses_share_directory :
  mailbox_config sample_system "a@b" = mailbox_config sample_system "a_b".
Proof. apply mailbox_config_collision. reflexivity. Qed.
