(* ===== verification/MailboxClients.v ===== *)
(** * Client programs of the mailbox system (src/src/mailbox.rs)

    A client is a sequence of calls, each of which may depend on the answers to
    the earlier ones.  Run against the mailbox system it gets the answers that
    it gets from a table of message logs: that table is the abstract
    specification, and the refinement holds for every client.  A log is not
    quite a mailbox: [abs_receive] says what a client gets instead. *)

From stdpp Require Import base list numbers strings gmap pretty.
From S2P Require Import Prelude Crc32 F64 StorageEngine PersistQueue ByteQueue Mailboxes.
Local Open Scope Z_scope.

(** ** Definitions *)

(** A handle is a place in the list of the handles given out. *)
Abbreviation handle := nat.

(** The public operations of [MailboxSystem] and [Mailbox], and printing. *)
Inductive call : Type → Type :=
  | CallCreate (address : string) : call (outcome MailboxError handle)
  | CallGet (address : string) : call (outcome MailboxError (option handle))
  | CallSend (h : handle) (to : string) (body : bytes) : call (outcome MailboxError string)
  | CallSendSubject (h : handle) (to subject : string) (body : bytes) : call (outcome MailboxError string)
  | CallReply (h : handle) (original : Message) (body : bytes) : call (outcome MailboxError string)
  | CallReceive (h : handle) : call (outcome MailboxError (option Message))
  | CallPeek (h : handle) : call (outcome MailboxError (option Message))
  | CallPending (h : handle) : call Z
  | CallList : call (gset string)
  | CallStats : call (gmap string MailboxStats)
  | CallAddress (h : handle) : call string
  | CallPrint (line : string) : call unit.

Inductive client (A : Type) : Type :=
  | Done (a : A)
  | Call {R} (c : call R) (k : R → client A).
Arguments Done {A} _.
Arguments Call {A R} _ _.

(** Sequencing, and calls that end the client when they fail ([?]). *)
Fixpoint then_ {A B} (c : client A) (k : A → client B) : client B :=
  match c with
  | Done a => k a
  | Call o j => Call o (λ r, then_ (j r) k)
  end.
Definition try {E A B} (c : client (outcome E A)) (k : A → client (outcome E B)) : client (outcome E B) :=
  then_ c (λ r, match r with Ok a => k a | Err e => Done (Err e) | Panic => Done Panic end).
(** [unwrap()]. *)
Definition must {E A B} (c : client (outcome E A)) (k : A → client (outcome E B)) : client (outcome E B) :=
  then_ c (λ r, match r with Ok a => k a | _ => Done Panic end).
Definition some_or_panic {E A B} (o : option A) (k : A → client (outcome E B)) : client (outcome E B) :=
  match o with Some a => k a | None => Done Panic end.
Definition call_ {R} (c : call R) : client R := Call c Done.
Definition assert_ {E B} (b : bool) (k : client (outcome E B)) : client (outcome E B) := if b then k else Done Panic.
Definition print {B} (line : string) (k : client B) : client B := Call (CallPrint line) (λ _, k).

(** The handles' offsets, the number of ids and clock readings used up, and the
    lines printed. *)
Record World `{ByteQueue} := mkWorld {
  w_sys : MailboxSystem; w_handles : list Mailbox; w_count : nat; w_out : list string }.
Arguments mkWorld {_} _ _ _ _.

Section run.
Context `{ByteQueue} `{MessageCodec} `{Os}.
(** The attempts of an append beyond the first, and the ids and the times of the
    messages in the order they are made. *)
Context (fuel : nat) (ids : nat → string) (clock : nat → Z).

Definition the_handle (w : World) (h : handle) : Mailbox := default (mkMailbox (mkAddress EmptyString) 0) (w_handles w !! h).
Definition the_queue (w : World) (h : handle) : option bqueue := mailboxes (w_sys w) !! as_str (mb_address (the_handle w h)).

Definition sent {A} (w : World) (r : option (MailboxSystem * A)) : option (World * A) :=
  '(sys, a) ← r; Some (mkWorld sys (w_handles w) (S (w_count w)) (w_out w), a).
Definition new_handle (w : World) (sys : MailboxSystem) (mb : Mailbox) : World :=
  mkWorld sys (w_handles w ++ [mb]) (w_count w) (w_out w).

(** One call.  [None] is an append that runs out of fuel, or a handle that was
    never given out. *)
Definition run_call {R} (c : call R) (w : World) : option (World * R) :=
  let id := ids (w_count w) in let now := clock (w_count w) in
  match c in call R return option (World * R) with
  | CallCreate address =>
      match create_mailbox (w_sys w) address with
      | (sys, Ok mb) => Some (new_handle w sys mb, Ok (length (w_handles w)))
      | (sys, Err e) => Some (mkWorld sys (w_handles w) (w_count w) (w_out w), Err e)
      | (sys, Panic) => Some (mkWorld sys (w_handles w) (w_count w) (w_out w), Panic)
      end
  | CallGet address =>
      match get_mailbox (w_sys w) address with
      | Ok (Some mb) => Some (new_handle w (w_sys w) mb, Ok (Some (length (w_handles w))))
      | Ok None => Some (w, Ok None)
      | Err e => Some (w, Err e)
      | Panic => Some (w, Panic)
      end
  | CallSend h to body => sent w (send_to (S fuel) id now (w_sys w) (the_handle w h) to body)
  | CallSendSubject h to subject body => sent w (send_with_subject (S fuel) id now (w_sys w) (the_handle w h) to subject body)
  | CallReply h original body => sent w (reply (S fuel) id now (w_sys w) (the_handle w h) original body)
  | CallReceive h =>
      q ← the_queue w h;
      let '(mb, r) := receive q (the_handle w h) in
      Some (mkWorld (w_sys w) (<[h := mb]> (w_handles w)) (w_count w) (w_out w), r)
  | CallPeek h => q ← the_queue w h; Some (w, peek q (the_handle w h))
  | CallPending h => q ← the_queue w h; Some (w, pending_count q (the_handle w h))
  | CallList => Some (w, list_mailboxes (w_sys w))
  | CallStats => Some (w, mailbox_stats (w_sys w))
  | CallAddress h => mb ← w_handles w !! h; Some (w, as_str (Mailbox_address mb))
  | CallPrint line => Some (mkWorld (w_sys w) (w_handles w) (w_count w) (w_out w ++ [line]), tt)
  end.

Fixpoint run {A} (c : client A) (w : World) : option (World * A) :=
  match c with
  | Done a => Some (w, a)
  | Call o k => '(w, r) ← run_call o w; run (k r) w
  end.
End run.

(** *** The specification: a log of messages per address *)

(** An association list, in the order the keys came in. *)
Fixpoint assoc {A} (a : string) (l : list (string * A)) : option A :=
  match l with
  | [] => None
  | (b, x) :: l => if String.eqb a b then Some x else assoc a l
  end.
Fixpoint assoc_set {A} (a : string) (x : A) (l : list (string * A)) : list (string * A) :=
  match l with
  | [] => [(a, x)]
  | (b, y) :: l => if String.eqb a b then (a, x) :: l else (b, y) :: assoc_set a x l
  end.

Record Table := mkTable {
  t_boxes : list (string * list Message);
  t_handles : list (string * nat);
  t_sent : list Message;
  t_count : nat;
  t_out : list string
}.

Section spec.
Context `{MessageCodec}.
(** The addresses whose files can be opened. *)
Context (usable : string → bool).
Context (ids : nat → string) (clock : nat → Z).

(** What is claimed of at most so many messages per mailbox, of at most so many
    bytes each: together, no more than the segment of 64 MiB holds. *)
Definition MAX_MESSAGES : Z := 4096.
Definition MAX_ENCODED : Z := 16 * 1024.

Definition encoded (m : Message) : bytes := from_ok [] (json_to_vec m).
Definition sendable (m : Message) : bool := is_ok (json_to_vec m) && (len (encoded m) <=? MAX_ENCODED).

(** What deserializing several messages at once is refused with. *)
Definition garbled (msgs : list Message) : string :=
  match json_from_slice (concat (map encoded msgs)) with Err e => e | _ => EmptyString end.

Definition t_send (t : Table) (m : Message) : option (Table * outcome MailboxError string) :=
  match assoc (as_str (msg_to m)) (t_boxes t) with
  | None => Some (mkTable (t_boxes t) (t_handles t) (t_sent t) (S (t_count t)) (t_out t), Err (MailboxNotFound (as_str (msg_to m))))
  | Some box =>
      if len box <? MAX_MESSAGES then
        Some (mkTable (assoc_set (as_str (msg_to m)) (box ++ [m]) (t_boxes t)) (t_handles t) (t_sent t ++ [m]) (S (t_count t)) (t_out t),
              Ok (msg_id m))
      else None
  end.

Definition t_send_to (t : Table) (to : string) (m : Message) : option (Table * outcome MailboxError string) :=
  if String.eqb to EmptyString
  then Some (mkTable (t_boxes t) (t_handles t) (t_sent t) (S (t_count t)) (t_out t), Err (InvalidAddress "Address cannot be empty"))
  else t_send t m.

(** What [receive] and [peek] answer when [waiting] are the messages from the
    handle's place on: only a message that is alone can be read. *)
Definition abs_receive (i : nat) (waiting : list Message) : outcome MailboxError (option Message) :=
  match waiting with
  | [] => Err (PersistQError (not_found (Z.of_nat i)))
  | [m] => Ok (Some m)
  | _ => Err (Serialization (garbled waiting))
  end.

(** The answer to a call; [None] where nothing is claimed: a mailbox too full, an
    address whose files cannot be opened or are those of
    another one, an unknown handle. *)
Definition spec_call {R} (c : call R) (t : Table) : option (Table * R) :=
  let id := ids (t_count t) in let now := clock (t_count t) in
  match c in call R return option (Table * R) with
  | CallCreate address =>
      if String.eqb address EmptyString then Some (t, Err (InvalidAddress "Address cannot be empty")) else
      match assoc address (t_boxes t) with
      | Some _ => Some (t, Err (InvalidAddress ("Mailbox '" +:+ address +:+ "' already exists")))
      | None =>
          if usable address && forallb (λ a, negb (String.eqb (replace_at a) (replace_at address))) (map fst (t_boxes t)) then
            Some (mkTable (assoc_set address [] (t_boxes t)) (t_handles t ++ [(address, 0%nat)]) (t_sent t) (t_count t) (t_out t),
                  Ok (length (t_handles t)))
          else None
      end
  | CallGet address =>
      if String.eqb address EmptyString then Some (t, Err (InvalidAddress "Address cannot be empty")) else
      match assoc address (t_boxes t) with
      | Some _ => Some (mkTable (t_boxes t) (t_handles t ++ [(address, 0%nat)]) (t_sent t) (t_count t) (t_out t),
                        Ok (Some (length (t_handles t))))
      | None => Some (t, Ok None)
      end
  | CallSend h to body => '(a, _) ← t_handles t !! h; t_send_to t to (Message_new id now (mkAddress a) (mkAddress to) body)
  | CallSendSubject h to subject body =>
      '(a, _) ← t_handles t !! h;
      t_send_to t to (with_subject (Message_new id now (mkAddress a) (mkAddress to) body) subject)
  | CallReply h original body =>
      '(a, _) ← t_handles t !! h;
      let to := match msg_reply_to original with Some r => r | None => msg_from original end in
      let subject := match msg_subject original with Some s => ("Re: " +:+ s)%string | None => "Re: (no subject)"%string end in
      t_send t (with_subject (Message_new id now (mkAddress a) to body) subject)
  | CallReceive h =>
      '(a, i) ← t_handles t !! h; box ← assoc a (t_boxes t);
      let waiting := drop i box in
      Some (mkTable (t_boxes t) (<[h := (a, if bool_decide (waiting = []) then i else S i)]> (t_handles t)) (t_sent t) (t_count t) (t_out t),
            abs_receive i waiting)
  | CallPeek h => '(a, i) ← t_handles t !! h; box ← assoc a (t_boxes t); Some (t, abs_receive i (drop i box))
  | CallPending h =>
      '(a, i) ← t_handles t !! h; box ← assoc a (t_boxes t);
      Some (t, match drop i box with [] => 0 | _ => 1 end)
  | CallList => Some (t, list_to_set (map fst (t_boxes t)))
  | CallStats => Some (t, (λ _, mkMailboxStats 0) <$> list_to_map (t_boxes t))
  | CallAddress h => '(a, _) ← t_handles t !! h; Some (t, a)
  | CallPrint line => Some (mkTable (t_boxes t) (t_handles t) (t_sent t) (t_count t) (t_out t ++ [line]), tt)
  end.

Fixpoint spec_run {A} (c : client A) (t : Table) : option (Table * A) :=
  match c with
  | Done a => Some (t, a)
  | Call o k => '(t, r) ← spec_call o t; spec_run (k r) t
  end.
End spec.

(** ** The refinement *)

(** A table's boxes as a map. *)
Definition boxes (t : Table) : gmap string (list Message) := list_to_map (t_boxes t).

Lemma assoc_lookup {A} a (l : list (string * A)) : assoc a l = (list_to_map l : gmap string A) !! a.
Proof.
  induction l as [|[b x] l IH]; [done|]. cbn. destruct (String.eqb_spec a b) as [->|Hne]; [by rewrite lookup_insert_eq|].
  by rewrite lookup_insert_ne.
Qed.
Lemma assoc_set_insert {A} a (x : A) l : (list_to_map (assoc_set a x l) : gmap string A) = <[a := x]> (list_to_map l).
Proof.
  induction l as [|[b y] l IH]; [done|]. cbn. destruct (String.eqb_spec a b) as [->|Hne]; cbn; [by rewrite insert_insert_eq|].
  rewrite IH. by rewrite insert_insert_ne.
Qed.

Lemma assoc_boxes t a : assoc a (t_boxes t) = boxes t !! a.
Proof. apply assoc_lookup. Qed.

Section refinement.
Context `{ByteQueueOk} `{MessageCodecOk} `{Os}.
Context (usable : string → bool) (fuel : nat) (ids : nat → string) (clock : nat → Z).

(** The system can open the files of the usable addresses. *)
Definition opens (sys : MailboxSystem) : Prop :=
  ∀ a, usable a = true → os_create_dir_all (mailbox_dir sys a) = Ok tt ∧
    bq_config (mailbox_config sys a) ∧ is_ok (bq_open (mailbox_config sys a)) = true.

(** A queue has room for as many messages of the size the specification
    admits. *)
Definition roomy : Prop := ∀ l bs,
  len l < MAX_MESSAGES → Forall (λ b : bytes, len b ≤ MAX_ENCODED) (l ++ [bs]) → bq_room l bs.

Definition box_ok (q : bqueue) (box : list Message) : Prop :=
  box_repr q box ∧ Forall (λ m, sendable m = true) box ∧ len box ≤ MAX_MESSAGES.

Definition handle_ok (t : Table) (mb : Mailbox) (h : string * nat) : Prop :=
  mb = mkMailbox (mkAddress h.1) (Z.of_nat h.2) ∧ ∃ box, boxes t !! h.1 = Some box ∧ (h.2 ≤ length box)%nat.

Record world_repr (w : World) (t : Table) : Prop := {
  wr_boxes : map_Forall2 (λ _, box_ok) (mailboxes (w_sys w)) (boxes t);
  wr_handles : Forall2 (handle_ok t) (w_handles w) (t_handles t);
  wr_count : w_count w = t_count t;
  wr_out : w_out w = t_out t;
  wr_opens : opens (w_sys w)
}.

Lemma boxes_lookup w t a :
  world_repr w t →
  match mailboxes (w_sys w) !! a, boxes t !! a with
  | Some q, Some box => box_ok q box
  | None, None => True
  | _, _ => False
  end.
Proof. intros Hw. pose proof (wr_boxes w t Hw a) as Ha. by inversion Ha. Qed.

Lemma box_lookup w t a box :
  world_repr w t → assoc a (t_boxes t) = Some box → ∃ q, mailboxes (w_sys w) !! a = Some q ∧ box_repr q box.
Proof.
  intros Hw Hbox. rewrite assoc_boxes in Hbox. pose proof (boxes_lookup w t a Hw) as Ha. rewrite Hbox in Ha.
  destruct (mailboxes (w_sys w) !! a) as [q|]; [|done]. exists q. by destruct Ha.
Qed.

Lemma handle_lookup w t h a i :
  world_repr w t → t_handles t !! h = Some (a, i) →
  ∃ q box, the_handle w h = mkMailbox (mkAddress a) (Z.of_nat i) ∧ w_handles w !! h = Some (the_handle w h) ∧
    the_queue w h = Some q ∧ boxes t !! a = Some box ∧ box_ok q box ∧ (i ≤ length box)%nat.
Proof.
  intros Hw Hh. destruct (Forall2_lookup_r _ _ _ _ _ (wr_handles w t Hw) Hh) as (mb & Hmb & -> & box & Hbox & Hi).
  cbn in Hbox, Hi. unfold the_queue, the_handle. rewrite Hmb. cbn.
  pose proof (boxes_lookup w t a Hw) as Ha. rewrite Hbox in Ha.
  destruct (mailboxes (w_sys w) !! a) as [q|]; [|done]. by exists q, box.
Qed.

(** The encodings of what waits at a place of a box. *)
Lemma box_payload q box i :
  box_ok q box → (i ≤ length box)%nat →
  bq_read q (Z.of_nat i) =
    match drop i box with
    | [] => Err (not_found (Z.of_nat i))
    | _ => Ok (concat (map encoded (drop i box)))
    end ∧
  (drop i box ≠ [] → 0 < len (concat (map encoded (drop i box)))).
Proof.
  intros (Hq & Hs & Hl) Hi. destruct Hq as (bss & Hbq & Hall).
  assert (length bss = length box) as Hlen by (symmetry; by eapply Forall2_length).
  rewrite (bq_read_repr q bss _ Hbq), Nat2Z.id by lia.
  apply (Forall2_drop _ _ _ i) in Hall. pose proof (length_drop bss i) as Hld.
  assert (concat (drop i bss) = concat (map encoded (drop i box))) as ->.
  { clear Hld. f_equal. induction Hall as [|m bs ms bs' Hm _ IH]; [done|]. cbn. rewrite IH. unfold encoded. by rewrite Hm. }
  destruct Hall as [|m bs ms bss' Hm _].
  - rewrite decide_False by (cbn in Hld; lia). done.
  - assert (0 < len (concat (map encoded (m :: ms)))) as Hpos.
    { cbn. rewrite len_app. pose proof (json_nonempty m bs Hm). unfold encoded at 1. rewrite Hm. cbn.
      pose proof (len_nonneg (concat (map encoded ms))). lia. }
    rewrite decide_True by (cbn in Hld; lia). by rewrite (proj2 (Z.leb_gt _ _)).
Qed.

(** Deserializing what waits. *)
Lemma waiting_decoded box i :
  Forall (λ m, sendable m = true) box →
  match drop i box with
  | [] => True
  | [m] => from_bytes (concat (map encoded [m])) = Ok m
  | waiting => from_bytes (concat (map encoded waiting)) = Err (Serialization (garbled waiting))
  end.
Proof.
  intros Hs%(Forall_drop _ i). unfold from_bytes, garbled.
  assert (∀ m, sendable m = true → json_to_vec m = Ok (encoded m)) as Henc.
  { intros m [Hm _]%andb_true_iff. unfold encoded. by destruct (json_to_vec m). }
  destruct Hs as [|m rest Hm Hs]; [done|]. destruct Hs as [|m' rest Hm' Hs].
  - cbn. rewrite app_nil_r. by rewrite (json_roundtrip m _ (Henc m Hm)).
  - cbn. destruct (json_trailing m _ m' _ (concat (map encoded rest)) (Henc m Hm) (Henc m' Hm')) as [e ->]. done.
Qed.

(** Receiving, peeking and counting. *)
Lemma receive_spec q box a i :
  box_ok q box → (i ≤ length box)%nat →
  let mb := mkMailbox (mkAddress a) (Z.of_nat i) in
  receive q mb = (mkMailbox (mkAddress a) (Z.of_nat (if bool_decide (drop i box = []) then i else S i)), abs_receive i (drop i box)) ∧
  peek q mb = abs_receive i (drop i box) ∧
  pending_count q mb = match drop i box with [] => 0 | _ => 1 end.
Proof.
  intros Hq Hi mb. destruct (box_payload q box i Hq Hi) as [Hread Hpos]. pose proof Hq as (_ & Hs & Hl).
  pose proof (waiting_decoded box i Hs) as Hdec. unfold receive, peek, pending_count, mb; cbn [mb_read_offset mb_address].
  rewrite Hread. destruct (drop i box) as [|m rest] eqn:Hd; [done|].
  cbn [map_err mbind outcome_bind]. specialize (Hpos ltac:(done)). rewrite (proj2 (Z.eqb_neq _ 0)) by lia. cbn [negb].
  rewrite wrap_id by (unfold in_range, MAX_MESSAGES, len in *; lia). rewrite bool_decide_false by done.
  replace (Z.of_nat i + 1) with (Z.of_nat (S i)) by lia.
  destruct rest; rewrite Hdec; done.
Qed.

(** A later table keeps the handles good as long as boxes only grow. *)
Lemma handle_ok_grow t t' mb h :
  (∀ a box, boxes t !! a = Some box → ∃ more, boxes t' !! a = Some (box ++ more)) →
  handle_ok t mb h → handle_ok t' mb h.
Proof.
  intros Hgrow [Hmb (box & Hbox & Hi)]. split; [done|]. destruct (Hgrow _ _ Hbox) as [more Hm].
  exists (box ++ more). split; [done|]. rewrite length_app. lia.
Qed.

Lemma opens_same sys sys' :
  base_dir sys' = base_dir sys → default_config sys' = default_config sys → opens sys → opens sys'.
Proof. intros Hb Hc Ho a Ha. unfold mailbox_config, mailbox_dir in *. rewrite Hb, Hc. by apply Ho. Qed.

Lemma route_refines w t m t' r :
  roomy → world_repr w t → t_send t m = Some (t', r) → Forall (λ m, sendable m = true) (t_sent t') →
  ∃ w', sent w (route_message (S fuel) (w_sys w) m) = Some (w', r) ∧ world_repr w' t'.
Proof.
  intros Hroom Hw. pose proof Hw as [Hboxes Hhandles Hcount Hout Hopens]. unfold t_send. rewrite assoc_boxes.
  pose proof (boxes_lookup w t (as_str (msg_to m)) Hw) as Hbox.
  destruct (boxes t !! as_str (msg_to m)) as [box|] eqn:Ht.
  - destruct (mailboxes (w_sys w) !! as_str (msg_to m)) as [q|] eqn:Hq; [|done].
    destruct (_ <? _) eqn:Hlen; [|done]. apply Z.ltb_lt in Hlen.
    intros [= <- <-] [_ [Hm _]%Forall_cons]%Forall_app. destruct Hbox as ((bss & Hbq & Hall) & Hs & Hl).
    pose proof Hm as [Hok Hsize]%andb_true_iff. zbool.
    assert (json_to_vec m = Ok (encoded m)) as Henc by (unfold encoded; by destruct (json_to_vec m)).
    assert (bq_room bss (encoded m)) as Hr.
    { apply Hroom; [unfold len in *; by rewrite <- (Forall2_length _ _ _ Hall)|]. apply Forall_app. split; [|by repeat constructor].
      clear -Hall Hs. induction Hall as [|m' bs ms bss Hm' _ IH]; [done|]. apply Forall_cons in Hs as [Hs1 Hs].
      constructor; [|by apply IH]. apply andb_true_iff in Hs1 as [_ Hs1]. zbool. unfold encoded in Hs1. by rewrite Hm' in Hs1. }
    destruct (route_delivers fuel (w_sys w) m q bss (encoded m) Hq Hbq Henc Hr) as (q' & -> & Hq').
    eexists. split; [done|]. split; cbn; [| |by rewrite Hcount|done|by eapply opens_same; [..|exact Hopens]].
    + unfold boxes; cbn [t_boxes]. rewrite assoc_set_insert. apply map_Forall2_insert_2; [|done]. split_and!.
      * exists (bss ++ [encoded m]). split; [done|]. apply Forall2_app; [done|]. by constructor.
      * apply Forall_app. split; [done|]. by constructor.
      * rewrite len_app. change (len [m]) with 1. lia.
    + eapply Forall2_impl; [exact Hhandles|]. intros mb h. apply handle_ok_grow. unfold boxes; cbn [t_boxes]. rewrite assoc_set_insert. fold (boxes t). intros a b Ha.
      destruct (decide (a = as_str (msg_to m))) as [->|Hne].
      * exists [m]. rewrite lookup_insert_eq. congruence.
      * exists []. by rewrite lookup_insert_ne, app_nil_r by done.
  - destruct (mailboxes (w_sys w) !! as_str (msg_to m)) as [q|] eqn:Hq; [done|]. intros [= <- <-] _.
    unfold route_message. rewrite Hq. eexists. split; [done|]. split; cbn; [done| |by rewrite Hcount|done|done].
    eapply Forall2_impl; [exact Hhandles|]. intros mb h. apply handle_ok_grow. intros a b Ha. exists []. by rewrite app_nil_r.
Qed.

Lemma send_to_refines w t to m t' r (mk : MailboxAddress → Message) :
  roomy → world_repr w t → t_send_to t to m = Some (t', r) → Forall (λ m, sendable m = true) (t_sent t') → m = mk (mkAddress to) →
  ∃ w', sent w (match MailboxAddress_new to with
                | Ok to_addr => route_message (S fuel) (w_sys w) (mk to_addr)
                | Err e => Some (w_sys w, Err e)
                | Panic => Some (w_sys w, Panic)
                end) = Some (w', r) ∧ world_repr w' t'.
Proof.
  intros Hroom Hw Ht Hsent ->. unfold t_send_to in Ht. unfold MailboxAddress_new. destruct (String.eqb to EmptyString).
  - injection Ht as <- <-. eexists. split; [done|]. destruct Hw as [Hboxes Hhandles Hcount Hout Hopens].
    split; cbn; [done| |by rewrite Hcount|done|done]. eapply Forall2_impl; [exact Hhandles|].
    intros mb h. apply handle_ok_grow. intros a b Ha. exists []. by rewrite app_nil_r.
  - by apply (route_refines w t).
Qed.

(** A handle at the start of a box that is there. *)
Lemma new_handle_refines w t sys a box t_new :
  world_repr w t → map_Forall2 (λ _, box_ok) (mailboxes sys) (list_to_map t_new) → (list_to_map t_new : gmap string (list Message)) !! a = Some box →
  (∀ b box, boxes t !! b = Some box → ∃ more, (list_to_map t_new : gmap string (list Message)) !! b = Some (box ++ more)) → opens sys →
  world_repr (new_handle w sys (mkMailbox (mkAddress a) 0)) (mkTable t_new (t_handles t ++ [(a, 0%nat)]) (t_sent t) (t_count t) (t_out t)).
Proof.
  intros [Hboxes Hhandles Hcount Hout Hopens] Hnew Ha Hgrow Hsys. split; cbn; try done. apply Forall2_app.
  - eapply Forall2_impl; [exact Hhandles|]. intros mb h. by apply handle_ok_grow.
  - constructor; [|done]. split; [done|]. exists box. split; [done|]. cbn. lia.
Qed.

Lemma create_refines w t address t' r :
  world_repr w t → spec_call usable ids clock (CallCreate address) t = Some (t', r) →
  ∃ w', run_call fuel ids clock (CallCreate address) w = Some (w', r) ∧ world_repr w' t'.
Proof.
  intros Hw. cbn [spec_call run_call]. unfold create_mailbox, MailboxAddress_new.
  destruct (String.eqb address EmptyString) eqn:He; [intros [= <- <-]; eexists; split; [done|]; by destruct w|]. cbn [as_str].
  rewrite assoc_boxes.
  pose proof (boxes_lookup w t address Hw) as Hbox.
  destruct (boxes t !! address) as [box|] eqn:Ht, (mailboxes (w_sys w) !! address) as [q|] eqn:Hq; try done.
  - intros [= <- <-]. eexists. split; [done|]. by destruct w.
  - destruct (usable address) eqn:Hu; [|done]. destruct (forallb _ _); [|done]. intros [= <- <-].
    destruct (wr_opens w t Hw address Hu) as (Hdir & Hcfg & Hopen). rewrite Hdir. cbn [map_err mbind outcome_bind].
    destruct (bq_open (mailbox_config (w_sys w) address)) as [q| |] eqn:Hqo; [|done..]. cbn.
    rewrite <- (Forall2_length _ _ _ (wr_handles w t Hw)). eexists. split; [done|].
    apply (new_handle_refines w t _ address []); cbn.
    + done.
    + rewrite assoc_set_insert. apply map_Forall2_insert_2; [|apply (wr_boxes w t Hw)]. split_and!; [|done|by unfold MAX_MESSAGES].
      exists []. split; [by eapply bq_open_repr|done].
    + rewrite assoc_set_insert. apply lookup_insert_eq.
    + intros b box Hb. exists []. rewrite app_nil_r, assoc_set_insert, lookup_insert_ne; [done|]. intros <-. by rewrite Ht in Hb.
    + eapply opens_same; [..|apply (wr_opens w t Hw)]; done.
Qed.

Lemma get_refines w t address t' r :
  world_repr w t → spec_call usable ids clock (CallGet address) t = Some (t', r) →
  ∃ w', run_call fuel ids clock (CallGet address) w = Some (w', r) ∧ world_repr w' t'.
Proof.
  intros Hw. cbn [spec_call run_call]. unfold get_mailbox, MailboxAddress_new.
  destruct (String.eqb address EmptyString) eqn:He; [intros [= <- <-]; eexists; by split|]. cbn [as_str mbind outcome_bind]. rewrite assoc_boxes.
  pose proof (boxes_lookup w t address Hw) as Hbox.
  destruct (boxes t !! address) as [box|] eqn:Ht, (mailboxes (w_sys w) !! address) as [q|] eqn:Hq; try done.
  - intros [= <- <-]. rewrite <- (Forall2_length _ _ _ (wr_handles w t Hw)). eexists. split; [done|].
    apply (new_handle_refines w t _ address box); [done|apply (wr_boxes w t Hw)|done| |apply (wr_opens w t Hw)].
    intros b bx Hb. exists []. by rewrite app_nil_r.
  - intros [= <- <-]. by exists w.
Qed.

Lemma receive_refines w t h t' r :
  world_repr w t → spec_call usable ids clock (CallReceive h) t = Some (t', r) →
  ∃ w', run_call fuel ids clock (CallReceive h) w = Some (w', r) ∧ world_repr w' t'.
Proof.
  intros Hw. cbn [spec_call run_call]. destruct (t_handles t !! h) as [[a i]|] eqn:Hh; [|done].
  destruct (handle_lookup w t h a i Hw Hh) as (q & box & Hmb & Hwh & -> & Hbox & Hok & Hi).
  cbn [mbind option_bind]. rewrite assoc_boxes, Hbox. cbn [mbind option_bind]. intros [= <- <-].
  destruct (receive_spec q box a i Hok Hi) as (Hr & _). rewrite Hmb, Hr. eexists. split; [done|].
  destruct Hw as [Hboxes Hhandles Hcount Hout Hopens]. split; cbn; try done.
  apply Forall2_insert; [done|]. split; [done|]. exists box. split; [done|]. cbn.
  destruct (bool_decide_reflect (drop i box = [])) as [Hd|Hd]; [done|].
  destruct (decide (i < length box)%nat); [lia|]. by rewrite drop_ge in Hd by lia.
Qed.

Lemma boxes_dom w t : world_repr w t → dom (mailboxes (w_sys w)) = dom (boxes t).
Proof.
  intros Hw. apply set_eq. intros a. rewrite !elem_of_dom. pose proof (boxes_lookup w t a Hw) as Ha. unfold is_Some.
  destruct (mailboxes (w_sys w) !! a), (boxes t !! a); try done; split; intros [? ?]; eauto; done.
Qed.

Lemma call_refines {R} (c : call R) w t t' r :
  roomy → world_repr w t → spec_call usable ids clock c t = Some (t', r) → Forall (λ m, sendable m = true) (t_sent t') →
  ∃ w', run_call fuel ids clock c w = Some (w', r) ∧ world_repr w' t'.
Proof.
  intros Hroom Hw. pose proof (wr_count w t Hw) as Hcount. destruct c; cbn [spec_call run_call].
  - intros Ht _. by apply (create_refines w t address t' r Hw).
  - intros Ht _. by apply (get_refines w t address t' r Hw).
  - rewrite Hcount. destruct (t_handles t !! h) as [[a i]|] eqn:Hh; [|done]. cbn [mbind option_bind]. intros Ht Hsent.
    destruct (handle_lookup w t h a i Hw Hh) as (q & box & Hmb & _). unfold send_to. rewrite Hmb. cbn [mb_address].
    by apply (send_to_refines w t _ _ t' r (λ to_addr, Message_new _ _ (mkAddress a) to_addr _) Hroom Hw Ht Hsent).
  - rewrite Hcount. destruct (t_handles t !! h) as [[a i]|] eqn:Hh; [|done]. cbn [mbind option_bind]. intros Ht Hsent.
    destruct (handle_lookup w t h a i Hw Hh) as (q & box & Hmb & _). unfold send_with_subject. rewrite Hmb. cbn [mb_address].
    by apply (send_to_refines w t _ _ t' r (λ to_addr, with_subject (Message_new _ _ (mkAddress a) to_addr _) _) Hroom Hw Ht Hsent).
  - rewrite Hcount. destruct (t_handles t !! h) as [[a i]|] eqn:Hh; [|done]. cbn [mbind option_bind]. intros Ht Hsent.
    destruct (handle_lookup w t h a i Hw Hh) as (q & box & Hmb & _). unfold reply. rewrite Hmb. cbn [mb_address].
    by apply (route_refines w t).
  - intros Ht _. by apply (receive_refines w t h t' r Hw).
  - destruct (t_handles t !! h) as [[a i]|] eqn:Hh; [|done].
    destruct (handle_lookup w t h a i Hw Hh) as (q & box & Hmb & _ & -> & Hbox & Hok & Hi).
    cbn [mbind option_bind]. rewrite assoc_boxes, Hbox. cbn [mbind option_bind]. intros [= <- <-] _.
    destruct (receive_spec q box a i Hok Hi) as (_ & Hp & _). rewrite Hmb, Hp. by exists w.
  - destruct (t_handles t !! h) as [[a i]|] eqn:Hh; [|done].
    destruct (handle_lookup w t h a i Hw Hh) as (q & box & Hmb & _ & -> & Hbox & Hok & Hi).
    cbn [mbind option_bind]. rewrite assoc_boxes, Hbox. cbn [mbind option_bind]. intros [= <- <-] _.
    destruct (receive_spec q box a i Hok Hi) as (_ & _ & Hp). rewrite Hmb, Hp. by exists w.
  - intros [= <- <-] _. exists w. unfold list_mailboxes. rewrite (boxes_dom w t Hw). unfold boxes. by rewrite dom_list_to_map_L.
  - intros [= <- <-] _. exists w. split; [|done]. unfold mailbox_stats. do 2 f_equal. apply map_eq. intros a.
    rewrite !lookup_fmap. fold (boxes t). pose proof (boxes_lookup w t a Hw) as Ha. by destruct (mailboxes (w_sys w) !! a), (boxes t !! a).
  - destruct (t_handles t !! h) as [[a i]|] eqn:Hh; [|done].
    destruct (handle_lookup w t h a i Hw Hh) as (q & box & Hmb & Hwh & _). rewrite Hwh. cbn [mbind option_bind]. intros [= <- <-] _.
    exists w. by rewrite Hmb.
  - intros [= <- <-] _. eexists. split; [done|]. destruct Hw as [Hboxes Hhandles Hc Hout Hopens]. split; cbn; try done. by rewrite Hout.
Qed.

(** The messages sent are only added to. *)
Lemma spec_call_sent {R} (c : call R) t t' r :
  spec_call usable ids clock c t = Some (t', r) → ∃ more, t_sent t' = t_sent t ++ more.
Proof.
  assert (∀ t m t' r, t_send t m = Some (t', r) → ∃ more, t_sent t' = t_sent t ++ more) as Hsend.
  { intros u m u' r'. unfold t_send. destruct (assoc _ (t_boxes u)); [destruct (_ <? _); [|done]|]; intros [= <- <-]; cbn;
      [by eexists|by exists []; rewrite app_nil_r]. }
  assert (∀ t to m t' r, t_send_to t to m = Some (t', r) → ∃ more, t_sent t' = t_sent t ++ more) as Hsend_to.
  { intros u to m u' r'. unfold t_send_to. destruct (String.eqb _ _); [|by apply Hsend]. intros [= <- <-].
    exists []. by rewrite app_nil_r. }
  destruct c; cbn [spec_call]; intros Hc;
    repeat (case_match; try done); simplify_option_eq; repeat (case_match; simplify_option_eq); eauto;
    exists []; by rewrite app_nil_r.
Qed.
Lemma spec_run_sent {A} (c : client A) t t' a :
  spec_run usable ids clock c t = Some (t', a) → ∃ more, t_sent t' = t_sent t ++ more.
Proof.
  revert t. induction c as [b|R o k IH]; intros t; [intros [= <- <-]; exists []; by rewrite app_nil_r|].
  cbn [spec_run]. destruct (spec_call usable ids clock o t) as [[t1 r]|] eqn:Ho; [|done]. cbn. intros Hr.
  destruct (spec_call_sent o t t1 r Ho) as [m1 H1']. destruct (IH r t1 Hr) as [m2 H2']. exists (m1 ++ m2).
  by rewrite H2', H1', app_assoc.
Qed.

Lemma client_run_refines {A} (c : client A) w t t' a :
  roomy → world_repr w t → spec_run usable ids clock c t = Some (t', a) → Forall (λ m, sendable m = true) (t_sent t') →
  ∃ w', run fuel ids clock c w = Some (w', a) ∧ world_repr w' t'.
Proof.
  intros Hroom. revert w t. induction c as [b|R o k IH]; intros w t Hw.
  - intros [= <- <-] _. by exists w.
  - cbn [spec_run run]. destruct (spec_call usable ids clock o t) as [[t1 r]|] eqn:Ho; [|done]. cbn. intros Hr Hsent.
    destruct (spec_run_sent (k r) t1 t' a Hr) as [more Hmore]. pose proof Hsent as Hsent1.
    rewrite Hmore in Hsent1. apply Forall_app in Hsent1 as [Hsent1 _].
    destruct (call_refines o w t t1 r Hroom Hw Ho Hsent1) as (w1 & -> & Hw1). cbn. by apply (IH r w1 t1).
Qed.

Lemma fresh_world_repr sys : mailboxes sys = ∅ → opens sys → world_repr (mkWorld sys [] 0 []) (mkTable [] [] [] 0 []).
Proof. intros Hs Ho. split; cbn; [rewrite Hs; apply map_Forall2_empty|done..]. Qed.
End refinement.

(** ** Property *)
Section client_property.
Context `{ByteQueueOk} `{MessageCodecOk} `{Os}.

(** C8. Every client of the mailbox system gets the answers the specification
    gives it: run on a new system, a client for which the specification has a
    run (no mailbox holds too many messages and no two share a directory) and
    whose messages can be encoded and are not too large, returns what that run
    returns, having printed the same lines, and leaves every mailbox holding
    the messages the specification says were sent to it. *)
Theorem clients_see_message_logs {A} usable fuel ids clock (c : client A) sys t a :
  mailboxes sys = ∅ → opens usable sys → roomy →
  spec_run usable ids clock c (mkTable [] [] [] 0 []) = Some (t, a) → Forall (λ m, sendable m = true) (t_sent t) →
  ∃ w, run fuel ids clock c (mkWorld sys [] 0 []) = Some (w, a) ∧ w_out w = t_out t ∧
    ∀ address box, assoc address (t_boxes t) = Some box →
      ∃ q, mailboxes (w_sys w) !! address = Some q ∧ box_repr q box.
Proof.
  intros Hs Ho Hroom Hrun Hsent.
  destruct (client_run_refines usable fuel ids clock c _ _ t a Hroom (fresh_world_repr usable sys Hs Ho) Hrun Hsent) as (w & Hw & Hr).
  exists w. split; [done|]. split; [apply (wr_out _ _ _ Hr)|]. intros address box. by apply (box_lookup usable).
Qed.
End client_property.

(** ** Mailboxes over the queues of the repository *)
Section persistq_clients.
Context `{Crc32Ok} `{OsOk} `{Fs}.
#[local] Existing Instance persistq_queue.
#[local] Instance mailbox_queues : ByteQueueOk := persistq_queue_ok (64 * 1024 * 1024).

(** The default segment holds the messages the specification admits. *)
Lemma persistq_roomy : roomy.
Proof.
  intros l bs Hl Hall. cbn. unfold MAX_MESSAGES, MAX_ENCODED in *.
  apply Forall_app in Hall as [Hall [Hbs _]%Forall_cons]. cbn in Hbs.
  assert (∀ l : list bytes, Forall (λ b : bytes, len b ≤ 16 * 1024) l → len (concat l) ≤ 16 * 1024 * len l) as Hc.
  { clear. intros l Hl. induction Hl as [|b l Hb _ IH]; [done|]. cbn [concat]. rewrite len_app, len_cons. lia. }
  specialize (Hc l Hall). unfold len in *. lia.
Qed.

(** A new system can open the files of the addresses whose directory passes the
    queue's validation. *)
Definition valid_address (sys : MailboxSystem) (a : string) : bool := is_ok (validate_config (mailbox_config sys a)).

Lemma persistq_opens dir sys :
  MailboxSystem_new dir = Ok sys → (∀ d, os_create_dir_all d = Ok tt) →
  (∀ d, is_ok (fs_canonicalize false d) = true) → (∀ path, is_ok (os_map_file path (64 * 1024 * 1024)) = true) →
  mailboxes sys = ∅ ∧ opens (valid_address sys) sys.
Proof.
  intros Hnew Hdir Hcanon Hmap. unfold MailboxSystem_new in Hnew. rewrite Hdir in Hnew. injection Hnew as <-.
  split; [done|]. intros a Ha. split; [apply Hdir|]. split; [by split_and!|].
  set (c := mailbox_config _ a) in *. unfold valid_address in Ha. fold c in Ha.
  assert (∃ d, canonical_dir (storage_dir c) = Ok d) as [d Hd].
  { unfold canonical_dir. specialize (Hcanon (storage_dir c)). destruct (fs_canonicalize false (storage_dir c)); [by eexists|done..]. }
  assert (validate_config c = Ok tt) as Hv by (destruct (validate_config c) as [[]| |]; done).
  destruct (queue_opens c d Hv Hd) as [q Hq]; [apply Hmap|by rewrite Hdir|].
  change (is_ok (PersistQ_new c) = true). by rewrite Hq.
Qed.
End persistq_clients.

Lemma opens_fewer `{ByteQueueOk} `{Os} u v sys : (∀ a, u a = true → v a = true) → opens v sys → opens u sys.
Proof. intros Huv Hv a Ha. apply Hv, Huv, Ha. Qed.

(** ** Notations for clients *)
Declare Scope client_scope.
Delimit Scope client_scope with client.
Notation "x <-! c ; k" := (must (call_ c) (λ x, k)) (at level 100, c at level 90, k at level 200, right associativity) : client_scope.
Notation "x <-? c ; k" := (try (call_ c) (λ x, k)) (at level 100, c at level 90, k at level 200, right associativity) : client_scope.
Notation "x <-- c ; k" := (then_ (call_ c) (λ x, k)) (at level 100, c at level 90, k at level 200, right associativity) : client_scope.
Notation "x <-some o ; k" := (some_or_panic o (λ x, k)) (at level 100, o at level 90, k at level 200, right associativity) : client_scope.

(** Evaluating the specification one call at a time: the table after each call
    is computed, whatever the ids and the times in it; a comparison of an id with
    itself is true. *)
Ltac client_value e := let v := eval vm_compute in e in replace e with v by (vm_compute; reflexivity).
Ltac client_step :=
  unfold assert_; cbn [must try then_ call_ some_or_panic print spec_run msg_id msg_subject];
  lazymatch goal with
  | |- context [spec_run ?u ?i ?c (if ?b then ?x else ?y) ?t] =>
      lazymatch b with
      | context [String.eqb (i ?n) (i ?n)] => rewrite (String.eqb_refl (i n))
      | context [i ?n] => fail
      | _ => client_value b
      end
  | |- context [spec_call ?u ?i ?c ?call ?t] => client_value (spec_call u i c call t)
  end; cbn [mbind option_bind fst snd negb].
Ltac client_run := repeat client_step; cbn [must try then_ call_ some_or_panic assert_ print spec_run].

(** ** A concrete run *)
#[local] Existing Instances digit_codec digit_codec_ok persistq_queue mailbox_queues.

Definition new_system : MailboxSystem := from_ok (mkSystem ∅ "" (sample_config 1)) (MailboxSystem_new "/data").
Definition numbered (n : nat) : string := "id" +:+ pretty n.

Lemma new_system_opens u :
  (∀ a, u a = true → valid_address new_system a = true) → mailboxes new_system = ∅ ∧ opens u new_system.
Proof.
  intros Hu. assert (MailboxSystem_new "/data" = Ok new_system) as Hnew by done.
  destruct (persistq_opens "/data" new_system Hnew) as [He Ho]; [done..|].
  split; [done|]. by eapply opens_fewer.
Qed.

(** Alice writes to Bob, who reads it and then finds nothing more. *)
Definition sample_client : client (outcome MailboxError Message) := (
  alice <-? CallCreate "alice@dolda";
  bob <-? CallCreate "bob@dolda";
  _ <-? CallSend alice "bob@dolda" (str_bytes "hi");
  msg <-? CallReceive bob;
  msg <-some msg;
  more <-- CallReceive bob;
  match more with Err _ => Done (Ok msg) | _ => Done Panic end)%client.

Lemma clients_see_message_logs_witness :
  ∃ w, run 0 numbered Z.of_nat sample_client (mkWorld new_system [] 0 []) =
    Some (w, Ok (Message_new "id0" 0 (mkAddress "alice@dolda") (mkAddress "bob@dolda") (str_bytes "hi"))).
Proof.
  destruct (new_system_opens (λ a, String.eqb a "alice@dolda" || String.eqb a "bob@dolda")) as [He Ho].
  { intros a [Ha|Ha]%orb_true_iff; apply String.eqb_eq in Ha as ->; vm_compute; reflexivity. }
  destruct (clients_see_message_logs (λ a, String.eqb a "alice@dolda" || String.eqb a "bob@dolda") 0 numbered Z.of_nat
    sample_client new_system
    (mkTable [("alice@dolda", []); ("bob@dolda", [Message_new "id0" 0 (mkAddress "alice@dolda") (mkAddress "bob@dolda") (str_bytes "hi")])]
      [("alice@dolda", 0%nat); ("bob@dolda", 1%nat)]
      [Message_new "id0" 0 (mkAddress "alice@dolda") (mkAddress "bob@dolda") (str_bytes "hi")] 1 [])%string
    (Ok (Message_new "id0" 0 (mkAddress "alice@dolda") (mkAddress "bob@dolda") (str_bytes "hi")))
    He Ho persistq_roomy) as (w & Hw & _); [vm_compute; reflexivity|by repeat constructor; vm_compute|].
  exists w. exact Hw.
Defined.
