(* ===== verification/MailboxConc.v ===== *)
(** * Sends that overlap (src/src/mailbox.rs)

    [MailboxSystemInner::route_message] as several tasks run it on mailboxes
    that are there: each send finds the mailbox, serializes the message, starts
    an append on the mailbox's queue and goes through its steps, as in
    [QueueConc], between the steps of the others; then it returns the message's
    id.  The sends hold the system's lock for reading, so that no mailbox is
    created meanwhile. *)

From stdpp Require Import base list list_numbers numbers strings gmap relations pretty.
From S2P Require Import Prelude Crc32 F64 StorageEngine PersistQueue QueueConc ByteQueue Mailboxes MailboxClients.
Local Open Scope Z_scope.

(** ** Definitions *)

(** Where a send is: before it has looked up its mailbox, with its append as the
    [j]-th thread of the mailbox's queue, returned (with the global offset that
    the append gave it and that is not passed on, if it came that far). *)
Inductive sender :=
  | Sending (m : Message)
  | Appending (m : Message) (j : nat)
  | Sent (m : Message) (global : option Z) (result : outcome MailboxError string).

Definition sender_message (s : sender) : Message :=
  match s with Sending m | Appending m _ | Sent m _ _ => m end.
Definition destination (s : sender) : string := as_str (msg_to (sender_message s)).

(** The queues of the mailboxes with the appends that were started on them, and
    the sends. *)
Record mconfig := mkMConfig { mc_boxes : gmap string qconfig; mc_senders : list sender }.

Section steps.
Context `{Crc32} `{Os} `{MessageCodec}.

(** One more append starts on a queue. *)
Definition start_append (box : qconfig) (bs : bytes) : qconfig :=
  mkQConfig (qc_queue box) (qc_locks box) (qc_threads box ++ [QStart bs]).

(** The next step of the [i]-th send.
    Source: src/src/mailbox.rs:296-310 (MailboxSystemInner::route_message, one step at a time) *)
Definition send_step (i : nat) (c : mconfig) : option mconfig :=
  s ← mc_senders c !! i;
  let set s := <[i := s]> (mc_senders c) in
  let a := destination s in
  match s with
  | Sending m =>
      Some match mc_boxes c !! a with
           | None => mkMConfig (mc_boxes c) (set (Sent m None (Err (MailboxNotFound a))))
           | Some box =>
               match to_bytes m with
               | Ok bs => mkMConfig (<[a := start_append box bs]> (mc_boxes c)) (set (Appending m (length (qc_threads box))))
               | Err e => mkMConfig (mc_boxes c) (set (Sent m None (Err e)))
               | Panic => mkMConfig (mc_boxes c) (set (Sent m None Panic))
               end
           end
  | Appending m j =>
      box ← mc_boxes c !! a;
      t ← qc_threads box !! j;
      match t with
      | QDone _ appended =>
          Some (mkMConfig (mc_boxes c)
            (set (Sent m (match appended with Ok g => Some g | _ => None end)
                    (_ ← map_err PersistQError appended; Ok (msg_id m)))))
      | _ => box ← qstep j box; Some (mkMConfig (<[a := box]> (mc_boxes c)) (mc_senders c))
      end
  | Sent _ _ _ => None
  end.

Fixpoint run_sends (sched : list nat) (c : mconfig) : option mconfig :=
  match sched with
  | [] => Some c
  | i :: sched => c ← send_step i c; run_sends sched c
  end.

(** No append is going on and no send has begun. *)
Definition start_sends (queues : gmap string PersistQ) (ms : list Message) : mconfig :=
  mkMConfig ((λ q, mkQConfig q ∅ []) <$> queues) (map Sending ms).
End steps.

(** *** What a send leads to *)
Section spec.
Context `{Crc32} `{Os} `{Fs} `{MessageCodec}.
#[local] Existing Instance persistq_queue.

Definition to_mailbox (a : string) (ms : list Message) : list Message := filter (λ m, as_str (msg_to m) = a) ms.
Definition encodable (m : Message) : Prop := is_ok (json_to_vec m) = true.
Definition turns_of (i : nat) (sched : list nat) : nat := length (filter (λ k, k = i) sched).
Definition returned (s : sender) : Prop := match s with Sent _ _ _ => True | _ => False end.

(** The queue's only partition holds the encodings of these messages. *)
Definition box_holds (q : PersistQ) (msgs : list Message) : Prop :=
  ∃ m, segment_managers q !! 1 = Some m ∧
    qmgr_repr m (segment_size (pq_config q)) (concat (map encoded msgs)).

(** A handle at offset [g] receives what is left of the queue from some message
    on: the message if it is the last one, otherwise an error. *)
Definition receives_from (q : PersistQ) (g : Z) (msgs : list Message) : Prop :=
  ∀ addr, receive (q : bqueue) (mkMailbox addr g) = (mkMailbox addr (g + 1), abs_receive (Z.to_nat g) msgs).
End spec.

(** ** The invariant *)
Section invariant.
Context `{Crc32} `{Os} `{MessageCodec}.
Context (SIZE : Z) (ms : list Message).

(** What the sends to [a] that have not begun will still add. *)
Definition still (a : string) (f : Message → Z) (s : sender) : Z :=
  match s with Sending m => if decide (as_str (msg_to m) = a) then f m else 0 | _ => 0 end.
Definition begun (a : string) (s : sender) : bool :=
  match s with Sending _ => false | _ => bool_decide (destination s = a) end.

(** [l] are the payloads that were there, [ws] those that have got a place since,
    and [own] says which send each thread of the queue belongs to. *)
Record box_inv (a : string) (l ws : list bytes) (own : list (nat * Message)) (box : qconfig) (ss : list sender) : Prop := {
  bi_queue : queue_inv 1 l ws box;
  bi_size : segment_size (pq_config (qc_queue box)) = SIZE;
  bi_room : len (concat l) + zsum (λ t, len (payload t)) (qc_threads box) + zsum (still a (λ m, len (encoded m))) ss ≤ SIZE;
  bi_bound : len l + len (qc_threads box) + zsum (still a (λ _, 1)) ss < 2 ^ 64 - 1;
  bi_threads : Forall2 (λ t im, payload t = encoded im.2) (qc_threads box) own;
  bi_nodup : NoDup (map fst own);
  bi_begun : map snd own ≡ₚ map sender_message (filter (λ s, Is_true (begun a s)) ss);
  bi_owner : ∀ j i m, own !! j = Some (i, m) → as_str (msg_to m) = a ∧ ∃ s, ss !! i = Some s ∧
    match s with
    | Sending _ => False
    | Appending m' j' => m' = m ∧ j' = j
    | Sent m' g _ => m' = m ∧ ∃ g' d, g = Some g' ∧ qc_threads box !! j = Some (QDone d (Ok g'))
    end;
  bi_sender : ∀ i s, ss !! i = Some s → destination s = a →
    match s with
    | Sending _ => True
    | Appending m j => own !! j = Some (i, m)
    | Sent m g r => r = Ok (msg_id m) ∧ ∃ g' j d, g = Some g' ∧ own !! j = Some (i, m) ∧
        qc_threads box !! j = Some (QDone d (Ok g'))
    end
}.

Definition encodes (l : list bytes) (log : list Message) : Prop := Forall2 (λ m bs, json_to_vec m = Ok bs) log l.

Record sends_inv (logs : gmap string (list Message)) (c : mconfig) : Prop := {
  si_messages : map sender_message (mc_senders c) = ms;
  si_dom : ∀ a, logs !! a = None ↔ mc_boxes c !! a = None;
  si_boxes : ∀ a log, logs !! a = Some log → ∃ l ws own box,
    mc_boxes c !! a = Some box ∧ encodes l log ∧ box_inv a l ws own box (mc_senders c);
  si_unknown : ∀ i m g r, mc_senders c !! i = Some (Sent m g r) → logs !! as_str (msg_to m) = None →
    r = Err (MailboxNotFound (as_str (msg_to m)));
  si_known : ∀ i m j, mc_senders c !! i = Some (Appending m j) → is_Some (logs !! as_str (msg_to m))
}.
End invariant.

(** ** Lemmas *)

(** *** One queue *)
Section queue_lemmas.
Context `{Crc32Ok} `{OsOk}.

Lemma single_content log : partition_content 1 1 log = concat log.
Proof. by apply partition_content_single. Qed.

(** What the threads add to a queue is what they have placed and what they still
    want. *)
Lemma threads_total full om ts :
  Forall (thread_ok 1 full om) ts →
  len (concat (map payload (filter (λ t, Is_true (has_place t)) ts))) + zsum (wanted 1 1) ts = zsum (λ t, len (payload t)) ts.
Proof.
  induction 1 as [|t ts Ht _ IH]; [done|]. rewrite filter_cons. cbn [zsum foldr]. fold (zsum (wanted 1 1) ts).
  fold (zsum (λ t, len (payload t)) ts).
  destruct t as [d|d k|d|d|d off|d off g|d [g| |]]; cbn in Ht |- *; try done;
    first [rewrite decide_False by (intros [])|rewrite decide_True by done];
    rewrite ?decide_True by apply route_single; cbn [map concat]; rewrite ?len_app; cbn; lia.
Qed.

Lemma queue_total l ws c :
  queue_inv 1 l ws c →
  len (concat (l ++ ws)) + zsum (wanted 1 1) (qc_threads c) = len (concat l) + zsum (λ t, len (payload t)) (qc_threads c).
Proof.
  intros Hinv. rewrite <- (threads_total _ _ _ (qi_threads _ _ _ _ Hinv)), concat_app, len_app.
  assert (len (concat ws) = len (concat (map payload (filter (λ t, Is_true (has_place t)) (qc_threads c))))) as ->; [|lia].
  generalize (qi_ws _ _ _ _ Hinv). generalize (map payload (filter (λ t, Is_true (has_place t)) (qc_threads c))).
  clear. intros k. induction 1; cbn; rewrite ?len_app; lia.
Qed.

Lemma queue_inv_start_append l ws c d :
  queue_inv 1 l ws c →
  len (concat l) + zsum (λ t, len (payload t)) (qc_threads c) + len d ≤ segment_size (pq_config (qc_queue c)) →
  len l + len (qc_threads c) + 1 < 2 ^ 64 →
  queue_inv 1 l ws (start_append c d).
Proof.
  intros Hinv Hroom Hb. pose proof (queue_total l ws c Hinv) as Ht.
  destruct Hinv as [Hn Hparts Hsize Hms Hr Hws Hts Hbound [Hcount Hrange Hdist] Hlog].
  split; cbn [start_append qc_queue qc_threads]; try done.
  - intros p Hp. assert (p = 1) as -> by lia. rewrite zsum_app, single_content. cbn. rewrite decide_True by apply route_single. lia.
  - rewrite filter_app. cbn. by rewrite app_nil_r.
  - apply Forall_app. split; [done|]. by constructor.
  - rewrite len_app. change (len [QStart d]) with 1. lia.
  - split.
    + rewrite filter_app. change (filter (λ t, is_Some (number_of t)) [QStart d]) with (@nil qthread). by rewrite app_nil_r.
    + intros i t g [Hi|[_ Hi]]%lookup_app_Some Hg; [by apply (Hrange i t)|].
      apply list_lookup_singleton_Some in Hi as [_ <-]. done.
    + intros i j t u g [Hi|[_ Hi]]%lookup_app_Some [Hj|[_ Hj]]%lookup_app_Some Hg Hg'.
      * by apply (Hdist i j t u g).
      * by apply list_lookup_singleton_Some in Hj as [_ <-].
      * by apply list_lookup_singleton_Some in Hi as [_ <-].
      * by apply list_lookup_singleton_Some in Hi as [_ <-].
Qed.

(** The numbers given out. *)
Lemma number_range l ws c j d g :
  queue_inv 1 l ws c → qc_threads c !! j = Some (QDone d (Ok g)) → len l ≤ g < len l + len (qc_threads c).
Proof.
  intros Hinv Hj. pose proof (qi_numbers _ _ _ _ Hinv) as [Hcount Hrange _].
  specialize (Hrange j _ g Hj eq_refl). pose proof (length_filter (λ t, is_Some (number_of t)) (qc_threads c)). unfold len in *. lia.
Qed.

Lemma qstep_config j c c' : qstep j c = Some c' → pq_config (qc_queue c') = pq_config (qc_queue c).
Proof.
  intros (t & _ & ([[q l] t'] & Hs & [= <-])%bind_Some)%bind_Some. cbn. unfold qstep_thread in Hs.
  destruct t; repeat case_match; simplify_option_eq; repeat case_match; by simplify_eq.
Qed.

Lemma done_or_remains l ws c j t :
  queue_inv 1 l ws c → qc_threads c !! j = Some t → (∃ d g, t = QDone d (Ok g)) ∨ (0 < remaining t)%nat.
Proof.
  intros Hinv Hj. pose proof (Forall_lookup_1 _ _ _ _ (qi_threads _ _ _ _ Hinv) Hj) as Hok.
  destruct t as [d|d k|d|d|d off|d off g|d [g| |]]; cbn in *; try done; try (right; lia). left. eauto.
Qed.
End queue_lemmas.

(** *** Reading *)
Section read_lemmas.
Context `{Crc32Ok} `{OsOk} `{Fs} `{MessageCodecOk}.
#[local] Existing Instance persistq_queue.

Lemma encodable_json m : encodable m → json_to_vec m = Ok (encoded m).
Proof. unfold encodable, encoded. by destruct (json_to_vec m). Qed.

(** The bytes of several messages, received. *)
Lemma receive_payload (q : PersistQ) g m rest :
  Forall encodable (m :: rest) → 0 ≤ g < 2 ^ 64 - 1 →
  qr_data ∘ rr_record <$> PersistQ_read 0 0 q g = Ok (concat (map encoded (m :: rest))) → receives_from q g (m :: rest).
Proof.
  intros [Hm Hrest]%Forall_cons Hg Hread addr. unfold receive. cbn [mb_read_offset mb_address].
  change (@bq_read persistq_queue q g) with (qr_data ∘ rr_record <$> PersistQ_read 0 0 q g). rewrite Hread. cbn [map_err].
  pose proof (encodable_json m Hm) as Hj. pose proof (json_nonempty m _ Hj) as Hpos.
  cbn [map concat]. pose proof (len_nonneg (concat (map encoded rest))).
  rewrite (proj2 (Z.eqb_neq _ 0)) by (rewrite len_app; lia). cbn [negb]. rewrite wrap_id by (unfold in_range; lia).
  unfold abs_receive, garbled, from_bytes. destruct Hrest as [|m' rest Hm' Hrest].
  - cbn [map concat]. by rewrite app_nil_r, (json_roundtrip m _ Hj).
  - cbn [map concat]. destruct (json_trailing m _ m' _ (concat (map encoded rest)) Hj (encodable_json m' Hm')) as [e ->]. done.
Qed.

(** Payloads that encode messages. *)
Lemma encodes_map l log : encodes l log → l = map encoded log ∧ Forall encodable log.
Proof.
  induction 1 as [|m bs log l Hm _ [-> IH]]; [done|]. cbn. unfold encoded at 2, encodable. rewrite Hm. split; [done|].
  constructor; [by rewrite Hm|done].
Qed.

Lemma encoded_inj m m' : encodable m → encodable m' → encoded m = encoded m' → m = m'.
Proof.
  intros Hm%encodable_json Hm'%encodable_json He. apply json_roundtrip in Hm, Hm'. rewrite He in Hm. congruence.
Qed.

(** Where an encoded message is among encoded messages. *)
Lemma encoded_split msgs m l1 l2 :
  Forall encodable msgs → encodable m → map encoded msgs = l1 ++ encoded m :: l2 →
  ∃ k1 k2, msgs = k1 ++ m :: k2 ∧ l1 = map encoded k1 ∧ l2 = map encoded k2.
Proof.
  intros Hall Hm (k1 & k & -> & <- & Hk)%map_eq_app. destruct k as [|m' k2]; [done|]. injection Hk as He <-.
  apply Forall_app in Hall as [_ [Hm' _]%Forall_cons]. rewrite (encoded_inj m' m Hm' Hm He). by exists k1, k2.
Qed.
End read_lemmas.

(** *** Steps of the sends *)
Section step_lemmas.
Context `{Crc32Ok} `{OsOk} `{MessageCodecOk}.
Context (SIZE : Z) (ms : list Message).

Lemma still_nonneg a f s : (∀ m, 0 ≤ f m) → 0 ≤ still a f s.
Proof. intros Hf. destruct s; cbn; [|lia..]. by destruct (decide _). Qed.

Lemma box_inv_other a l ws own box ss i s s' :
  box_inv SIZE a l ws own box ss → ss !! i = Some s → sender_message s' = sender_message s → destination s ≠ a →
  box_inv SIZE a l ws own box (<[i := s']> ss).
Proof.
  intros [Hq Hsz Hroom Hb Hts Hnd Hbeg Hown Hsnd] Hi Hm Ha.
  assert (destination s' ≠ a) as Ha' by (unfold destination in *; by rewrite Hm).
  assert (∀ f u, destination u ≠ a → still a f u = 0) as Hstill.
  { intros f [m|m j|m g r] Hu; [|done..]. cbn in *. by rewrite decide_False. }
  split; try done.
  - rewrite (zsum_insert _ _ _ _ _ Hi), !Hstill by done. lia.
  - rewrite (zsum_insert _ _ _ _ _ Hi), !Hstill by done. lia.
  - assert (∀ u, destination u ≠ a → ¬ Is_true (begun a u)) as Hno.
    { intros u Hu. unfold begun. destruct u; [intros []|..]; rewrite bool_decide_eq_false_2 by done; intros []. }
    rewrite (filter_insert_old _ _ _ _ s s' Hi); [done| |done]. split; intros Hbg; [by destruct (Hno s Ha)|by destruct (Hno s' Ha')].
  - intros j k m Hj. destruct (Hown j k m Hj) as (Hma & u & Hu & Hstate). split; [done|].
    destruct (decide (k = i)) as [->|Hne]; [|exists u; by rewrite list_lookup_insert_ne].
    exfalso. rewrite Hi in Hu. injection Hu as <-. apply Ha. unfold destination.
    by destruct s; cbn in *; [|destruct Hstate as [-> _]..].
  - intros k u [(-> & -> & _)|[Hne Hk]]%list_lookup_insert_Some Hu; [done|]. by apply Hsnd.
Qed.

(** A send begins its append. *)
Lemma box_inv_route a l ws own box ss i m :
  box_inv SIZE a l ws own box ss → ss !! i = Some (Sending m) → as_str (msg_to m) = a →
  box_inv SIZE a l ws (own ++ [(i, m)]) (start_append box (encoded m)) (<[i := Appending m (length (qc_threads box))]> ss).
Proof.
  intros [Hq Hsz Hroom Hb Hts Hnd Hbeg Hown Hsnd] Hi Ha.
  assert (∀ f, still a f (Sending m) = f m) as Hstill by (intros f; cbn; by rewrite decide_True).
  pose proof (Forall2_length _ _ _ Hts) as Hlen.
  assert (∀ f : Message → Z, (∀ m, 0 ≤ f m) → f m ≤ zsum (still a f) ss) as Hle.
  { intros f Hf. rewrite <- Hstill. apply (zsum_lookup_le _ ss i); [intros s; by apply still_nonneg|done]. }
  pose proof (Hle (λ m, len (encoded m)) (λ _, len_nonneg _)) as Hle1.
  pose proof (Hle (λ _, 1) ltac:(intros; lia)) as Hle2. cbn beta in Hle1, Hle2.
  assert (∀ j m', own !! j ≠ Some (i, m')) as Hfresh.
  { intros j m' Hj. destruct (Hown j i m' Hj) as (_ & s & Hs & Hstate). rewrite Hi in Hs. by injection Hs as <-. }
  split; cbn [start_append qc_queue qc_threads]; try done.
  - apply queue_inv_start_append; [done|rewrite Hsz; lia|change (2 ^ 64) with (2 ^ 64 - 1 + 1); lia].
  - rewrite zsum_app, (zsum_insert _ _ _ _ _ Hi), Hstill. cbn. lia.
  - rewrite len_app, (zsum_insert _ _ _ _ _ Hi), Hstill. cbn. change (len [QStart (encoded m)]) with 1. lia.
  - apply Forall2_app; [done|]. by constructor.
  - rewrite map_app. apply NoDup_app. split; [done|]. split; [|apply NoDup_singleton].
    intros k ([k' m'] & -> & [j Hj]%list_elem_of_lookup)%list_elem_of_fmap Hk. apply list_elem_of_singleton in Hk. cbn in Hk. subst k'.
    by apply (Hfresh j m').
  - rewrite map_app. cbn [map snd]. etrans; [symmetry; apply Permutation_cons_append|]. etrans; [apply perm_skip, Hbeg|].
    symmetry. apply (filter_insert_new (λ s, Is_true (begun a s)) sender_message ss i (Sending m)); [done|by intros []|].
    cbn. by rewrite bool_decide_eq_true_2.
  - intros j k m' [Hj|[Hge Hj]]%lookup_app_Some.
    + destruct (Hown j k m' Hj) as (Hma & s & Hs & Hstate). split; [done|]. exists s.
      destruct (decide (k = i)) as [->|Hne]; [by destruct (Hfresh j m')|]. split; [by rewrite list_lookup_insert_ne|].
      destruct s as [?|?|? g r]; [done..|]. destruct Hstate as (-> & g' & d & -> & Hj'). split; [done|]. exists g', d.
      split; [done|]. by apply lookup_app_l_Some.
    + apply list_lookup_singleton_Some in Hj as [Hj [= <- <-]]. split; [done|].
      eexists. split; [apply list_lookup_insert_eq; by eapply lookup_lt_Some|]. split; [done|]. lia.
  - intros k u [(<- & <- & _)|[Hne Hk]]%list_lookup_insert_Some Hu.
    + rewrite Hlen. by apply list_lookup_middle.
    + specialize (Hsnd k u Hk Hu). destruct u as [m'|m' j|m' g r]; [done|by apply lookup_app_l_Some|].
      destruct Hsnd as (-> & g' & j & d & -> & Hj & Hd). split; [done|]. exists g', j, d. split; [done|]. split; by apply lookup_app_l_Some.
Qed.

(** An append takes a step. *)
Lemma box_inv_qstep a l ws own box ss j t box' t' :
  box_inv SIZE a l ws own box ss → qc_threads box !! j = Some t → (0 < remaining t)%nat → qstep j box = Some box' →
  qc_threads box' = <[j := t']> (qc_threads box) → payload t' = payload t →
  ∃ ws', box_inv SIZE a l ws' own box' ss.
Proof.
  intros [Hq Hsz Hroom Hb Hts Hnd Hbeg Hown Hsnd] Hj Hrem Hstep Hthreads Hp.
  destruct (queue_inv_step 1 l ws box box' Hq ltac:(by exists j)) as [ws' Hq'].
  assert (∀ k d g, qc_threads box !! k = Some (QDone d (Ok g)) → qc_threads box' !! k = Some (QDone d (Ok g))) as Hdone.
  { intros k d g Hk. rewrite Hthreads. destruct (decide (k = j)) as [->|Hne]; [|by rewrite list_lookup_insert_ne].
    rewrite Hj in Hk. injection Hk as ->. cbn in Hrem. lia. }
  exists ws'. split; try done.
  - by rewrite (qstep_config _ _ _ Hstep).
  - rewrite Hthreads, (zsum_insert _ _ _ _ _ Hj), Hp. lia.
  - rewrite Hthreads. unfold len. rewrite length_insert. done.
  - destruct (Forall2_lookup_l _ _ _ _ _ Hts Hj) as (im & Him & Hpim). rewrite Hthreads, <- (list_insert_id own j im Him).
    apply Forall2_insert; [done|by rewrite Hp].
  - intros k i m Hk. destruct (Hown k i m Hk) as (Hma & s & Hs & Hstate). split; [done|]. exists s. split; [done|].
    destruct s as [?|?|? g r]; [done..|]. destruct Hstate as (-> & g' & d & -> & Hd). split; [done|]. eauto.
  - intros k s Hk Hs. specialize (Hsnd k s Hk Hs). destruct s as [?|?|m g r]; [done..|].
    destruct Hsnd as (-> & g' & i & d & -> & Hi & Hd). split; [done|]. exists g', i, d. eauto.
Qed.

(** A send returns. *)
Lemma box_inv_return a l ws own box ss i m j d g :
  box_inv SIZE a l ws own box ss → ss !! i = Some (Appending m j) → as_str (msg_to m) = a →
  qc_threads box !! j = Some (QDone d (Ok g)) →
  box_inv SIZE a l ws own box (<[i := Sent m (Some g) (Ok (msg_id m))]> ss).
Proof.
  intros [Hq Hsz Hroom Hb Hts Hnd Hbeg Hown Hsnd] Hi Ha Hj.
  pose proof (Hsnd i _ Hi Ha) as Hij. cbn in Hij. pose proof (lookup_lt_Some _ _ _ Hi) as Hlt.
  split; try done.
  - rewrite (zsum_insert _ _ _ _ _ Hi). cbn. lia.
  - rewrite (zsum_insert _ _ _ _ _ Hi). cbn. lia.
  - by rewrite (filter_insert_old _ _ _ _ (Appending m j) _ Hi) by done.
  - intros k i' m' Hk. destruct (Hown k i' m' Hk) as (Hma & s & Hs & Hstate). split; [done|].
    destruct (decide (i' = i)) as [->|Hne]; [|exists s; by rewrite list_lookup_insert_ne].
    rewrite Hi in Hs. injection Hs as <-. destruct Hstate as [-> ->]. eexists. split; [by apply list_lookup_insert_eq|]. split; [done|]. by exists g, d.
  - intros k s [(<- & <- & _)|[Hne Hk]]%list_lookup_insert_Some Hs; [|by apply Hsnd]. split; [done|]. by exists g, j, d.
Qed.
End step_lemmas.

(** *** Steps of the whole *)
Section system_lemmas.
Context `{Crc32Ok} `{OsOk} `{Fs} `{MessageCodecOk}.
Context (SIZE : Z) (ms : list Message) (logs : gmap string (list Message)).
Hypothesis all_encodable : Forall encodable ms.
Abbreviation inv := (sends_inv SIZE ms logs).

Lemma sender_encodable c i s : inv c → mc_senders c !! i = Some s → encodable (sender_message s).
Proof.
  intros Hinv Hi. rewrite <- (si_messages _ _ _ _ Hinv) in all_encodable.
  eapply (Forall_lookup_1 _ _ i); [exact all_encodable|]. by rewrite list_lookup_fmap, Hi.
Qed.

Lemma same_messages c i s s' :
  inv c → mc_senders c !! i = Some s → sender_message s' = sender_message s →
  map sender_message (<[i := s']> (mc_senders c)) = ms.
Proof.
  intros Hinv Hi Hm. rewrite <- (si_messages _ _ _ _ Hinv). rewrite (list_fmap_insert sender_message), Hm.
  apply list_insert_id. by rewrite list_lookup_fmap, Hi.
Qed.

(** The boxes of the other addresses, when the [i]-th send moves on. *)
Lemma other_boxes c i s s' (boxes : gmap string qconfig) a log :
  inv c → mc_senders c !! i = Some s → sender_message s' = sender_message s → destination s ≠ a →
  boxes !! a = mc_boxes c !! a → logs !! a = Some log →
  ∃ l ws own box, boxes !! a = Some box ∧ encodes l log ∧ box_inv SIZE a l ws own box (<[i := s']> (mc_senders c)).
Proof.
  intros Hinv Hi Hm Ha Hb Hlog. destruct (si_boxes _ _ _ _ Hinv a log Hlog) as (l & ws & own & box & Hbox & Henc & Hbi).
  exists l, ws, own, box. rewrite Hb. split; [done|]. split; [done|]. by eapply box_inv_other.
Qed.

Lemma step_route c c' i m :
  inv c → mc_senders c !! i = Some (Sending m) → send_step i c = Some c' → inv c'.
Proof.
  intros Hinv Hi Hstep. pose proof (sender_encodable c i _ Hinv Hi) as Hm%encodable_json. cbn in Hm.
  unfold send_step in Hstep. rewrite Hi in Hstep. cbn [mbind option_bind] in Hstep. unfold destination in Hstep. cbn [sender_message] in Hstep.
  set (a := as_str (msg_to m)) in *. destruct (mc_boxes c !! a) as [box|] eqn:Hbox.
  - unfold to_bytes in Hstep. rewrite Hm in Hstep. cbn [map_err] in Hstep. injection Hstep as <-.
    destruct (logs !! a) as [log|] eqn:Hlog; [|apply (si_dom _ _ _ _ Hinv) in Hlog; congruence].
    split; cbn [mc_boxes mc_senders].
    + by eapply same_messages.
    + intros b. rewrite (si_dom _ _ _ _ Hinv b). destruct (decide (b = a)) as [->|Hne]; [|by rewrite lookup_insert_ne].
      rewrite lookup_insert_eq, Hbox. done.
    + intros b log' Hb. destruct (decide (a = b)) as [<-|Hne].
      * rewrite Hlog in Hb. injection Hb as <-. destruct (si_boxes _ _ _ _ Hinv a log Hlog) as (l & ws & own & box' & Hbox' & Henc & Hbi).
        rewrite Hbox in Hbox'. injection Hbox' as <-. exists l, ws, (own ++ [(i, m)]). eexists. split; [apply lookup_insert_eq|].
        split; [done|]. by apply box_inv_route.
      * eapply (other_boxes c i _ _ _ b log' Hinv Hi); [done|done|by apply lookup_insert_ne|done].
    + intros k m' g r [(_ & [=] & _)|[Hne Hk]]%list_lookup_insert_Some. by eapply si_unknown.
    + intros k m' j [(_ & [= <- _] & _)|[Hne Hk]]%list_lookup_insert_Some; [by exists log|by eapply si_known].
  - injection Hstep as <-. assert (logs !! a = None) as Hlog by (by apply (si_dom _ _ _ _ Hinv)).
    split; cbn [mc_boxes mc_senders].
    + by eapply same_messages.
    + apply (si_dom _ _ _ _ Hinv).
    + intros b log' Hb. eapply (other_boxes c i _ _ _ b log' Hinv Hi); [done| |done|done].
      intros Hab. change (a = b) in Hab. congruence.
    + intros k m' g r [(_ & [= <- _ <-] & _)|[Hne Hk]]%list_lookup_insert_Some; [done|by eapply si_unknown].
    + intros k m' j [(_ & [=] & _)|[Hne Hk]]%list_lookup_insert_Some. by eapply si_known.
Qed.

(** A send whose append is on its way. *)
Lemma appending_box c i m j :
  inv c → mc_senders c !! i = Some (Appending m j) →
  ∃ log l ws own box t, logs !! as_str (msg_to m) = Some log ∧ mc_boxes c !! as_str (msg_to m) = Some box ∧
    encodes l log ∧ box_inv SIZE (as_str (msg_to m)) l ws own box (mc_senders c) ∧
    own !! j = Some (i, m) ∧ qc_threads box !! j = Some t ∧ payload t = encoded m.
Proof.
  intros Hinv Hi. destruct (si_known _ _ _ _ Hinv i m j Hi) as [log Hlog].
  destruct (si_boxes _ _ _ _ Hinv _ log Hlog) as (l & ws & own & box & Hbox & Henc & Hbi).
  pose proof (bi_sender _ _ _ _ _ _ _ Hbi i _ Hi eq_refl) as Hj. cbn in Hj.
  destruct (Forall2_lookup_r _ _ _ _ _ (bi_threads _ _ _ _ _ _ _ Hbi) Hj) as (t & Ht & Hp).
  exists log, l, ws, own, box, t. done.
Qed.

Lemma step_append c c' i m j :
  inv c → mc_senders c !! i = Some (Appending m j) → send_step i c = Some c' → inv c'.
Proof.
  intros Hinv Hi Hstep. destruct (appending_box c i m j Hinv Hi) as (log & l & ws & own & box & t & Hlog & Hbox & Henc & Hbi & Hj & Ht & Hp).
  unfold send_step in Hstep. rewrite Hi in Hstep. cbn [mbind option_bind] in Hstep. unfold destination in Hstep. cbn [sender_message] in Hstep.
  rewrite Hbox in Hstep. cbn [mbind option_bind] in Hstep. rewrite Ht in Hstep. cbn [mbind option_bind] in Hstep.
  set (a := as_str (msg_to m)) in *.
  destruct (done_or_remains _ _ _ _ _ (bi_queue _ _ _ _ _ _ _ Hbi) Ht) as [(d & g & ->)|Hrem].
  - cbn in Hstep. injection Hstep as <-. split; cbn [mc_boxes mc_senders].
    + by eapply same_messages.
    + apply (si_dom _ _ _ _ Hinv).
    + intros b log' Hb. destruct (decide (a = b)) as [<-|Hne].
      * rewrite Hlog in Hb. injection Hb as <-. exists l, ws, own, box. split; [done|]. split; [done|]. by eapply box_inv_return.
      * by eapply (other_boxes c i _ _ _ b log' Hinv Hi).
    + intros k m' g' r [(_ & [= <- _ _] & _)|[Hne Hk]]%list_lookup_insert_Some Hno; [|by eapply si_unknown].
      fold a in Hno. congruence.
    + intros k m' j' [(_ & [=] & _)|[Hne Hk]]%list_lookup_insert_Some. by eapply si_known.
  - assert ((box ← qstep j box; Some (mkMConfig (<[a := box]> (mc_boxes c)) (mc_senders c))) = Some c') as Hq.
    { destruct t; try done. cbn in Hrem. lia. }
    destruct (inv_qstep _ _ _ _ _ _ (bi_queue _ _ _ _ _ _ _ Hbi) Ht Hrem) as (box' & t' & Hs & Hts & Hp' & _).
    rewrite Hs in Hq. cbn in Hq. injection Hq as <-. split; cbn [mc_boxes mc_senders].
    + apply Hinv.
    + intros b. rewrite (si_dom _ _ _ _ Hinv b). destruct (decide (b = a)) as [->|Hne]; [|by rewrite lookup_insert_ne].
      rewrite lookup_insert_eq, Hbox. done.
    + intros b log' Hb. destruct (decide (a = b)) as [<-|Hne].
      * rewrite Hlog in Hb. injection Hb as <-.
        destruct (box_inv_qstep SIZE a l ws own box (mc_senders c) j t box' t' Hbi Ht Hrem Hs Hts Hp') as [ws' Hbi'].
        exists l, ws', own, box'. split; [apply lookup_insert_eq|done].
      * rewrite lookup_insert_ne by done. by apply (si_boxes _ _ _ _ Hinv).
    + apply (si_unknown _ _ _ _ Hinv).
    + apply (si_known _ _ _ _ Hinv).
Qed.

Lemma send_step_inv c c' i : inv c → send_step i c = Some c' → inv c'.
Proof.
  intros Hinv Hstep. destruct (mc_senders c !! i) as [[m|m j|m g r]|] eqn:Hi.
  - by eapply step_route.
  - by eapply step_append.
  - unfold send_step in Hstep. by rewrite Hi in Hstep.
  - unfold send_step in Hstep. by rewrite Hi in Hstep.
Qed.

Lemma run_sends_inv sched c c' : inv c → run_sends sched c = Some c' → inv c'.
Proof.
  revert c. induction sched as [|i sched IH]; intros c Hinv; cbn [run_sends]; [by intros [= <-]|].
  intros (c1 & Hstep & Hrun)%bind_Some. apply (IH c1); [by eapply send_step_inv|done].
Qed.

(** No send waits for another one, and each takes six steps at most. *)
Definition send_rank (c : mconfig) (s : sender) : nat :=
  match s with
  | Sending _ => 6
  | Appending m j => S (from_option remaining 0%nat (mc_boxes c !! as_str (msg_to m) ≫= λ box, qc_threads box !! j))
  | Sent _ _ _ => 0
  end.

Lemma send_progress c i s : inv c → mc_senders c !! i = Some s → ¬ returned s → is_Some (send_step i c).
Proof.
  intros Hinv Hi Hr. destruct s as [m|m j|m g r]; [| |by destruct Hr].
  - unfold send_step. rewrite Hi. by eexists.
  - destruct (appending_box c i m j Hinv Hi) as (log & l & ws & own & box & t & _ & Hbox & _ & Hbi & _ & Ht & _).
    unfold send_step, destination. rewrite Hi. cbn [mbind option_bind sender_message]. rewrite Hbox. cbn [mbind option_bind].
    rewrite Ht. cbn [mbind option_bind].
    destruct (done_or_remains _ _ _ _ _ (bi_queue _ _ _ _ _ _ _ Hbi) Ht) as [(d & g & ->)|Hrem]; [by eexists|].
    destruct (inv_qstep _ _ _ _ _ _ (bi_queue _ _ _ _ _ _ _ Hbi) Ht Hrem) as (box' & t' & Hs & _). rewrite Hs.
    destruct t; by eexists.
Qed.

(** The step of one send, seen by each. *)
Lemma rank_route c c' i m k s :
  inv c → mc_senders c !! i = Some (Sending m) → send_step i c = Some c' → mc_senders c' !! k = Some s →
  ∃ s0, mc_senders c !! k = Some s0 ∧ (send_rank c' s + (if decide (k = i) then 1 else 0) ≤ send_rank c s0)%nat.
Proof.
  intros Hinv Hi Hstep Hk. pose proof (sender_encodable c i _ Hinv Hi) as Hm%encodable_json. cbn in Hm.
  unfold send_step in Hstep. rewrite Hi in Hstep. cbn [mbind option_bind] in Hstep. unfold destination in Hstep. cbn [sender_message] in Hstep.
  destruct (mc_boxes c !! as_str (msg_to m)) as [box|] eqn:Hbox.
  - unfold to_bytes in Hstep. rewrite Hm in Hstep. cbn [map_err] in Hstep. injection Hstep as <-. cbn [mc_senders] in Hk.
    apply list_lookup_insert_Some in Hk as [(<- & <- & _)|[Hne Hk]].
    + exists (Sending m). split; [done|]. rewrite decide_True by done. cbn [send_rank mc_boxes]. rewrite lookup_insert_eq. cbn.
      rewrite list_lookup_middle by done. cbn. lia.
    + exists s. split; [done|]. rewrite decide_False by done. destruct s as [m'|m' j|m' g r]; cbn [send_rank]; [lia| |lia].
      destruct (decide (as_str (msg_to m') = as_str (msg_to m))) as [He|He]; cbn [mc_boxes]; [|rewrite lookup_insert_ne by done; lia].
      destruct (appending_box c k m' j Hinv Hk) as (log & l & ws & own & box' & t & _ & Hbox' & _ & _ & _ & Ht & _).
      rewrite He in Hbox' |- *. rewrite Hbox in Hbox'. injection Hbox' as <-. rewrite lookup_insert_eq, Hbox. cbn.
      rewrite Ht, (lookup_app_l_Some _ _ _ _ Ht). lia.
  - injection Hstep as <-. cbn [mc_senders] in Hk. apply list_lookup_insert_Some in Hk as [(<- & <- & _)|[Hne Hk]].
    + exists (Sending m). split; [done|]. rewrite decide_True by done. cbn. lia.
    + exists s. split; [done|]. rewrite decide_False by done. destruct s; cbn [send_rank mc_boxes]; lia.
Qed.

Lemma rank_append c c' i m j k s :
  inv c → mc_senders c !! i = Some (Appending m j) → send_step i c = Some c' → mc_senders c' !! k = Some s →
  ∃ s0, mc_senders c !! k = Some s0 ∧ (send_rank c' s + (if decide (k = i) then 1 else 0) ≤ send_rank c s0)%nat.
Proof.
  intros Hinv Hi Hstep Hk. destruct (appending_box c i m j Hinv Hi) as (log & l & ws & own & box & t & Hlog & Hbox & Henc & Hbi & Hj & Ht & Hp).
  unfold send_step in Hstep. rewrite Hi in Hstep. cbn [mbind option_bind] in Hstep. unfold destination in Hstep. cbn [sender_message] in Hstep.
  rewrite Hbox in Hstep. cbn [mbind option_bind] in Hstep. rewrite Ht in Hstep. cbn [mbind option_bind] in Hstep.
  destruct (done_or_remains _ _ _ _ _ (bi_queue _ _ _ _ _ _ _ Hbi) Ht) as [(d & g & ->)|Hrem].
  - cbn in Hstep. injection Hstep as <-. cbn [mc_senders] in Hk. apply list_lookup_insert_Some in Hk as [(<- & <- & _)|[Hne Hk]].
    + exists (Appending m j). split; [done|]. rewrite decide_True by done. cbn. lia.
    + exists s. split; [done|]. rewrite decide_False by done. destruct s; cbn [send_rank mc_boxes]; lia.
  - assert ((box ← qstep j box; Some (mkMConfig (<[as_str (msg_to m) := box]> (mc_boxes c)) (mc_senders c))) = Some c') as Hq.
    { destruct t; try done. cbn in Hrem. lia. }
    destruct (inv_qstep _ _ _ _ _ _ (bi_queue _ _ _ _ _ _ _ Hbi) Ht Hrem) as (box' & t' & Hs & Hts & _ & Hr).
    rewrite Hs in Hq. cbn in Hq. injection Hq as <-. cbn [mc_senders] in Hk. exists s. split; [done|].
    destruct s as [m'|m' j'|m' g r]; cbn [send_rank mc_boxes].
    + rewrite decide_False by (intros ->; congruence). lia.
    + destruct (decide (as_str (msg_to m') = as_str (msg_to m))) as [He|He].
      * rewrite He, lookup_insert_eq, Hbox. cbn. rewrite Hts. destruct (decide (j' = j)) as [->|Hne].
        -- pose proof (bi_sender _ _ _ _ _ _ _ Hbi k _ Hk He) as Hj'. cbn in Hj'. rewrite Hj in Hj'. injection Hj' as <- <-.
           rewrite decide_True, Ht, list_lookup_insert_eq by (done || by eapply lookup_lt_Some). cbn. lia.
        -- rewrite decide_False by (intros ->; congruence). rewrite list_lookup_insert_ne by done. lia.
      * rewrite decide_False by (intros ->; congruence). rewrite lookup_insert_ne by done. lia.
    + rewrite decide_False by (intros ->; congruence). lia.
Qed.

Lemma run_sends_rank sched c c' k s :
  inv c → run_sends sched c = Some c' → mc_senders c' !! k = Some s →
  ∃ s0, mc_senders c !! k = Some s0 ∧ (send_rank c' s + turns_of k sched ≤ send_rank c s0)%nat.
Proof.
  revert c. induction sched as [|i sched IH]; intros c Hinv Hrun Hk; cbn [run_sends] in Hrun.
  - injection Hrun as <-. exists s. split; [done|]. cbn. lia.
  - apply bind_Some in Hrun as (c1 & Hstep & Hrun). destruct (IH c1 (send_step_inv c c1 i Hinv Hstep) Hrun Hk) as (s1 & Hs1 & Hr1).
    assert (∃ s0, mc_senders c !! k = Some s0 ∧ (send_rank c1 s1 + (if decide (k = i) then 1 else 0) ≤ send_rank c s0)%nat) as (s0 & Hs0 & Hr0).
    { destruct (mc_senders c !! i) as [[m|m j|m g r]|] eqn:Hi; [by eapply rank_route|by eapply rank_append|..];
        unfold send_step in Hstep; by rewrite Hi in Hstep. }
    exists s0. split; [done|]. unfold turns_of in *. rewrite filter_cons. destruct (decide (i = k)) as [->|Hne].
    + rewrite decide_True in Hr0 by done. cbn. lia.
    + rewrite decide_False in Hr0 by done. lia.
Qed.
End system_lemmas.

(** *** What the invariant says of a box *)
Section box_lemmas.
Context `{Crc32Ok} `{OsOk} `{Fs} `{MessageCodecOk}.
Context (SIZE : Z) (ms : list Message).

Lemma filter_all {A} (P : A → Prop) `{!∀ x, Decision (P x)} l : Forall P l → filter P l = l.
Proof. induction 1 as [|x l Hx _ IH]; [done|]. by rewrite filter_cons_True, IH. Qed.

Lemma submseteq_map_inv {A B} (f : A → B) (k : list B) l : k ⊆+ map f l → ∃ k', k = map f k' ∧ k' ⊆+ l.
Proof.
  intros [k2 Hk]%submseteq_Permutation. symmetry in Hk.
  apply Permutation_map_inv in Hk as (l' & Hl & Hp). symmetry in Hl. apply map_eq_app in Hl as (k1 & k2' & -> & <- & _).
  exists k1. split; [done|]. rewrite Hp. apply submseteq_inserts_r. done.
Qed.

Lemma begun_to a ss : map sender_message (filter (λ s, Is_true (begun a s)) ss) ⊆+ to_mailbox a (map sender_message ss).
Proof.
  unfold to_mailbox. induction ss as [|s ss IH]; [done|]. cbn [map]. rewrite !filter_cons.
  destruct (decide (Is_true (begun a s))) as [Hb|Hb].
  - rewrite decide_True; [by apply submseteq_skip|]. destruct s; [done|..]; by apply bool_decide_unpack in Hb.
  - destruct (decide _); [by apply submseteq_cons|done].
Qed.
Lemma all_begun_to a ss :
  (∀ s, s ∈ ss → destination s = a → returned s) →
  map sender_message (filter (λ s, Is_true (begun a s)) ss) = to_mailbox a (map sender_message ss).
Proof.
  unfold to_mailbox. induction ss as [|s ss IH]; intros Hall; [done|]. cbn [map]. rewrite !filter_cons.
  rewrite <- IH by (intros u Hu; apply Hall; by right). destruct (decide (destination s = a)) as [Ha|Ha].
  - rewrite (decide_True (P := as_str (msg_to (sender_message s)) = a)) by done. specialize (Hall s ltac:(left) Ha).
    rewrite decide_True; [done|]. destruct s; [done..|]. by apply bool_decide_pack.
  - rewrite (decide_False (P := as_str (msg_to (sender_message s)) = a)) by done.
    rewrite decide_False; [done|]. intros Hb. destruct s; [done|..]; by apply bool_decide_unpack in Hb.
Qed.

(** The messages that have a place. *)
Lemma box_placed a l ws own box ss :
  box_inv SIZE a l ws own box ss → map sender_message ss = ms →
  ∃ placed, ws = map encoded placed ∧ placed ⊆+ to_mailbox a ms ∧
    ((∀ s, s ∈ ss → destination s = a → returned s) → placed ≡ₚ to_mailbox a ms).
Proof.
  intros Hbi <-. pose proof (bi_queue _ _ _ _ _ _ _ Hbi) as Hq. pose proof (bi_begun _ _ _ _ _ _ _ Hbi) as Hbeg.
  assert (map payload (qc_threads box) = map encoded (map snd own)) as Hpay.
  { pose proof (bi_threads _ _ _ _ _ _ _ Hbi) as Hts. clear -Hts. induction Hts as [|t im ts own' Ht _ IH]; [done|]. cbn. by rewrite Ht, IH. }
  assert (ws ⊆+ map encoded (map snd own)) as Hsub.
  { rewrite (qi_ws _ _ _ _ Hq), <- Hpay. apply sublist_submseteq, fmap_sublist, sublist_filter. }
  apply submseteq_map_inv in Hsub as (placed & -> & Hsub). exists placed. split; [done|]. split.
  - rewrite Hsub, Hbeg. apply begun_to.
  - intros Hall. rewrite <- (all_begun_to a ss Hall), <- Hbeg. apply submseteq_length_Permutation; [done|].
    assert (filter (λ t, Is_true (has_place t)) (qc_threads box) = qc_threads box) as Hdone.
    { apply filter_all, Forall_lookup_2. intros j t Hj.
      destruct (Forall2_lookup_l _ _ _ _ _ (bi_threads _ _ _ _ _ _ _ Hbi) Hj) as ([i m] & Him & _).
      destruct (bi_owner _ _ _ _ _ _ _ Hbi j i m Him) as (Hm & s & Hs & Hstate).
      assert (destination s = a) as Hd by (unfold destination; by destruct s; cbn in *; [|destruct Hstate as [-> _]..]).
      specialize (Hall s ltac:(by eapply list_elem_of_lookup_2) Hd). destruct s as [|?|m' g r]; [done..|].
      destruct Hstate as (_ & g' & d & _ & Hd'). rewrite Hj in Hd'. by injection Hd' as ->. }
    pose proof (Permutation_length (qi_ws _ _ _ _ Hq)) as Hlen. rewrite Hdone, Hpay, !length_map in Hlen. rewrite length_map. lia.
Qed.

Lemma box_count a l ws own box ss :
  box_inv SIZE a l ws own box ss → map sender_message ss = ms → len (qc_threads box) ≤ len (to_mailbox a ms).
Proof.
  intros Hbi <-. pose proof (submseteq_length _ _ (begun_to a ss)) as Hle.
  rewrite <- (Permutation_length (bi_begun _ _ _ _ _ _ _ Hbi)), length_map, <- (Forall2_length _ _ _ (bi_threads _ _ _ _ _ _ _ Hbi)) in Hle.
  unfold len. lia.
Qed.

(** Two sends that returned have different numbers. *)
Lemma box_numbers a l ws own box ss i j m m' n r r' :
  box_inv SIZE a l ws own box ss → ss !! i = Some (Sent m (Some n) r) → as_str (msg_to m) = a →
  ss !! j = Some (Sent m' (Some n) r') → as_str (msg_to m') = a → i = j.
Proof.
  intros Hbi Hi Hm Hj Hm'.
  destruct (bi_sender _ _ _ _ _ _ _ Hbi i _ Hi Hm) as (_ & n1 & k1 & d1 & [= <-] & Ho1 & Ht1).
  destruct (bi_sender _ _ _ _ _ _ _ Hbi j _ Hj Hm') as (_ & n2 & k2 & d2 & [= <-] & Ho2 & Ht2).
  pose proof (no_distinct _ _ _ (qi_numbers _ _ _ _ (bi_queue _ _ _ _ _ _ _ Hbi)) k1 k2 _ _ n Ht1 Ht2 eq_refl eq_refl) as ->.
  congruence.
Qed.

(** Receiving at a number whose payload has a place. *)
Lemma box_receives a l ws own box ss n msgs l1 m l2 :
  box_inv SIZE a l ws own box ss → l ++ ws = map encoded msgs → Forall encodable msgs → msgs = l1 ++ m :: l2 → 0 ≤ n < 2 ^ 64 - 1 →
  offset_map (qc_queue box) !! n = Some (mkMapping 1 (len (concat (map encoded l1)))) →
  receives_from (qc_queue box) n (m :: l2).
Proof.
  intros Hbi Henc Hall -> Hn Hmap. apply Forall_app in Hall as [_ Hall]. apply receive_payload; [done|done|].
  pose proof Hall as [Hm _]%Forall_cons. pose proof (json_nonempty m _ (encodable_json m Hm)) as Hpos.
  rewrite map_app in Henc. cbn [map] in Henc.
  rewrite (inv_read 1 l ws box n (map encoded l1) (encoded m) (map encoded l2) 0 0 (bi_queue _ _ _ _ _ _ _ Hbi) Henc).
  - by rewrite route_single, single_content.
  - intros He. rewrite He in Hpos. done.
  - by rewrite route_single, single_content.
Qed.

(** A send that returned, and what its number leads to. *)
Lemma box_sent a l ws own box ss i m g r msgs :
  box_inv SIZE a l ws own box ss → l ++ ws = map encoded msgs → Forall encodable msgs → encodable m →
  ss !! i = Some (Sent m g r) → as_str (msg_to m) = a →
  r = Ok (msg_id m) ∧ ∃ n l1 l2, g = Some n ∧ len l ≤ n < len l + len (qc_threads box) ∧ msgs = l1 ++ m :: l2 ∧
    receives_from (qc_queue box) n (m :: l2).
Proof.
  intros Hbi Henc Hall Hm Hi Ha. destruct (bi_sender _ _ _ _ _ _ _ Hbi i _ Hi Ha) as (-> & n & j & d & -> & Hj & Hd).
  split; [done|]. pose proof (bi_queue _ _ _ _ _ _ _ Hbi) as Hq.
  destruct (Forall2_lookup_r _ _ _ _ _ (bi_threads _ _ _ _ _ _ _ Hbi) Hj) as (t & Ht & Hp). rewrite Hd in Ht. injection Ht as <-.
  cbn in Hp. subst d. pose proof (number_range _ _ _ _ _ _ Hq Hd) as Hn.
  pose proof (Forall_lookup_1 _ _ _ _ (qi_threads _ _ _ _ Hq) Hd) as (off & Hmap & l1 & l2 & Hsplit & Hoff).
  rewrite Henc in Hsplit. destruct (encoded_split msgs m l1 l2 Hall Hm Hsplit) as (k1 & k2 & -> & -> & ->).
  exists n, k1, k2. split; [done|]. split; [done|]. split; [done|].
  pose proof (bi_bound _ _ _ _ _ _ _ Hbi) as Hb. pose proof (zsum_nonneg (still a (λ _, 1)) ss) as Hst. pose proof (len_nonneg l).
  eapply (box_receives a l ws own box ss n _ k1 m k2 Hbi Henc Hall); [done| |].
  - assert (0 ≤ zsum (still a (λ _, 1)) ss) by (apply Hst; intros s; apply still_nonneg; lia). lia.
  - rewrite Hmap, Hoff, route_single. by rewrite single_content.
Qed.

(** The messages that were there. *)
Lemma box_old a l ws own box ss log msgs k :
  box_inv SIZE a l ws own box ss → encodes l log → l ++ ws = map encoded msgs → Forall encodable msgs → log `prefix_of` msgs →
  0 ≤ k < len log → receives_from (qc_queue box) k (drop (Z.to_nat k) msgs).
Proof.
  intros Hbi Henc Hws Hall [more ->] Hk. destruct (encodes_map l log Henc) as [-> _].
  assert (is_Some (log !! Z.to_nat k)) as [m Hm] by (apply lookup_lt_is_Some; unfold len in Hk; lia).
  pose proof (take_drop_middle log _ m Hm) as Hsplit.
  assert (drop (Z.to_nat k) (log ++ more) = m :: drop (S (Z.to_nat k)) log ++ more) as Hdrop.
  { rewrite <- Hsplit at 1. rewrite <- app_assoc. apply drop_app_length'. rewrite length_take. unfold len in Hk. lia. }
  rewrite Hdrop. pose proof (bi_bound _ _ _ _ _ _ _ Hbi) as Hb. pose proof (len_nonneg (qc_threads box)).
  assert (0 ≤ zsum (still a (λ _, 1)) ss) by (apply zsum_nonneg; intros s; apply still_nonneg; lia).
  assert (len (map encoded log) = len log) as Hlen by (unfold len; by rewrite length_map).
  eapply (box_receives a _ ws own box ss k _ (take (Z.to_nat k) log) m _ Hbi Hws Hall).
  - rewrite <- Hsplit at 1. by rewrite <- app_assoc.
  - lia.
  - rewrite (qi_log _ _ _ _ (bi_queue _ _ _ _ _ _ _ Hbi)) by lia. unfold place. rewrite list_lookup_fmap, Hm. cbn.
    by rewrite route_single, single_content, firstn_map.
Qed.
End box_lemmas.

(** *** The start, and the property *)
Section start.
Context `{Crc32Ok} `{OsOk} `{Fs} `{MessageCodecOk}.
Context (SIZE : Z).
#[local] Existing Instance persistq_queue.
#[local] Instance sized_queues : ByteQueueOk := persistq_queue_ok SIZE.

(** A mailbox's messages and those sent to it fit in its queue. *)
Definition fit_in (log ms : list Message) : Prop :=
  len (log ++ ms) < 2 ^ 64 - 1 ∧ len (concat (map encoded (log ++ ms))) ≤ SIZE.

Lemma still_start a f ms : zsum (still a f) (map Sending ms) = zsum f (to_mailbox a ms).
Proof.
  unfold to_mailbox. induction ms as [|m ms IH]; [done|]. rewrite filter_cons. cbn. fold (zsum (still a f) (map Sending ms)).
  rewrite IH. by destruct (decide _).
Qed.
Lemma zsum_encoded ms : zsum (λ m, len (encoded m)) ms = len (concat (map encoded ms)).
Proof. induction ms as [|m ms IH]; [done|]. cbn. fold (zsum (λ m, len (encoded m)) ms). by rewrite IH, len_app. Qed.
Lemma zsum_one {A} (l : list A) : zsum (λ _, 1) l = len l.
Proof. induction l as [|x l IH]; [done|]. cbn. fold (zsum (λ _ : A, 1) l). rewrite IH, len_cons. lia. Qed.

Lemma box_inv_start a q l log ms :
  bq_repr (q : bqueue) l → encodes l log → fit_in log (to_mailbox a ms) →
  box_inv SIZE a l [] [] (mkQConfig q ∅ []) (map Sending ms).
Proof.
  intros (Hq & Hn & Hsz) Henc [Hcount Hroom]. destruct (encodes_map l log Henc) as [-> _].
  rewrite map_app, concat_app, len_app in Hroom. rewrite len_app in Hcount.
  assert (len (map encoded log) = len log) as Hlen by (unfold len; by rewrite length_map).
  pose proof (len_nonneg (to_mailbox a ms)). pose proof (len_nonneg (concat (map encoded (to_mailbox a ms)))).
  split; cbn [qc_queue qc_threads].
  - rewrite <- Hn. apply (queue_inv_start q (map encoded log) []); [done|change (len []) with 0; lia|].
    intros p Hp. rewrite Hn in *. assert (p = 1) as -> by lia. rewrite app_nil_r, single_content. lia.
  - done.
  - rewrite still_start, zsum_encoded. cbn. lia.
  - rewrite still_start, zsum_one. change (len (@nil qthread)) with 0. lia.
  - done.
  - apply NoDup_nil_2.
  - clear. induction ms as [|m ms IH]; [done|]. cbn [map]. by rewrite filter_cons_False by (intros []).

  - intros j i m Hj. by rewrite lookup_nil in Hj.
  - intros i s (m & -> & _)%list_lookup_fmap_Some _. done.
Qed.

Lemma sends_inv_start queues logs ms :
  map_Forall2 (λ _ (q : PersistQ) log, box_repr (q : bqueue) log) queues logs →
  (∀ a log, logs !! a = Some log → fit_in log (to_mailbox a ms)) →
  sends_inv SIZE ms logs (start_sends queues ms).
Proof.
  intros Hq Hfit. split; cbn [start_sends mc_boxes mc_senders].
  - rewrite map_map. cbn. apply map_id.
  - intros a. rewrite lookup_fmap. specialize (Hq a). by inversion Hq.
  - intros a log Hlog. rewrite lookup_fmap. pose proof (Hq a) as Ha. rewrite Hlog in Ha.
    inversion Ha as [q log' (l & Hl & Henc) Hqa|]; subst. exists l, [], []. eexists. split; [done|]. split; [done|].
    by eapply box_inv_start; [..|apply Hfit].
  - by intros i m g r (? & [=] & _)%list_lookup_fmap_Some.
  - by intros i m j (? & [=] & _)%list_lookup_fmap_Some.
Qed.
(** ** Property *)

(** C9. Sends that overlap.  Mailboxes hold the messages [logs], and any number
    of messages [ms] is routed at the same time, the steps of the appends
    interleaving in any way; the messages for a mailbox fit in its queue.  In
    every state that is reached:
    no send waits for another: one that has not returned can take its next step,
    and each takes at most six;
    a send to an address without a mailbox returns [MailboxNotFound];
    a mailbox holds its old messages, then the ones placed so far in some order,
    which are all of those sent to it once the sends have returned;
    a send that has returned has succeeded with its message's id, under a
    number of its own beyond the old ones, and a handle at that number receives
    the message only if none was placed after it, otherwise an error;
    so does a handle at the number of an old message, with what follows it. *)
Theorem overlapping_sends_arrive (queues : gmap string PersistQ) (logs : gmap string (list Message)) ms sched c :
  map_Forall2 (λ _ (q : PersistQ) log, box_repr (q : bqueue) log) queues logs →
  (∀ a log, logs !! a = Some log → fit_in log (to_mailbox a ms)) → Forall encodable ms →
  run_sends sched (start_sends queues ms) = Some c →
  map sender_message (mc_senders c) = ms ∧
  (∀ i s, mc_senders c !! i = Some s →
     (turns_of i sched ≤ 6)%nat ∧ (¬ returned s → is_Some (send_step i c))) ∧
  (∀ i m g r, mc_senders c !! i = Some (Sent m g r) → logs !! as_str (msg_to m) = None →
     r = Err (MailboxNotFound (as_str (msg_to m)))) ∧
  ∀ a log, logs !! a = Some log → ∃ box placed, mc_boxes c !! a = Some box ∧
    box_holds (qc_queue box) (log ++ placed) ∧ placed ⊆+ to_mailbox a ms ∧
    ((∀ s, s ∈ mc_senders c → destination s = a → returned s) → placed ≡ₚ to_mailbox a ms) ∧
    (∀ i m g r, mc_senders c !! i = Some (Sent m g r) → as_str (msg_to m) = a →
       r = Ok (msg_id m) ∧ ∃ n l1 l2, g = Some n ∧ len log ≤ n < len log + len (to_mailbox a ms) ∧
         log ++ placed = l1 ++ m :: l2 ∧ receives_from (qc_queue box) n (m :: l2)) ∧
    (∀ i j m m' n r r', mc_senders c !! i = Some (Sent m (Some n) r) → as_str (msg_to m) = a →
       mc_senders c !! j = Some (Sent m' (Some n) r') → as_str (msg_to m') = a → i = j) ∧
    (∀ k, 0 ≤ k < len log → receives_from (qc_queue box) k (drop (Z.to_nat k) (log ++ placed))).
Proof.
  intros Hq Hfit Hms Hrun. pose proof (sends_inv_start queues logs ms Hq Hfit) as Hstart.
  pose proof (run_sends_inv SIZE ms logs Hms sched _ c Hstart Hrun) as Hinv.
  split; [apply (si_messages _ _ _ _ Hinv)|]. split; [|split; [apply (si_unknown _ _ _ _ Hinv)|]].
  { intros i s Hi. split; [|by eapply send_progress].
    destruct (run_sends_rank SIZE ms logs Hms sched _ c i s Hstart Hrun Hi) as (s0 & Hs0 & Hr).
    apply list_lookup_fmap_Some in Hs0 as (m & -> & _). cbn in Hr. lia. }
  intros a log Hlog. destruct (si_boxes _ _ _ _ Hinv a log Hlog) as (l & ws & own & box & Hbox & Henc & Hbi).
  destruct (box_placed SIZE ms a l ws own box _ Hbi (si_messages _ _ _ _ Hinv)) as (placed & -> & Hsub & Hall).
  destruct (encodes_map l log Henc) as [Hl Hlog_enc].
  assert (l ++ map encoded placed = map encoded (log ++ placed)) as Hws by (by rewrite Hl, map_app).
  assert (Forall encodable (log ++ placed)) as Henc_all.
  { apply Forall_app. split; [done|]. apply Forall_forall. intros m Hm.
    apply (elem_of_submseteq _ _ _ Hm), list_elem_of_filter in Hsub as [_ Hin].
    by apply (proj1 (Forall_forall _ _) Hms). }
  assert (len l = len log) as Hlen by (rewrite Hl; unfold len; by rewrite length_map).
  exists box, placed. split_and!; [done| |done|done| | |].
  - destruct (qi_managers _ _ _ _ (bi_queue _ _ _ _ _ _ _ Hbi) 1 ltac:(lia)) as (mgr & Hmgr & Hrepr).
    exists mgr. split; [done|]. by rewrite single_content, Hws in Hrepr.
  - intros i m g r Hi Ha. pose proof (sender_encodable SIZE ms logs Hms c i _ Hinv Hi) as Hm.
    destruct (box_sent SIZE a l _ own box _ i m g r _ Hbi Hws Henc_all Hm Hi Ha) as (-> & n & l1 & l2 & -> & Hn & Hsplit & Hrec).
    pose proof (box_count SIZE ms a l _ own box _ Hbi (si_messages _ _ _ _ Hinv)) as Hcount.
    split; [done|]. exists n, l1, l2. split_and!; [done|lia|lia|done|done].
  - intros i j m m' n r r'. by eapply box_numbers.
  - intros k Hk. by eapply (box_old SIZE a l _ own box _ log); [..|by exists placed|].
Qed.
End start.

(** ** Concrete runs: queues of 1024-byte segments *)
#[local] Existing Instances byte_countable address_countable Message_eq_dec message_countable
  digit_codec digit_codec_ok persistq_queue sample_queues.

(** Two messages to Bob, whose appends overlap, and one to nobody. *)
Definition to_bob (n : Z) : Message := hello n.
Definition to_nobody : Message := Message_new "id" 3 (mkAddress "alice@dolda") (mkAddress "nobody") (str_bytes "hi").
Definition two_to_bob : mconfig :=
  start_sends {[ "bob@dolda"%string := sample_queue 1 ]} [to_bob 1; to_bob 2; to_nobody].
Definition overlap : list nat := [2; 0; 0; 0; 1; 1; 1; 1; 1; 1; 0; 0; 0]%nat.

(** The second message has taken the first number and is last in the queue: a
    reader that begins at the first number gets it, and never the first one. *)
Lemma first_number_reads_second_message :
  ∃ c box, run_sends overlap two_to_bob = Some c ∧ mc_boxes c !! "bob@dolda"%string = Some box ∧
    mc_senders c = [Sent (to_bob 1) (Some 1) (Ok "id"%string); Sent (to_bob 2) (Some 0) (Ok "id"%string);
                    Sent to_nobody None (Err (MailboxNotFound "nobody"))] ∧
    receive (qc_queue box : @bqueue persistq_queue) (mkMailbox (mkAddress "bob@dolda") 0) =
      (mkMailbox (mkAddress "bob@dolda") 1, Ok (Some (to_bob 2))) ∧
    is_ok (receive (qc_queue box : @bqueue persistq_queue) (mkMailbox (mkAddress "bob@dolda") 1)).2 = false.
Proof.
  destruct (run_sends overlap two_to_bob) as [c|] eqn:Hrun; [|by vm_compute in Hrun].
  destruct (mc_boxes c !! "bob@dolda"%string) as [box|] eqn:Hbox; [|vm_compute in Hrun; injection Hrun as <-; by vm_compute in Hbox].
  exists c, box. vm_compute in Hrun. injection Hrun as <-. vm_compute in Hbox. injection Hbox as <-.
  split_and!; vm_compute; reflexivity.
Qed.

Lemma overlapping_sends_arrive_witness :
  ∃ c box l2, run_sends overlap two_to_bob = Some c ∧ mc_boxes c !! "bob@dolda"%string = Some box ∧
    receives_from (qc_queue box) 0 (to_bob 2 :: l2).
Proof.
  destruct (run_sends overlap two_to_bob) as [c|] eqn:Hrun; [|by vm_compute in Hrun].
  assert (mc_senders c !! 1%nat = Some (Sent (to_bob 2) (Some 0) (Ok "id"%string))) as Hsent
    by (vm_compute in Hrun; injection Hrun as <-; vm_compute; reflexivity).
  destruct (overlapping_sends_arrive 1024 {[ "bob@dolda"%string := sample_queue 1 ]} {[ "bob@dolda"%string := [] ]}
    [to_bob 1; to_bob 2; to_nobody] overlap c) as (_ & _ & _ & Hboxes).
  - intros a. destruct (decide (a = "bob@dolda"%string)) as [->|Hne].
    + rewrite !lookup_singleton_eq. constructor. exact sample_box.
    + rewrite !lookup_singleton_ne by done. constructor.
  - intros a log Hlog. apply lookup_singleton_Some in Hlog as [<- <-]. split; vm_compute; [reflexivity|discriminate].
  - repeat constructor.
  - exact Hrun.
  - destruct (Hboxes "bob@dolda"%string [] (lookup_singleton_eq _ _)) as (box & placed & Hbox & _ & _ & _ & Hsends & _).
    destruct (Hsends 1%nat (to_bob 2) (Some 0) (Ok "id"%string) Hsent eq_refl) as (_ & n & l1 & l2 & Hn & _ & _ & Hrec).
    injection Hn as <-. exists c, box, l2. split; [exact eq_refl|]. split; [exact Hbox|exact Hrec].
Defined.
