(* ===== verification/MailboxThreads.v ===== *)
(** * Concurrent programs over the mailbox system (src/src/mailbox.rs)

    Programs that take turns, calling the same mailbox system and sharing some
    state, as the tasks of the processors and of the examples do.  A schedule
    says whose turn it is; a turn is one whole call, or one access to the shared
    state.  A send of the source is not one step: appends to one mailbox can
    overlap, and then their numbers need not follow their places; those sends are
    the subject of [MailboxConc].  Turns are the runs in which no call on a
    mailbox comes between the steps of a send to it.  The lemmas serve
    [TradingDemo], where each mailbox has a single sender and where what a program
    does rests on no more than that a receive fails or returns a message that its
    mailbox may hold.
    What each program may send to which mailbox is a protocol: programs that keep
    one, given that the others do, keep it under every schedule. *)

From stdpp Require Import base list numbers strings gmap pretty.
From S2P Require Import Prelude Crc32 F64 StorageEngine PersistQueue ByteQueue Mailboxes MailboxClients.
Local Open Scope Z_scope.

(** ** Definitions *)
Section programs.
Context {S : Type}.

(** A program that calls the mailbox system, accesses the shared state, and
    starts other programs ([tokio::spawn]). *)
Inductive program (A : Type) : Type :=
  | Ret (a : A)
  | Ask {R} (c : call R) (k : R → program A)
  | Access {R} (f : S → S * R) (k : R → program A)
  | Spawn (p : program unit) (k : program A).
Arguments Ret {A} _.
Arguments Ask {A R} _ _.
Arguments Access {A R} _ _.
Arguments Spawn {A} _ _.

Fixpoint bind {A B} (p : program A) (k : A → program B) : program B :=
  match p with
  | Ret a => k a
  | Ask c j => Ask c (λ r, bind (j r) k)
  | Access f j => Access f (λ r, bind (j r) k)
  | Spawn q j => Spawn q (bind j k)
  end.

(** A client is a program without shared state. *)
Fixpoint lift {A} (c : client A) : program A :=
  match c with
  | Done a => Ret a
  | Call o k => Ask o (λ r, lift (k r))
  end.

(** Calls that end the program when they fail ([?]). *)
Definition attempt {E A B} (p : program (outcome E A)) (k : A → program (outcome E B)) : program (outcome E B) :=
  bind p (λ r, match r with Ok a => k a | Err e => Ret (Err e) | Panic => Ret Panic end).

(** *** Running under a schedule *)

(** What the calls are made on: the mailbox system, or the table. *)
Context {X : Type} (do : ∀ R, call R → X → option (X * R)).

(** The store, the shared state, and what is left of each program. *)
Definition config : Type := X * S * list (program unit).

(** A turn of the program at place [i]; [None] where the call has no answer. *)
Definition turn (i : nat) (m : config) : option config :=
  let '(x, s, ps) := m in
  match ps !! i with
  | Some (Ask c k) => '(x, r) ← do _ c x; Some (x, s, <[i := k r]> ps)
  | Some (Access f k) => let '(s, r) := f s in Some (x, s, <[i := k r]> ps)
  | Some (Spawn p k) => Some (x, s, <[i := k]> ps ++ [p])
  | Some (Ret _) | None => Some m
  end.

Fixpoint turns (schedule : list nat) (m : config) : option config :=
  match schedule with
  | [] => Some m
  | i :: schedule => m ← turn i m; turns schedule m
  end.
End programs.
Arguments program S A : clear implicits.
Arguments Ret {S A} _.
Arguments Ask {S A R} _ _.
Arguments Access {S A R} _ _.
Arguments Spawn {S A} _ _.
Arguments config S X : clear implicits.

Declare Scope program_scope.
Delimit Scope program_scope with program.
Notation "x <-- p ; k" := (bind p (λ x, k)) (at level 100, p at level 90, k at level 200, right associativity) : program_scope.
Notation "x <-? c ; k" := (attempt (Ask c Ret) (λ x, k)) (at level 100, c at level 90, k at level 200, right associativity) : program_scope.

(** ** The refinement *)

Section simulation.
Context {S X Y : Type} (doX : ∀ R, call R → X → option (X * R)) (doY : ∀ R, call R → Y → option (Y * R)).
(** The calls of two stores agree as long as the second one is fine, and it has
    been so before if it is so after a call. *)
Context (rel : X → Y → Prop) (fine : Y → Prop).
Hypothesis agree : ∀ R (c : call R) x y y' r,
  rel x y → doY R c y = Some (y', r) → fine y' → ∃ x', doX R c x = Some (x', r) ∧ rel x' y'.
Hypothesis fine_before : ∀ R (c : call R) y y' r, doY R c y = Some (y', r) → fine y' → fine y.

Lemma turn_simulates i x y (s : S) ps y' s' ps' :
  rel x y → turn doY i (y, s, ps) = Some (y', s', ps') → fine y' →
  fine y ∧ ∃ x', turn doX i (x, s, ps) = Some (x', s', ps') ∧ rel x' y'.
Proof.
  intros Hrel Ht Hf. cbn in Ht |- *. destruct (ps !! i) as [[a|R c k|R f k|p k]|].
  - simplify_eq. eauto.
  - destruct (doY R c y) as [[y1 r]|] eqn:Hc; [|done]. cbn in Ht. simplify_eq.
    destruct (agree R c x y y' r Hrel Hc Hf) as (x' & Hx & Hrel'). rewrite Hx. cbn. eauto.
  - destruct (f s). simplify_eq. eauto.
  - simplify_eq. eauto.
  - simplify_eq. eauto.
Qed.

Lemma turns_fine schedule m m' : turns doY schedule m = Some m' → fine m'.1.1 → fine (m : config S Y).1.1.
Proof.
  revert m. induction schedule as [|i schedule IH]; intros m; [by intros [= ->]|]. cbn [turns].
  destruct (turn doY i m) as [m1|] eqn:Ht; [|done]. cbn. intros Hr Hf. specialize (IH m1 Hr Hf).
  destruct m as [[y s] ps]. cbn in Ht |- *. destruct (ps !! i) as [[a|R c k|R f k|p k]|].
  - by simplify_eq.
  - destruct (doY R c y) as [[y1 r]|] eqn:Hc; [|done]. cbn in Ht. simplify_eq. by eapply fine_before.
  - destruct (f s). by simplify_eq.
  - by simplify_eq.
  - by simplify_eq.
Qed.

Lemma turns_simulate schedule x y (s : S) ps y' s' ps' :
  rel x y → turns doY schedule (y, s, ps) = Some (y', s', ps') → fine y' →
  ∃ x', turns doX schedule (x, s, ps) = Some (x', s', ps') ∧ rel x' y'.
Proof.
  revert x y s ps. induction schedule as [|i schedule IH]; intros x y s ps Hrel.
  - intros [= <- <- <-] _. by exists x.
  - cbn [turns]. destruct (turn doY i (y, s, ps)) as [[[y1 s1] ps1]|] eqn:Ht; [|done]. cbn [mbind option_bind]. intros Hr Hf.
    destruct (turn_simulates i x y s ps y1 s1 ps1 Hrel Ht (turns_fine _ _ _ Hr Hf)) as (_ & x1 & Hx & Hrel1).
    destruct (IH x1 y1 s1 ps1 Hrel1 Hr Hf) as (x' & Hx' & Hrel'). exists x'. by rewrite Hx.
Qed.
End simulation.

Section refinement.
Context `{ByteQueueOk} `{MessageCodecOk} `{Os}.
Context {S : Type} (usable : string → bool) (fuel : nat) (ids : nat → string) (clock : nat → Z).

Definition sendables (t : Table) : Prop := Forall (λ m, sendable m = true) (t_sent t).

Lemma threads_refine schedule w t (s : S) ps t' s' ps' :
  roomy → world_repr usable w t →
  turns (λ R, spec_call usable ids clock) schedule (t, s, ps) = Some (t', s', ps') → sendables t' →
  ∃ w', turns (λ R, run_call fuel ids clock) schedule (w, s, ps) = Some (w', s', ps') ∧ world_repr usable w' t'.
Proof.
  intros Hroom Hw. apply (turns_simulate _ (λ R, spec_call usable ids clock) (world_repr usable)); [| |exact Hw].
  - intros R c w0 t0 t1 r Hrepr Hc Hs. by eapply call_refines.
  - intros R c t0 t1 r Hc Hs. destruct (spec_call_sent usable ids clock c t0 t1 r Hc) as [more Hmore].
    unfold sendables in *. rewrite Hmore in Hs. by apply Forall_app in Hs as [? _].
Qed.
End refinement.

(** ** Protocols *)
Section protocol.
Context `{MessageCodec} {S : Type}.
(** What a message of each mailbox is like, and what the shared state is. *)
Context (P : string → Message → Prop) (J : S → Prop).

(** Which mailbox each handle is of, as far as a program knows. *)
Abbreviation handles := (gmap handle string).

(** A call may be made with the handles of [K]; [Q] holds of what it may answer,
    given that the mailboxes hold what they may. *)
Definition may_call {R} (K : handles) (c : call R) : (handles → R → Prop) → Prop :=
  match c in call R return (handles → R → Prop) → Prop with
  | CallCreate a => λ Q, ∀ r, match r with Ok h => K !! h = None → Q (<[h := a]> K) r | _ => Q K r end
  | CallGet a => λ Q, ∀ r, match r with Ok (Some h) => K !! h = None → Q (<[h := a]> K) r | _ => Q K r end
  | CallSend h to body => λ Q,
      (∃ a, K !! h = Some a ∧ ∀ id now, P to (Message_new id now (mkAddress a) (mkAddress to) body)) ∧ ∀ r, Q K r
  | CallSendSubject h to subject body => λ Q,
      (∃ a, K !! h = Some a ∧ ∀ id now, P to (with_subject (Message_new id now (mkAddress a) (mkAddress to) body) subject)) ∧ ∀ r, Q K r
  | CallReply h original body => λ Q,
      (∃ a, K !! h = Some a ∧ ∀ id now,
         let to := match msg_reply_to original with Some r => r | None => msg_from original end in
         let subject := match msg_subject original with Some s => ("Re: " +:+ s)%string | None => "Re: (no subject)"%string end in
         P (as_str to) (with_subject (Message_new id now (mkAddress a) to body) subject)) ∧ ∀ r, Q K r
  | CallReceive h => λ Q, ∃ a, K !! h = Some a ∧ ∀ r, match r with Ok (Some m) => P a m | _ => True end → Q K r
  | CallPeek h => λ Q, ∃ a, K !! h = Some a ∧ ∀ r, match r with Ok (Some m) => P a m | _ => True end → Q K r
  | _ => λ Q, ∀ r, Q K r
  end.

(** A program that keeps the protocol, and ends with [Q]. *)
Fixpoint obeys {A} (K : handles) (p : program S A) (Q : handles → A → Prop) : Prop :=
  match p with
  | Ret a => Q K a
  | Ask c k => may_call K c (λ K r, obeys K (k r) Q)
  | Access f k => ∀ s, J s → J (f s).1 ∧ obeys K (k (f s).2) Q
  | Spawn p k => obeys K p (λ _ _, True) ∧ obeys K k Q
  end.

Lemma may_call_impl {R} (c : call R) K (Q Q' : handles → R → Prop) :
  (∀ K' r, K ⊆ K' → Q K' r → Q' K' r) → may_call K c Q → may_call K c Q'.
Proof.
  intros HQ. assert (∀ r, Q K r → Q' K r) as HQ0 by (intros r; by apply HQ).
  destruct c; cbn [may_call]; try (intros Hc r; by apply HQ0, Hc).
  - intros Hc r. specialize (Hc r). destruct r as [h|e|]; [|by apply HQ0..]. intros Hh. by apply HQ; [apply insert_subseteq|apply Hc].
  - intros Hc r. specialize (Hc r). destruct r as [[h|]|e|]; [|by apply HQ0..]. intros Hh. by apply HQ; [apply insert_subseteq|apply Hc].
  - intros [Hs Hc]. split; [done|]. auto.
  - intros [Hs Hc]. split; [done|]. auto.
  - intros [Hs Hc]. split; [done|]. auto.
  - intros (a & Ha & Hc). exists a. split; [done|]. auto.
  - intros (a & Ha & Hc). exists a. split; [done|]. auto.
Qed.

Lemma obeys_impl {A} (p : program S A) K (Q Q' : handles → A → Prop) :
  obeys K p Q → (∀ K' a, K ⊆ K' → Q K' a → Q' K' a) → obeys K p Q'.
Proof.
  induction p as [A a|A R c k IH|A R f k IH|A q _ k IH] in K, Q, Q' |- *; cbn [obeys]; intros Hp HQ.
  - by apply HQ.
  - eapply may_call_impl; [|exact Hp]. intros K' r HK Hk. eapply IH; [exact Hk|]. intros K2 a HK2. apply HQ. by etrans.
  - intros s Hs. destruct (Hp s Hs) as [HJ Hk]. split; [done|]. by eapply IH.
  - destruct Hp as [Hq Hk]. split; [done|]. by eapply IH.
Qed.

Lemma obeys_bind {A B} (p : program S A) (k : A → program S B) K Q R :
  obeys K p Q → (∀ K' a, K ⊆ K' → Q K' a → obeys K' (k a) R) → obeys K (bind p k) R.
Proof.
  induction p as [A a|A T c j IH|A T f j IH|A q _ j IH] in K, Q, k |- *; cbn [obeys bind]; intros Hp HQ.
  - by apply HQ.
  - eapply may_call_impl; [|exact Hp]. intros K' r HK Hk. eapply IH; [exact Hk|]. intros K2 a HK2. apply HQ. by etrans.
  - intros s Hs. destruct (Hp s Hs) as [HJ Hk]. split; [done|]. by eapply IH.
  - destruct Hp as [Hq Hk]. split; [done|]. by eapply IH.
Qed.

Definition knows (K : handles) (t : Table) : Prop := ∀ h a, K !! h = Some a → ∃ i, t_handles t !! h = Some (a, i).
Definition keeps_protocol (t : Table) : Prop := ∀ a box, assoc a (t_boxes t) = Some box → Forall (P a) box.

Lemma t_send_keeps t m t' r :
  t_send t m = Some (t', r) → P (as_str (msg_to m)) m → keeps_protocol t → keeps_protocol t' ∧ t_handles t' = t_handles t.
Proof.
  unfold t_send. intros Ht Hm Hk. destruct (assoc (as_str (msg_to m)) (t_boxes t)) as [box|] eqn:Hb; [|by simplify_eq].
  destruct (_ <? _); [|done]. simplify_eq. split; [|done]. intros a box'. cbn [t_boxes]. rewrite assoc_lookup, assoc_set_insert.
  destruct (decide (a = as_str (msg_to m))) as [->|Hne].
  - rewrite lookup_insert_eq. intros [= <-]. apply Forall_app. split; [by apply (Hk _ box)|by repeat constructor].
  - rewrite lookup_insert_ne by done. rewrite <- assoc_lookup. apply Hk.
Qed.
Lemma t_send_to_keeps t to m t' r :
  t_send_to t to m = Some (t', r) → msg_to m = mkAddress to → P to m → keeps_protocol t → keeps_protocol t' ∧ t_handles t' = t_handles t.
Proof.
  unfold t_send_to. intros Ht Hto Hm Hk. destruct (String.eqb _ _); [by simplify_eq|]. eapply t_send_keeps; [exact Ht| |done]. by rewrite Hto.
Qed.

Lemma abs_receive_protocol i waiting a :
  Forall (P a) waiting → match abs_receive i waiting with Ok (Some m) => P a m | _ => True end.
Proof. intros Hw. destruct Hw as [|m [|m2 rest] Hm _]; done. Qed.

Context (usable : string → bool) (ids : nat → string) (clock : nat → Z).

Lemma knows_same K t t' : t_handles t' = t_handles t → knows K t → knows K t'.
Proof. intros Hh Hk h a Ha. rewrite Hh. by apply Hk. Qed.
Lemma knows_more K t t' a : t_handles t' = t_handles t ++ [(a, 0%nat)] → knows K t → knows K t'.
Proof. intros Hh Hk h b Hb. destruct (Hk h b Hb) as [i Hi]. exists i. rewrite Hh. by apply lookup_app_l_Some. Qed.
Lemma knows_new K t t' a :
  t_handles t' = t_handles t ++ [(a, 0%nat)] → knows K t → knows (<[length (t_handles t) := a]> K) t'.
Proof.
  intros Hh Hk h b. destruct (decide (h = length (t_handles t))) as [->|Hne].
  - rewrite lookup_insert_eq. intros [= ->]. exists 0%nat. rewrite Hh. by apply list_lookup_middle.
  - rewrite lookup_insert_ne by done. by apply (knows_more K t t' a).
Qed.
Lemma knows_fresh K t : knows K t → K !! length (t_handles t) = None.
Proof.
  intros Hk. destruct (K !! length (t_handles t)) as [a|] eqn:Ha; [|done]. destruct (Hk _ a Ha) as [i Hi].
  apply lookup_lt_Some in Hi. lia.
Qed.
Lemma knows_moved K t t' h a i j :
  t_handles t !! h = Some (a, i) → t_handles t' = <[h := (a, j)]> (t_handles t) → knows K t → knows K t'.
Proof.
  intros Hi Hh HK h' b Hb. destruct (HK h' b Hb) as [k Hk]. rewrite Hh. destruct (decide (h' = h)) as [->|Hne].
  - rewrite Hi in Hk. simplify_eq. exists j. apply list_lookup_insert_eq. by eapply lookup_lt_Some.
  - exists k. by rewrite list_lookup_insert_ne.
Qed.

Lemma create_keeps address t t' r :
  keeps_protocol t → spec_call usable ids clock (CallCreate address) t = Some (t', r) →
  keeps_protocol t' ∧
  match r with Ok h => h = length (t_handles t) ∧ t_handles t' = t_handles t ++ [(address, 0%nat)] | _ => t_handles t' = t_handles t end.
Proof.
  intros Hk Hc. cbn [spec_call] in Hc. destruct (String.eqb _ _); [by simplify_eq|].
  destruct (assoc address (t_boxes t)) eqn:Hb; [by simplify_eq|]. destruct (_ && _); [|done]. simplify_eq. split; [|done].
  intros a box. cbn [t_boxes]. rewrite assoc_lookup, assoc_set_insert. destruct (decide (a = address)) as [->|Hne].
  - rewrite lookup_insert_eq. by intros [= <-].
  - rewrite lookup_insert_ne by done. rewrite <- assoc_lookup. apply Hk.
Qed.

(** What a call does to the protocol and to what the programs know. *)
Definition call_kept {R} (Q : handles → R → Prop) (t t' : Table) (r : R) : Prop :=
  keeps_protocol t' ∧ (∃ K', knows K' t' ∧ Q K' r) ∧ ∀ K0, knows K0 t → knows K0 t'.

Lemma kept_same {R} K (Q : handles → R → Prop) t t' r :
  keeps_protocol t' → t_handles t' = t_handles t → knows K t → Q K r → call_kept Q t t' r.
Proof. intros Hk Hh HK HQ. split; [done|]. split; [exists K; split; [by eapply knows_same|done]|intros K0; by apply knows_same]. Qed.
Lemma kept_new {R} K (Q : handles → R → Prop) t t' a r :
  keeps_protocol t' → t_handles t' = t_handles t ++ [(a, 0%nat)] → knows K t → Q (<[length (t_handles t) := a]> K) r →
  call_kept Q t t' r.
Proof. intros Hk Hh HK HQ. split; [done|]. split; [eexists; split; [by eapply knows_new|exact HQ]|intros K0; by eapply knows_more]. Qed.

Lemma receive_kept h K (Q : handles → outcome MailboxError (option Message) → Prop) t t' r :
  may_call K (CallReceive h) Q → knows K t → keeps_protocol t →
  spec_call usable ids clock (CallReceive h) t = Some (t', r) → call_kept Q t t' r.
Proof.
  cbn [may_call spec_call]. intros (a & Ha & HQ) HK Hk Hc. destruct (HK h a Ha) as [i Hi]. rewrite Hi in Hc. cbn in Hc.
  destruct (assoc a (t_boxes t)) as [box|] eqn:Hb; [|done]. cbn in Hc. simplify_eq. split; [done|]. split.
  - exists K. split; [by eapply knows_moved|]. apply HQ, abs_receive_protocol, Forall_drop. by apply (Hk a).
  - intros K0. by eapply knows_moved.
Qed.

Ltac sent_kept :=
  lazymatch goal with Hmay : (∃ a, _ ∧ _) ∧ _, HK : knows _ _, Hc : _ = Some _ |- _ =>
    let a := fresh "a" in let Ha := fresh "Ha" in let HP := fresh "HP" in let HQ := fresh "HQ" in let i := fresh "i" in let Hi := fresh "Hi" in
    destruct Hmay as [(a & Ha & HP) HQ]; destruct (HK _ a Ha) as [i Hi]; rewrite Hi in Hc; cbn in Hc;
    first [edestruct t_send_to_keeps; [exact Hc|done|apply HP|done|] | edestruct t_send_keeps; [exact Hc|apply HP|done|]];
    by eapply kept_same
  end.

Lemma spec_call_protocol {R} (c : call R) K Q t t' r :
  may_call K c Q → knows K t → keeps_protocol t → spec_call usable ids clock c t = Some (t', r) → call_kept Q t t' r.
Proof.
  intros Hmay HK Hk Hc. destruct c.
  - destruct (create_keeps address t t' r Hk Hc) as [Hk' Hr]. specialize (Hmay r).
    destruct r as [h|e|]; [destruct Hr as [-> Hr]; apply (kept_new K _ t _ address); [done..|]; by apply Hmay, knows_fresh|by apply (kept_same K)..].
  - cbn [may_call spec_call] in Hmay, Hc. specialize (Hmay r).
    destruct (String.eqb _ _); [simplify_eq; by apply (kept_same K)|].
    destruct (assoc address (t_boxes t)); simplify_eq; [apply (kept_new K _ t _ address); [done..|]; by apply Hmay, knows_fresh|by apply (kept_same K)].
  - cbn [may_call spec_call] in Hmay, Hc. sent_kept.
  - cbn [may_call spec_call] in Hmay, Hc. sent_kept.
  - cbn [may_call spec_call] in Hmay, Hc. sent_kept.
  - by eapply receive_kept.
  - cbn [may_call spec_call] in Hmay, Hc. destruct Hmay as (a & Ha & HQ). destruct (HK h a Ha) as [i Hi]. rewrite Hi in Hc. cbn in Hc.
    destruct (assoc a (t_boxes t)) as [box|] eqn:Hb; [|done]. cbn in Hc. simplify_eq. apply (kept_same K); [done..|].
    apply HQ, abs_receive_protocol, Forall_drop. by apply (Hk a).
  - cbn [may_call spec_call] in Hmay, Hc. destruct (t_handles t !! h) as [[a i]|]; [|done]. cbn in Hc.
    destruct (assoc a (t_boxes t)); [|done]. cbn in Hc. simplify_eq. by apply (kept_same K).
  - cbn [may_call spec_call] in Hmay, Hc. simplify_eq. by apply (kept_same K).
  - cbn [may_call spec_call] in Hmay, Hc. simplify_eq. by apply (kept_same K).
  - cbn [may_call spec_call] in Hmay, Hc. destruct (t_handles t !! h) as [[a i]|]; [|done]. cbn in Hc.
    simplify_eq. by apply (kept_same K).
  - cbn [may_call spec_call] in Hmay, Hc. simplify_eq. by apply (kept_same K).
Qed.

(** The table, the state and what is left of each program. *)
Record in_order (m : config S Table) : Prop := {
  io_boxes : keeps_protocol m.1.1;
  io_state : J m.1.2;
  io_programs : Forall (λ p, ∃ K, knows K m.1.1 ∧ obeys K p (λ _ _, True)) m.2
}.

Lemma turn_in_order i m m' : in_order m → turn (λ R, spec_call usable ids clock) i m = Some m' → in_order m'.
Proof.
  destruct m as [[t s] ps]. intros [Hb Hs Hp] Ht. cbn in Hb, Hs, Hp, Ht.
  destruct (ps !! i) as [p|] eqn:Hi; [|by simplify_eq]. destruct (Forall_lookup_1 _ _ _ _ Hp Hi) as (K & HK & Hob).
  assert (∀ (t' : Table) p', (∀ K0, knows K0 t → knows K0 t') → (∃ K', knows K' t' ∧ obeys K' p' (λ _ _, True)) →
    Forall (λ p, ∃ K, knows K t' ∧ obeys K p (λ _ _, True)) (<[i := p']> ps)) as Hrest.
  { intros t' p' Hall Hp'. apply Forall_insert; [|done]. eapply Forall_impl; [exact Hp|]. intros q (K0 & HK0 & Hq). eauto. }
  destruct p as [a|R c k|R f k|q k]; cbn [obeys] in Hob.
  - by simplify_eq.
  - destruct (spec_call usable ids clock c t) as [[t1 r]|] eqn:Hc; [|done]. cbn in Ht. simplify_eq.
    destruct (spec_call_protocol c K _ t t1 r Hob HK Hb Hc) as (Hb1 & HK' & Hall). split; [done..|]. by apply Hrest.
  - specialize (Hob s Hs). destruct (f s) as [s1 r]. simplify_eq. destruct Hob as [Hs1 Hk]. split; [done..|]. apply Hrest; eauto.
  - simplify_eq. destruct Hob as [Hq Hk]. split; [done..|]. cbn. apply Forall_app. split; [apply Hrest; eauto|]. repeat constructor; eauto.
Qed.

Lemma turns_in_order schedule m m' : in_order m → turns (λ R, spec_call usable ids clock) schedule m = Some m' → in_order m'.
Proof.
  revert m. induction schedule as [|i schedule IH]; intros m Hm; [by intros [= ->]|]. cbn [turns].
  destruct (turn _ i m) as [m1|] eqn:Ht; [|done]. cbn. apply IH. by eapply turn_in_order.
Qed.
End protocol.

(** The store and the state after some turns. *)
Lemma turns_result {S X} (do : ∀ R, call R → X → option (X * R)) schedule (m : config S X) x s :
  fst <$> turns do schedule m = Some (x, s) → ∃ ps, turns do schedule m = Some (x, s, ps).
Proof. destruct (turns do schedule m) as [[[x' s'] ps]|]; [|done]. cbn. intros [= <- <-]. by exists ps. Qed.

(** A client that runs alone does what [run] says. *)
Lemma run_alone `{ByteQueue} `{MessageCodec} `{Os} {S A} fuel ids clock (c : client A) w w' a (s : S) (k : A → program S unit) :
  run fuel ids clock c w = Some (w', a) →
  ∃ n, turns (λ R, run_call fuel ids clock) (replicate n 0%nat) (w, s, [bind (lift c) k]) = Some (w', s, [k a]).
Proof.
  revert w. induction c as [b|R o j IH]; intros w; cbn [run lift bind].
  - intros [= <- <-]. by exists 0%nat.
  - destruct (run_call fuel ids clock o w) as [[w1 r]|] eqn:Ho; [|done]. cbn. intros Hr. destruct (IH r w1 Hr) as [n Hn].
    exists (Datatypes.S n). cbn. by rewrite Ho.
Qed.

(** A list of messages that can be sent. *)
Ltac all_sendable := repeat (apply Forall_cons_2; [vm_compute; reflexivity|]); apply Forall_nil_2.
