(* ===== verification/MailboxTests.v ===== *)
(** * The tests of the mailbox system (src/src/mailbox.rs, [mod tests])

    The tests of the module as clients, with their assertions, and which of them
    pass: a failed assertion or an [unwrap] of an error ends a test with a
    panic.  Each starts on a new system in a directory of its own. *)

From stdpp Require Import base list numbers strings gmap pretty.
From S2P Require Import Prelude Crc32 F64 StorageEngine PersistQueue ByteQueue Mailboxes MailboxClients.
Local Open Scope Z_scope.
Local Open Scope client_scope.

(** ** Definitions *)

(** A test returns or panics. *)
Abbreviation test := (client (outcome MailboxError unit)).
Definition passed : test := Done (Ok tt).

Definition body_is (m : Message) (body : string) : bool := bool_decide (msg_body m = str_bytes body).
Definition address_is (a : MailboxAddress) (s : string) : bool := String.eqb (as_str a) s.

Section tests.
(** Source: src/src/mailbox.rs:441-450 (tests::test_create_mailbox) *)
Definition test_create_mailbox : test :=
  mailbox <-- CallCreate "alice@dolda";
  assert_ (is_ok mailbox) (
  must (Done mailbox) (λ mailbox,
  address <-- CallAddress mailbox;
  assert_ (String.eqb address "alice@dolda") passed)).

(** Source: src/src/mailbox.rs:452-471 (tests::test_send_and_receive) *)
Definition test_send_and_receive : test :=
  alice <-! CallCreate "alice@dolda";
  bob <-! CallCreate "bob@dolda";
  msg_id <-! CallSend alice "bob@dolda" (str_bytes "Hello Bob!");
  assert_ (negb (String.eqb msg_id EmptyString)) (
  msg <-! CallReceive bob;
  msg <-some msg;
  assert_ (address_is (msg_from msg) "alice@dolda") (
  assert_ (address_is (msg_to msg) "bob@dolda") (
  assert_ (body_is msg "Hello Bob!") passed))).

(** Source: src/src/mailbox.rs:473-501 (tests::test_multiple_messages) *)
Definition test_multiple_messages : test :=
  alice <-! CallCreate "alice@dolda";
  bob <-! CallCreate "bob@dolda";
  _ <-! CallSend alice "bob@dolda" (str_bytes "Message 1");
  _ <-! CallSend alice "bob@dolda" (str_bytes "Message 2");
  _ <-! CallSend alice "bob@dolda" (str_bytes "Message 3");
  pending <-- CallPending bob;
  assert_ (0 <? pending) (
  msg1 <-! CallReceive bob;
  msg1 <-some msg1;
  assert_ (body_is msg1 "Message 1") (
  msg2 <-! CallReceive bob;
  msg2 <-some msg2;
  assert_ (body_is msg2 "Message 2") (
  msg3 <-! CallReceive bob;
  msg3 <-some msg3;
  assert_ (body_is msg3 "Message 3") (
  msg4 <-! CallReceive bob;
  assert_ (bool_decide (msg4 = None)) passed)))).

(** Source: src/src/mailbox.rs:503-522 (tests::test_reply) *)
Definition test_reply : test :=
  alice <-! CallCreate "alice@dolda";
  bob <-! CallCreate "bob@dolda";
  _ <-! CallSendSubject alice "bob@dolda" "Question" (str_bytes "How are you?");
  msg <-! CallReceive bob;
  msg <-some msg;
  _ <-! CallReply bob msg (str_bytes "I'm good, thanks!");
  reply <-! CallReceive alice;
  reply <-some reply;
  assert_ (address_is (msg_from reply) "bob@dolda") (
  assert_ (body_is reply "I'm good, thanks!") (
  subject <-some msg_subject reply;
  assert_ (String.prefix "Re:" subject) passed)).

(** Source: src/src/mailbox.rs:524-544 (tests::test_peek) *)
Definition test_peek : test :=
  alice <-! CallCreate "alice@dolda";
  bob <-! CallCreate "bob@dolda";
  _ <-! CallSend alice "bob@dolda" (str_bytes "Test");
  msg1 <-! CallPeek bob;
  msg1 <-some msg1;
  msg2 <-! CallPeek bob;
  msg2 <-some msg2;
  assert_ (String.eqb (msg_id msg1) (msg_id msg2)) (
  msg3 <-! CallReceive bob;
  msg3 <-some msg3;
  assert_ (String.eqb (msg_id msg1) (msg_id msg3)) (
  last <-! CallPeek bob;
  assert_ (bool_decide (last = None)) passed)).

(** Source: src/src/mailbox.rs:546-563 (tests::test_list_mailboxes) *)
Definition test_list_mailboxes : test :=
  _ <-! CallCreate "alice@dolda";
  _ <-! CallCreate "bob@dolda";
  _ <-! CallCreate "charlie@dolda";
  mailboxes <-- CallList;
  assert_ (bool_decide (size mailboxes = 3%nat)) (
  assert_ (bool_decide ("alice@dolda" ∈ mailboxes)) (
  assert_ (bool_decide ("bob@dolda" ∈ mailboxes)) (
  assert_ (bool_decide ("charlie@dolda" ∈ mailboxes)) passed))).

(** Source: src/src/mailbox.rs:565-578 (tests::test_mailbox_stats) *)
Definition test_mailbox_stats : test :=
  alice <-! CallCreate "alice@dolda";
  _ <-! CallCreate "bob@dolda";
  _ <-! CallSend alice "bob@dolda" (str_bytes "msg1");
  _ <-! CallSend alice "bob@dolda" (str_bytes "msg2");
  stats <-- CallStats;
  assert_ (bool_decide (is_Some (stats !! ("bob@dolda" : string)))) passed.
End tests.

(** ** Which tests pass *)

(** A client that also counts the calls it makes. *)
Fixpoint counted {A} (n : nat) (c : client A) : client (nat * A) :=
  match c with
  | Done a => Done (n, a)
  | Call o k => Call o (λ r, counted (S n) (k r))
  end.

Lemma counted_assert {E B} n (b : bool) (k : client (outcome E B)) : b = true → counted n (assert_ b k) = counted n k.
Proof. by intros ->. Qed.

(** Evaluating the specification of a counting client: the client up to its next
    call or assertion, then that. *)
Ltac counted_step :=
  lazymatch goal with
  | |- context [spec_run ?u ?i ?c (counted ?n ?p) ?t] =>
      let q := eval hnf in p in
      change (counted n p) with (counted n q);
      lazymatch q with
      | Call ?o ?k =>
          change (spec_run u i c (counted n q) t)
            with ('(t', r) ← spec_call u i c o t; spec_run u i c (counted (S n) (k r)) t');
          client_value (spec_call u i c o t); cbn [mbind option_bind]
      | Done ?a => change (counted n q) with (@Done (nat * _) (n, a)); cbn [spec_run mbind option_bind]
      | assert_ ?b ?k =>
          try (lazymatch b with String.eqb (msg_id ?m) _ => rewrite (String.eqb_refl (msg_id m)) | _ => client_value b end;
               rewrite (counted_assert n true k eq_refl))
      end
  end.
Ltac counted_run := repeat counted_step.

(** The addresses of the tests. *)
Definition test_address (a : string) : bool :=
  String.eqb a "alice@dolda" || String.eqb a "bob@dolda" || String.eqb a "charlie@dolda".

Section verdicts.
Context `{MessageCodec}.
Context (ids : nat → string) (clock : nat → Z).

Definition test_message (n : nat) (from to body : string) : Message :=
  Message_new (ids n) (clock n) (mkAddress from) (mkAddress to) (str_bytes body).

(** The messages the tests send. *)
Definition greeting : list Message := [test_message 0 "alice@dolda" "bob@dolda" "Hello Bob!"].
Definition three : list Message :=
  [test_message 0 "alice@dolda" "bob@dolda" "Message 1"; test_message 1 "alice@dolda" "bob@dolda" "Message 2";
   test_message 2 "alice@dolda" "bob@dolda" "Message 3"].
Definition question_and_reply : list Message :=
  [with_subject (test_message 0 "alice@dolda" "bob@dolda" "How are you?") "Question";
   with_subject (test_message 1 "bob@dolda" "alice@dolda" "I'm good, thanks!") "Re: Question"].
Definition one : list Message := [test_message 0 "alice@dolda" "bob@dolda" "Test"].
Definition two : list Message :=
  [test_message 0 "alice@dolda" "bob@dolda" "msg1"; test_message 1 "alice@dolda" "bob@dolda" "msg2"].
Definition test_messages : list Message := greeting ++ three ++ question_and_reply ++ one ++ two.

(** How a test ends by the specification, and the messages it sends. *)
Definition spec_verdict {A} (c : client A) : option (list Message * A) :=
  '(t, r) ← spec_run test_address ids clock c (mkTable [] [] [] 0 []); Some (t_sent t, r).

Lemma create_verdict : spec_verdict test_create_mailbox = Some ([], Ok tt).
Proof. unfold spec_verdict, test_create_mailbox. client_run. reflexivity. Qed.
Lemma send_verdict : (∀ n, ids n ≠ EmptyString) → spec_verdict test_send_and_receive = Some (greeting, Ok tt).
Proof.
  intros Hids. unfold spec_verdict, test_send_and_receive. client_run.
  rewrite (proj2 (String.eqb_neq _ _) (Hids 0%nat)). client_run. reflexivity.
Qed.
Lemma reply_verdict : spec_verdict test_reply = Some (question_and_reply, Ok tt).
Proof. unfold spec_verdict, test_reply. client_run. reflexivity. Qed.
Lemma list_verdict : spec_verdict test_list_mailboxes = Some ([], Ok tt).
Proof. unfold spec_verdict, test_list_mailboxes. client_run. reflexivity. Qed.
Lemma stats_verdict : spec_verdict test_mailbox_stats = Some (two, Ok tt).
Proof. unfold spec_verdict, test_mailbox_stats. client_run. reflexivity. Qed.

#[local] Opaque assert_.
Lemma multiple_verdict : spec_verdict (counted 0 test_multiple_messages) = Some (three, (7%nat, Panic)).
Proof. unfold spec_verdict, test_multiple_messages. counted_run. reflexivity. Qed.
Lemma peek_verdict : spec_verdict (counted 0 test_peek) = Some (one, (7%nat, Panic)).
Proof. unfold spec_verdict, test_peek. counted_run. reflexivity. Qed.
#[local] Transparent assert_.
End verdicts.

(** ** Property *)
Section tests_property.
Context `{ByteQueueOk} `{MessageCodecOk} `{Os}.

(** How a test ends on a new system, and how many calls it makes. *)
Definition verdict (ids : nat → string) (clock : nat → Z) (sys : MailboxSystem) (c : test) : option (outcome MailboxError unit) :=
  snd <$> run 0 ids clock c (mkWorld sys [] 0 []).
Definition calls_made (ids : nat → string) (clock : nat → Z) (sys : MailboxSystem) (c : test) : option nat :=
  fst ∘ snd <$> run 0 ids clock (counted 0 c) (mkWorld sys [] 0 []).

Lemma run_counted {A} ids clock (c : client A) n w :
  run 0 ids clock c w = (λ '(w, (_, a)), (w, a)) <$> run 0 ids clock (counted n c) w.
Proof.
  induction c as [a|R o k IH] in n, w |- *; [done|]. cbn [run counted].
  destruct (run_call 0 ids clock o w) as [[w1 r]|]; [|done]. cbn [mbind option_bind]. apply IH.
Qed.

Lemma run_spec {A} ids clock sys (c : client A) sent r :
  mailboxes sys = ∅ → opens test_address sys → roomy → Forall (λ m, sendable m = true) sent →
  spec_verdict ids clock c = Some (sent, r) → snd <$> run 0 ids clock c (mkWorld sys [] 0 []) = Some r.
Proof.
  intros Hs Ho Hroom Hsent. unfold spec_verdict.
  destruct (spec_run test_address ids clock c _) as [[t a]|] eqn:Hrun; [|done]. cbn. intros [= <- <-].
  destruct (client_run_refines test_address 0 ids clock c (mkWorld sys [] 0 []) _ t a Hroom
    (fresh_world_repr test_address sys Hs Ho) Hrun Hsent) as (w & -> & _). done.
Qed.

Lemma counted_spec ids clock sys (c : test) sent n r :
  mailboxes sys = ∅ → opens test_address sys → roomy → Forall (λ m, sendable m = true) sent →
  spec_verdict ids clock (counted 0 c) = Some (sent, (n, r)) →
  verdict ids clock sys c = Some r ∧ calls_made ids clock sys c = Some n.
Proof.
  intros Hs Ho Hroom Hsent Hv. unfold verdict, calls_made. rewrite (run_counted ids clock c 0).
  pose proof (run_spec ids clock sys _ _ _ Hs Ho Hroom Hsent Hv) as Hr.
  destruct (run 0 ids clock (counted 0 c) _) as [[w nr]|]; [|done]. cbn in Hr. by injection Hr as ->.
Qed.

(** C35. The module's own tests: whatever the ids and the times, as long as the
    files can be opened and the messages encoded, five of the seven pass, and two
    panic, each on the answer to its seventh call: [test_multiple_messages],
    which receives three messages one by one, at the first [receive], and
    [test_peek], which expects nothing from a mailbox it has emptied, at its last
    [peek]. *)
Theorem mailbox_tests_verdicts ids clock sys :
  (∀ n, ids n ≠ EmptyString) → mailboxes sys = ∅ → opens test_address sys → roomy →
  Forall (λ m, sendable m = true) (test_messages ids clock) →
  Forall (λ c, verdict ids clock sys c = Some (Ok tt))
    [test_create_mailbox; test_send_and_receive; test_reply; test_list_mailboxes; test_mailbox_stats] ∧
  Forall (λ c, verdict ids clock sys c = Some Panic ∧ calls_made ids clock sys c = Some 7%nat)
    [test_multiple_messages; test_peek].
Proof.
  intros Hids Hs Ho Hroom Hm. unfold test_messages in Hm.
  apply Forall_app in Hm as [Hgreeting Hm]. apply Forall_app in Hm as [Hthree Hm].
  apply Forall_app in Hm as [Hquestion Hm]. apply Forall_app in Hm as [Hone Htwo].
  assert (∀ c sent r, Forall (λ m, sendable m = true) sent → spec_verdict ids clock c = Some (sent, r) →
    verdict ids clock sys c = Some r) as Hv by (intros c sent r; by apply run_spec).
  pose proof (Forall_nil_2 (λ m, sendable m = true)) as Hnone.
  split; repeat apply Forall_cons_2; try apply Forall_nil_2.
  - apply (Hv _ _ _ Hnone), create_verdict.
  - by apply (Hv _ _ _ Hgreeting), send_verdict.
  - apply (Hv _ _ _ Hquestion), reply_verdict.
  - apply (Hv _ _ _ Hnone), list_verdict.
  - apply (Hv _ _ _ Htwo), stats_verdict.
  - by apply (counted_spec _ _ _ _ _ _ _ Hs Ho Hroom Hthree), multiple_verdict.
  - by apply (counted_spec _ _ _ _ _ _ _ Hs Ho Hroom Hone), peek_verdict.
Qed.
End tests_property.

(** ** A concrete machine *)
#[local] Existing Instances digit_codec digit_codec_ok persistq_queue mailbox_queues.

Lemma mailbox_tests_verdicts_witness :
  verdict numbered Z.of_nat new_system test_reply = Some (Ok tt) ∧
  verdict numbered Z.of_nat new_system test_multiple_messages = Some Panic ∧
  calls_made numbered Z.of_nat new_system test_multiple_messages = Some 7%nat.
Proof.
  destruct (new_system_opens test_address) as [He Ho].
  { intros a [[Ha|Ha]%orb_true_iff|Ha]%orb_true_iff; apply String.eqb_eq in Ha as ->; vm_compute; reflexivity. }
  destruct (mailbox_tests_verdicts numbered Z.of_nat new_system) as [Hpass Hfail];
    [done|exact He|exact Ho|exact persistq_roomy|by repeat constructor; vm_compute|].
  split; [exact (Forall_inv (Forall_inv_tail (Forall_inv_tail Hpass)))|exact (Forall_inv Hfail)].
Defined.
