(* ===== verification/Network.v ===== *)
(** * The node-to-node protocol (src/src/network.rs)

    Messages are framed by a 20-byte big-endian header.  A TCP stream is the
    bytes still to be received, how receiving ends, the bytes sent so far and
    where sending breaks, if it does; the server's message handler, a trait
    object, is a parameter with a state of its own. *)

From stdpp Require Import base list numbers strings gmap.
From Stdlib Require Import Strings.Byte.
From S2P Require Import Prelude.
Local Open Scope Z_scope.

(** The kinds of I/O error the code tells apart. *)
Inductive io_kind := UnexpectedEof | OtherIo (e : string).

(** The formatted text of an [InvalidMessage], by its format string. *)
Inductive invalid_reason :=
  | HeaderTooShort (n : Z)
  | InvalidMagicBytes (magic : Z)
  | UnknownMessageType (raw : Z)
  | RequestIdMismatch (expected got : Z)
  | ExpectedPong (got : Z).

(** Source: src/src/network.rs:17-36 (NetworkError) *)
Inductive NetworkError :=
  | NetIo (e : io_kind)
  | NetSerialization (e : string)
  | UnsupportedVersion (v : Z)
  | InvalidMessage (r : invalid_reason)
  | NetConnection (e : string)
  | Timeout.

(** Source: src/src/network.rs:40-41 (PROTOCOL_VERSION) *)
Definition PROTOCOL_VERSION : Z := 1.
(** Source: src/src/network.rs:43-44 (PROTOCOL_MAGIC) *)
Definition PROTOCOL_MAGIC : Z := 0xD01DA001.

(** Source: src/src/network.rs:46-72 (MessageType) *)
Inductive MessageType :=
  | Ping | Pong | AppendRequest | AppendResponse | ReadRequest | ReadResponse
  | ReplicateRequest | ReplicateResponse | HealthRequest | HealthResponse | MsgError.

#[export] Instance MessageType_eq_dec : EqDecision MessageType.
Proof. solve_decision. Defined.

(** The discriminants ([msg_type as u16]). *)
Definition type_code (t : MessageType) : Z :=
  match t with
  | Ping => 1 | Pong => 2 | AppendRequest => 10 | AppendResponse => 11
  | ReadRequest => 12 | ReadResponse => 13 | ReplicateRequest => 20 | ReplicateResponse => 21
  | HealthRequest => 30 | HealthResponse => 31 | MsgError => 255
  end.

(** The match of [from_bytes] on the raw type. *)
Definition type_of_code (raw : Z) : option MessageType :=
  if raw =? 1 then Some Ping else if raw =? 2 then Some Pong
  else if raw =? 10 then Some AppendRequest else if raw =? 11 then Some AppendResponse
  else if raw =? 12 then Some ReadRequest else if raw =? 13 then Some ReadResponse
  else if raw =? 20 then Some ReplicateRequest else if raw =? 21 then Some ReplicateResponse
  else if raw =? 30 then Some HealthRequest else if raw =? 31 then Some HealthResponse
  else if raw =? 255 then Some MsgError else None.

(** Source: src/src/network.rs:74-87 (MessageHeader) *)
Record MessageHeader := mkHeader {
  hd_magic : Z; hd_version : Z; hd_msg_type : MessageType; hd_payload_len : Z; hd_request_id : Z }.

Definition HEADER_SIZE : Z := 20.

(** Source: src/src/network.rs:93-102 (MessageHeader::new) *)
Definition MessageHeader_new (t : MessageType) (payload_len request_id : Z) : MessageHeader :=
  {| hd_magic := PROTOCOL_MAGIC; hd_version := PROTOCOL_VERSION; hd_msg_type := t;
     hd_payload_len := payload_len; hd_request_id := request_id |}.

(** The five copies fill the array from left to right.
    Source: src/src/network.rs:104-113 (MessageHeader::to_bytes) *)
Definition header_to_bytes (h : MessageHeader) : bytes :=
  to_be_bytes 4 (hd_magic h) ++ to_be_bytes 2 (hd_version h) ++
  to_be_bytes 2 (type_code (hd_msg_type h)) ++ to_be_bytes 4 (hd_payload_len h) ++
  to_be_bytes 8 (hd_request_id h).

(** Source: src/src/network.rs:115-163 (MessageHeader::from_bytes) *)
Definition header_from_bytes (bs : bytes) : outcome NetworkError MessageHeader :=
  if len bs <? HEADER_SIZE then Err (InvalidMessage (HeaderTooShort (len bs))) else
  magic ← from_be_bytes <$> unwrap (slice bs 0 4);
  if negb (magic =? PROTOCOL_MAGIC) then Err (InvalidMessage (InvalidMagicBytes magic)) else
  version ← from_be_bytes <$> unwrap (slice bs 4 6);
  if negb (version =? PROTOCOL_VERSION) then Err (UnsupportedVersion version) else
  msg_type_raw ← from_be_bytes <$> unwrap (slice bs 6 8);
  msg_type ← ok_or (type_of_code msg_type_raw) (InvalidMessage (UnknownMessageType msg_type_raw));
  payload_len ← from_be_bytes <$> unwrap (slice bs 8 12);
  request_id ← from_be_bytes <$> unwrap (slice bs 12 20);
  Ok {| hd_magic := magic; hd_version := version; hd_msg_type := msg_type;
        hd_payload_len := payload_len; hd_request_id := request_id |}.

(** Source: src/src/network.rs:166-173 (Message) *)
Record Message := mkMsg { nm_header : MessageHeader; nm_payload : bytes }.

(** Source: src/src/network.rs:176-180 (Message::new) *)
Definition Message_new (t : MessageType) (payload : bytes) (request_id : Z) : Message :=
  {| nm_header := MessageHeader_new t (u32 (len payload)) request_id; nm_payload := payload |}.

(** Source: src/src/network.rs:182-188 (Message::to_bytes) *)
Definition message_to_bytes (m : Message) : bytes := header_to_bytes (nm_header m) ++ nm_payload m.

(** A TCP stream: the bytes to come and what reading past them gives
    ([UnexpectedEof] when the peer closes it); the bytes written so far, and
    after how many more writing fails and with what, if it does. *)
Record stream := mkTcp { rx : bytes; rx_end : io_kind; tx : bytes; tx_room : option (nat * io_kind) }.

(** A stream that the peer only closes. *)
Abbreviation mkStream rx tx := (mkTcp rx UnexpectedEof tx None).

(** [read_exact] consumes what is there when it fails. *)
Definition read_exact (n : Z) (s : stream) : stream * outcome io_kind bytes :=
  if n <=? len (rx s) then (mkTcp (zdrop n (rx s)) (rx_end s) (tx s) (tx_room s), Ok (ztake n (rx s)))
  else (mkTcp [] (rx_end s) (tx s) (tx_room s), Err (rx_end s)).

(** [write_all] has written what it could when it fails. *)
Definition write_all (bs : bytes) (s : stream) : stream * outcome io_kind unit :=
  match tx_room s with
  | None => (mkTcp (rx s) (rx_end s) (tx s ++ bs) None, Ok tt)
  | Some (n, e) =>
      if bool_decide (length bs ≤ n)%nat
      then (mkTcp (rx s) (rx_end s) (tx s ++ bs) (Some (n - length bs, e)%nat), Ok tt)
      else (mkTcp (rx s) (rx_end s) (tx s ++ take n bs) (Some (0%nat, e)), Err e)
  end.

(** Source: src/src/network.rs:190-202 (Message::read_from) *)
Definition read_from (s : stream) : stream * outcome NetworkError Message :=
  match read_exact HEADER_SIZE s with
  | (s, Ok header_bytes) =>
      match header_from_bytes header_bytes with
      | Ok header =>
          match read_exact (hd_payload_len header) s with
          | (s, Ok payload) => (s, Ok {| nm_header := header; nm_payload := payload |})
          | (s, Err e) => (s, Err (NetIo e))
          | (s, Panic) => (s, Panic)
          end
      | Err e => (s, Err e)
      | Panic => (s, Panic)
      end
  | (s, Err e) => (s, Err (NetIo e))
  | (s, Panic) => (s, Panic)
  end.

(** [flush] does nothing on a TCP stream.
    Source: src/src/network.rs:204-210 (Message::write_to) *)
Definition write_to (m : Message) (s : stream) : stream * outcome NetworkError unit :=
  let '(s, r) := write_all (message_to_bytes m) s in (s, map_err NetIo r).

(** Source: src/src/network.rs:213-222 (Connection) *)
Record Connection := mkConnection { cn_addr : string; cn_stream : stream; cn_next_request_id : Z }.

(** [s] is the stream of an established connection.
    Source: src/src/network.rs:225-233 (Connection::connect) *)
Definition connect (addr : string) (s : stream) : Connection :=
  {| cn_addr := addr; cn_stream := s; cn_next_request_id := 1 |}.

Section request.
(** The peer: the bytes it sends back for a whole request. *)
Context (peer : bytes → bytes).

(** Source: src/src/network.rs:235-254 (Connection::send_request) *)
Definition send_request (c : Connection) (t : MessageType) (payload : bytes)
    : Connection * outcome NetworkError Message :=
  let request_id := cn_next_request_id c in
  let request := Message_new t payload request_id in
  let after s := {| cn_addr := cn_addr c; cn_stream := s; cn_next_request_id := u64 (request_id + 1) |} in
  match write_to request (cn_stream c) with
  | (s, Err e) => (after s, Err e)
  | (s, Panic) => (after s, Panic)
  | (s, Ok _) =>
      let s := mkTcp (rx s ++ peer (message_to_bytes request)) (rx_end s) (tx s) (tx_room s) in
      let '(s, response) := read_from s in
      (after s,
       response ← response;
       if negb (hd_request_id (nm_header response) =? request_id)
       then Err (InvalidMessage (RequestIdMismatch request_id (hd_request_id (nm_header response))))
       else Ok response)
  end.

(** Source: src/src/network.rs:256-267 (Connection::ping) *)
Definition ping (c : Connection) : Connection * outcome NetworkError unit :=
  let '(c, response) := send_request c Ping [] in
  (c, response ← response;
      if decide (hd_msg_type (nm_header response) ≠ Pong)
      then Err (InvalidMessage (ExpectedPong (type_code (hd_msg_type (nm_header response)))))
      else Ok tt).
End request.

(** Addresses are the keys; [connect_to] gives the outcome of dialing.
    Source: src/src/network.rs:270-274 (ConnectionPool) *)
Definition ConnectionPool : Type := gmap string Connection.

(** Source: src/src/network.rs:277-282 (ConnectionPool::new) *)
Definition ConnectionPool_new : ConnectionPool := ∅.

(** Source: src/src/network.rs:284-297 (ConnectionPool::get_connection) *)
Definition get_connection (connect_to : string → outcome NetworkError stream)
    (pool : ConnectionPool) (addr : string) : ConnectionPool * outcome NetworkError Connection :=
  match pool !! addr with
  | Some conn => (pool, Ok conn)
  | None =>
      match connect_to addr with
      | Ok s => let conn := connect addr s in (<[addr := conn]> pool, Ok conn)
      | Err e => (pool, Err e)
      | Panic => (pool, Panic)
      end
  end.

(** Source: src/src/network.rs:299-302 (ConnectionPool::remove_connection) *)
Definition remove_connection (pool : ConnectionPool) (addr : string) : ConnectionPool :=
  delete addr pool.

(** Source: src/src/network.rs:304-307 (ConnectionPool::connection_count) *)
Definition connection_count (pool : ConnectionPool) : nat := size pool.

(** Source: src/src/network.rs:382-391 (NetworkServer::get_response_type) *)
Definition get_response_type (t : MessageType) : MessageType :=
  match t with
  | Ping => Pong
  | AppendRequest => AppendResponse
  | ReadRequest => ReadResponse
  | ReplicateRequest => ReplicateResponse
  | HealthRequest => HealthResponse
  | _ => MsgError
  end.

Section server.
(** The handler: [MessageHandler::handle_message] on a handler state. *)
Context {St : Type} (handle_message : St → MessageType → bytes → St * outcome NetworkError bytes).

(** Source: src/src/network.rs:353-377 (NetworkServer::handle_connection, loop body) *)
Definition connection_body (st : St * stream) : loop_step (St * stream) (outcome NetworkError unit) :=
  let '(h, s) := st in
  match read_from s with
  | (s, Ok message) =>
      match handle_message h (hd_msg_type (nm_header message)) (nm_payload message) with
      | (h, Ok response_payload) =>
          let response := Message_new (get_response_type (hd_msg_type (nm_header message)))
                            response_payload (hd_request_id (nm_header message)) in
          match write_to response s with
          | (s, Ok _) => Continue (h, s)
          | (s, Err e) => Return (h, s) (Err e)
          | (s, Panic) => Return (h, s) Panic
          end
      | (h, Err e) => Return (h, s) (Err e)
      | (h, Panic) => Return (h, s) Panic
      end
  | (s, Err (NetIo UnexpectedEof)) => Return (h, s) (Ok tt)
  | (s, Err e) => Return (h, s) (Err e)
  | (s, Panic) => Return (h, s) Panic
  end.

(** Source: src/src/network.rs:349-380 (NetworkServer::handle_connection) *)
Definition handle_connection (fuel : nat) (h : St) (s : stream)
    : option ((St * stream) * outcome NetworkError unit) :=
  run_loop fuel connection_body (h, s).
End server.

(** ** Headers as five fields *)
Definition header_fields (magic version raw plen id : Z) (rest : bytes) : bytes :=
  to_be_bytes 4 magic ++ to_be_bytes 2 version ++ to_be_bytes 2 raw ++ to_be_bytes 4 plen ++
  to_be_bytes 8 id ++ rest.

(** What the code builds: the protocol's magic and version, [u32] and [u64] fields. *)
Definition header_wf (h : MessageHeader) : Prop :=
  hd_magic h = PROTOCOL_MAGIC ∧ hd_version h = PROTOCOL_VERSION ∧
  in_range 32 (hd_payload_len h) ∧ in_range 64 (hd_request_id h).

(** A message whose header announces its payload. *)
Definition message_wf (m : Message) : Prop :=
  header_wf (nm_header m) ∧ hd_payload_len (nm_header m) = len (nm_payload m).

Definition accept_header (magic version raw plen id : Z) : outcome NetworkError MessageHeader :=
  if negb (magic =? PROTOCOL_MAGIC) then Err (InvalidMessage (InvalidMagicBytes magic))
  else if negb (version =? PROTOCOL_VERSION) then Err (UnsupportedVersion version)
  else match type_of_code raw with
  | None => Err (InvalidMessage (UnknownMessageType raw))
  | Some t => Ok (mkHeader magic version t plen id)
  end.

Lemma type_code_roundtrip t : type_of_code (type_code t) = Some t.
Proof. by destruct t. Qed.
Lemma type_of_code_inv raw t : type_of_code raw = Some t → raw = type_code t.
Proof. unfold type_of_code. repeat case_match; intros [= <-]; zbool; done. Qed.
Lemma type_code_range t : in_range 16 (type_code t).
Proof. by destruct t. Qed.

Lemma len_header_fields m v r p i rest : len (header_fields m v r p i rest) = 20 + len rest.
Proof. unfold header_fields. len_lia. Qed.

Lemma header_of_bytes bs :
  20 ≤ len bs → ∃ m v r p i rest, bs = header_fields m v r p i rest ∧
    in_range 32 m ∧ in_range 16 v ∧ in_range 16 r ∧ in_range 32 p ∧ in_range 64 i.
Proof.
  intros Hl.
  destruct (split_at bs 4 6) as (x1 & x2 & r1 & -> & H1 & H2); [lia..|].
  destruct (split_at r1 2 6) as (x3 & x4 & r2 & -> & H3 & H4); [lia|lia|len_lia|].
  destruct (split_at r2 8 8) as (x5 & x6 & r3 & -> & H5 & H6); [lia|lia|len_lia|].
  exists (from_be_bytes x1), (from_be_bytes x2), (from_be_bytes x3), (from_be_bytes x4),
    (from_be_bytes x5), (x6 ++ r3).
  unfold header_fields. rewrite !be_of_bytes by lia. split; [done|].
  split_and!; [apply (from_be_range 4)|apply (from_be_range 2)|apply (from_be_range 2)
    |apply (from_be_range 4)|apply (from_be_range 8)]; lia.
Qed.

Lemma header_from_fields m v r p i rest :
  in_range 32 m → in_range 16 v → in_range 16 r → in_range 32 p → in_range 64 i →
  header_from_bytes (header_fields m v r p i rest) = accept_header m v r p i.
Proof.
  intros Hm Hv Hr Hp Hi. unfold header_from_bytes, accept_header, HEADER_SIZE.
  rewrite len_header_fields. pose proof (len_nonneg rest). zif. unfold header_fields.
  rewrite (slice_head (to_be_bytes 4 m) _ 0 4) by len_lia.
  rewrite (slice_app (to_be_bytes 4 m) (to_be_bytes 2 v) _ 4 6) by len_lia.
  rewrite (app_assoc (to_be_bytes 4 m)), (slice_app _ (to_be_bytes 2 r) _ 6 8) by len_lia.
  rewrite (app_assoc _ (to_be_bytes 2 r)), (slice_app _ (to_be_bytes 4 p) _ 8 12) by len_lia.
  rewrite (app_assoc _ (to_be_bytes 4 p)), (slice_app _ (to_be_bytes 8 i) _ 12 20) by len_lia.
  cbn [unwrap fmap outcome_fmap mbind outcome_bind]. rewrite !be_roundtrip by done.
  destruct (negb _); [done|]. destruct (negb _); [done|]. by destruct (type_of_code r).
Qed.

Lemma header_bytes_fields h rest :
  header_to_bytes h ++ rest =
    header_fields (hd_magic h) (hd_version h) (type_code (hd_msg_type h)) (hd_payload_len h)
      (hd_request_id h) rest.
Proof. unfold header_to_bytes, header_fields. by rewrite <- !app_assoc. Qed.

Lemma header_from_to h rest :
  header_wf h → header_from_bytes (header_to_bytes h ++ rest) = Ok h.
Proof.
  intros (Hm & Hv & Hp & Hi). rewrite header_bytes_fields, header_from_fields.
  2-6: first [rewrite Hm; done|rewrite Hv; done|apply type_code_range|done].
  unfold accept_header. rewrite Hm, Hv, type_code_roundtrip. cbn. rewrite <- Hm, <- Hv.
  by destruct h.
Qed.

Lemma len_header_to_bytes h : len (header_to_bytes h) = 20.
Proof. unfold header_to_bytes. len_lia. Qed.

(** ** Streams *)
Lemma read_exact_app n x s :
  n = len x → ∀ rest, rx s = x ++ rest → read_exact n s = (mkTcp rest (rx_end s) (tx s) (tx_room s), Ok x).
Proof.
  intros -> rest Hrx. unfold read_exact. rewrite Hrx, len_app, ztake_app, zdrop_app.
  pose proof (len_nonneg rest). by zif.
Qed.

Lemma read_message m rest ends out room :
  message_wf m → read_from (mkTcp (message_to_bytes m ++ rest) ends out room) = (mkTcp rest ends out room, Ok m).
Proof.
  intros [Hh Hl]. unfold read_from, message_to_bytes.
  rewrite <- app_assoc.
  rewrite (read_exact_app HEADER_SIZE (header_to_bytes (nm_header m))
    (mkTcp _ ends out room)) with (rest := nm_payload m ++ rest);
    [|by rewrite len_header_to_bytes|done].
  rewrite <- (app_nil_r (header_to_bytes _)), header_from_to by done. cbn [tx rx_end tx_room].
  rewrite (read_exact_app (hd_payload_len (nm_header m)) (nm_payload m)
    (mkTcp _ ends out room)) with (rest := rest); [|done|done]. cbn. by destruct m.
Qed.

Lemma read_short tail ends out room :
  len tail < 20 → read_from (mkTcp tail ends out room) = (mkTcp [] ends out room, Err (NetIo ends)).
Proof. intros Ht. unfold read_from, read_exact, HEADER_SIZE; cbn [rx]. by zif. Qed.

(** What is written when nothing breaks. *)
Lemma write_all_ok bs s s' : write_all bs s = (s', Ok tt) → tx s' = tx s ++ bs.
Proof. unfold write_all. intros Hw. repeat case_match; by simplify_eq. Qed.

(** Writing leaves the receiving side. *)
Lemma write_to_rx m s s' r : write_to m s = (s', r) → rx s' = rx s ∧ rx_end s' = rx_end s.
Proof. unfold write_to, write_all. intros Hw. repeat case_match; by simplify_eq. Qed.

Lemma message_new_wf t payload id :
  len payload < 2 ^ 32 → in_range 64 id → message_wf (Message_new t payload id).
Proof.
  intros Hp Hi. pose proof (len_nonneg payload).
  unfold Message_new, MessageHeader_new. rewrite wrap_id by (unfold in_range; lia).
  split; [|done]. split_and!; try done; cbn; unfold in_range; lia.
Qed.

(** Reading consumes at least a header, unless it fails. *)
Lemma read_from_shrinks s s' m : read_from s = (s', Ok m) → len (rx s') + 20 ≤ len (rx s).
Proof.
  unfold read_from. destruct (read_exact HEADER_SIZE s) as [s1 [hb| |]] eqn:H1; [|done..].
  destruct (header_from_bytes hb) as [h| |]; [|done..].
  destruct (read_exact (hd_payload_len h) s1) as [s2 [p| |]] eqn:H2; [|done..].
  intros [= <- <-]. unfold read_exact, HEADER_SIZE in *.
  destruct (20 <=? len (rx s)) eqn:Hc1; [|done]. injection H1 as <- <-. zbool. cbn [rx] in *.
  destruct (hd_payload_len h <=? _) eqn:Hc2; [|done]. injection H2 as <- <-. zbool. cbn [rx].
  assert (len (zdrop 20 (rx s)) = len (rx s) - 20) as Hl by (apply len_zdrop; lia).
  pose proof (len_zdrop_le (hd_payload_len h) (zdrop 20 (rx s))). lia.
Qed.

(** ** The server as a service

    [serve h reqs]: the responses of the handler to the requests in order, when
    it answers them all. *)
Section service.
Context {St : Type} (handle_message : St → MessageType → bytes → St * outcome NetworkError bytes).

Fixpoint serve (h : St) (reqs : list Message) : option (St * list Message) :=
  match reqs with
  | [] => Some (h, [])
  | m :: reqs =>
      match handle_message h (hd_msg_type (nm_header m)) (nm_payload m) with
      | (h, Ok payload) =>
          '(h, resps) ← serve h reqs;
          Some (h, Message_new (get_response_type (hd_msg_type (nm_header m))) payload
                     (hd_request_id (nm_header m)) :: resps)
      | _ => None
      end
  end.

Definition wire (ms : list Message) : bytes := concat (map message_to_bytes ms).

Lemma server_session h reqs h' resps tail out :
  Forall message_wf reqs → serve h reqs = Some (h', resps) → len tail < 20 →
  handle_connection handle_message (S (length reqs)) h (mkStream (wire reqs ++ tail) out) =
    Some ((h', mkStream [] (out ++ wire resps)), Ok tt).
Proof.
  intros Hreqs. revert h resps out. induction Hreqs as [|m reqs Hm _ IH]; intros h resps out Hs Ht.
  - injection Hs as <- <-. unfold handle_connection. cbn [run_loop length]. unfold connection_body.
    cbn [wire map concat app]. rewrite read_short by done. by rewrite app_nil_r.
  - cbn [serve] in Hs. cbn [length]. remember (S (length reqs)) as k eqn:Hk.
    unfold handle_connection. cbn [run_loop]. unfold connection_body at 1.
    unfold wire. cbn [map concat]. rewrite <- app_assoc, read_message by done.
    destruct (handle_message h _ _) as [h1 [p| |]]; [|done..].
    apply bind_Some in Hs as ([h2 rs] & Hs & [= -> <-]).
    specialize (IH h1 rs (out ++ message_to_bytes (Message_new
      (get_response_type (hd_msg_type (nm_header m))) p (hd_request_id (nm_header m)))) Hs Ht).
    unfold handle_connection, wire in IH. unfold write_to, write_all. cbn [rx tx tx_room rx_end map_err]. rewrite IH. cbn [map concat].
    by rewrite <- app_assoc.
Qed.

Lemma server_terminates h s :
  ∃ r, handle_connection handle_message (S (length (rx s))) h s = Some r.
Proof.
  apply (run_loop_terminates _ (λ st : St * stream, length (rx st.2)) (h, s)).
  intros [h1 s1] st2. unfold connection_body.
  destruct (read_from s1) as [s2 [m|[[]| | | | |]|]] eqn:Hr; try done.
  destruct (handle_message h1 _ _) as [h2 [p| |]]; [|done..].
  destruct (write_to _ s2) as [s3 [u| |]] eqn:Hw; [|done..]. intros [= <-]. cbn.
  apply write_to_rx in Hw as [-> _]. apply read_from_shrinks in Hr. unfold len in Hr. lia.
Qed.
End service.

(** ** Properties *)

(** Header round trip and canonicity: [from_bytes] accepts exactly the byte
    strings that start with the serialization of a header with the protocol's
    magic and version, and returns that header. *)
Lemma header_from_bytes_iff bs h :
  header_from_bytes bs = Ok h ↔ header_wf h ∧ ∃ rest, bs = header_to_bytes h ++ rest.
Proof.
  split; [|intros (Hh & rest & ->); by apply header_from_to].
  intros Hok. destruct (Z.lt_ge_cases (len bs) 20) as [Hl|Hl].
  { unfold header_from_bytes, HEADER_SIZE in Hok.
    by rewrite (proj2 (Z.ltb_lt _ _)) in Hok. }
  destruct (header_of_bytes bs Hl) as (m & v & r & p & i & rest & -> & Hm & Hv & Hr & Hp & Hi).
  rewrite header_from_fields in Hok by done. unfold accept_header in Hok.
  destruct (negb (m =? _)) eqn:Hm'; [done|]. destruct (negb (v =? _)) eqn:Hv'; [done|].
  apply negb_false_iff in Hm', Hv'. zbool. subst.
  destruct (type_of_code r) as [t|] eqn:Ht; [|done]. injection Hok as <-.
  apply type_of_code_inv in Ht as ->. split; [done|].
  exists rest. by rewrite header_bytes_fields.
Qed.

(** Framing: whatever the segmentation, a stream that carries well-formed
    messages back to back gives back exactly the first of them and keeps the
    rest, and a stream that ends inside a header is an end-of-file error. *)
Lemma framing_reads_messages m ms tail out :
  Forall message_wf (m :: ms) →
  read_from (mkStream (wire (m :: ms) ++ tail) out) = (mkStream (wire ms ++ tail) out, Ok m) ∧
  (len tail < 20 → read_from (mkStream tail out) = (mkStream [] out, Err (NetIo UnexpectedEof))).
Proof.
  intros [Hm Hms]%Forall_cons. split; [|by apply read_short].
  unfold wire. cbn [map concat]. rewrite <- app_assoc. by apply read_message.
Qed.

(** Refinement of the server loop: on a connection that carries the
    requests [reqs] and then ends (possibly inside a header), a handler that
    answers them all makes [handle_connection] return normally having written
    exactly the responses of the service in request order, each with the
    response type and the request id of its request; and whatever the bytes and
    the handler, the loop returns. *)
Lemma server_refines_service {St} (handle : St → MessageType → bytes → St * outcome NetworkError bytes)
    h reqs h' resps tail out :
  Forall message_wf reqs → serve handle h reqs = Some (h', resps) → len tail < 20 →
  handle_connection handle (S (length reqs)) h (mkStream (wire reqs ++ tail) out) =
    Some ((h', mkStream [] (out ++ wire resps)), Ok tt) ∧
  ∀ h s, ∃ r, handle_connection handle (S (length (rx s))) h s = Some r.
Proof. intros Hreqs Hs Ht. split; [by apply server_session|apply server_terminates]. Qed.

(** End to end: a request sent over a connection to a server whose handler
    answers it returns that answer, under the request's own id and response
    type; the next request uses the next id. *)
Lemma rpc_end_to_end {St} (handle : St → MessageType → bytes → St * outcome NetworkError bytes)
    h h' t payload r c :
  let peer bs := match handle_connection handle 2 h (mkStream bs []) with
                 | Some ((_, s), _) => tx s | None => [] end in
  handle h t payload = (h', Ok r) → len payload < 2 ^ 32 → len r < 2 ^ 32 →
  rx (cn_stream c) = [] → tx_room (cn_stream c) = None → in_range 64 (cn_next_request_id c) →
  (send_request peer c t payload).2 = Ok (Message_new (get_response_type t) r (cn_next_request_id c)) ∧
  cn_next_request_id (send_request peer c t payload).1 = u64 (cn_next_request_id c + 1).
Proof.
  intros peer Hh Hp Hr Hrx Hroom Hid.
  pose proof (message_new_wf t payload (cn_next_request_id c) Hp Hid) as Hreq.
  pose proof (message_new_wf (get_response_type t) r (cn_next_request_id c) Hr Hid) as Hresp.
  assert (peer (message_to_bytes (Message_new t payload (cn_next_request_id c))) =
    message_to_bytes (Message_new (get_response_type t) r (cn_next_request_id c)) ++ []) as Hpeer.
  { unfold peer. pose proof (server_session handle h [Message_new t payload (cn_next_request_id c)] h'
      [Message_new (get_response_type t) r (cn_next_request_id c)] [] []) as Hs.
    unfold wire in Hs. cbn [length map concat] in Hs. rewrite !app_nil_r in *.
    rewrite Hs; [done|by constructor| |done]. cbn. by rewrite Hh. }
  unfold send_request, write_to, write_all. rewrite Hroom. cbn [map_err rx tx rx_end tx_room].
  rewrite Hrx, app_nil_l, Hpeer, read_message by done. cbn.
  by rewrite Z.eqb_refl.
Qed.

(** ** Concrete runs: a handler that echoes payloads and counts requests *)
Definition echo (n : nat) (t : MessageType) (payload : bytes) : nat * outcome NetworkError bytes :=
  (S n, Ok payload).
Definition ping_request (id : Z) : Message := Message_new Ping (str_bytes "p") id.

Lemma ping_request_wf : message_wf (ping_request 7).
Proof. by vm_compute. Qed.

Lemma header_from_bytes_iff_witness :
  header_from_bytes (header_to_bytes (MessageHeader_new ReadRequest 3 9) ++ str_bytes "abc") =
    Ok (MessageHeader_new ReadRequest 3 9).
Proof.
  apply header_from_bytes_iff. split; [by vm_compute|by exists (str_bytes "abc")].
Defined.

Lemma framing_reads_messages_witness :
  read_from (mkStream (wire [ping_request 7; ping_request 7] ++ []) []) =
    (mkStream (wire [ping_request 7] ++ []) [], Ok (ping_request 7)).
Proof.
  apply (framing_reads_messages (ping_request 7) [ping_request 7] [] []).
  repeat (constructor; [apply ping_request_wf|]). constructor.
Defined.

Lemma server_refines_service_witness :
  handle_connection echo 2 0%nat (mkStream (wire [ping_request 7] ++ str_bytes "x") []) =
    Some ((1%nat, mkStream [] (wire [Message_new Pong (str_bytes "p") 7])), Ok tt).
Proof.
  refine (proj1 (server_refines_service echo 0%nat [ping_request 7] 1%nat
    [Message_new Pong (str_bytes "p") 7] (str_bytes "x") [] _ _ _)).
  - constructor; [apply ping_request_wf|constructor].
  - reflexivity.
  - by vm_compute.
Defined.

(** The bytes the echo server sends back to a client that sent [bs]. *)
Definition echo_peer (bs : bytes) : bytes :=
  match handle_connection echo 2 0%nat (mkStream bs []) with
  | Some ((_, s), _) => tx s
  | None => []
  end.

Lemma rpc_end_to_end_witness :
  (send_request echo_peer (connect "a" (mkStream [] [])) Ping (str_bytes "p")).2 =
    Ok (Message_new Pong (str_bytes "p") 1).
Proof.
  apply (rpc_end_to_end echo 0%nat 1%nat Ping (str_bytes "p") (str_bytes "p")
    (connect "a" (mkStream [] []))); by vm_compute.
Defined.
