(* ===== verification/Raft.v ===== *)
(** * Leader election (src/src/raft.rs)

    A node keeps a term, a vote, a role and the votes it received.  Timers and
    callers put commands on a channel, and one task executes them in order: a
    run of the node is a list of events, each an atomic step. *)

From stdpp Require Import base list numbers gmap relations.
From S2P Require Import Prelude.
Local Open Scope Z_scope.

(** Source: src/src/raft.rs:40-49 (NodeState) *)
Inductive NodeState := Follower | Candidate | Leader.

#[export] Instance NodeState_eq_dec : EqDecision NodeState.
Proof. solve_decision. Defined.

(** Built by no function of the file.
    Source: src/src/raft.rs:20-36 (RaftError) *)
Inductive RaftError :=
  | InvalidTransition (from to : NodeState)
  | StaleTerm (current received : Z)
  | AlreadyVoted (term : Z)
  | NotLeader
  | ElectionTimeout.

(** Durations are in nanoseconds.
    Source: src/src/raft.rs:57-72 (RaftConfig) *)
Record RaftConfig := mkRaftConfig {
  rc_node_id : Z; cluster_nodes : list Z; election_timeout_min : Z; election_timeout_max : Z;
  heartbeat_interval : Z }.

(** Source: src/src/raft.rs:75-83 (RaftConfig::default) *)
Definition RaftConfig_default : RaftConfig :=
  {| rc_node_id := 0; cluster_nodes := []; election_timeout_min := 150000000;
     election_timeout_max := 300000000; heartbeat_interval := 50000000 |}.

(** Source: src/src/raft.rs:86-97 (VoteRequest) *)
Record VoteRequest := mkVoteRequest {
  vq_term : Z; vq_candidate_id : Z; vq_last_log_index : Z; vq_last_log_term : Z }.
(** Source: src/src/raft.rs:99-106 (VoteResponse) *)
Record VoteResponse := mkVoteResponse { vs_term : Z; vs_vote_granted : bool }.
(** Source: src/src/raft.rs:108-115 (Heartbeat) *)
Record Heartbeat := mkHeartbeat { hb_term : Z; hb_leader_id : Z }.
(** Source: src/src/raft.rs:117-124 (HeartbeatResponse) *)
Record HeartbeatResponse := mkHeartbeatResponse { hr_term : Z; hr_success : bool }.

(** Source: src/src/raft.rs:126-133 (PersistentState) *)
Record PersistentState := mkPersistent { current_term : Z; voted_for : option Z }.
(** Source: src/src/raft.rs:164-175 (VolatileState) *)
Record VolatileState := mkVolatile {
  vl_state : NodeState; leader_id : option Z; last_heartbeat : Z; votes_received : gmap Z bool }.

(** The channel is part of [system] below.
    Source: src/src/raft.rs:229-243 (RaftNode) *)
Record RaftNode := mkNode { config : RaftConfig; persistent : PersistentState; volatile : VolatileState }.

(** The reply channels carry the responses of [execute].
    Source: src/src/raft.rs:245-257 (RaftCommand) *)
Inductive RaftCommand :=
  | HandleVoteRequest (req : VoteRequest)
  | HandleHeartbeat (hb : Heartbeat)
  | StartElection
  | SendHeartbeats.

Definition set_persistent (n : RaftNode) (p : PersistentState) : RaftNode :=
  mkNode (config n) p (volatile n).
Definition set_volatile (n : RaftNode) (v : VolatileState) : RaftNode :=
  mkNode (config n) (persistent n) v.

(** Source: src/src/raft.rs:136-141 (PersistentState::new) *)
Definition PersistentState_new : PersistentState := {| current_term := 0; voted_for := None |}.
(** Source: src/src/raft.rs:143-145 (PersistentState::get_term) *)
Definition get_term (n : RaftNode) : Z := current_term (persistent n).
(** Source: src/src/raft.rs:147-149 (PersistentState::set_term) *)
Definition set_term (n : RaftNode) (term : Z) : RaftNode :=
  set_persistent n (mkPersistent term (voted_for (persistent n))).
(** [fetch_add] wraps.
    Source: src/src/raft.rs:151-153 (PersistentState::increment_term) *)
Definition increment_term (n : RaftNode) : RaftNode * Z :=
  (set_term n (u64 (get_term n + 1)), u64 (get_term n + 1)).
(** Source: src/src/raft.rs:155-157 (PersistentState::get_voted_for) *)
Definition get_voted_for (n : RaftNode) : option Z := voted_for (persistent n).
(** Source: src/src/raft.rs:159-161 (PersistentState::set_voted_for) *)
Definition set_voted_for (n : RaftNode) (v : option Z) : RaftNode :=
  set_persistent n (mkPersistent (get_term n) v).

(** Source: src/src/raft.rs:178-185 (VolatileState::new) *)
Definition VolatileState_new (now : Z) : VolatileState :=
  {| vl_state := Follower; leader_id := None; last_heartbeat := now; votes_received := ∅ |}.
(** Source: src/src/raft.rs:187-189 (VolatileState::get_state) *)
Definition get_state (n : RaftNode) : NodeState := vl_state (volatile n).
(** Source: src/src/raft.rs:191-195 (VolatileState::set_state) *)
Definition set_state (n : RaftNode) (s : NodeState) : RaftNode :=
  set_volatile n (mkVolatile s (leader_id (volatile n)) (last_heartbeat (volatile n))
                    (votes_received (volatile n))).
(** Source: src/src/raft.rs:197-199 (VolatileState::get_leader) *)
Definition get_leader (n : RaftNode) : option Z := leader_id (volatile n).
(** Source: src/src/raft.rs:201-203 (VolatileState::set_leader) *)
Definition set_leader (n : RaftNode) (l : option Z) : RaftNode :=
  set_volatile n (mkVolatile (get_state n) l (last_heartbeat (volatile n))
                    (votes_received (volatile n))).
(** Source: src/src/raft.rs:205-207 (VolatileState::update_heartbeat) *)
Definition update_heartbeat (n : RaftNode) (now : Z) : RaftNode :=
  set_volatile n (mkVolatile (get_state n) (get_leader n) now (votes_received (volatile n))).
(** Source: src/src/raft.rs:209-211 (VolatileState::time_since_heartbeat) *)
Definition time_since_heartbeat (n : RaftNode) (now : Z) : Z :=
  saturating_sub now (last_heartbeat (volatile n)).
(** Source: src/src/raft.rs:213-215 (VolatileState::record_vote) *)
Definition record_vote (n : RaftNode) (node_id : Z) (granted : bool) : RaftNode :=
  set_volatile n (mkVolatile (get_state n) (get_leader n) (last_heartbeat (volatile n))
                    (<[node_id := granted]> (votes_received (volatile n)))).
(** Source: src/src/raft.rs:217-222 (VolatileState::count_votes) *)
Definition count_votes (n : RaftNode) : Z :=
  len (filter (λ kv : Z * bool, kv.2 = true) (map_to_list (votes_received (volatile n)))).
(** Source: src/src/raft.rs:224-226 (VolatileState::clear_votes) *)
Definition clear_votes (n : RaftNode) : RaftNode :=
  set_volatile n (mkVolatile (get_state n) (get_leader n) (last_heartbeat (volatile n)) ∅).

(** Source: src/src/raft.rs:260-271 (RaftNode::new) *)
Definition RaftNode_new (c : RaftConfig) (now : Z) : RaftNode :=
  mkNode c PersistentState_new (VolatileState_new now).
(** Source: src/src/raft.rs:273-276 (RaftNode::state) *)
Definition state (n : RaftNode) : NodeState := get_state n.
(** Source: src/src/raft.rs:278-281 (RaftNode::term) *)
Definition term (n : RaftNode) : Z := get_term n.
(** Source: src/src/raft.rs:283-286 (RaftNode::leader) *)
Definition leader (n : RaftNode) : option Z := get_leader n.
(** Source: src/src/raft.rs:288-291 (RaftNode::is_leader) *)
Definition is_leader (n : RaftNode) : bool := bool_decide (get_state n = Leader).

(** Only logging is left of the heartbeats.
    Source: src/src/raft.rs:423-437 (RaftNode::send_heartbeats) *)
Definition send_heartbeats (n : RaftNode) : RaftNode := n.

(** Source: src/src/raft.rs:408-421 (RaftNode::become_leader) *)
Definition become_leader (n : RaftNode) : RaftNode :=
  let n := set_state n Leader in
  let n := set_leader n (Some (rc_node_id (config n))) in
  send_heartbeats n.

(** Source: src/src/raft.rs:377-406 (RaftNode::start_election) *)
Definition start_election (n : RaftNode) (now : Z) : RaftNode :=
  let n := set_state n Candidate in
  let '(n, new_term) := increment_term n in
  let n := set_voted_for n (Some (rc_node_id (config n))) in
  let n := clear_votes n in
  let n := record_vote n (rc_node_id (config n)) true in
  let n := update_heartbeat n now in
  let votes_needed := (len (cluster_nodes (config n)) + 1) `div` 2 + 1 in
  if votes_needed <=? count_votes n then become_leader n else n.

(** Source: src/src/raft.rs:439-495 (RaftNode::handle_vote_request) *)
Definition handle_vote_request (n : RaftNode) (now : Z) (request : VoteRequest)
    : RaftNode * VoteResponse :=
  let current := get_term n in
  if vq_term request <? current then (n, mkVoteResponse current false) else
  let n := if current <? vq_term request then
      let n := set_term n (vq_term request) in
      let n := set_voted_for n None in
      let n := set_state n Follower in
      set_leader n None
    else n in
  let voted := get_voted_for n in
  let can_vote := bool_decide (voted = None) || bool_decide (voted = Some (vq_candidate_id request)) in
  if can_vote then
    let n := set_voted_for n (Some (vq_candidate_id request)) in
    let n := update_heartbeat n now in
    (n, mkVoteResponse (vq_term request) true)
  else (n, mkVoteResponse current false).

(** Source: src/src/raft.rs:497-528 (RaftNode::handle_heartbeat) *)
Definition handle_heartbeat (n : RaftNode) (now : Z) (hb : Heartbeat) : RaftNode * HeartbeatResponse :=
  let current := get_term n in
  if hb_term hb <? current then (n, mkHeartbeatResponse current false) else
  let n := if current <? hb_term hb then
      let n := set_term n (hb_term hb) in set_voted_for n None
    else n in
  let n := if bool_decide (get_state n = Candidate) then set_state n Follower else n in
  let n := set_leader n (Some (hb_leader_id hb)) in
  let n := update_heartbeat n now in
  (n, mkHeartbeatResponse (hb_term hb) true).

(** ** The event loop

    What executing a command leaves: the reply sent back, or the node's vote for
    itself in the election it started. *)
Inductive response :=
  | VoteReply (req : VoteRequest) (r : VoteResponse)
  | HeartbeatReply (hb : Heartbeat) (r : HeartbeatResponse)
  | SelfVote (term candidate : Z)
  | NoReply.

(** Source: src/src/raft.rs:316-333 (RaftNode::run, command loop) *)
Definition execute (n : RaftNode) (now : Z) (c : RaftCommand) : RaftNode * response :=
  match c with
  | HandleVoteRequest req => let '(n, r) := handle_vote_request n now req in (n, VoteReply req r)
  | HandleHeartbeat hb => let '(n, r) := handle_heartbeat n now hb in (n, HeartbeatReply hb r)
  | StartElection =>
      let n := start_election n now in (n, SelfVote (get_term n) (rc_node_id (config n)))
  | SendHeartbeats => (send_heartbeats n, NoReply)
  end.

(** A node with its command channel, and what it has answered so far. *)
Record system := mkSys { sy_node : RaftNode; sy_queue : list RaftCommand; sy_log : list response }.

(** One iteration of a timer, a request put on the channel, or the execution of
    the oldest command; [timeout] is the random timeout drawn. *)
Inductive event :=
  | ElectionTimer (now timeout : Z)
  | HeartbeatTimer
  | Request (c : RaftCommand)
  | Process (now : Z).

(** Source: src/src/raft.rs:336-355 (RaftNode::election_timer) *)
Definition election_timer (n : RaftNode) (now timeout : Z) : list RaftCommand :=
  if bool_decide (get_state n ≠ Leader) && (timeout <=? time_since_heartbeat n now)
  then [StartElection] else [].

(** Source: src/src/raft.rs:357-366 (RaftNode::heartbeat_timer) *)
Definition heartbeat_timer (n : RaftNode) : list RaftCommand :=
  if bool_decide (get_state n = Leader) then [SendHeartbeats] else [].

(** The timers and the command task of [run].
    Source: src/src/raft.rs:293-334 (RaftNode::run) *)
Definition step (s : system) (e : event) : system :=
  match e with
  | ElectionTimer now timeout =>
      mkSys (sy_node s) (sy_queue s ++ election_timer (sy_node s) now timeout) (sy_log s)
  | HeartbeatTimer => mkSys (sy_node s) (sy_queue s ++ heartbeat_timer (sy_node s)) (sy_log s)
  | Request c => mkSys (sy_node s) (sy_queue s ++ [c]) (sy_log s)
  | Process now =>
      match sy_queue s with
      | [] => s
      | c :: queue => let '(n, r) := execute (sy_node s) now c in mkSys n queue (sy_log s ++ [r])
      end
  end.

Definition start (c : RaftConfig) (now : Z) : system := mkSys (RaftNode_new c now) [] [].
Definition run (s : system) (events : list event) : system := foldl step s events.

(** ** Votes

    The vote a response grants: the term and the candidate. *)
Definition ballot (r : response) : option (Z * Z) :=
  match r with
  | VoteReply req a => if vs_vote_granted a then Some (vs_term a, vq_candidate_id req) else None
  | SelfVote t c => Some (t, c)
  | _ => None
  end.

Definition command_term (c : RaftCommand) : Z :=
  match c with HandleVoteRequest r => vq_term r | HandleHeartbeat h => hb_term h | _ => 0 end.

(** Requests carry terms up to [B]. *)
Definition event_bounded (B : Z) (e : event) : Prop :=
  match e with Request c => 0 ≤ command_term c ≤ B | _ => True end.

Lemma count_votes_one n id now :
  count_votes (update_heartbeat (record_vote (clear_votes n) id true) now) = 1.
Proof.
  unfold count_votes; cbn. by rewrite insert_empty, map_to_list_singleton.
Qed.

Lemma votes_needed_spec (l : list Z) : ((len l + 1) `div` 2 + 1 <=? 1) = bool_decide (l = []).
Proof.
  destruct l as [|x l]; [done|]. rewrite bool_decide_eq_false_2 by done.
  rewrite len_cons. pose proof (len_nonneg l).
  pose proof (Z.div_le_mono 2 (1 + len l + 1) 2). apply Z.leb_gt.
  assert (1 ≤ (1 + len l + 1) `div` 2) by (apply Z.div_le_lower_bound; lia). lia.
Qed.

(** The outcome of an election, in full. *)
Lemma start_election_eq n now :
  start_election n now =
    mkNode (config n) (mkPersistent (u64 (get_term n + 1)) (Some (rc_node_id (config n))))
      (mkVolatile (if bool_decide (cluster_nodes (config n) = []) then Leader else Candidate)
         (if bool_decide (cluster_nodes (config n) = []) then Some (rc_node_id (config n)) else get_leader n)
         now {[ rc_node_id (config n) := true ]}).
Proof.
  rewrite <- insert_empty. unfold start_election; cbn [increment_term].
  rewrite count_votes_one. cbn. rewrite votes_needed_spec. by destruct (bool_decide _).
Qed.

(** Every command leaves the configuration alone. *)
Lemma execute_config n now c : config (execute n now c).1 = config n.
Proof.
  destruct c as [r|h| |]; cbn [execute].
  - unfold handle_vote_request. by repeat case_match; simplify_eq.
  - unfold handle_heartbeat. by repeat case_match; simplify_eq.
  - by rewrite start_election_eq.
  - done.
Qed.

(** What a command does to the term and the vote. *)
Lemma execute_term n now c :
  0 ≤ get_term n < 2 ^ 64 - 1 → 0 ≤ command_term c →
  let '(n', r) := execute n now c in
  get_term n ≤ get_term n' ≤ Z.max (get_term n + 1) (command_term c) ∧
  (get_term n' = get_term n → ∀ v, get_voted_for n = Some v → get_voted_for n' = Some v) ∧
  (∀ t v, ballot r = Some (t, v) → t = get_term n' ∧ get_voted_for n' = Some v ∧
     (t = get_term n → get_voted_for n = None ∨ get_voted_for n = Some v)).
Proof.
  intros Hn Hc. destruct c as [q|h| |]; cbn [execute command_term] in *.
  - unfold handle_vote_request.
    destruct (vq_term q <? get_term n) eqn:H1; zbool.
    { cbn. split_and!; [lia..|done|done]. }
    destruct (get_term n <? vq_term q) eqn:H2; zbool; cbn.
    + split_and!; try lia. intros t v [= <- <-]. split_and!; [done..|lia].
    + assert (vq_term q = get_term n) as Heq by lia.
      destruct (bool_decide (get_voted_for n = None)) eqn:H3; cbn.
      { apply bool_decide_eq_true in H3. rewrite H3, Heq. split_and!; [lia..|done|].
        intros t v [= <- <-]. split_and!; [done..|by left]. }
      destruct (bool_decide (get_voted_for n = Some (vq_candidate_id q))) eqn:H4; cbn.
      * apply bool_decide_eq_true in H4. rewrite H4, Heq. split_and!; [lia..|done|].
        intros t v [= <- <-]. split_and!; [done..|by right].
      * split_and!; [lia..|done|done].
  - unfold handle_heartbeat.
    destruct (hb_term h <? get_term n) eqn:H1; zbool; [cbn; split_and!; [lia..|done|done]|].
    destruct (get_term n <? hb_term h) eqn:H2; zbool;
      destruct (bool_decide _); cbn; (split_and!; [unfold get_term in *; cbn in *; lia..| |done]);
      unfold get_term in *; cbn in *; (lia || done).
  - rewrite start_election_eq. unfold get_term, get_voted_for in *. cbn.
    rewrite wrap_id by (unfold in_range; lia).
    split_and!; try lia. intros t v [= <- <-]. split_and!; [done..|lia].
  - unfold send_heartbeats. split_and!; [lia..|done|done].
Qed.

(** ** The invariant of a run *)
Record run_inv (B : Z) (s : system) : Prop := {
  ri_term : 0 ≤ get_term (sy_node s) ≤ B + len (sy_log s);
  ri_queue : Forall (λ c, 0 ≤ command_term c ≤ B) (sy_queue s);
  ri_votes : ∀ r t v, r ∈ sy_log s → ballot r = Some (t, v) →
    t ≤ get_term (sy_node s) ∧
    (t = get_term (sy_node s) → get_voted_for (sy_node s) = Some v);
  ri_unique : ∀ r1 r2 t v1 v2, r1 ∈ sy_log s → r2 ∈ sy_log s →
    ballot r1 = Some (t, v1) → ballot r2 = Some (t, v2) → v1 = v2
}.

Lemma run_snoc s events e : run s (events ++ [e]) = step (run s events) e.
Proof. unfold run. by rewrite foldl_app. Qed.

Lemma log_grows s e :
  ∃ rs, sy_log (step s e) = sy_log s ++ rs ∧ len rs ≤ 1.
Proof.
  destruct e as [now to| |c|now]; cbn; try (exists []; by rewrite app_nil_r).
  destruct (sy_queue s) as [|c q]; [exists []; by rewrite app_nil_r|].
  destruct (execute _ now c) as [n r]. by exists [r].
Qed.

Lemma len_log c now events : len (sy_log (run (start c now) events)) ≤ len events.
Proof.
  induction events as [|e events IH] using rev_ind; [done|]. rewrite run_snoc, len_snoc.
  destruct (log_grows (run (start c now) events) e) as (rs & -> & Hrs). rewrite len_app. lia.
Qed.

Lemma process_inv B s now c q :
  run_inv B s → sy_queue s = c :: q → 0 ≤ B → B + len (sy_log s) + 1 < 2 ^ 64 →
  let '(n, r) := execute (sy_node s) now c in run_inv B (mkSys n q (sy_log s ++ [r])).
Proof.
  intros [I1 I2 I3 I4] Hq HB Hlen. rewrite Hq in I2. apply Forall_cons in I2 as [Hc I2].
  pose proof (execute_term (sy_node s) now c ltac:(lia) ltac:(lia)) as Hex.
  destruct (execute (sy_node s) now c) as [n r]. destruct Hex as (E1 & E2 & E3).
  pose proof (len_nonneg (sy_log s)).
  assert (∀ r' t v, r' ∈ sy_log s ++ [r] → ballot r' = Some (t, v) →
    t ≤ get_term n ∧ (t = get_term n → get_voted_for n = Some v)) as I3'.
  { intros r' t v [Hr'|Hr']%elem_of_app Hb.
    - destruct (I3 r' t v Hr' Hb) as [Hle Heq]. split; [lia|]. intros ->. apply E2; [lia|]. apply Heq. lia.
    - apply list_elem_of_singleton in Hr' as ->. destruct (E3 t v Hb) as (-> & Hv & _). done. }
  split; cbn [sy_node sy_queue sy_log].
  - rewrite len_snoc. lia.
  - done.
  - done.
  - intros r1 r2 t v1 v2 [H1|H1]%elem_of_app [H2|H2]%elem_of_app B1 B2.
    + by eapply (I4 r1 r2).
    + apply list_elem_of_singleton in H2 as ->. destruct (E3 t v2 B2) as (-> & Hv & Hold).
      destruct (I3 r1 _ v1 H1 B1) as [Hle Heq]. assert (get_term n = get_term (sy_node s)) as Ht by lia.
      specialize (Heq Ht). destruct (Hold Ht); congruence.
    + apply list_elem_of_singleton in H1 as ->. destruct (E3 t v1 B1) as (-> & Hv & Hold).
      destruct (I3 r2 _ v2 H2 B2) as [Hle Heq]. assert (get_term n = get_term (sy_node s)) as Ht by lia.
      specialize (Heq Ht). destruct (Hold Ht); congruence.
    + apply list_elem_of_singleton in H1 as ->. apply list_elem_of_singleton in H2 as ->. congruence.
Qed.

Lemma run_inv_reachable B c now events :
  Forall (event_bounded B) events → 0 ≤ B → B + len events < 2 ^ 64 →
  run_inv B (run (start c now) events).
Proof.
  intros Hev HB. induction events as [|e events IH] using rev_ind.
  { split; cbn; [unfold len; cbn; lia|apply Forall_nil_2|by intros ? ? ? ?%not_elem_of_nil|by intros ? ? ? ? ? ?%not_elem_of_nil]. }
  apply Forall_app in Hev as [Hev [He _]%Forall_cons].
  rewrite len_snoc. intros Hlen. pose proof (len_log c now events) as Hll.
  specialize (IH Hev ltac:(lia)). rewrite run_snoc. set (s := run _ _) in *.
  destruct e as [t to| |cmd|t]; cbn [step].
  - destruct IH as [I1 I2 I3 I4]. split; cbn; try done. apply Forall_app. split; [done|].
    unfold election_timer. destruct (_ && _); repeat constructor; cbn; lia.
  - destruct IH as [I1 I2 I3 I4]. split; cbn; try done. apply Forall_app. split; [done|].
    unfold heartbeat_timer. destruct (bool_decide _); repeat constructor; cbn; lia.
  - destruct IH as [I1 I2 I3 I4]. split; cbn; try done. apply Forall_app. split; [done|].
    by constructor.
  - destruct (sy_queue s) as [|cmd q] eqn:Hq; [done|].
    pose proof (process_inv B s t cmd q IH Hq HB ltac:(lia)) as Hp.
    by destruct (execute _ t cmd).
Qed.

(** No vote request or heartbeat makes a leader, and an election does only
    without peers. *)
Lemma execute_leader n now c :
  cluster_nodes (config n) ≠ [] → get_state n ≠ Leader → get_state (execute n now c).1 ≠ Leader.
Proof.
  intros Hc Hs. destruct c as [r|h| |]; cbn [execute].
  - unfold handle_vote_request.
    destruct (vq_term r <? get_term n); [done|]. destruct (get_term n <? vq_term r);
      (destruct (_ || _); [done|done]).
  - unfold handle_heartbeat. destruct (hb_term h <? get_term n); [done|].
    destruct (get_term n <? hb_term h); (destruct (bool_decide _); [done|done]).
  - rewrite start_election_eq. cbn. by rewrite bool_decide_eq_false_2.
  - done.
Qed.

Lemma run_no_leader c now events :
  cluster_nodes c ≠ [] →
  config (sy_node (run (start c now) events)) = c ∧
  get_state (sy_node (run (start c now) events)) ≠ Leader.
Proof.
  intros Hc. induction events as [|e events [IHc IHs]] using rev_ind; [done|].
  rewrite run_snoc. set (s := run _ _) in *. destruct e as [t to| |cmd|t]; cbn; try done.
  destruct (sy_queue s) as [|cmd q]; [done|].
  pose proof (execute_config (sy_node s) t cmd) as Hcfg.
  pose proof (execute_leader (sy_node s) t cmd ltac:(by rewrite IHc) IHs) as Hl.
  destruct (execute _ t cmd) as [n r]; cbn in *. split; [congruence|done].
Qed.

Lemma step_term_mono B c now events e :
  Forall (event_bounded B) (events ++ [e]) → 0 ≤ B → B + len (events ++ [e]) < 2 ^ 64 →
  get_term (sy_node (run (start c now) events)) ≤
    get_term (sy_node (run (start c now) (events ++ [e]))).
Proof.
  rewrite Forall_app, len_snoc, run_snoc. intros [Hev _] HB Hlen.
  pose proof (run_inv_reachable B c now events Hev HB ltac:(lia)) as Hinv.
  pose proof (len_log c now events). set (s := run _ _) in *.
  destruct e as [t to| |cmd|t]; cbn [step sy_node]; try lia.
  destruct (sy_queue s) as [|cmd q] eqn:Hq; [lia|].
  pose proof (ri_term _ _ Hinv). pose proof (ri_queue _ _ Hinv) as Hcmds.
  rewrite Hq in Hcmds. apply Forall_cons in Hcmds as [Hcmd _].
  pose proof (execute_term (sy_node s) t cmd ltac:(lia) ltac:(lia)) as Hex.
  destruct (execute _ t cmd) as [n r]. cbn [sy_node]. lia.
Qed.

Lemma handle_vote_request_grants n now req :
  let '(n', r) := handle_vote_request n now req in
  if vs_vote_granted r
  then get_term n ≤ vq_term req ∧
       (get_term n < vq_term req ∨ get_voted_for n = None ∨ get_voted_for n = Some (vq_candidate_id req)) ∧
       vs_term r = vq_term req ∧ get_term n' = vq_term req ∧
       get_voted_for n' = Some (vq_candidate_id req)
  else n' = n ∧ vs_term r = get_term n ∧
       (vq_term req < get_term n ∨
        vq_term req = get_term n ∧ ∃ v, get_voted_for n = Some v ∧ v ≠ vq_candidate_id req).
Proof.
  unfold handle_vote_request.
  destruct (vq_term req <? get_term n) eqn:H1; zbool; [cbn; split_and!; [done..|by left]|].
  destruct (get_term n <? vq_term req) eqn:H2; zbool; cbn.
  - split_and!; [lia|by left|done..].
  - assert (vq_term req = get_term n) as Heq by lia.
    destruct (bool_decide (get_voted_for n = None)) eqn:H3; cbn.
    { apply bool_decide_eq_true in H3. split_and!; [lia|by right; left|done..]. }
    apply bool_decide_eq_false in H3.
    destruct (bool_decide (get_voted_for n = Some (vq_candidate_id req))) eqn:H4; cbn.
    { apply bool_decide_eq_true in H4. split_and!; [lia|by right; right|done..]. }
    apply bool_decide_eq_false in H4. split_and!; [done..|]. right. split; [done|].
    destruct (get_voted_for n) as [v|]; [|done]. exists v. split; [done|]. congruence.
Qed.

(** ** Properties *)

(** C14. A node votes once per term: in every run of the event loop, whatever
    the order of requests, timers and executions, all the votes the node gives
    in one term (granted to a candidate, or cast for itself by starting an
    election) go to one candidate, and its term never decreases.  Terms of
    requests are at most [B], and the run is short enough for the 64-bit term
    counter not to wrap. *)
Theorem one_vote_per_term B c now events :
  Forall (event_bounded B) events → 0 ≤ B → B + len events < 2 ^ 64 →
  (∀ r1 r2 t v1 v2, r1 ∈ sy_log (run (start c now) events) →
     r2 ∈ sy_log (run (start c now) events) →
     ballot r1 = Some (t, v1) → ballot r2 = Some (t, v2) → v1 = v2) ∧
  (∀ before e after, events = before ++ e :: after →
     get_term (sy_node (run (start c now) before)) ≤
     get_term (sy_node (run (start c now) (before ++ [e])))).
Proof.
  intros Hev HB Hlen. split; [by eapply ri_unique, run_inv_reachable|].
  intros before e after ->. rewrite cons_middle, app_assoc in Hev, Hlen.
  apply Forall_app in Hev as [Hev _]. rewrite len_app in Hlen. pose proof (len_nonneg after).
  apply (step_term_mono B); [done..|lia].
Qed.

(** C29. Leadership: a node with peers configured never becomes leader, in any
    run (an election needs more votes than the one it gives itself, and no code
    path counts another), while a node without peers wins every election it
    starts. *)
Theorem leader_only_without_peers c now events n :
  (cluster_nodes c ≠ [] → state (sy_node (run (start c now) events)) ≠ Leader ∧
     is_leader (sy_node (run (start c now) events)) = false) ∧
  (cluster_nodes (config n) = [] → state (start_election n now) = Leader ∧
     leader (start_election n now) = Some (rc_node_id (config n)) ∧
     term (start_election n now) = u64 (term n + 1)).
Proof.
  split.
  - intros Hc. destruct (run_no_leader c now events Hc) as [_ Hs]. split; [done|].
    by apply bool_decide_eq_false.
  - intros Hc. rewrite start_election_eq, Hc. by split_and!.
Qed.

(** What a vote request does: the vote is granted exactly when the
    request's term is newer, or is the current one and the node has not voted
    for another candidate in it; a granted vote is recorded with the request's
    term, a denial changes nothing and reports the current term.  The
    candidate's log plays no part. *)
Lemma vote_request_spec n now req :
  let '(n', r) := handle_vote_request n now req in
  (if vs_vote_granted r
   then get_term n ≤ vq_term req ∧
        (get_term n < vq_term req ∨ get_voted_for n = None ∨ get_voted_for n = Some (vq_candidate_id req)) ∧
        vs_term r = vq_term req ∧ get_term n' = vq_term req ∧
        get_voted_for n' = Some (vq_candidate_id req)
   else n' = n ∧ vs_term r = get_term n ∧
        (vq_term req < get_term n ∨
         vq_term req = get_term n ∧ ∃ v, get_voted_for n = Some v ∧ v ≠ vq_candidate_id req)) ∧
  ∀ index log_term, handle_vote_request n now
    (mkVoteRequest (vq_term req) (vq_candidate_id req) index log_term) = (n', r).
Proof.
  pose proof (handle_vote_request_grants n now req) as Hg.
  destruct (handle_vote_request n now req) as [n' r] eqn:Hr. split; [done|].
  intros index log_term. by rewrite <- Hr.
Qed.

(** What a heartbeat does: one from an older term is refused and changes
    nothing; any other is accepted, sets the term and the known leader, resets
    the election timer, clears the vote only for a newer term, and turns a
    candidate into a follower.  A leader stays leader, even when the heartbeat
    carries a newer term. *)
Lemma heartbeat_spec n now hb :
  handle_heartbeat n now hb =
    if hb_term hb <? get_term n then (n, mkHeartbeatResponse (get_term n) false)
    else (mkNode (config n)
            (mkPersistent (hb_term hb)
               (if get_term n <? hb_term hb then None else get_voted_for n))
            (mkVolatile (match get_state n with Candidate => Follower | s => s end)
               (Some (hb_leader_id hb)) now (votes_received (volatile n))),
          mkHeartbeatResponse (hb_term hb) true).
Proof.
  unfold handle_heartbeat. destruct (hb_term hb <? get_term n) eqn:H1; [done|]. zbool.
  destruct n as [cfg [t v] [s l h vs]]. unfold get_term, get_state, get_voted_for in *; cbn in *.
  destruct (t <? hb_term hb) eqn:H2; zbool.
  - by destruct s.
  - assert (t = hb_term hb) as -> by lia. by destruct s.
Qed.

(** ** Concrete runs *)
Definition three_nodes : RaftConfig := mkRaftConfig 1 [1; 2; 3] 150 300 50.
Definition vote (t c : Z) : event := Request (HandleVoteRequest (mkVoteRequest t c 0 0)).
Definition sample_events : list event :=
  [ElectionTimer 200 180; Process 201; vote 1 2; vote 2 2; vote 2 3; Process 210; Process 220; Process 230].

Example sample_log :
  omap ballot (sy_log (run (start three_nodes 0) sample_events)) = [(1, 1); (2, 2)].
Proof. vm_compute. reflexivity. Qed.

Lemma one_vote_per_term_witness :
  omap ballot (sy_log (run (start three_nodes 0) sample_events)) = [(1, 1); (2, 2)] ∧
  (∀ r1 r2 t v1 v2, r1 ∈ sy_log (run (start three_nodes 0) sample_events) →
     r2 ∈ sy_log (run (start three_nodes 0) sample_events) →
     ballot r1 = Some (t, v1) → ballot r2 = Some (t, v2) → v1 = v2).
Proof.
  split; [by vm_compute|].
  refine (proj1 (one_vote_per_term 2 three_nodes 0 sample_events _ _ _)); [|lia|by vm_compute].
  apply Forall_forall. intros e He. unfold sample_events in He. rewrite !elem_of_cons in He.
  destruct He as [->|[->|[->|[->|[->|[->|[->|[->|He]]]]]]]]; cbn; try done.
  by apply not_elem_of_nil in He.
Defined.

Lemma leader_only_without_peers_witness :
  is_leader (sy_node (run (start three_nodes 0) sample_events)) = false ∧
  state (start_election (RaftNode_new RaftConfig_default 0) 5) = Leader.
Proof.
  split.
  - apply (leader_only_without_peers three_nodes 0 sample_events (RaftNode_new RaftConfig_default 0)).
    done.
  - apply (leader_only_without_peers three_nodes 5 [] (RaftNode_new RaftConfig_default 0)). reflexivity.
Defined.
