(* ===== verification/Resilience.v ===== *)
(** * Retries and circuit breaking (src/src/resilience.rs)

    Operations passed as closures are functions on a state of their own; the
    clock readings are arguments, in nanoseconds. *)

From stdpp Require Import base list numbers strings.
From Stdlib Require Import SpecFloat.
From S2P Require Import Prelude F64.
Local Open Scope Z_scope.

(** Source: src/src/resilience.rs:17-30 (ResilienceError) *)
Inductive ResilienceError :=
  | MaxRetriesExceeded (n : Z)
  | CircuitBreakerOpen
  | OperationTimeout (d : Z)
  | OperationError (e : string).

(** Source: src/src/resilience.rs:32-43 (RetryConfig) *)
Record RetryConfig := mkRetry {
  max_retries : Z; initial_backoff : Z; max_backoff : Z; backoff_multiplier : f64 }.

(** Source: src/src/resilience.rs:46-53 (RetryConfig::default) *)
Definition RetryConfig_default : RetryConfig :=
  {| max_retries := 3; initial_backoff := 100 * 1000000; max_backoff := 30 * 1000000000;
     backoff_multiplier := f64_of_int 2 |}.

(** Source: src/src/resilience.rs:56-65 (CircuitState) *)
Inductive CircuitState := Closed | Open | HalfOpen.

(** Source: src/src/resilience.rs:67-78 (CircuitBreakerConfig) *)
Record CircuitBreakerConfig := mkBreakerConfig {
  failure_threshold : Z; success_threshold : Z; timeout : Z; window_size : Z }.

(** Source: src/src/resilience.rs:81-88 (CircuitBreakerConfig::default) *)
Definition CircuitBreakerConfig_default : CircuitBreakerConfig :=
  {| failure_threshold := 5; success_threshold := 2; timeout := 60 * 1000000000; window_size := 10 |}.

(** Source: src/src/resilience.rs:91-103 (CircuitBreaker) *)
Record CircuitBreaker := mkBreaker {
  cb_state : CircuitState; failure_count : Z; success_count : Z; last_state_change : Z;
  cb_config : CircuitBreakerConfig }.

(** Source: src/src/resilience.rs:106-115 (CircuitBreaker::new) *)
Definition CircuitBreaker_new (config : CircuitBreakerConfig) (now : Z) : CircuitBreaker :=
  mkBreaker Closed 0 0 now config.

(** Source: src/src/resilience.rs:184-190 (CircuitBreaker::transition_to_open) *)
Definition transition_to_open (b : CircuitBreaker) (now : Z) : CircuitBreaker :=
  mkBreaker Open (failure_count b) 0 now (cb_config b).
(** Source: src/src/resilience.rs:192-199 (CircuitBreaker::transition_to_half_open) *)
Definition transition_to_half_open (b : CircuitBreaker) (now : Z) : CircuitBreaker :=
  mkBreaker HalfOpen 0 0 now (cb_config b).
(** Source: src/src/resilience.rs:201-208 (CircuitBreaker::transition_to_closed) *)
Definition transition_to_closed (b : CircuitBreaker) (now : Z) : CircuitBreaker :=
  mkBreaker Closed 0 0 now (cb_config b).

(** Source: src/src/resilience.rs:117-135 (CircuitBreaker::can_proceed) *)
Definition can_proceed (b : CircuitBreaker) (now : Z) : CircuitBreaker * outcome ResilienceError unit :=
  match cb_state b with
  | Closed => (b, Ok tt)
  | HalfOpen => (b, Ok tt)
  | Open =>
      let elapsed := saturating_sub now (last_state_change b) in
      if timeout (cb_config b) <=? elapsed then (transition_to_half_open b now, Ok tt)
      else (b, Err CircuitBreakerOpen)
  end.

(** Source: src/src/resilience.rs:137-156 (CircuitBreaker::record_success) *)
Definition record_success (b : CircuitBreaker) (now : Z) : CircuitBreaker :=
  match cb_state b with
  | Closed => mkBreaker Closed 0 (success_count b) (last_state_change b) (cb_config b)
  | HalfOpen =>
      let successes := u64 (success_count b + 1) in
      let b := mkBreaker HalfOpen (failure_count b) successes (last_state_change b) (cb_config b) in
      if success_threshold (cb_config b) <=? successes then transition_to_closed b now else b
  | Open => b
  end.

(** Source: src/src/resilience.rs:158-177 (CircuitBreaker::record_failure) *)
Definition record_failure (b : CircuitBreaker) (now : Z) : CircuitBreaker :=
  match cb_state b with
  | Closed =>
      let failures := u64 (failure_count b + 1) in
      let b := mkBreaker Closed failures (success_count b) (last_state_change b) (cb_config b) in
      if failure_threshold (cb_config b) <=? failures then transition_to_open b now else b
  | HalfOpen => transition_to_open b now
  | Open => b
  end.

(** Source: src/src/resilience.rs:179-182 (CircuitBreaker::state) *)
Definition breaker_state (b : CircuitBreaker) : CircuitState := cb_state b.

(** [Duration::as_secs_f64]. *)
Definition as_secs_f64 (d : Z) : f64 :=
  f64_add (f64_of_int (d `div` 1000000000)) (f64_div (f64_of_int (d `mod` 1000000000)) (f64_of_int 1000000000)).

(** [x / 2^k] rounded to the nearest integer, ties to even. *)
Definition round_shift (x k : Z) : Z :=
  let q := x `div` 2 ^ k in
  let r := x `mod` 2 ^ k in
  if (2 ^ k <? 2 * r) || ((2 * r =? 2 ^ k) && Z.odd q) then q + 1 else q.

(** [Duration::from_secs_f64]: [None] is its panic, on a negative, infinite,
    NaN or too large argument. *)
Definition from_secs_f64 (x : f64) : option Z :=
  match x with
  | S754_zero _ => Some 0
  | S754_finite false m e =>
      let ns := if 0 <=? e then Zpos m * 1000000000 * 2 ^ e
                else round_shift (Zpos m * 1000000000) (- e) in
      if ns <? 2 ^ 64 * 1000000000 then Some ns else None
  | _ => None
  end.

(** The backoff after [d].
    Source: src/src/resilience.rs:241-245 (retry_with_backoff, backoff) *)
Definition next_backoff (c : RetryConfig) (d : Z) : option Z :=
  d ← from_secs_f64 (f64_mul (as_secs_f64 d) (backoff_multiplier c)); Some (Z.min d (max_backoff c)).

Section operations.
Context {S T E : Type} (operation : S → S * outcome E T).

(** The loop's variables, the operation's state and the sleeps so far. *)
Record retry_state := mkRetryState { rt_op : S; rt_attempt : Z; rt_backoff : Z; rt_sleeps : list Z }.

(** Source: src/src/resilience.rs:223-250 (retry_with_backoff, loop body) *)
Definition retry_body (c : RetryConfig) (st : retry_state)
    : loop_step retry_state (outcome ResilienceError T) :=
  let '(mkRetryState s attempt backoff sleeps) := st in
  match operation s with
  | (s, Ok result) => Return (mkRetryState s attempt backoff sleeps) (Ok result)
  | (s, Err e) =>
      if max_retries c <=? attempt
      then Return (mkRetryState s attempt backoff sleeps) (Err (MaxRetriesExceeded attempt))
      else
        let sleeps := sleeps ++ [backoff] in
        match next_backoff c backoff with
        | Some backoff => Continue (mkRetryState s (usize (attempt + 1)) backoff sleeps)
        | None => Return (mkRetryState s attempt backoff sleeps) Panic
        end
  | (s, Panic) => Return (mkRetryState s attempt backoff sleeps) Panic
  end.

(** Source: src/src/resilience.rs:211-251 (retry_with_backoff) *)
Definition retry_with_backoff (fuel : nat) (c : RetryConfig) (s : S)
    : option (retry_state * outcome ResilienceError T) :=
  run_loop fuel (retry_body c) (mkRetryState s 0 (initial_backoff c) []).

Context (to_string : E → string).

(** [t0] and [t1] are the clock readings before and after the operation.
    Source: src/src/resilience.rs:253-276 (with_circuit_breaker) *)
Definition with_circuit_breaker (t0 t1 : Z) (b : CircuitBreaker) (s : S)
    : CircuitBreaker * S * outcome ResilienceError T :=
  match can_proceed b t0 with
  | (b, Ok _) =>
      match operation s with
      | (s, Ok result) => (record_success b t1, s, Ok result)
      | (s, Err e) => (record_failure b t1, s, Err (OperationError (to_string e)))
      | (s, Panic) => (b, s, Panic)
      end
  | (b, Err e) => (b, s, Err e)
  | (b, Panic) => (b, s, Panic)
  end.

(** [finished] is what tokio's timer reports: the output, unless the duration
    elapsed first.
    Source: src/src/resilience.rs:278-289 (with_timeout) *)
Definition with_timeout (duration : Z) (finished : option T) : outcome ResilienceError T :=
  ok_or finished (OperationTimeout duration).

(** Source: src/src/resilience.rs:291-307 (with_fallback) *)
Definition with_fallback (fallback : S → S * outcome E T) (s : S) : S * outcome E T :=
  match operation s with
  | (s, Ok result) => (s, Ok result)
  | (s, Err _) => fallback s
  | (s, Panic) => (s, Panic)
  end.
End operations.
Arguments retry_state S : clear implicits.

(** ** The contract of a breaker

    Closed with the number of consecutive failures, open since a time, or half
    open with the number of successes. *)
Inductive breaker := BClosed (failures : Z) | BOpen (since : Z) | BHalf (successes : Z).

Inductive breaker_op := OpProceed | OpSuccess | OpFailure.

(** The specification: next abstract state and, for [OpProceed], the answer. *)
Definition spec_step (c : CircuitBreakerConfig) (now : Z) (op : breaker_op) (b : breaker)
    : breaker * bool :=
  match op, b with
  | OpProceed, BOpen since =>
      if timeout c <=? Z.max 0 (now - since) then (BHalf 0, true) else (b, false)
  | OpProceed, _ => (b, true)
  | OpSuccess, BClosed _ => (BClosed 0, true)
  | OpSuccess, BHalf n => (if success_threshold c <=? n + 1 then BClosed 0 else BHalf (n + 1), true)
  | OpSuccess, BOpen _ => (b, true)
  | OpFailure, BClosed n => (if failure_threshold c <=? n + 1 then BOpen now else BClosed (n + 1), true)
  | OpFailure, BHalf _ => (BOpen now, true)
  | OpFailure, BOpen _ => (b, true)
  end.

Definition impl_step (now : Z) (op : breaker_op) (b : CircuitBreaker) : CircuitBreaker * bool :=
  match op with
  | OpProceed => let '(b, r) := can_proceed b now in (b, is_ok r)
  | OpSuccess => (record_success b now, true)
  | OpFailure => (record_failure b now, true)
  end.

(** Thresholds are [u64] values. *)
Definition config_wf (c : CircuitBreakerConfig) : Prop :=
  in_range 64 (failure_threshold c) ∧ in_range 64 (success_threshold c).

Definition breaker_repr (b : CircuitBreaker) (a : breaker) : Prop :=
  match a with
  | BClosed n => cb_state b = Closed ∧ failure_count b = n ∧
      0 ≤ n ∧ (n = 0 ∨ n < failure_threshold (cb_config b))
  | BOpen since => cb_state b = Open ∧ last_state_change b = since
  | BHalf n => cb_state b = HalfOpen ∧ success_count b = n ∧
      0 ≤ n ∧ (n = 0 ∨ n < success_threshold (cb_config b))
  end.

Lemma step_refines now op b a :
  config_wf (cb_config b) → breaker_repr b a →
  let '(b', r) := impl_step now op b in
  let '(a', r') := spec_step (cb_config b) now op a in
  r = r' ∧ breaker_repr b' a' ∧ cb_config b' = cb_config b.
Proof.
  intros [Hf Hs] Hr. unfold in_range in *.
  destruct b as [st fc sc t c], a as [n|since|n]; cbn in *.
  - destruct Hr as (-> & -> & Hn0 & Hn). destruct op; cbn; [by split_and!|split_and!; (done || lia)|].
    unfold record_failure; cbn. rewrite wrap_id by (unfold in_range; lia).
    destruct (failure_threshold c <=? n + 1) eqn:Ht; zbool; cbn; split_and!; (done || lia).
  - destruct Hr as (-> & ->). destruct op; cbn; [|by split_and!..].
    unfold can_proceed, saturating_sub; cbn. destruct (timeout c <=? _); cbn; split_and!; (done || lia).
  - destruct Hr as (-> & -> & Hn0 & Hn). destruct op; cbn; [by split_and!| |by split_and!].
    unfold record_success; cbn. rewrite wrap_id by (unfold in_range; lia).
    destruct (success_threshold c <=? n + 1) eqn:Ht; zbool; cbn; split_and!; (done || lia).
Qed.

(** A sequence of operations with the times at which they run, and the answers. *)
Fixpoint impl_run (ops : list (Z * breaker_op)) (b : CircuitBreaker) : CircuitBreaker * list bool :=
  match ops with
  | [] => (b, [])
  | (now, op) :: ops =>
      let '(b, r) := impl_step now op b in let '(b, rs) := impl_run ops b in (b, r :: rs)
  end.
Fixpoint spec_run (c : CircuitBreakerConfig) (ops : list (Z * breaker_op)) (a : breaker)
    : breaker * list bool :=
  match ops with
  | [] => (a, [])
  | (now, op) :: ops =>
      let '(a, r) := spec_step c now op a in let '(a, rs) := spec_run c ops a in (a, r :: rs)
  end.

Lemma run_refines ops b a :
  config_wf (cb_config b) → breaker_repr b a →
  (impl_run ops b).2 = (spec_run (cb_config b) ops a).2 ∧
  breaker_repr (impl_run ops b).1 (spec_run (cb_config b) ops a).1.
Proof.
  intros Hc. revert b a Hc. induction ops as [|[now op] ops IH]; intros b a Hc Hr; [done|].
  cbn [impl_run spec_run]. pose proof (step_refines now op b a Hc Hr) as Hstep.
  destruct (impl_step now op b) as [b1 r]. destruct (spec_step _ now op a) as [a1 r'].
  destruct Hstep as (-> & Hr1 & Hcfg). rewrite <- Hcfg in Hc |- *.
  destruct (IH b1 a1 Hc Hr1) as [Hrs Hfin].
  destruct (impl_run ops b1) as [b2 rs]. destruct (spec_run _ ops a1) as [a2 rs']; cbn in *.
  by rewrite Hrs.
Qed.

(** ** Retries

    The first [n] sleeps when [d] is the current backoff: [None] when computing
    a backoff panics. *)
Fixpoint backoffs (c : RetryConfig) (n : nat) (d : Z) : option (list Z) :=
  match n with
  | O => Some []
  | S n => d' ← next_backoff c d; ds ← backoffs c n d'; Some (d :: ds)
  end.

Lemma next_backoff_le c d d' : next_backoff c d = Some d' → d' ≤ max_backoff c.
Proof.
  unfold next_backoff. destruct (from_secs_f64 _); [|done]. cbn. intros [= <-]. lia.
Qed.

(** Only the first sleep can exceed the maximum. *)
Lemma backoffs_bound c n d ds :
  backoffs c n d = Some ds → length ds = n ∧ Forall (λ x, x ≤ Z.max d (max_backoff c)) ds.
Proof.
  revert d ds. induction n as [|n IH]; intros d ds; cbn; [intros [= <-]; by split|].
  intros (d' & Hd & Hds)%bind_Some. apply bind_Some in Hds as (ds' & Hds & [= <-]).
  apply next_backoff_le in Hd. destruct (IH _ _ Hds) as [Hl Hf]. split; [cbn; lia|].
  constructor; [lia|]. eapply Forall_impl; [exact Hf|]. cbn. lia.
Qed.

Section retry.
Context {T E : Type} (f : nat → outcome E T).

(** The operation as a closure that counts its invocations. *)
Definition counted (i : nat) : nat * outcome E T := (S i, f i).

(** After [k] failed attempts, each followed by a sleep. *)
Lemma retry_fails c k a i d ds sl fuel :
  (∀ j, (j < k)%nat → ∃ e, f (i + j)%nat = Err e) →
  0 ≤ a → a + Z.of_nat k ≤ max_retries c < 2 ^ 64 → backoffs c k d = Some ds →
  ∃ d', run_loop (k + fuel) (retry_body counted c) (mkRetryState i a d sl) =
    run_loop fuel (retry_body counted c) (mkRetryState (i + k)%nat (a + Z.of_nat k) d' (sl ++ ds)).
Proof.
  revert a i d ds sl. induction k as [|k IH]; intros a i d ds sl Hf Ha Hk Hds.
  { injection Hds as <-. exists d. by rewrite Nat.add_0_r, Z.add_0_r, app_nil_r. }
  cbn in Hds. apply bind_Some in Hds as (d1 & Hd1 & Hds).
  apply bind_Some in Hds as (ds' & Hds & [= <-]).
  destruct (Hf 0%nat) as [e He]; [lia|]. rewrite Nat.add_0_r in He.
  destruct (IH (a + 1) (S i) d1 ds' (sl ++ [d])) as [d' Hrun]; [|lia|lia|done|].
  { intros j Hj. destruct (Hf (S j)) as [e' He']; [lia|]. exists e'. by rewrite <- Nat.add_succ_comm in He'. }
  exists d'. cbn [Nat.add run_loop]. unfold retry_body at 1, counted at 1. rewrite He.
  zif. rewrite Hd1, wrap_id by (unfold in_range; lia). rewrite Hrun.
  rewrite Nat.add_succ_comm, <- app_assoc. do 2 f_equal; lia.
Qed.
End retry.

(** ** Calls through a breaker *)
Section calls.
Context {E T : Type} (to_string : E → string) (e : E).

(** An operation that always fails, and counts its invocations. *)
Definition failing (n : nat) : nat * outcome E T := (S n, Err e).

Fixpoint call_all (times : list Z) (b : CircuitBreaker) (n : nat)
    : CircuitBreaker * nat * list (outcome ResilienceError T) :=
  match times with
  | [] => (b, n, [])
  | t :: times =>
      let '(b, n, r) := with_circuit_breaker failing to_string t t b n in
      let '(b, n, rs) := call_all times b n in (b, n, r :: rs)
  end.

(** Open, before the timeout: every call is rejected without running. *)
Lemma calls_open times b n t0 :
  cb_state b = Open → t0 ≤ last_state_change b →
  Forall (λ t, t < t0 + timeout (cb_config b)) times → 0 < timeout (cb_config b) →
  call_all times b n = (b, n, replicate (length times) (Err CircuitBreakerOpen)).
Proof.
  intros Hs Ht0 Htimes Hpos. induction Htimes as [|t times Ht _ IH]; [done|]. cbn [call_all].
  unfold with_circuit_breaker, can_proceed, saturating_sub. rewrite Hs. zif. by rewrite IH.
Qed.

Lemma calls_closed times b n k t0 :
  cb_state b = Closed → failure_count b = failure_threshold (cb_config b) - Z.of_nat (S k) →
  0 ≤ failure_count b → failure_threshold (cb_config b) < 2 ^ 64 →
  Forall (λ t, t0 ≤ t < t0 + timeout (cb_config b)) times →
  ∃ b', call_all times b n =
    (b', (n + Nat.min (length times) (S k))%nat,
     replicate (Nat.min (length times) (S k)) (Err (OperationError (to_string e))) ++
     replicate (length times - S k) (Err CircuitBreakerOpen)) ∧
    cb_state b' = if decide (S k ≤ length times)%nat then Open else Closed.
Proof.
  revert b n k. induction times as [|t times IH]; intros b n k Hs Hc H0 Hth Ht.
  { exists b. cbn. rewrite Nat.add_0_r. by rewrite decide_False by lia. }
  apply Forall_cons in Ht as [Ht Hts]. cbn [call_all].
  unfold with_circuit_breaker, can_proceed, failing at 1. rewrite Hs.
  unfold record_failure. rewrite Hs, wrap_id by (unfold in_range; lia). cbn [failure_count cb_config].
  destruct k as [|k].
  - rewrite (proj2 (Z.leb_le _ _)) by lia.
    rewrite (calls_open times (transition_to_open _ t) (S n) t0);
      [|done|cbn; lia| |cbn; lia].
    2: { eapply Forall_impl; [exact Hts|]. cbn. lia. }
    eexists. split; [|rewrite decide_True by (cbn; lia)].
    { rewrite Nat.min_r by (cbn; lia). cbn [length replicate app Nat.sub].
      by rewrite Nat.sub_0_r, Nat.add_1_r. }
    done.
  - rewrite (proj2 (Z.leb_gt _ _)) by lia.
    destruct (IH (mkBreaker Closed (failure_count b + 1) (success_count b) (last_state_change b)
      (cb_config b)) (S n) k) as (b' & Hcall & Hst); cbn; try done; try lia.
    rewrite Hcall. exists b'. split; [|rewrite Hst; by repeat case_decide; try lia].
    cbn [length Nat.min]. rewrite Nat.add_succ_comm. done.
Qed.
End calls.

(** ** Properties *)

(** C15. The breaker implements its contract: over any sequence of checks,
    successes and failures at any times, a new breaker gives the answers of the
    abstract machine (closed with a count of consecutive failures, open since a
    time, half open with a count of successes) and stays in the matching state;
    the counters never wrap. *)
Theorem breaker_refines_spec c now ops :
  config_wf c →
  (impl_run ops (CircuitBreaker_new c now)).2 = (spec_run c ops (BClosed 0)).2 ∧
  breaker_repr (impl_run ops (CircuitBreaker_new c now)).1 (spec_run c ops (BClosed 0)).1.
Proof.
  intros Hc. apply (run_refines ops (CircuitBreaker_new c now) (BClosed 0)); [done|].
  cbn. split_and!; [done..|by left].
Qed.

(** Tripping: calls to an operation that always fails reach it exactly
    [failure_threshold] times; the calls after that, until the timeout has
    passed, are rejected without running the operation. *)
Lemma breaker_trips_at_threshold {E T} (to_string : E → string) (e : E) c times t0 :
  config_wf c → 0 < failure_threshold c → Forall (λ t, t0 ≤ t < t0 + timeout c) times →
  let k := Z.to_nat (failure_threshold c) in
  ∃ b, call_all (T:=T) to_string e times (CircuitBreaker_new c t0) 0 =
    (b, Nat.min (length times) k,
     replicate (Nat.min (length times) k) (Err (OperationError (to_string e))) ++
     replicate (length times - k) (Err CircuitBreakerOpen)) ∧
    breaker_state b = if decide (k ≤ length times)%nat then Open else Closed.
Proof.
  intros [Hf _] Hpos Ht k. unfold in_range in Hf.
  destruct (calls_closed (T:=T) to_string e times (CircuitBreaker_new c t0) 0 (pred k) t0)
    as (b & Hcall & Hst); cbn; try done; try lia.
  replace (S (pred k)) with k in * by lia. exists b. by rewrite Hcall.
Qed.

(** Retries: an operation that fails [k] times and then succeeds, with [k]
    within the retry budget, is invoked [k + 1] times and its result returned
    after the [k] backoff sleeps; one that keeps failing is invoked
    [max_retries + 1] times and gives [MaxRetriesExceeded].  No sleep but the
    first exceeds the maximum backoff. *)
Lemma retry_attempts {T E} (f : nat → outcome E T) c k ds :
  (∀ j, (j < k)%nat → ∃ e, f j = Err e) →
  Z.of_nat k ≤ max_retries c < 2 ^ 64 → backoffs c k (initial_backoff c) = Some ds →
  length ds = k ∧ Forall (λ x, x ≤ Z.max (initial_backoff c) (max_backoff c)) ds ∧
  (∀ r, f k = Ok r → ∃ d,
     retry_with_backoff (counted f) (S k) c 0%nat =
       Some (mkRetryState (S k) (Z.of_nat k) d ds, Ok r)) ∧
  (∀ e, f k = Err e → Z.of_nat k = max_retries c → ∃ d,
     retry_with_backoff (counted f) (S k) c 0%nat =
       Some (mkRetryState (S k) (Z.of_nat k) d ds, Err (MaxRetriesExceeded (max_retries c)))).
Proof.
  intros Hf Hk Hds. destruct (backoffs_bound _ _ _ _ Hds) as [Hl Hb]. split; [done|]. split; [done|].
  destruct (retry_fails f c k 0 0 (initial_backoff c) ds [] 1 Hf ltac:(lia) ltac:(lia) Hds)
    as [d Hrun]. rewrite Nat.add_1_r in Hrun. unfold retry_with_backoff.
  split.
  - intros r Hr. exists d. rewrite Hrun. cbn. by rewrite Hr.
  - intros e He Hmax. exists d. rewrite Hrun. cbn. rewrite He. rewrite (proj2 (Z.leb_le _ _)) by lia.
    by rewrite <- Hmax.
Qed.

(** ** Concrete runs *)
Lemma breaker_refines_spec_witness :
  (impl_run [(1, OpFailure); (2, OpFailure); (3, OpFailure); (4, OpFailure); (5, OpFailure); (6, OpProceed);
     (60000000005, OpProceed); (60000000006, OpSuccess); (60000000007, OpSuccess)]
     (CircuitBreaker_new CircuitBreakerConfig_default 0)).2 =
    [true; true; true; true; true; false; true; true; true].
Proof.
  rewrite (proj1 (breaker_refines_spec CircuitBreakerConfig_default 0 _ ltac:(by vm_compute))).
  vm_compute. reflexivity.
Defined.

Lemma breaker_trips_at_threshold_witness :
  ∃ b, call_all (T:=unit) id "down"%string [1; 2; 3; 4; 5; 6; 7] (CircuitBreaker_new CircuitBreakerConfig_default 0) 0 =
    (b, 5%nat, replicate 5 (Err (OperationError "down")) ++ replicate 2 (Err CircuitBreakerOpen)) ∧
    breaker_state b = Open.
Proof.
  apply (breaker_trips_at_threshold (T:=unit) id "down"%string CircuitBreakerConfig_default
    [1; 2; 3; 4; 5; 6; 7] 0); [by vm_compute|done|].
  repeat (apply Forall_cons; split; [by vm_compute|]). by apply Forall_nil.
Defined.

Definition third_time (i : nat) : outcome string nat := if (i <? 2)%nat then Err "busy"%string else Ok i.

Lemma retry_attempts_witness :
  ∃ d, retry_with_backoff (counted third_time) 3 RetryConfig_default 0%nat =
    Some (mkRetryState 3%nat 2 d [100000000; 200000000], Ok 2%nat).
Proof.
  destruct (retry_attempts third_time RetryConfig_default 2 [100000000; 200000000])
    as (_ & _ & Hok & _); [|by vm_compute|vm_compute; reflexivity|by apply Hok].
  intros [|[|j]] Hj; [by eexists|by eexists|lia].
Defined.
