(* ===== verification/Health.v ===== *)
(** * Health reporting (src/src/health.rs)

    The component table, the overall status and the HTTP answers.  A request is
    a string of UTF-8 bytes, as [String::from_utf8_lossy] gives it; the JSON
    rendering of a report is serde_json's, a parameter. *)

From stdpp Require Import base list numbers strings pretty.
From coqutil Require Import Byte.
From Stdlib Require Import Strings.Byte Strings.Ascii.
From S2P Require Import Prelude F64.
Local Open Scope Z_scope.

(** Source: src/src/health.rs:16-28 (HealthStatus) *)
Inductive HealthStatus := Healthy | Degraded | Unhealthy | Unknown.

#[export] Instance HealthStatus_eq_dec : EqDecision HealthStatus.
Proof. solve_decision. Defined.

(** Source: src/src/health.rs:31-34 (HealthStatus::is_healthy) *)
Definition is_healthy (s : HealthStatus) : bool :=
  match s with Healthy => true | _ => false end.

(** Source: src/src/health.rs:36-44 (HealthStatus::http_code) *)
Definition http_code (s : HealthStatus) : Z :=
  match s with Healthy => 200 | Degraded => 200 | Unhealthy => 503 | Unknown => 503 end.

(** Source: src/src/health.rs:47-58 (ComponentHealth) *)
Record ComponentHealth := mkComponent {
  ch_name : string; ch_status : HealthStatus; ch_message : string; ch_last_check_us : Z }.

(** Source: src/src/health.rs:60-71 (SystemHealth) *)
Record SystemHealth := mkSystemHealth {
  sh_status : HealthStatus; sh_uptime_seconds : Z; sh_components : list ComponentHealth;
  sh_version : string }.

(** Source: src/src/health.rs:73-81 (HealthServer) *)
Record HealthServer := mkHealthServer {
  hs_start_time : Z; hs_components : list ComponentHealth; hs_version : string }.

(** Source: src/src/health.rs:84-91 (HealthServer::new) *)
Definition HealthServer_new (now : Z) (version : string) : HealthServer :=
  mkHealthServer now [] version.

Definition set_components (s : HealthServer) (l : list ComponentHealth) : HealthServer :=
  mkHealthServer (hs_start_time s) l (hs_version s).

(** Source: src/src/health.rs:93-102 (HealthServer::register_component) *)
Definition register_component (s : HealthServer) (name : string) : HealthServer :=
  set_components s (hs_components s ++ [mkComponent name Unknown "Not yet checked" 0]).

(** [iter_mut().find] on the first component of that name. *)
Fixpoint update_first (name : string) (status : HealthStatus) (message : string) (now_us : Z)
    (l : list ComponentHealth) : list ComponentHealth :=
  match l with
  | [] => []
  | c :: l =>
      if String.eqb (ch_name c) name then mkComponent (ch_name c) status message now_us :: l
      else c :: update_first name status message now_us l
  end.

(** Source: src/src/health.rs:104-117 (HealthServer::update_component) *)
Definition update_component (now_us : Z) (s : HealthServer) (name : string) (status : HealthStatus)
    (message : string) : HealthServer :=
  set_components s (update_first name status message now_us (hs_components s)).

Definition severity (s : HealthStatus) : Z :=
  match s with Healthy => 0 | Degraded => 1 | Unhealthy => 2 | Unknown => 3 end.

(** [max_by_key]: the last of the elements with the largest key. *)
Fixpoint max_by_key {A} (key : A → Z) (l : list A) : option A :=
  match l with
  | [] => None
  | x :: l =>
      match max_by_key key l with
      | None => Some x
      | Some y => if key y <? key x then Some x else Some y
      end
  end.

(** [elapsed] is the server's uptime in seconds.
    Source: src/src/health.rs:119-140 (HealthServer::get_health) *)
Definition get_health (elapsed : Z) (s : HealthServer) : SystemHealth :=
  let components := hs_components s in
  let status := match max_by_key severity (map ch_status components) with
    | Some st => st
    | None => Unknown
    end in
  mkSystemHealth status elapsed components (hs_version s).

(** *** HTTP *)

(** The length in bytes of the white-space character a UTF-8 string starts
    with, zero when it starts with another character (Unicode White_Space). *)
Definition white_space (s : list Byte.byte) : nat :=
  match s with
  | (x09 | x0a | x0b | x0c | x0d | x20) :: _ => 1
  | xc2 :: (x85 | xa0) :: _ => 2
  | xe1 :: x9a :: x80 :: _ => 3
  | xe2 :: x80 :: (x80 | x81 | x82 | x83 | x84 | x85 | x86 | x87 | x88 | x89 | x8a
                   | xa8 | xa9 | xaf) :: _ => 3
  | xe2 :: x81 :: x9f :: _ => 3
  | xe3 :: x80 :: x80 :: _ => 3
  | _ => 0
  end.

(** [split_whitespace]: the non-empty words; [w] is the word being read, and
    [skip] bytes remain of a separator. *)
Fixpoint split_words (w : bytes) (skip : nat) (s : bytes) : list bytes :=
  match s with
  | [] => match w with [] => [] | _ => [w] end
  | b :: s' =>
      match skip with
      | S skip => split_words w skip s'
      | O =>
          match white_space s with
          | O => split_words (w ++ [b]) 0 s'
          | S n => match w with [] => split_words [] n s' | _ => w :: split_words [] n s' end
          end
      end
  end.

(** [lines().next()]: the bytes up to the first line feed, less one carriage
    return before it; the empty string has no line. *)
Fixpoint first_line (s : bytes) : bytes :=
  match s with
  | [] => []
  | x0a :: _ => []
  | x0d :: x0a :: _ => []
  | b :: s => b :: first_line s
  end.

Definition crlf : string := String (Ascii.ascii_of_nat 13) (String (Ascii.ascii_of_nat 10) EmptyString).

Definition http_message (code : Z) (status ctype body : string) : string :=
  "HTTP/1.1 " +:+ pretty code +:+ " " +:+ status +:+ crlf +:+
  "Content-Type: " +:+ ctype +:+ crlf +:+
  "Content-Length: " +:+ pretty (Z.of_nat (String.length body)) +:+ crlf +:+ crlf +:+ body.

(** Source: src/src/health.rs:214-223 (HealthServer::http_response) *)
Definition http_response (code : Z) (status body : string) : string :=
  http_message code status "text/plain" body.

(** Source: src/src/health.rs:225-234 (HealthServer::http_json_response) *)
Definition http_json_response (code : Z) (status json : string) : string :=
  http_message code status "application/json" json.

Section http.
Context (to_string_pretty : SystemHealth → option string).

(** Source: src/src/health.rs:187-190 (HealthServer::handle_liveness) *)
Definition handle_liveness : string := http_response 200 "OK" "alive".

(** Source: src/src/health.rs:192-200 (HealthServer::handle_readiness) *)
Definition handle_readiness (elapsed : Z) (s : HealthServer) : string :=
  let health := get_health elapsed s in
  let code := http_code (sh_status health) in
  let status := if code =? 200 then "OK" else "Service Unavailable" in
  let body := if is_healthy (sh_status health) then "ready" else "not ready" in
  http_response code status body.

(** Source: src/src/health.rs:202-212 (HealthServer::handle_detail) *)
Definition handle_detail (elapsed : Z) (s : HealthServer) : string :=
  let health := get_health elapsed s in
  let code := http_code (sh_status health) in
  let status := if code =? 200 then "OK" else "Service Unavailable" in
  let json := match to_string_pretty health with Some j => j | None => "{}" end in
  http_json_response code status json.

(** The answer for a path. *)
Definition respond (elapsed : Z) (s : HealthServer) (path : bytes) : string :=
  if decide (path = str_bytes "/health") then handle_liveness
  else if decide (path = str_bytes "/health/live") then handle_liveness
  else if decide (path = str_bytes "/health/ready") then handle_readiness elapsed s
  else if decide (path = str_bytes "/health/detail") then handle_detail elapsed s
  else if decide (path = str_bytes "/") then http_response 200 "OK" "DOLDA Health Check Server"
  else http_response 404 "Not Found" "Endpoint not found".

(** Source: src/src/health.rs:166-185 (HealthServer::handle_request) *)
Definition handle_request (elapsed : Z) (s : HealthServer) (request : bytes) : string :=
  match split_words [] 0 (first_line request) with
  | _ :: path :: _ => respond elapsed s path
  | _ => http_response 400 "Bad Request" "Invalid HTTP request"
  end.
End http.

Section checker.
(** The rendering of a float with one decimal by [format!]. *)
Context (format_one_decimal : f64 → string).

(** [used] and [total] are the memory figures sysinfo reports.
    Source: src/src/health.rs:285-306 (HealthChecker::check_memory) *)
Definition check_memory (used total : Z) : HealthStatus * string :=
  let used_percent := f64_mul (f64_div (f64_of_int used) (f64_of_int total)) (f64_of_int 100) in
  let status :=
    if f64_lt used_percent (f64_of_int 80) then Healthy
    else if f64_lt used_percent (f64_of_int 90) then Degraded
    else Unhealthy in
  (status, "Memory usage: " +:+ format_one_decimal used_percent +:+ "%").

(** Source: src/src/health.rs:262-283 (HealthChecker::perform_checks) *)
Definition perform_checks (now_us used total : Z) (s : HealthServer) : HealthServer :=
  let s := update_component now_us s "system" Healthy "System is running" in
  let '(status, message) := check_memory used total in
  update_component now_us s "memory" status message.
End checker.

(** ** Lemmas *)
Lemma max_by_key_spec {A} (key : A → Z) l :
  match max_by_key key l with
  | None => l = []
  | Some y => y ∈ l ∧ ∀ x, x ∈ l → key x ≤ key y
  end.
Proof.
  induction l as [|x l IH]; [done|]. cbn. destruct (max_by_key key l) as [y|].
  - destruct IH as [Hy Hmax]. destruct (key y <? key x) eqn:Hlt; zbool; split.
    + by left.
    + intros z [->|Hz]%elem_of_cons; [lia|]. specialize (Hmax z Hz). lia.
    + by right.
    + intros z [->|Hz]%elem_of_cons; [lia|]. by apply Hmax.
  - subst. split; [by left|]. intros z [->|Hz]%elem_of_cons; [lia|]. by apply not_elem_of_nil in Hz.
Qed.

(** A visible ASCII byte, as in an HTTP method or path. *)
Definition is_token (b : Byte.byte) : bool :=
  (33 <=? byte.unsigned b) && (byte.unsigned b <=? 126).

Lemma white_space_token b s : is_token b = true → white_space (b :: s) = 0%nat.
Proof. by destruct b. Qed.
Lemma first_line_token b s : is_token b = true → first_line (b :: s) = b :: first_line s.
Proof. by destruct b. Qed.

Lemma first_line_tokens w s :
  Forall (λ b, is_token b = true) w → first_line (w ++ s) = w ++ first_line s.
Proof.
  induction 1 as [|b w Hb _ IH]; [done|]. rewrite <- app_comm_cons, first_line_token by done.
  by rewrite IH.
Qed.

Lemma split_words_tokens w v s :
  Forall (λ b, is_token b = true) v → split_words w 0 (v ++ s) = split_words (w ++ v) 0 s.
Proof.
  intros Hv. revert w. induction Hv as [|b v Hb _ IH]; intros w; [by rewrite app_nil_r|].
  rewrite <- app_comm_cons. cbn [split_words]. rewrite white_space_token by done.
  rewrite IH. by rewrite <- app_assoc.
Qed.

(** A request line: method, path, and then a space, a line end or nothing. *)
Definition line_break (rest : bytes) : Prop :=
  rest = [] ∨ ∃ r, rest = x20 :: r ∨ rest = x0a :: r ∨ rest = x0d :: x0a :: r.

Lemma request_words m p rest :
  Forall (λ b, is_token b = true) m → m ≠ [] →
  Forall (λ b, is_token b = true) p → p ≠ [] → line_break rest →
  ∃ ws, split_words [] 0 (first_line (m ++ x20 :: p ++ rest)) = m :: p :: ws.
Proof.
  intros Hm Hm0 Hp Hp0 Hrest. rewrite first_line_tokens by done.
  change (first_line (x20 :: p ++ rest)) with (x20 :: first_line (p ++ rest)).
  rewrite first_line_tokens, split_words_tokens, app_nil_l by done.
  destruct m as [|b m]; [done|]. cbn [split_words white_space].
  rewrite split_words_tokens, app_nil_l by done. destruct p as [|b' p]; [done|].
  destruct Hrest as [->|[r [->|[->| ->]]]]; [by exists []| |by exists []|by exists []].
  change (first_line (x20 :: r)) with (x20 :: first_line r). cbn [split_words white_space]. eauto.
Qed.

(** ** Properties *)

(** The overall status is the worst one: it is unknown without components,
    and otherwise the status of a component that no other exceeds in severity
    (healthy, degraded, unhealthy, unknown); the readiness code is 200 exactly
    when there are components and all are healthy or degraded. *)
Lemma overall_status_worst elapsed s :
  let st := sh_status (get_health elapsed s) in
  (hs_components s = [] → st = Unknown) ∧
  (hs_components s ≠ [] → st ∈ map ch_status (hs_components s)) ∧
  (∀ c, c ∈ hs_components s → severity (ch_status c) ≤ severity st) ∧
  (http_code st = 200 ↔ hs_components s ≠ [] ∧
     ∀ c, c ∈ hs_components s → ch_status c = Healthy ∨ ch_status c = Degraded).
Proof.
  unfold get_health. cbn [sh_status]. pose proof (max_by_key_spec severity (map ch_status (hs_components s))) as Hm.
  destruct (max_by_key _ _) as [y|].
  - destruct Hm as [Hy Hmax]. assert (hs_components s ≠ []) as Hne.
    { intros Hnil. rewrite Hnil in Hy. by apply not_elem_of_nil in Hy. }
    assert (∀ c, c ∈ hs_components s → severity (ch_status c) ≤ severity y) as Hle.
    { intros c Hc. apply Hmax. apply list_elem_of_fmap. eauto. }
    split_and!; [done..|]. split.
    + intros Hcode. split; [done|]. intros c Hc. generalize (Hle c Hc).
      destruct y, (ch_status c); cbn in *; intros ?; first [done | lia | by left | by right].
    + intros [_ Hall]. apply list_elem_of_fmap in Hy as (c & -> & Hc). by destruct (Hall c Hc) as [-> | ->].
  - apply map_eq_nil in Hm. rewrite Hm. split_and!; [done|done| |].
    + by intros c Hc%not_elem_of_nil.
    + split; [done|by intros [? _]].
Qed.

(** Updating a component changes the first one of that name, and only its
    status, message and time; an unknown name changes nothing. *)
Lemma update_component_spec now s name status message :
  let s' := update_component now s name status message in
  (name ∉ map ch_name (hs_components s) → s' = s) ∧
  (∀ l1 c l2, hs_components s = l1 ++ c :: l2 → ch_name c = name → name ∉ map ch_name l1 →
     hs_components s' = l1 ++ mkComponent name status message now :: l2).
Proof.
  intros s'. unfold s', update_component. split.
  - destruct s as [t l v]; cbn. intros Hnot. unfold set_components; cbn. f_equal.
    induction l as [|c l IH]; [done|]. cbn in *. apply not_elem_of_cons in Hnot as [Hne Hnot].
    rewrite (proj2 (String.eqb_neq _ _)) by done. by rewrite IH.
  - intros l1 c l2 -> <- Hnot. cbn. induction l1 as [|c1 l1 IH]; cbn in *.
    + by rewrite String.eqb_refl.
    + apply not_elem_of_cons in Hnot as [Hne Hnot].
      rewrite (proj2 (String.eqb_neq _ _)) by done. by rewrite IH.
Qed.

(** Routing: a request line with a method and a path is answered for that
    path, whatever follows on the line and in the request, and a request
    without a second word is a bad request. *)
Lemma request_routing to_string_pretty elapsed s m p rest :
  Forall (λ b, is_token b = true) m → m ≠ [] →
  Forall (λ b, is_token b = true) p → p ≠ [] → line_break rest →
  handle_request to_string_pretty elapsed s (m ++ x20 :: p ++ rest) =
    respond to_string_pretty elapsed s p ∧
  handle_request to_string_pretty elapsed s m = http_response 400 "Bad Request" "Invalid HTTP request".
Proof.
  intros Hm Hm0 Hp Hp0 Hrest. unfold handle_request.
  destruct (request_words m p rest Hm Hm0 Hp Hp0 Hrest) as [ws ->]. split; [done|].
  rewrite <- (app_nil_r m), first_line_tokens, split_words_tokens by done. cbn.
  by destruct m.
Qed.

(** ** Concrete runs *)
Definition sample_server : HealthServer :=
  update_component 5 (register_component (register_component (HealthServer_new 0 "1.0") "db") "net")
    "db" Healthy "up".

Lemma overall_status_worst_witness : sh_status (get_health 3 sample_server) = Unknown.
Proof.
  destruct (overall_status_worst 3 sample_server) as (_ & _ & Hle & _).
  specialize (Hle (mkComponent "net" Unknown "Not yet checked" 0)).
  destruct (sh_status (get_health 3 sample_server)) eqn:Hs; try done;
    assert (3 ≤ 2) by (etrans; [apply Hle; repeat constructor|done]); done.
Defined.

Lemma update_component_spec_witness :
  hs_components (update_component 9 sample_server "net" Degraded "slow") =
    [mkComponent "db" Healthy "up" 5; mkComponent "net" Degraded "slow" 9].
Proof.
  apply (update_component_spec 9 sample_server "net" Degraded "slow")
    with (l1 := [mkComponent "db" Healthy "up" 5]) (l2 := [])
         (c := mkComponent "net" Unknown "Not yet checked" 0); [reflexivity|reflexivity|].
  cbn. intros Hin. apply elem_of_cons in Hin as [Heq|Hin]; [done|by apply not_elem_of_nil in Hin].
Defined.

Lemma request_routing_witness :
  handle_request (λ _, None) 3 sample_server
    (str_bytes "GET" ++ x20 :: str_bytes "/health/ready" ++ x20 :: str_bytes "HTTP/1.1") =
    http_response 503 "Service Unavailable" "not ready".
Proof.
  rewrite (proj1 (request_routing (λ _, None) 3 sample_server (str_bytes "GET")
    (str_bytes "/health/ready") (x20 :: str_bytes "HTTP/1.1") ltac:(repeat constructor) ltac:(done)
    ltac:(repeat constructor) ltac:(done) ltac:(by right; eexists; left))).
  vm_compute. reflexivity.
Defined.
