(* ===== verification/ProductionDemo.v ===== *)
(** * The production demonstration (src/examples/production_demo.rs)

    The example that puts the storage engine and the health server together:
    one segment, a manager that rolls over, ten concurrent writers and a large
    data set, reported to a health server that a background checker also
    updates.  What is logged is the report. *)

From stdpp Require Import base list list_numbers numbers strings pretty relations.
From Stdlib Require Import Strings.Byte.
From S2P Require Import Prelude Crc32 F64 RecordFormat StorageEngine StorageRuns StorageConc SegmentLinear ManagerConc ManagerLinear Health.
Local Open Scope Z_scope.

(** ** Definitions *)

(** What [main] can end with. *)
Inductive demo_error :=
  | DemoRun (e : run_error)
  | DemoIo (e : io_error)
  | DemoJoin.

(** Sequencing of parts that may fail, or fail to return. *)
Definition and_then {E A B} (m : option (outcome E A)) (k : A → option (outcome E B)) : option (outcome E B) :=
  match m with
  | Some (Ok x) => k x
  | Some (Err e) => Some (Err e)
  | Some Panic => Some Panic
  | None => None
  end.
Notation "x <~ m ; k" := (and_then m (λ x, k)) (at level 100, m at next level, k at level 200, right associativity).
Definition storage {A} (m : outcome StorageError A) : option (outcome demo_error A) :=
  Some (map_err (DemoRun ∘ RunStorage) m).
Definition run {A} (m : outcome run_error A) : option (outcome demo_error A) := Some (map_err DemoRun m).

(** The figures it logs. *)
Record DemoReport := mkDemoReport {
  dr_segment : SegmentStats; dr_verified : Z;
  dr_rollover : ManagerStats; dr_concurrent : ManagerStats; dr_large : ManagerStats }.

Section demo.
Context `{Crc32} `{Os}.

Definition text (s : string) : bytes := str_bytes s.
Definition number (i : nat) : string := pretty (Z.of_nat i).

(** Source: src/examples/production_demo.rs:107-108 (demo_single_segment, data) *)
Definition hello (i : nat) : bytes := text ("Record number " +:+ number i +:+ ": Hello from DOLDA!").

(** Source: src/examples/production_demo.rs:96-136 (demo_single_segment) *)
Definition demo_single_segment (fuel : nat) (now : nat → Z) : option (outcome demo_error (SegmentStats * Z)) :=
  segment <~ storage (RecordSegment_new "/tmp/dolda_production_demo/demo1.dat" (10 * 1024 * 1024) true);
  segment <~ run (segment_writes now 0 segment (map hello (seq 0 100)));
  let stats := RecordSegment_stats segment in
  results ← iter_collect fuel segment (iter_records segment);
  let count := len (List.filter is_ok results) in
  _ <~ storage (RecordSegment_flush segment);
  Some (Ok (stats, count)).

(** Source: src/examples/production_demo.rs:150-154 (demo_segment_manager, data) *)
Definition large_data (i : nat) : bytes := replicate 1024 x00 ++ text ("Record " +:+ number i).

(** The progress reports only read the statistics.
    Source: src/examples/production_demo.rs:138-178 (demo_segment_manager) *)
Definition demo_segment_manager (now : nat → Z) : option (outcome demo_error ManagerStats) :=
  manager <~ storage (SegmentManager_new 0 (128 * 1024) "/tmp/dolda_production_demo/partition0" true);
  written ← manager_writes 2 now 0 manager (map large_data (seq 0 1000));
  manager <~ run written;
  _ <~ storage (SegmentManager_flush manager);
  Some (Ok (SegmentManager_stats manager)).

(** *** Concurrent writers *)

(** Source: src/examples/production_demo.rs:197-197 (demo_concurrent_operations, data) *)
Definition thread_data (thread_id i : nat) : bytes :=
  text ("Thread " +:+ number thread_id +:+ " - Record " +:+ number i).
Definition threads_data (k n : nat) : list bytes := flat_map (λ w, map (thread_data w) (seq 0 k)) (seq 0 n).

(** A writer goes on when its append was acknowledged; otherwise [unwrap] ends
    its task. *)
Definition acknowledged (t : mthread) : bool := match t with MDone _ (Ok _) => true | _ => false end.

(** Source: src/examples/production_demo.rs:193-203 (demo_concurrent_operations, writers) *)
Definition writer_step (k : nat) (c c' : mconfig) : Prop :=
  ∃ i, in_turn k acknowledged (mc_threads c) i = true ∧ mstep i c = Some c'.

(** The writers' handles, awaited in order: [None] while one is running.
    Source: src/examples/production_demo.rs:206-208 (demo_concurrent_operations, joins) *)
Fixpoint joined_writers (ts : list mthread) : option (outcome demo_error unit) :=
  match ts with
  | [] => Some (Ok tt)
  | MDone _ (Ok _) :: ts => joined_writers ts
  | MDone _ _ :: _ => Some (Err DemoJoin)
  | _ :: _ => None
  end.

(** The records of the writers, in the order of the writers. *)
Definition writer_records (now : nat → Z) : list Rec := new_records now 0 (threads_data 100 10).
Definition writers_manager : outcome StorageError SegmentManager :=
  SegmentManager_new 1 (1024 * 1024) "/tmp/dolda_production_demo/partition1" false.

(** [final] is where the writers have stopped.
    Source: src/examples/production_demo.rs:180-214 (demo_concurrent_operations) *)
Definition demo_concurrent_operations (final : mconfig) : option (outcome demo_error ManagerStats) :=
  _ <~ storage writers_manager;
  _ <~ joined_writers (mc_threads final);
  Some (Ok (SegmentManager_stats (mc_manager final))).

(** Source: src/examples/production_demo.rs:216-248 (demo_large_dataset) *)
Definition demo_large_dataset (now : nat → Z) : option (outcome demo_error ManagerStats) :=
  manager <~ storage (SegmentManager_new 2 (10 * 1024 * 1024) "/tmp/dolda_production_demo/partition2" false);
  written ← manager_writes 2 now 0 manager (replicate (Z.to_nat 10000) (replicate 512 x00));
  manager <~ run written;
  Some (Ok (SegmentManager_stats manager)).

(** *** The program *)

(** The times of the health updates and of the records of each part; the
    checks the background checker makes before each update: time, memory used
    and in total. *)
Record demo_env := mkDemoEnv {
  de_start : Z; de_time : nat → Z; de_now : nat → nat → Z; de_checks : nat → list (Z * Z * Z) }.

Section main.
Context (format_one_decimal : f64 → string) (version : string).

Definition checked (e : demo_env) (i : nat) (s : HealthServer) : HealthServer :=
  foldl (λ s '(now_us, used, total), perform_checks format_one_decimal now_us used total s) s (de_checks e i).
Definition report (e : demo_env) (i : nat) (s : HealthServer) (name message : string) : HealthServer :=
  update_component (de_time e i) (checked e i s) name Healthy message.

(** Source: src/examples/production_demo.rs:28-94 (main) *)
Definition production_demo (fuel : nat) (e : demo_env) (final : mconfig)
    : option (outcome demo_error (HealthServer * DemoReport)) :=
  let health := HealthServer_new (de_start e) version in
  let health := register_component health "storage" in
  let health := register_component health "demo_task" in
  let health := report e 0 health "storage" "Initializing" in
  let health := report e 1 health "demo_task" "Starting" in
  _ <~ Some (map_err DemoIo (os_create_dir_all "/tmp/dolda_production_demo"));
  let health := report e 2 health "storage" "Running single segment demo" in
  single <~ demo_single_segment fuel (de_now e 1);
  let health := report e 3 health "storage" "Running segment manager demo" in
  rollover <~ demo_segment_manager (de_now e 2);
  let health := report e 4 health "storage" "Running concurrent demo" in
  concurrent <~ demo_concurrent_operations final;
  let health := report e 5 health "storage" "Running large dataset demo" in
  large <~ demo_large_dataset (de_now e 4);
  let health := report e 6 health "demo_task" "Completed successfully" in
  Some (Ok (health, {| dr_segment := single.1; dr_verified := single.2; dr_rollover := rollover;
                       dr_concurrent := concurrent; dr_large := large |})).
End main.
End demo.

(** ** Lemmas *)
Section lemmas.
Context `{Crc32Ok} `{OsOk} (Hos : os_grants).

(** Each list of payloads is of small ones. *)
Definition small (size : Z) (payloads : list bytes) : bool :=
  forallb (λ d, RECORD_HEADER_SIZE + len d <=? size) payloads.

Lemma small_spec size payloads :
  small size payloads = true → size ≤ MAX_RECORD_SIZE →
  Forall (λ d, len d ≤ MAX_RECORD_SIZE) payloads ∧ Forall (λ n, n ≤ size) (record_sizes payloads).
Proof.
  unfold small, record_sizes. rewrite forallb_forall. intros Hp Hs. split; [|apply Forall_fmap]; apply Forall_forall; intros d Hd.
  - specialize (Hp d ltac:(by apply list_elem_of_In)). apply Z.leb_le in Hp. unfold RECORD_HEADER_SIZE in Hp. cbn. lia.
  - specialize (Hp d ltac:(by apply list_elem_of_In)). by apply Z.leb_le in Hp.
Qed.

Lemma all_ok entries : List.filter is_ok (map Ok entries : list (outcome StorageError (RecordOffset * Rec))) = map Ok entries.
Proof. induction entries as [|x l IH]; [done|]. cbn. by rewrite IH. Qed.
Lemma log_entries_length off l : length (log_entries off l) = length l.
Proof. revert off. induction l as [|r l IH]; intros off; [done|]. cbn. by rewrite IH. Qed.

Lemma single_segment_ok now fuel :
  (∀ i, in_range 64 (now i)) → (100 < fuel)%nat →
  ∃ stats, demo_single_segment fuel now = Some (Ok (stats, 100)) ∧ ss_record_count stats = 100.
Proof.
  intros Hnow Hf. unfold demo_single_segment.
  destruct (segment_opens Hos "/tmp/dolda_production_demo/demo1.dat" (10 * 1024 * 1024) true) as (s & -> & Hs & Hmax & _); [lia|].
  destruct (small_spec 1024 (map hello (seq 0 100))) as [Hd _]; [by vm_compute|by vm_compute|].
  destruct (segment_writes_ok now Hnow (map hello (seq 0 100)) 0 s [] Hs Hd) as (s' & Hw & Hs' & _);
    [rewrite Hmax; by vm_compute|].
  cbn [storage map_err and_then]. rewrite Hw. cbn [run map_err and_then].
  assert (len (new_records now 0 (map hello (seq 0 100))) = 100) as Hlen by (unfold len; by rewrite new_records_length, length_map, length_seq).
  assert (length ([] ++ new_records now 0 (map hello (seq 0 100))) < fuel)%nat as Hfuel by (unfold len in Hlen; cbn; lia).
  rewrite (iter_records_repr s' _ fuel Hs' Hfuel). cbn [mbind option_bind]. rewrite flush_ok by done.
  cbn [storage map_err and_then]. rewrite all_ok. exists (RecordSegment_stats s'). split; [|cbn; by rewrite (repr_count _ _ Hs'), app_nil_l].
  assert (len (map Ok (log_entries 0 ([] ++ new_records now 0 (map hello (seq 0 100)))) : list (outcome StorageError (RecordOffset * Rec))) = 100) as ->; [|done].
  unfold len in *. by rewrite length_map, log_entries_length.
Qed.

(** A sequence of writes through a new manager. *)
Lemma manager_run_ok now pid size dir en payloads :
  (∀ i, in_range 64 (now i)) → 0 ≤ size ≤ MAX_RECORD_SIZE → small size payloads = true →
  zsum id (record_sizes payloads) < 2 ^ 64 →
  ∃ m m', SegmentManager_new pid size dir en = Ok m ∧ manager_writes 2 now 0 m payloads = Some (Ok m') ∧
    ms_segment_count (SegmentManager_stats m') = (packed size (record_sizes payloads)).2 ∧
    ms_total_records (SegmentManager_stats m') = len payloads ∧
    ms_total_bytes (SegmentManager_stats m') = zsum id (record_sizes payloads).
Proof.
  intros Hnow Hsize Hsmall Hb. assert (0 ≤ size < 2 ^ 63) as Hrange by (unfold MAX_RECORD_SIZE in *; lia).
  destruct (manager_opens Hos pid size dir en Hrange) as (m & seg & Hnew & Hm & Hsz & _).
  destruct (small_spec size payloads Hsmall) as [Hd Hs]; [lia|].
  destruct (manager_writes_ok now Hnow payloads 0 m [] seg [] [] Hm) as (m' & init & seg' & linit & l & Hw & Hm' & _ & Hcat & Hpack);
    [intros path; rewrite Hsz; by apply (og_map Hos)|done|by rewrite Hsz|].
  exists m, m'. split; [done|]. split; [done|].
  assert (log_size (concat (linit ++ [l])) = zsum id (record_sizes payloads)) as Hls.
  { rewrite Hcat. by rewrite app_nil_l, new_records_size. }
  destruct (stats_of_logs m' init seg' linit l Hm') as (Hc & Hr & Hbytes); [lia|].
  rewrite Hc, Hr, Hbytes, Hls, Hcat, app_nil_l. rewrite Hsz in Hpack. unfold packed.
  split; [|split; [|done]].
  - change (0, 1) with (log_size [], len (@nil RecordSegment) + 1). by rewrite <- Hpack.
  - unfold len. by rewrite new_records_length.
Qed.

Lemma segment_manager_ok now :
  (∀ i, in_range 64 (now i)) →
  ∃ stats, demo_segment_manager now = Some (Ok stats) ∧ ms_segment_count stats = 9 ∧ ms_total_records stats = 1000.
Proof.
  intros Hnow. destruct (manager_run_ok now 0 (128 * 1024) "/tmp/dolda_production_demo/partition0" true (map large_data (seq 0 1000)))
    as (m & m' & Hnew & Hw & Hc & Hr & _); [exact Hnow|vm_compute; split; discriminate|vm_compute; reflexivity|vm_compute; reflexivity|].
  exists (SegmentManager_stats m'). unfold demo_segment_manager. rewrite Hnew. cbn [storage map_err and_then].
  rewrite Hw. cbn [mbind option_bind run map_err and_then]. rewrite manager_flush_ok by done. cbn [storage map_err and_then].
  split; [reflexivity|]. rewrite Hc, Hr. clear. split; vm_compute; reflexivity.
Qed.

Lemma large_dataset_ok now :
  (∀ i, in_range 64 (now i)) →
  ∃ stats, demo_large_dataset now = Some (Ok stats) ∧ ms_segment_count stats = 1 ∧
    ms_total_records stats = 10000 ∧ ms_total_bytes stats = 5320000.
Proof.
  intros Hnow. set (payloads := replicate (Z.to_nat 10000) (replicate 512 x00)).
  assert (record_sizes payloads = replicate (Z.to_nat 10000) 532) as Hsizes.
  { unfold record_sizes, payloads. by rewrite fmap_replicate. }
  destruct (manager_run_ok now 2 (10 * 1024 * 1024) "/tmp/dolda_production_demo/partition2" false payloads)
    as (m & m' & Hnew & Hw & Hc & Hr & Hb); [exact Hnow|vm_compute; split; discriminate| |rewrite Hsizes; vm_compute; reflexivity|].
  { unfold small, payloads. apply forallb_forall. intros d Hd%list_elem_of_In%elem_of_replicate. destruct Hd as [-> _]. vm_compute. reflexivity. }
  exists (SegmentManager_stats m'). unfold demo_large_dataset. fold payloads. rewrite Hnew. cbn [storage map_err and_then].
  rewrite Hw. cbn [mbind option_bind run map_err and_then]. split; [reflexivity|]. rewrite Hc, Hr, Hb, Hsizes.
  unfold len, payloads. rewrite length_replicate. clear. split_and!; vm_compute; reflexivity.
Qed.

(** *** The writers *)

Lemma writers_small now : (∀ i, in_range 64 (now i)) →
  Forall record_wf (writer_records now) ∧ log_size (writer_records now) ≤ 1024 * 1024 ∧ length (writer_records now) = 1000%nat.
Proof.
  intros Hnow. destruct (small_spec 1024 (threads_data 100 10)) as [Hd _]; [vm_compute; reflexivity|vm_compute; discriminate|].
  split; [by apply new_records_wf|]. split.
  - unfold writer_records. rewrite new_records_size by done. apply Z.leb_le. vm_compute. reflexivity.
  - unfold writer_records. rewrite new_records_length. vm_compute. reflexivity.
Qed.

(** A writer can go on until all appends have returned. *)
Lemma writers_go_on m n s0 l f c k b :
  current_segment m = Some (n, s0) → shared m n l f c → length (mc_threads c) = (b * k)%nat →
  (∀ i t, mc_threads c !! i = Some t → steps_left t = 0%nat) ∨ ∃ c', writer_step k c c'.
Proof.
  intros Hcur Hsh Hlen. destruct (first_pending steps_left (mc_threads c)) as [Hall|(i & t & Hi & Ht & Hbefore)]; [by left|right].
  destruct (shared_step _ _ _ _ _ _ _ _ Hcur Hsh Hi Ht) as (c' & _ & Hstep & _). exists c', i. split; [|done].
  apply (first_in_turn k b acknowledged _ i t Hlen Hi). intros j u Hj Hu.
  pose proof (Hbefore j u Hj Hu) as Hz. destruct (sh_segment _ _ _ _ _ Hsh) as (s & ws & _ & Hinv & _).
  assert (map segment_thread (mc_threads c) !! j = Some (segment_thread u)) as Hu' by (by rewrite list_lookup_fmap, Hu).
  pose proof (Forall_lookup_1 _ _ _ _ (ci_wf _ _ Hinv) Hu') as Hwf.
  destruct u as [|r k' u| | |r res]; try done; [by destruct u|]. by destruct res.
Qed.

Lemma shared_writers m n s0 l f k c c' :
  current_segment m = Some (n, s0) → shared m n l f c → rtc (writer_step k) c c' →
  shared m n l f c' ∧ length (mc_threads c') = length (mc_threads c).
Proof.
  intros Hcur Hsh Hc. revert Hc. apply (rtc_invariant (writer_step k) (λ c', shared m n l f c' ∧ length (mc_threads c') = length (mc_threads c))); [|done].
  intros c1 c2 [Hsh1 Hl] (i & _ & Hs). destruct (shared_total _ _ _ _ _ _ _ _ Hcur Hsh1 Hs) as (Hsh2 & _ & Hl2).
  split; [done|]. by rewrite Hl2.
Qed.

(** They do stop. *)
Lemma writers_stop m n s0 l f c k :
  current_segment m = Some (n, s0) → shared m n l f c →
  ∃ final, rtc (writer_step k) c final ∧ ¬ ∃ c', writer_step k final c'.
Proof.
  intros Hcur. remember (total steps_left (mc_threads c)) as left eqn:Hleft. revert c Hleft.
  induction left as [left IH] using lt_wf_ind. intros c Hleft Hsh.
  destruct (decide (Exists (λ i, is_Some (if in_turn k acknowledged (mc_threads c) i then mstep i c else None)) (seq 0 (length (mc_threads c))))) as [He|Hne].
  - apply Exists_exists in He as (i & _ & [c1 Hs]). destruct (in_turn _ _ _ i) eqn:Ht; [|done].
    destruct (shared_total _ _ _ _ _ _ _ _ Hcur Hsh Hs) as (Hsh1 & Htot & _).
    destruct (IH (total steps_left (mc_threads c1)) ltac:(lia) c1 eq_refl Hsh1) as (final & Hrun & Hstop).
    exists final. split; [|done]. eapply rtc_l; [by exists i|done].
  - exists c. split; [done|]. intros (c' & i & Ht & Hs). apply Hne, Exists_exists. exists i. rewrite Ht. split; [|by exists c'].
    apply elem_of_seq. unfold mstep in Hs. apply bind_Some in Hs as (t & Hi & _). apply lookup_lt_Some in Hi. lia.
Qed.

Lemma joined_all ts :
  (∀ i t, ts !! i = Some t → ∃ r o, t = MDone r (Ok o)) → joined_writers ts = Some (Ok tt).
Proof.
  induction ts as [|t ts IH]; intros Hts; [done|]. destruct (Hts 0%nat t eq_refl) as (r & o & ->). cbn. apply IH. intros i. apply (Hts (S i)).
Qed.

Lemma concurrent_ok now final m :
  (∀ i, in_range 64 (now i)) → writers_manager = Ok m →
  rtc (writer_step 100) (start_threads m (writer_records now)) final → (¬ ∃ c', writer_step 100 final c') →
  ∃ stats, demo_concurrent_operations final = Some (Ok stats) ∧ ms_segment_count stats = 1 ∧ ms_total_records stats = 1000.
Proof.
  intros Hnow Hnew Hrun Hstop. destruct (writers_small now Hnow) as (Hwf & Hfit & Hlen).
  destruct (manager_opens Hos 1 (1024 * 1024) "/tmp/dolda_production_demo/partition1" false) as (m' & seg & Hnew' & Hm & Hsz & Hen); [lia|].
  unfold writers_manager in Hnew. rewrite Hnew in Hnew'. injection Hnew' as <-.
  pose proof (current_repr _ _ _ _ _ Hm) as Hcur. cbn [length] in Hcur.
  pose proof (mr_last _ _ _ _ _ Hm) as Hseg. pose proof (mr_max _ _ _ _ _ Hm) as Hmax.
  assert (shared m 0 [] (λ i, writer_records now !! i) (start_threads m (writer_records now))) as Hsh.
  { apply (shared_start m 0 seg); [done..|]. rewrite app_nil_l, Hmax, Hsz. exact Hfit. }
  destruct (shared_writers _ _ _ _ _ _ _ _ Hcur Hsh Hrun) as [Hfinal Hl]. cbn [start_threads mc_threads] in Hl. rewrite length_map in Hl.
  destruct (writers_go_on m 0 seg [] _ final 100 10 Hcur Hfinal) as [Hall|Hgo]; [rewrite Hl, Hlen; reflexivity| |done].
  destruct (shared_end m 0 [] (writer_records now) final Hfinal Hl Hall) as (ws & s & Hmf & Hp & Hs & Hts).
  exists (SegmentManager_stats (mc_manager final)). unfold demo_concurrent_operations, writers_manager. rewrite Hnew. cbn [storage map_err and_then].
  rewrite joined_all by (intros i t Hi; destruct (Hts i t Hi) as (r & w1 & w2 & _ & _ & ->); eauto). cbn [and_then].
  split; [reflexivity|]. rewrite Hmf.
  assert (sm_segments (set_segment m 0 s) = [s]) as Hsegs by (cbn; by rewrite (mr_segments _ _ _ _ _ Hm)).
  unfold SegmentManager_stats. cbn [ms_segment_count ms_total_records]. rewrite Hsegs. split; [reflexivity|].
  unfold sum_u64. cbn [foldl]. rewrite (repr_count _ _ Hs), app_nil_l.
  assert (len ws = 1000) as -> by (unfold len; rewrite Hp, Hlen; reflexivity). reflexivity.
Qed.

End lemmas.

(** *** The health server *)

(** The two components as the program left them: the checker updates others,
    which are not registered. *)
Definition two_components (start : Z) (version : string) (c1 c2 : ComponentHealth) : HealthServer :=
  mkHealthServer start [c1; c2] version.

Lemma checked_ignored format start version e i c1 c2 :
  ch_name c1 = "storage"%string → ch_name c2 = "demo_task"%string →
  checked format e i (two_components start version c1 c2) = two_components start version c1 c2.
Proof.
  intros Hc1 Hc2. unfold checked. induction (de_checks e i) as [|[[now used] tot] l IH]; [done|]. cbn [foldl].
  unfold perform_checks. destruct (check_memory _ _ _) as [status message].
  assert (∀ name status message, name ≠ "storage"%string → name ≠ "demo_task"%string →
    update_component now (two_components start version c1 c2) name status message = two_components start version c1 c2) as Hid.
  { intros name st msg H1' H2'. apply (proj1 (update_component_spec _ _ _ _ _)). cbn. rewrite Hc1, Hc2. set_solver. }
  by rewrite !Hid.
Qed.
Lemma report_storage format start version e i c1 c2 message :
  ch_name c1 = "storage"%string → ch_name c2 = "demo_task"%string →
  report format e i (two_components start version c1 c2) "storage" message =
    two_components start version (mkComponent "storage" Healthy message (de_time e i)) c2.
Proof.
  intros Hc1 Hc2. unfold report. rewrite checked_ignored by done. unfold update_component, two_components, set_components.
  cbn [hs_components update_first]. by rewrite Hc1.
Qed.
Lemma report_task format start version e i c1 c2 message :
  ch_name c1 = "storage"%string → ch_name c2 = "demo_task"%string →
  report format e i (two_components start version c1 c2) "demo_task" message =
    two_components start version c1 (mkComponent "demo_task" Healthy message (de_time e i)).
Proof.
  intros Hc1 Hc2. unfold report. rewrite checked_ignored by done. unfold update_component, two_components, set_components.
  cbn [hs_components update_first]. by rewrite Hc1, Hc2.
Qed.

(** ** Properties *)
Section properties.
Context `{Crc32Ok} `{OsOk}.

(** C30. On a machine that grants its files the demonstration runs to its end,
    however its concurrent writers are scheduled and whatever its background
    checker finds: it verifies the 100 records of the segment, its 1000 large
    records fill nine segments, no record of the thousand its ten writers
    append at once is lost, and its 10000 records stay in one segment; the
    health server then reports the two components it registered as healthy,
    with the last messages, and nothing of the checker. *)
Theorem production_demo_completes format version fuel e final :
  os_grants → (∀ k i, in_range 64 (de_now e k i)) → (100 < fuel)%nat →
  (∀ m, writers_manager = Ok m →
     rtc (writer_step 100) (start_threads m (writer_records (de_now e 3))) final ∧ ¬ ∃ c', writer_step 100 final c') →
  ∃ health report, production_demo format version fuel e final = Some (Ok (health, report)) ∧
    ss_record_count (dr_segment report) = 100 ∧ dr_verified report = 100 ∧
    ms_segment_count (dr_rollover report) = 9 ∧ ms_total_records (dr_rollover report) = 1000 ∧
    ms_segment_count (dr_concurrent report) = 1 ∧ ms_total_records (dr_concurrent report) = 1000 ∧
    ms_segment_count (dr_large report) = 1 ∧ ms_total_records (dr_large report) = 10000 ∧
    map (λ c, (ch_name c, ch_message c)) (hs_components health) =
      [("storage", "Running large dataset demo"); ("demo_task", "Completed successfully")]%string ∧
    ∀ elapsed, sh_status (get_health elapsed health) = Healthy.
Proof.
  intros Hos Hnow Hfuel Hfinal.
  destruct (single_segment_ok Hos (de_now e 1) fuel (Hnow 1%nat) Hfuel) as (stats & Hsingle & Hcount).
  destruct (segment_manager_ok Hos (de_now e 2) (Hnow 2%nat)) as (roll & Hroll & Hrc & Hrr).
  destruct (manager_opens Hos 1 (1024 * 1024) "/tmp/dolda_production_demo/partition1" false) as (m & _ & Hm & _); [lia|].
  destruct (Hfinal m Hm) as [Hrun Hstop].
  destruct (concurrent_ok Hos (de_now e 3) final m (Hnow 3%nat) Hm Hrun Hstop) as (conc & Hconc & Hcc & Hcr).
  destruct (large_dataset_ok Hos (de_now e 4) (Hnow 4%nat)) as (large & Hlarge & Hlc & Hlr & _).
  unfold production_demo. rewrite (og_dir Hos). cbn [map_err and_then]. rewrite Hsingle, Hroll, Hconc, Hlarge. cbn [and_then].
  change (register_component (register_component (HealthServer_new (de_start e) version) "storage") "demo_task")
    with (two_components (de_start e) version (mkComponent "storage" Unknown "Not yet checked" 0) (mkComponent "demo_task" Unknown "Not yet checked" 0)).
  rewrite report_storage, report_task by reflexivity. rewrite !report_storage by reflexivity. rewrite report_task by reflexivity.
  eexists _, _. split; [reflexivity|]. cbn [dr_segment dr_verified dr_rollover dr_concurrent dr_large fst snd].
  rewrite Hcount, Hrc, Hrr, Hcc, Hcr, Hlc, Hlr. split_and!; reflexivity.
Qed.

(** The writers can be scheduled to their end. *)
Lemma final_exists now :
  os_grants → (∀ i, in_range 64 (now i)) →
  ∃ final, ∀ m, writers_manager = Ok m →
    rtc (writer_step 100) (start_threads m (writer_records now)) final ∧ ¬ ∃ c', writer_step 100 final c'.
Proof.
  intros Hos Hnow. destruct (writers_small now Hnow) as (Hwf & Hfit & _).
  destruct (manager_opens Hos 1 (1024 * 1024) "/tmp/dolda_production_demo/partition1" false) as (m & seg & Hnew & Hm & Hsz & Hen); [lia|].
  pose proof (current_repr _ _ _ _ _ Hm) as Hcur. cbn [length] in Hcur.
  assert (shared m 0 [] (λ i, writer_records now !! i) (start_threads m (writer_records now))) as Hsh.
  { apply (shared_start m 0 seg); [done|apply (mr_last _ _ _ _ _ Hm)|done|done|].
    rewrite app_nil_l, (mr_max _ _ _ _ _ Hm), Hsz. exact Hfit. }
  destruct (writers_stop m 0 seg _ _ _ 100 Hcur Hsh) as (final & Hrun & Hstop).
  exists final. intros m' Hm'. unfold writers_manager in Hm'. rewrite Hnew in Hm'. injection Hm' as <-. done.
Qed.
End properties.

(** ** A concrete run *)
Definition sample_env : demo_env :=
  {| de_start := 0; de_time i := Z.of_nat i; de_now k i := u64 (Z.of_nat k); de_checks i := [(7, 90, 100)] |}.

Lemma production_demo_completes_witness :
  ∃ final health report, production_demo (λ _, "90.0"%string) "1.0" 101 sample_env final = Some (Ok (health, report)) ∧
    ms_segment_count (dr_rollover report) = 9 ∧ ms_total_records (dr_concurrent report) = 1000.
Proof.
  destruct (final_exists (de_now sample_env 3) zero_os_grants) as [final Hfinal]; [intros i; apply (Z.mod_pos_bound 3 (2 ^ 64)); lia|].
  destruct (production_demo_completes (λ _, "90.0"%string) "1.0" 101 sample_env final zero_os_grants)
    as (health & report & Hp & _ & _ & Hr & _ & _ & Hc & _); [|lia|exact Hfinal|].
  { intros k i. apply (Z.mod_pos_bound (Z.of_nat k) (2 ^ 64)). lia. }
  exists final, health, report. split; [exact Hp|]. split; [exact Hr|exact Hc].
Defined.
