(* ===== verification/MailboxNetwork.v ===== *)
(** * Mailboxes over the network (src/src/mailbox_network.rs)

    A server keeps a cache of mailbox handles over a mailbox system and answers
    length-prefixed requests; a client sends one request per connection.  The
    bincode encoding of messages is the interface [Bincode]. *)

From stdpp Require Import base list numbers strings gmap pretty countable.
From Stdlib Require Import Strings.Byte.
From S2P Require Import Prelude Crc32 F64 StorageEngine PersistQueue ByteQueue Network Mailboxes.
Local Open Scope Z_scope.

(** Source: src/src/mailbox_network.rs:45-67 (NetworkError) *)
Inductive MailNetError :=
  | MnIo (e : io_kind)
  | MnMailbox (e : MailboxError)
  | MnSerialization (e : string)
  | MnInvalidProtocol (v : Z)
  | MnAuthenticationFailed
  | MnMailboxNotFound (a : string)
  | MnConnectionClosed.

(** Source: src/src/mailbox_network.rs:71-78 (Protocol) *)
Inductive Protocol := Tcp | Udp.

(** Source: src/src/mailbox_network.rs:80-93 (NetworkConfig) *)
Record NetworkConfig := mkNetConfig {
  nc_host : string; nc_port : Z; nc_protocol : Protocol; max_message_size : Z; nc_timeout_ms : Z }.

(** Source: src/src/mailbox_network.rs:96-104 (NetworkConfig::default) *)
Definition NetworkConfig_default : NetworkConfig :=
  mkNetConfig "127.0.0.1" 9090 Tcp (10 * 1024 * 1024) 5000.

(** Source: src/src/mailbox_network.rs:142-150 (MessageData) *)
Record MessageData := mkData {
  md_from : string; md_to : string; md_id : string; md_timestamp : Z; md_body : bytes;
  md_subject : option string }.

(** Source: src/src/mailbox_network.rs:107-140 (NetworkMessage) *)
Inductive NetworkMessage :=
  | Send (to from : string) (body : bytes) (subject : option string)
  | Receive (mailbox : string)
  | Peek (mailbox : string)
  | MessageResponse (message : option MessageData)
  | Success
  | ErrorMessage (message : string).

(** Source: src/src/mailbox_network.rs:153-162 (MessageData::from) *)
Definition message_data (m : Message) : MessageData :=
  mkData (as_str (msg_from m)) (as_str (msg_to m)) (msg_id m) (msg_timestamp m) (msg_body m)
    (msg_subject m).

(** bincode on [NetworkMessage]: [serialize] and [deserialize], with the
    documented round trip. *)
Class Bincode := {
  bin_serialize : NetworkMessage → outcome string bytes;
  bin_deserialize : bytes → outcome string NetworkMessage
}.
Class BincodeOk `{Bincode} := {
  bin_roundtrip m bs : bin_serialize m = Ok bs → bin_deserialize bs = Ok m
}.

(** The [Display] of a mailbox error, as declared with [thiserror]. *)
Definition display_mailbox_error (e : MailboxError) : string :=
  match e with
  | PersistQError e => "PersistQ error: " +:+ e
  | MailboxNotFound a => "Mailbox not found: " +:+ a
  | InvalidAddress a => "Invalid address: " +:+ a
  | Serialization e => "Serialization error: " +:+ e
  | MessageTooLarge n => "Message too large: " +:+ pretty n +:+ " bytes"
  | MailboxIo e => "IO error: " +:+ e
  end.

(** The handles in the cache are shared ([Arc]): receiving through one moves the
    offset that the cache keeps.
    Source: src/src/mailbox_network.rs:165-170 (MailboxServer) *)
Record MailboxServer `{ByteQueue} := mkServer {
  ms_config : NetworkConfig;
  ms_system : MailboxSystem;
  ms_mailboxes : gmap string Mailbox
}.
Arguments mkServer {_} _ _ _.

Section server.
Context `{ByteQueue} `{MessageCodec} `{Os} `{Bincode}.

(** Source: src/src/mailbox_network.rs:173-180 (MailboxServer::new) *)
Definition MailboxServer_new (config : NetworkConfig) (system : MailboxSystem) : MailboxServer :=
  mkServer config system ∅.

(** Source: src/src/mailbox_network.rs:389-413 (MailboxServer::get_or_create_mailbox) *)
Definition get_or_create_mailbox (s : MailboxServer) (address : string)
    : MailboxServer * outcome MailNetError Mailbox :=
  match ms_mailboxes s !! address with
  | Some mb => (s, Ok mb)
  | None =>
      match get_mailbox (ms_system s) address with
      | Ok (Some mb) =>
          (mkServer (ms_config s) (ms_system s) (<[address := mb]> (ms_mailboxes s)), Ok mb)
      | Ok None =>
          match create_mailbox (ms_system s) address with
          | (sys, Ok mb) =>
              (mkServer (ms_config s) sys (<[address := mb]> (ms_mailboxes s)), Ok mb)
          | (sys, Err e) => (mkServer (ms_config s) sys (ms_mailboxes s), Err (MnMailbox e))
          | (sys, Panic) => (mkServer (ms_config s) sys (ms_mailboxes s), Panic)
          end
      | Err e => (s, Err (MnMailbox e))
      | Panic => (s, Panic)
      end
  end.

(** The errors of [get_or_create_mailbox] are all [Mailbox]. *)
Definition display_error (e : MailNetError) : string :=
  match e with
  | MnMailbox e => "Mailbox error: " +:+ display_mailbox_error e
  | _ => EmptyString
  end.

(** [id] and [now] are the uuid and the time of the new message.
    Source: src/src/mailbox_network.rs:314-343 (MailboxServer::handle_send) *)
Definition handle_send (fuel : nat) (id : string) (now : Z) (s : MailboxServer)
    (to from : string) (body : bytes) (subject : option string)
    : option (MailboxServer * outcome MailNetError NetworkMessage) :=
  match get_or_create_mailbox s from with
  | (s, Err e) => Some (s, Ok (ErrorMessage ("Failed to get sender mailbox: " +:+ display_error e)))
  | (s, Panic) => Some (s, Panic)
  | (s, Ok sender) =>
      '(sys, result) ←
        match subject with
        | Some subj => send_with_subject fuel id now (ms_system s) sender to subj body
        | None => send_to fuel id now (ms_system s) sender to body
        end;
      let s := mkServer (ms_config s) sys (ms_mailboxes s) in
      Some (s, match result with
        | Ok _ => Ok Success
        | Err e => Ok (ErrorMessage ("Failed to send: " +:+ display_mailbox_error e))
        | Panic => Panic
        end)
  end.

Definition message_answer (prefix : string) (r : outcome MailboxError (option Message))
    : outcome MailNetError NetworkMessage :=
  match r with
  | Ok (Some msg) => Ok (MessageResponse (Some (message_data msg)))
  | Ok None => Ok (MessageResponse None)
  | Err e => Ok (ErrorMessage (prefix +:+ display_mailbox_error e))
  | Panic => Panic
  end.

(** A handle without a queue does not exist: that case is marked [Panic].
    Source: src/src/mailbox_network.rs:345-365 (MailboxServer::handle_receive) *)
Definition handle_receive (s : MailboxServer) (mailbox : string)
    : MailboxServer * outcome MailNetError NetworkMessage :=
  match get_or_create_mailbox s mailbox with
  | (s, Err e) => (s, Ok (ErrorMessage ("Failed to get mailbox: " +:+ display_error e)))
  | (s, Panic) => (s, Panic)
  | (s, Ok mb) =>
      match mailboxes (ms_system s) !! as_str (mb_address mb) with
      | None => (s, Panic)
      | Some queue =>
          let '(mb, r) := receive queue mb in
          (mkServer (ms_config s) (ms_system s) (<[mailbox := mb]> (ms_mailboxes s)),
           message_answer "Failed to receive: " r)
      end
  end.

(** Source: src/src/mailbox_network.rs:367-387 (MailboxServer::handle_peek) *)
Definition handle_peek (s : MailboxServer) (mailbox : string)
    : MailboxServer * outcome MailNetError NetworkMessage :=
  match get_or_create_mailbox s mailbox with
  | (s, Err e) => (s, Ok (ErrorMessage ("Failed to get mailbox: " +:+ display_error e)))
  | (s, Panic) => (s, Panic)
  | (s, Ok mb) =>
      match mailboxes (ms_system s) !! as_str (mb_address mb) with
      | None => (s, Panic)
      | Some queue => (s, message_answer "Failed to peek: " (peek queue mb))
      end
  end.

(** Source: src/src/mailbox_network.rs:296-312 (MailboxServer::handle_message) *)
Definition handle_message (fuel : nat) (id : string) (now : Z) (s : MailboxServer)
    (msg : NetworkMessage) : option (MailboxServer * outcome MailNetError NetworkMessage) :=
  match msg with
  | Send to from body subject => handle_send fuel id now s to from body subject
  | Receive mailbox => Some (handle_receive s mailbox)
  | Peek mailbox => Some (handle_peek s mailbox)
  | _ => Some (s, Ok (ErrorMessage "Invalid request"))
  end.

(** One request of a connection; the outer option is the fuel of the appends.
    Source: src/src/mailbox_network.rs:212-251 (MailboxServer::handle_tcp_connection, loop body) *)
Definition tcp_body (fuel : nat) (id : string) (now : Z) (st : MailboxServer * stream)
    : option (loop_step (MailboxServer * stream) (outcome MailNetError unit)) :=
  let '(s, io) := st in
  match read_exact 4 io with
  | (io, Err UnexpectedEof) => Some (Return (s, io) (Ok tt))
  | (io, Err e) => Some (Return (s, io) (Err (MnIo e)))
  | (io, Panic) => Some (Return (s, io) Panic)
  | (io, Ok len_buf) =>
      let msg_len := from_be_bytes len_buf in
      if max_message_size (ms_config s) <? msg_len
      then Some (Return (s, io) (Err (MnIo (OtherIo ("Message too large: " +:+ pretty msg_len +:+ " bytes")))))
      else
      match read_exact msg_len io with
      | (io, Err e) => Some (Return (s, io) (Err (MnIo e)))
      | (io, Panic) => Some (Return (s, io) Panic)
      | (io, Ok msg_buf) =>
          match bin_deserialize msg_buf with
          | Err e => Some (Return (s, io) (Err (MnSerialization e)))
          | Panic => Some (Return (s, io) Panic)
          | Ok network_msg =>
              '(s, response) ← handle_message fuel id now s network_msg;
              match response with
              | Err e => Some (Return (s, io) (Err e))
              | Panic => Some (Return (s, io) Panic)
              | Ok response =>
                  match bin_serialize response with
                  | Err e => Some (Return (s, io) (Err (MnSerialization e)))
                  | Panic => Some (Return (s, io) Panic)
                  | Ok response_bytes =>
                      Some (match write_all (to_be_bytes 4 (u32 (len response_bytes))) io with
                            | (io, Ok _) =>
                                match write_all response_bytes io with
                                | (io, Ok _) => Continue (s, io)
                                | (io, Err e) => Return (s, io) (Err (MnIo e))
                                | (io, Panic) => Return (s, io) Panic
                                end
                            | (io, Err e) => Return (s, io) (Err (MnIo e))
                            | (io, Panic) => Return (s, io) Panic
                            end)
                  end
              end
          end
      end
  end.

(** A connection: [fresh] gives the ids and times of successive requests.
    Source: src/src/mailbox_network.rs:210-252 (MailboxServer::handle_tcp_connection) *)
Fixpoint handle_tcp_connection (fuel : nat) (fresh : nat → string * Z) (i : nat)
    (st : MailboxServer * stream) : option ((MailboxServer * stream) * outcome MailNetError unit) :=
  match fuel with
  | O => None
  | S fuel =>
      match tcp_body (S fuel) (fresh i).1 (fresh i).2 st with
      | None => None
      | Some (Return st r) => Some (st, r)
      | Some (Continue st) => handle_tcp_connection fuel fresh (S i) st
      end
  end.

(** One datagram: an undecodable one, or a response that cannot be encoded, is
    dropped.
    Source: src/src/mailbox_network.rs:254-286 (MailboxServer::start_udp, loop body) *)
Definition udp_body (fuel : nat) (id : string) (now : Z) (s : MailboxServer) (datagram : bytes)
    : option (MailboxServer * option bytes) :=
  match bin_deserialize (ztake (max_message_size (ms_config s)) datagram) with
  | Ok network_msg =>
      '(s, response) ← handle_message fuel id now s network_msg;
      Some (s, match response with
               | Ok response => match bin_serialize response with Ok bs => Some bs | _ => None end
               | _ => None
               end)
  | _ => Some (s, None)
  end.

(** *** Client *)

(** [connect] is the outcome of dialing the server; [peer] what the server
    sends back on the connection for the bytes it receives. *)
Context (connect : outcome MailNetError unit) (peer : bytes → bytes).

(** Source: src/src/mailbox_network.rs:508-533 (MailboxClient::request_tcp) *)
Definition request_tcp (msg : NetworkMessage) : outcome MailNetError NetworkMessage :=
  _ ← connect;
  msg_bytes ← map_err MnSerialization (bin_serialize msg);
  let io := mkStream (peer (to_be_bytes 4 (u32 (len msg_bytes)) ++ msg_bytes)) [] in
  let '(io, len_buf) := read_exact 4 io in
  len_buf ← map_err MnIo len_buf;
  let '(io, response_buf) := read_exact (from_be_bytes len_buf) io in
  response_buf ← map_err MnIo response_buf;
  map_err MnSerialization (bin_deserialize response_buf).

(** Source: src/src/mailbox_network.rs:502-506 (MailboxClient::send_tcp) *)
Definition send_tcp (msg : NetworkMessage) : outcome MailNetError unit :=
  _ ← request_tcp msg; Ok tt.

(** [exchange] sends a datagram and waits for one. *)
Context (exchange : bytes → outcome MailNetError bytes).

(** Source: src/src/mailbox_network.rs:541-558 (MailboxClient::request_udp) *)
Definition request_udp (msg : NetworkMessage) : outcome MailNetError NetworkMessage :=
  msg_bytes ← map_err MnSerialization (bin_serialize msg);
  buf ← exchange msg_bytes;
  map_err MnSerialization (bin_deserialize (ztake (10 * 1024 * 1024) buf)).

(** Source: src/src/mailbox_network.rs:535-539 (MailboxClient::send_udp) *)
Definition send_udp (msg : NetworkMessage) : outcome MailNetError unit :=
  _ ← request_udp msg; Ok tt.

(** Source: src/src/mailbox_network.rs:446-459 (MailboxClient::send) *)
Definition client_send (p : Protocol) (to from : string) (body : bytes) : outcome MailNetError unit :=
  let msg := Send to from body None in
  match p with Tcp => send_tcp msg | Udp => send_udp msg end.

(** Source: src/src/mailbox_network.rs:461-480 (MailboxClient::send_with_subject) *)
Definition client_send_with_subject (p : Protocol) (to from subject : string) (body : bytes)
    : outcome MailNetError unit :=
  let msg := Send to from body (Some subject) in
  match p with Tcp => send_tcp msg | Udp => send_udp msg end.

(** Source: src/src/mailbox_network.rs:482-500 (MailboxClient::receive) *)
Definition client_receive (p : Protocol) (mailbox : string)
    : outcome MailNetError (option MessageData) :=
  response ← match p with Tcp => request_tcp (Receive mailbox) | Udp => request_udp (Receive mailbox) end;
  match response with
  | MessageResponse message => Ok message
  | ErrorMessage message => Err (MnMailbox (MailboxNotFound message))
  | _ => Err (MnInvalidProtocol 0)
  end.
End server.

(** ** One request over a connection *)
Definition framed (bs : bytes) : bytes := to_be_bytes 4 (u32 (len bs)) ++ bs.

Lemma read_framed bs rest out :
  len bs < 2 ^ 32 →
  read_exact 4 (mkStream (framed bs ++ rest) out) =
    (mkStream (bs ++ rest) out, Ok (to_be_bytes 4 (len bs))) ∧
  from_be_bytes (to_be_bytes 4 (len bs)) = len bs ∧
  read_exact (len bs) (mkStream (bs ++ rest) out) = (mkStream rest out, Ok bs).
Proof.
  intros Hl. pose proof (len_nonneg bs). unfold framed.
  rewrite wrap_id by (unfold in_range; lia). split_and!.
  - apply (read_exact_app 4 (to_be_bytes 4 (len bs)) (mkStream _ out));
      [by rewrite len_to_be_bytes|cbn; by rewrite <- app_assoc].
  - apply be_roundtrip. unfold in_range. lia.
  - by apply (read_exact_app (len bs) bs (mkStream _ out)).
Qed.

Section network_lemmas.
Context `{ByteQueueOk} `{MessageCodecOk} `{Os} `{BincodeOk}.

(** A connection that carries one request and ends. *)
Lemma tcp_one fuel fresh s s' msg bs response rs :
  bin_serialize msg = Ok bs → len bs ≤ max_message_size (ms_config s) → len bs < 2 ^ 32 →
  handle_message (S (S fuel)) (fresh 0%nat).1 (fresh 0%nat).2 s msg = Some (s', Ok response) →
  bin_serialize response = Ok rs →
  handle_tcp_connection (S (S fuel)) fresh 0 (s, mkStream (framed bs) []) =
    Some ((s', mkStream [] (framed rs)), Ok tt).
Proof.
  intros Hm Hmax Hlen Hh Hr. pose proof (read_framed bs [] [] Hlen) as (H1' & H2' & H3').
  rewrite !app_nil_r in *. remember (S fuel) as f eqn:Hf. cbn [handle_tcp_connection]. unfold tcp_body.
  rewrite H1'. cbv zeta. rewrite H2', (proj2 (Z.ltb_ge _ _)), H3' by done.
  rewrite (bin_roundtrip msg bs Hm), Hh. cbn [mbind option_bind]. rewrite Hr.
  unfold write_all. cbn [rx rx_end tx tx_room app]. subst f. reflexivity.
Qed.

(** A client whose request gets one framed response. *)
Lemma request_tcp_reply peer msg bs response rs :
  bin_serialize msg = Ok bs → peer (framed bs) = framed rs →
  bin_serialize response = Ok rs → len rs < 2 ^ 32 →
  request_tcp (Ok tt) peer msg = Ok response.
Proof.
  intros Hm Hp Hr Hlen. unfold request_tcp. cbn [mbind outcome_bind]. rewrite Hm.
  cbn [map_err mbind outcome_bind]. unfold framed in Hp at 1. rewrite Hp.
  pose proof (read_framed rs [] [] Hlen) as (H1' & H2' & H3'). rewrite !app_nil_r in *.
  rewrite H1'. cbn [map_err mbind outcome_bind]. rewrite H2', H3'. cbn [map_err mbind outcome_bind].
  by rewrite (bin_roundtrip response rs Hr).
Qed.

Lemma cached_mailbox s address mb :
  ms_mailboxes s !! address = Some mb → get_or_create_mailbox s address = (s, Ok mb).
Proof. intros Hlk. unfold get_or_create_mailbox. by rewrite Hlk. Qed.
End network_lemmas.

(** ** Properties *)
Section network_properties.
Context `{ByteQueueOk} `{MessageCodecOk} `{Os} `{BincodeOk}.

(** Remote delivery: when the server holds handles of the sender and of a
    recipient that has received everything so far, a [Send] request is
    answered [Success], and the next [Receive] for the recipient is answered
    with the message sent: its sender, recipient, id, time and body. *)
Lemma remote_send_then_receive fuel id now s to from body q msgs bs :
  let m := Message_new id now (mkAddress from) (mkAddress to) body in
  to ≠ EmptyString →
  ms_mailboxes s !! from = Some (mkMailbox (mkAddress from) 0) →
  ms_mailboxes s !! to = Some (mkMailbox (mkAddress to) (len msgs)) →
  mailboxes (ms_system s) !! to = Some q → box_repr q msgs → len msgs < 2 ^ 64 - 1 →
  (∀ l, bq_repr q l → Forall2 (λ m bs, json_to_vec m = Ok bs) msgs l → bq_room l bs) →
  json_to_vec m = Ok bs →
  ∃ s1 s2, handle_message (S fuel) id now s (Send to from body None) = Some (s1, Ok Success) ∧
    handle_message (S fuel) id now s1 (Receive to) =
      Some (s2, Ok (MessageResponse (Some (message_data m)))).
Proof.
  intros m Hto Hfrom Hhandle Hq Hbox Hlen Hroom Hm.
  destruct (send_box fuel id now (ms_system s) (mkMailbox (mkAddress from) 0) to body q msgs bs
    Hto Hq Hroom Hbox Hlen Hm) as (q' & Hsend & Hbox' & _ & Hrec).
  eexists _, _. cbn [handle_message]. unfold handle_send, handle_receive.
  rewrite (cached_mailbox s from _ Hfrom), Hsend. cbn [mbind option_bind]. split; [done|].
  erewrite cached_mailbox by (cbn [ms_mailboxes]; exact Hhandle).
  cbn [ms_system mailboxes mb_address as_str]. rewrite lookup_insert_eq, Hrec. done.
Qed.

(** A send that failed looks like one that succeeded: for an unknown
    recipient the server delivers nothing and answers with an error naming
    the recipient, and the client's [send], which drops the answer, returns
    success. *)
Lemma unknown_recipient_reported_sent fuel fresh s to from body ask reply ex :
  let peer bs := match handle_tcp_connection (S (S fuel)) fresh 0 (s, mkStream bs []) with
                 | Some ((_, io), _) => tx io | None => [] end in
  to ≠ EmptyString → mailboxes (ms_system s) !! to = None →
  ms_mailboxes s !! from = Some (mkMailbox (mkAddress from) 0) →
  bin_serialize (Send to from body None) = Ok ask → len ask ≤ max_message_size (ms_config s) →
  len ask < 2 ^ 32 → len reply < 2 ^ 32 →
  bin_serialize (ErrorMessage ("Failed to send: Mailbox not found: " +:+ to)) = Ok reply →
  handle_message (S (S fuel)) (fresh 0%nat).1 (fresh 0%nat).2 s (Send to from body None) =
    Some (s, Ok (ErrorMessage ("Failed to send: Mailbox not found: " +:+ to))) ∧
  client_send (Ok tt) peer ex Tcp to from body = Ok tt.
Proof.
  intros peer Hto Hnone Hfrom Hask Hmax Hlen Hlen' Hreply.
  assert (handle_message (S (S fuel)) (fresh 0%nat).1 (fresh 0%nat).2 s (Send to from body None) =
    Some (s, Ok (ErrorMessage ("Failed to send: Mailbox not found: " +:+ to)))) as Hh.
  { cbn [handle_message]. unfold handle_send. rewrite (cached_mailbox s from _ Hfrom).
    unfold send_to. rewrite address_new by done. unfold route_message. cbn [Message_new msg_to as_str].
    rewrite Hnone. cbn. by destruct s. }
  split; [done|]. unfold client_send, send_tcp.
  erewrite (request_tcp_reply peer _ ask _ reply Hask); [done| |exact Hreply|done].
  unfold peer. by rewrite (tcp_one fuel fresh s s _ ask _ reply Hask Hmax Hlen Hh Hreply).
Qed.
End network_properties.

(** ** Concrete runs, with a digit encoding of the protocol *)
#[local] Existing Instances byte_countable digit_codec digit_codec_ok persistq_queue sample_queues.

Definition data_codes (d : MessageData) : list positive :=
  [encode (md_from d); encode (md_to d); encode (md_id d); encode (md_timestamp d);
   encode (md_body d); encode (md_subject d)].
Definition codes_data (l : list positive) : option MessageData :=
  match l with
  | [f; t; i; ts; b; s] =>
      f ← decode f; t ← decode t; i ← decode i; ts ← decode ts; b ← decode b; s ← decode s;
      Some (mkData f t i ts b s)
  | _ => None
  end.
Definition net_codes (m : NetworkMessage) : list positive :=
  match m with
  | Send t f b s => [1%positive; encode t; encode f; encode b; encode s]
  | Receive m => [2%positive; encode m]
  | Peek m => [3%positive; encode m]
  | MessageResponse None => [4%positive]
  | MessageResponse (Some d) => 5%positive :: data_codes d
  | Success => [6%positive]
  | ErrorMessage e => [7%positive; encode e]
  end.
Definition codes_net (l : list positive) : option NetworkMessage :=
  match l with
  | [1; t; f; b; s]%positive =>
      t ← decode t; f ← decode f; b ← decode b; s ← decode s; Some (Send t f b s)
  | [2; m]%positive => m ← decode m; Some (Receive m)
  | [3; m]%positive => m ← decode m; Some (Peek m)
  | [4]%positive => Some (MessageResponse None)
  | (5 :: d)%positive => d ← codes_data d; Some (MessageResponse (Some d))
  | [6]%positive => Some Success
  | [7; e]%positive => e ← decode e; Some (ErrorMessage e)
  | _ => None
  end.

Lemma codes_net_roundtrip m : codes_net (net_codes m) = Some m.
Proof.
  destruct m as [t f b s|m|m|[[f t i ts b s]|]| |e]; cbn [net_codes codes_net]; try done;
    unfold data_codes, codes_data; cbn [md_from md_to md_id md_timestamp md_body md_subject];
    by rewrite !decode_encode; cbn; rewrite ?decode_encode.
Qed.

Definition decode_digits (bs : bytes) : option NetworkMessage :=
  p ← digits_pos bs; l ← decode (A:=list positive) p; codes_net l.

#[local] Instance digit_bincode : Bincode := {
  bin_serialize m := Ok (pos_digits (encode (net_codes m)));
  bin_deserialize bs := ok_or (decode_digits bs) "invalid encoding"
}.
#[local] Instance digit_bincode_ok : BincodeOk.
Proof.
  split. intros m bs [= <-]. cbn. unfold decode_digits. rewrite digits_roundtrip. cbn. rewrite decode_encode. cbn.
  by rewrite codes_net_roundtrip.
Qed.

Definition sample_mailbox_server : MailboxServer :=
  mkServer NetworkConfig_default sample_system
    (<[ "alice@dolda"%string := mkMailbox (mkAddress "alice@dolda") 0 ]>
       {[ "bob@dolda"%string := mkMailbox (mkAddress "bob@dolda") 0 ]}).

Lemma remote_send_then_receive_witness :
  ∃ s1 s2, handle_message 1 "id" 3 sample_mailbox_server
      (Send "bob@dolda" "alice@dolda" (str_bytes "hi") None) = Some (s1, Ok Success) ∧
    handle_message 1 "id" 3 s1 (Receive "bob@dolda") =
      Some (s2, Ok (MessageResponse (Some (message_data (hello 3))))).
Proof.
  apply (remote_send_then_receive 0 "id" 3 sample_mailbox_server "bob@dolda" "alice@dolda"
    (str_bytes "hi") (sample_queue 1 : @bqueue persistq_queue) [] (hello_bytes 3));
    [done|reflexivity|reflexivity|reflexivity|apply sample_box|done| |done].
  intros l _ Hl. apply Forall2_nil_inv_l in Hl as ->. split; [by vm_compute|done].
Defined.

(** The bytes the sample server sends back to a client that sent [bs]. *)
Definition sample_peer (bs : bytes) : bytes :=
  match handle_tcp_connection 2 (λ _, ("id"%string, 3)) 0
          (sample_mailbox_server, mkStream bs []) with
  | Some ((_, io), _) => tx io
  | None => []
  end.

Lemma unknown_recipient_reported_sent_witness :
  client_send (Ok tt) sample_peer Ok Tcp "carol@dolda" "alice@dolda" (str_bytes "hi") = Ok tt.
Proof.
  apply (unknown_recipient_reported_sent 0 (λ _, ("id"%string, 3)) sample_mailbox_server
    "carol@dolda" "alice@dolda" (str_bytes "hi")
    (pos_digits (encode (net_codes (Send "carol@dolda" "alice@dolda" (str_bytes "hi") None))))
    (pos_digits (encode (net_codes (ErrorMessage "Failed to send: Mailbox not found: carol@dolda"))))
    Ok); try reflexivity; try done; by vm_compute.
Defined.
