(* ===== verification/NetworkClients.v ===== *)
(** * Clients of the mailbox server (src/src/mailbox_network.rs)

    A remote client is a sequence of calls to servers it starts and prints.  The
    server is itself a client of the mailbox system: [serve] says which calls it
    makes for a request, and [server_is_client] that its handlers make them.
    Through [clients_see_message_logs] every remote client gets the answers it
    gets from a table of message logs and a cache of handles.

    A client waits for each answer, so connections and datagrams come one at a
    time; no datagram is lost or reordered. *)

From stdpp Require Import base list numbers strings gmap pretty.
From S2P Require Import Prelude Crc32 F64 StorageEngine PersistQueue ByteQueue Network Mailboxes MailboxClients MailboxNetwork.
Local Open Scope Z_scope.

(** ** Definitions *)

(** *** The server as a client of the mailbox system *)

(** The handles the server holds, by address. *)
Abbreviation cache := (list (string * handle)).
Abbreviation served := (client (cache * outcome MailNetError NetworkMessage)).
Local Open Scope client_scope.

Definition with_mailbox (c : cache) (address : string) (failed : MailNetError → NetworkMessage)
    (k : cache → handle → served) : served :=
  match assoc address c with
  | Some h => k c h
  | None =>
      r <-- CallGet address;
      match r with
      | Ok (Some h) => k (assoc_set address h c) h
      | Ok None =>
          r <-- CallCreate address;
          match r with
          | Ok h => k (assoc_set address h c) h
          | Err e => Done (c, Ok (failed (MnMailbox e)))
          | Panic => Done (c, Panic)
          end
      | Err e => Done (c, Ok (failed (MnMailbox e)))
      | Panic => Done (c, Panic)
      end
  end.

Definition sent_answer (r : outcome MailboxError string) : outcome MailNetError NetworkMessage :=
  match r with
  | Ok _ => Ok Success
  | Err e => Ok (ErrorMessage ("Failed to send: " +:+ display_mailbox_error e))
  | Panic => Panic
  end.

Definition serve (c : cache) (msg : NetworkMessage) : served :=
  match msg with
  | Send to from body subject =>
      with_mailbox c from (λ e, ErrorMessage ("Failed to get sender mailbox: " +:+ display_error e)) (λ c h,
        r <-- match subject with Some subj => CallSendSubject h to subj body | None => CallSend h to body end;
        Done (c, sent_answer r))
  | Receive mailbox =>
      with_mailbox c mailbox (λ e, ErrorMessage ("Failed to get mailbox: " +:+ display_error e)) (λ c h,
        r <-- CallReceive h; Done (c, message_answer "Failed to receive: " r))
  | Peek mailbox =>
      with_mailbox c mailbox (λ e, ErrorMessage ("Failed to get mailbox: " +:+ display_error e)) (λ c h,
        r <-- CallPeek h; Done (c, message_answer "Failed to peek: " r))
  | _ => Done (c, Ok (ErrorMessage "Invalid request"))
  end.

(** *** Remote clients *)

(** [NetStart] creates a mailbox system and a server over it, and starts it. *)
Inductive net_call : Type → Type :=
  | NetStart (config : NetworkConfig) : net_call (outcome MailNetError unit)
  | NetSend (p : Protocol) (to from : string) (body : bytes) (subject : option string) : net_call (outcome MailNetError unit)
  | NetReceive (p : Protocol) (mailbox : string) : net_call (outcome MailNetError (option MessageData))
  | NetPrint (line : string) : net_call unit.

Inductive remote (A : Type) : Type :=
  | Finish (a : A)
  | Ask {R} (c : net_call R) (k : R → remote A).
Arguments Finish {A} _.
Arguments Ask {A R} _ _.

(** [?], [unwrap()] and printing. *)
Definition ask_try {R A} (c : net_call (outcome MailNetError R)) (k : R → remote (outcome MailNetError A)) : remote (outcome MailNetError A) :=
  Ask c (λ r, match r with Ok a => k a | Err e => Finish (Err e) | Panic => Finish Panic end).
Definition ask_must {R A} (c : net_call (outcome MailNetError R)) (k : R → remote (outcome MailNetError A)) : remote (outcome MailNetError A) :=
  Ask c (λ r, match r with Ok a => k a | _ => Finish Panic end).
Definition net_print {A} (line : string) (k : remote A) : remote A := Ask (NetPrint line) (λ _, k).

(** The listening servers, at most one per protocol, the number of requests
    made, and the lines printed. *)
Record NetWorld `{ByteQueue} := mkNetWorld {
  nw_tcp : option MailboxServer; nw_udp : option MailboxServer; nw_count : nat; nw_out : list string }.
Arguments mkNetWorld {_} _ _ _ _.

(** The largest payload of a UDP datagram over IPv4. *)
Definition MAX_DATAGRAM : Z := 65507.

Section net_run.
Context `{ByteQueue} `{MessageCodec} `{Os} `{Bincode}.
(** The directory of the mailbox systems; the ids and the times of requests. *)
Context (dir : string) (fuel : nat) (ids : nat → string) (clock : nat → Z).

(** The server listens on the socket of its protocol.
    Source: src/src/mailbox_network.rs:182-188 (MailboxServer::start) *)
Definition start (w : NetWorld) (s : MailboxServer) : NetWorld :=
  match nc_protocol (ms_config s) with
  | Tcp => mkNetWorld (Some s) (nw_udp w) (nw_count w) (nw_out w)
  | Udp => mkNetWorld (nw_tcp w) (Some s) (nw_count w) (nw_out w)
  end.

(** One accepted connection on which the client sends [bs] and then waits; its
    error is logged and dropped.
    Source: src/src/mailbox_network.rs:197-207 (MailboxServer::start_tcp, loop body) *)
Definition accepted (n : nat) (s : MailboxServer) (bs : bytes) : option (MailboxServer * bytes) :=
  '((s, io), _) ← handle_tcp_connection (S (S fuel)) (λ _, (ids n, clock n)) 0 (s, mkStream bs []);
  Some (s, tx io).

Definition refused : outcome MailNetError unit := Err (MnIo (OtherIo "Connection refused")).
Definition too_long : outcome MailNetError bytes := Err (MnIo (OtherIo "Message too long")).

(** What the client writes for a request. *)
Definition wire (msg : NetworkMessage) : bytes :=
  match bin_serialize msg with Ok bs => framed bs | _ => [] end.

(** A request of a client whose method is [f], given the connection and the
    exchange of datagrams.  [None] is a client that waits for ever. *)
Definition ask {A} (w : NetWorld) (p : Protocol) (msg : NetworkMessage)
    (f : outcome MailNetError unit → (bytes → bytes) → (bytes → outcome MailNetError bytes) → A) : option (NetWorld * A) :=
  let n := nw_count w in
  match p with
  | Tcp =>
      match nw_tcp w with
      | None => Some (w, f refused (λ _, []) (λ _, too_long))
      | Some s =>
          '(s', _) ← accepted n s (wire msg);
          Some (mkNetWorld (Some s') (nw_udp w) (S n) (nw_out w),
                f (Ok tt) (λ bs, match accepted n s bs with Some (_, reply) => reply | None => [] end) (λ _, too_long))
      end
  | Udp =>
      s ← nw_udp w;
      match bin_serialize msg with
      | Ok bs =>
          if len bs <=? MAX_DATAGRAM then
            '(s', reply) ← udp_body (S (S fuel)) (ids n) (clock n) s bs;
            reply ← reply;
            if len reply <=? MAX_DATAGRAM then
              Some (mkNetWorld (nw_tcp w) (Some s') (S n) (nw_out w), f (Ok tt) (λ _, []) (λ _, Ok reply))
            else None
          else Some (w, f (Ok tt) (λ _, []) (λ _, too_long))
      | _ => Some (w, f (Ok tt) (λ _, []) (λ _, too_long))
      end
  end.

Definition run_net_call {R} (c : net_call R) (w : NetWorld) : option (NetWorld * R) :=
  match c in net_call R return option (NetWorld * R) with
  | NetStart config =>
      Some (match MailboxSystem_new dir with
            | Ok sys => (start w (MailboxServer_new config sys), Ok tt)
            | Err e => (w, Err (MnMailbox e))
            | Panic => (w, Panic)
            end)
  | NetSend p to from body subject =>
      ask w p (Send to from body subject) (λ connect peer exchange,
        match subject with
        | None => client_send connect peer exchange p to from body
        | Some subj => client_send_with_subject connect peer exchange p to from subj body
        end)
  | NetReceive p mailbox =>
      ask w p (Receive mailbox) (λ connect peer exchange, client_receive connect peer exchange p mailbox)
  | NetPrint line => Some (mkNetWorld (nw_tcp w) (nw_udp w) (nw_count w) (nw_out w ++ [line]), tt)
  end.

Fixpoint run_net {A} (c : remote A) (w : NetWorld) : option (NetWorld * A) :=
  match c with
  | Finish a => Some (w, a)
  | Ask o k => '(w, r) ← run_net_call o w; run_net (k r) w
  end.
End net_run.

(** *** The specification *)

(** The server that was started with its cache, the table of its mailbox system,
    the number of requests, the messages on the wire and the lines printed. *)
Record NetTable := mkNetTable {
  nt_server : option (Protocol * cache);
  nt_table : Table;
  nt_count : nat;
  nt_wire : list NetworkMessage;
  nt_out : list string
}.

Section net_spec.
Context `{MessageCodec}.
Context (usable : string → bool) (ids : nat → string) (clock : nat → Z).

Definition spec_ask (p : Protocol) (msg : NetworkMessage) (t : NetTable) : option (NetTable * NetworkMessage) :=
  let n := nt_count t in
  match nt_server t, p with
  | Some (Tcp, c), Tcp | Some (Udp, c), Udp =>
      '(u, (c, r)) ← spec_run usable (λ _, ids n) (λ _, clock n) (serve c msg) (nt_table t);
      match r with
      | Ok r => Some (mkNetTable (Some (p, c)) u (S n) (nt_wire t ++ [msg; r]) (nt_out t), r)
      | _ => None
      end
  | _, _ => None
  end.

(** The answer to a call; [None] where nothing is claimed: a second server, or
    a server that takes less than a datagram. *)
Definition spec_net_call {R} (c : net_call R) (t : NetTable) : option (NetTable * R) :=
  match c in net_call R return option (NetTable * R) with
  | NetStart config =>
      match nt_server t with
      | None =>
          if MAX_DATAGRAM <=? max_message_size config
          then Some (mkNetTable (Some (nc_protocol config, [])) (nt_table t) (nt_count t) (nt_wire t) (nt_out t), Ok tt)
          else None
      | Some _ => None
      end
  | NetSend p to from body subject => '(t, _) ← spec_ask p (Send to from body subject) t; Some (t, Ok tt)
  | NetReceive p mailbox =>
      '(t, r) ← spec_ask p (Receive mailbox) t;
      Some (t, match r with
               | MessageResponse message => Ok message
               | ErrorMessage message => Err (MnMailbox (MailboxNotFound message))
               | _ => Err (MnInvalidProtocol 0)
               end)
  | NetPrint line => Some (mkNetTable (nt_server t) (nt_table t) (nt_count t) (nt_wire t) (nt_out t ++ [line]), tt)
  end.

Fixpoint spec_net_run {A} (c : remote A) (t : NetTable) : option (NetTable * A) :=
  match c with
  | Finish a => Some (t, a)
  | Ask o k => '(t, r) ← spec_net_call o t; spec_net_run (k r) t
  end.
End net_spec.

(** A message whose encoding fits in a datagram. *)
Definition on_wire `{Bincode} (m : NetworkMessage) : bool :=
  match bin_serialize m with Ok bs => len bs <=? MAX_DATAGRAM | _ => false end.

Definition no_mail : Table := mkTable [] [] [] 0 [].
Definition no_server : NetTable := mkNetTable None no_mail 0 [] [].
Definition no_servers `{ByteQueue} : NetWorld := mkNetWorld None None 0 [].

(** ** The server is a client of the mailbox system *)
Section server_is_client.
Context `{ByteQueue} `{MessageCodec} `{Os}.
Context (fuel : nat) (id : string) (now : Z).
Abbreviation run_serve := (run fuel (λ _, id) (λ _, now)).

(** The server's cache gives the handles of the client's. *)
Record serves (s : MailboxServer) (c : cache) (w : World) : Prop := {
  sv_system : ms_system s = w_sys w;
  sv_cache : ∀ a, match assoc a c with
                  | Some h => ∃ mb, w_handles w !! h = Some mb ∧ ms_mailboxes s !! a = Some mb
                  | None => ms_mailboxes s !! a = None
                  end;
  sv_distinct : ∀ a b h, assoc a c = Some h → assoc b c = Some h → a = b
}.

Lemma assoc_assoc_set {A} a b (x : A) l : assoc a (assoc_set b x l) = if String.eqb a b then Some x else assoc a l.
Proof.
  rewrite !assoc_lookup, assoc_set_insert. destruct (String.eqb_spec a b) as [->|Hne]; [apply lookup_insert_eq|].
  by rewrite lookup_insert_ne.
Qed.

(** A handle that the system just gave out goes into the cache. *)
Lemma serves_new s c w sys a mb :
  serves s c w → assoc a c = None →
  serves (mkServer (ms_config s) sys (<[a := mb]> (ms_mailboxes s))) (assoc_set a (length (w_handles w)) c) (new_handle w sys mb).
Proof.
  intros [Hsys Hc Hd] Ha.
  assert (∀ b h, assoc b c = Some h → (h < length (w_handles w))%nat) as Hlt.
  { intros b h Hb. specialize (Hc b). rewrite Hb in Hc. destruct Hc as (m & Hm & _). by eapply lookup_lt_Some. }
  split; cbn; [done| |].
  - intros b. rewrite assoc_assoc_set. destruct (String.eqb_spec b a) as [->|Hne].
    + exists mb. rewrite lookup_insert_eq. split; [|done]. apply list_lookup_middle. done.
    + specialize (Hc b). rewrite lookup_insert_ne by done. destruct (assoc b c) as [h|]; [|done].
      destruct Hc as (m & Hm & ?). exists m. split; [by apply lookup_app_l_Some|done].
  - intros b b' h. rewrite !assoc_assoc_set. destruct (String.eqb_spec b a) as [->|Hb], (String.eqb_spec b' a) as [->|Hb']; [done| | |apply Hd].
    + intros [= <-] Hl%Hlt. lia.
    + intros Hl%Hlt [= <-]. lia.
Qed.

Lemma serves_send s c w sys n :
  serves s c w → serves (mkServer (ms_config s) sys (ms_mailboxes s)) c (mkWorld sys (w_handles w) n (w_out w)).
Proof. intros [? ? ?]. by split. Qed.

(** What [with_mailbox] does is what [get_or_create_mailbox] does. *)
Lemma with_mailbox_runs s c w address failed k w' x :
  serves s c w → run_serve (with_mailbox c address failed k) w = Some (w', x) →
  (∃ s1 c1 h w1 mb, get_or_create_mailbox s address = (s1, Ok mb) ∧ ms_config s1 = ms_config s ∧ serves s1 c1 w1 ∧
     assoc address c1 = Some h ∧ w_handles w1 !! h = Some mb ∧ run_serve (k c1 h) w1 = Some (w', x)) ∨
  (∃ s1, ms_config s1 = ms_config s ∧ serves s1 c w' ∧
     ((∃ e, get_or_create_mailbox s address = (s1, Err e) ∧ x = (c, Ok (failed e))) ∨
      (get_or_create_mailbox s address = (s1, Panic) ∧ x = (c, Panic)))).
Proof.
  intros Hs. unfold with_mailbox, get_or_create_mailbox. pose proof (sv_cache _ _ _ Hs address) as Hc.
  destruct (assoc address c) as [h|] eqn:Ha.
  { destruct Hc as (mb & Hmb & Hlk). rewrite Hlk. intros Hrun. left. by exists s, c, h, w, mb. }
  rewrite Hc, (sv_system _ _ _ Hs). cbn [call_ then_ run run_call].
  pose proof (λ sys mb, serves_new s c w sys address mb Hs Ha) as Hnew.
  assert (∀ mb sys, w_handles (new_handle w sys mb) !! length (w_handles w) = Some mb) as Hlast.
  { intros mb sys. apply list_lookup_middle. done. }
  destruct (get_mailbox (w_sys w) address) as [[mb|]|e|] eqn:Hget; cbn [mbind option_bind].
  - intros Hrun. left. eexists _, _, _, _, mb. split_and!; [done|done|apply Hnew|by rewrite assoc_assoc_set, String.eqb_refl|apply Hlast|exact Hrun].
  - cbn [then_ run run_call]. destruct (create_mailbox (w_sys w) address) as [sys [mb|e|]] eqn:Hcreate; cbn [mbind option_bind run].
    + intros Hrun. left. eexists _, _, _, _, mb. split_and!; [done|done|apply Hnew|by rewrite assoc_assoc_set, String.eqb_refl|apply Hlast|exact Hrun].
    + intros [= <- <-]. right. exists (mkServer (ms_config s) sys (ms_mailboxes s)). split_and!; [done|by apply serves_send|left; by eexists].
    + intros [= <- <-]. right. exists (mkServer (ms_config s) sys (ms_mailboxes s)). split_and!; [done|by apply serves_send|right; by split].
  - intros [= <- <-]. right. exists s. split_and!; [done|done|left; by eexists].
  - intros [= <- <-]. right. exists s. split_and!; [done|done|right; by split].
Qed.

Lemma serves_receive s c w a h mb :
  serves s c w → assoc a c = Some h →
  serves (mkServer (ms_config s) (w_sys w) (<[a := mb]> (ms_mailboxes s))) c
    (mkWorld (w_sys w) (<[h := mb]> (w_handles w)) (w_count w) (w_out w)).
Proof.
  intros [Hsys Hc Hd] Ha. split; cbn; [done| |done]. intros b. pose proof (Hc b) as Hb. destruct (assoc b c) as [i|] eqn:Hbc.
  - destruct Hb as (m & Hm & Hlk). destruct (decide (i = h)) as [->|Hne].
    + rewrite (Hd a b h Ha Hbc), lookup_insert_eq. exists mb. split; [|done]. apply list_lookup_insert_eq. by eapply lookup_lt_Some.
    + exists m. rewrite list_lookup_insert_ne by done. rewrite lookup_insert_ne by (intros <-; congruence). done.
  - rewrite lookup_insert_ne by (intros <-; congruence). done.
Qed.

(** Every handler makes the calls [serve] makes, and answers alike. *)
Lemma server_is_client s c w msg w' c' r :
  serves s c w → run_serve (serve c msg) w = Some (w', (c', r)) →
  ∃ s', handle_message (S fuel) id now s msg = Some (s', r) ∧ serves s' c' w' ∧ ms_config s' = ms_config s.
Proof.
  intros Hs. destruct msg as [to from body subject|mailbox|mailbox|m| |m]; cbn [serve handle_message].
  - intros Hrun. unfold handle_send.
    destruct (with_mailbox_runs s c w from _ _ w' _ Hs Hrun) as [(s1 & c1 & h & w1 & mb & -> & Hcfg & Hs1 & Ha & Hmb & Hk)|
      (s1 & Hcfg & Hs1 & [(e & -> & Hx)|(-> & Hx)])]; [|injection Hx as -> ->; by eexists..].
    rewrite (sv_system _ _ _ Hs1).
    assert (the_handle w1 h = mb) as Hthe by (unfold the_handle; by rewrite Hmb).
    destruct subject as [subj|]; cbn [call_ then_ run run_call] in Hk; rewrite Hthe in Hk.
    all: match type of Hk with context [sent _ ?o] => destruct o as [[sys res]|] eqn:Ho; [|done] end.
    all: cbn in Hk; injection Hk as <- <- <-; cbn; eexists; split_and!; [done|by apply serves_send|done].
  - intros Hrun. unfold handle_receive.
    destruct (with_mailbox_runs s c w mailbox _ _ w' _ Hs Hrun) as [(s1 & c1 & h & w1 & mb & -> & Hcfg & Hs1 & Ha & Hmb & Hk)|
      (s1 & Hcfg & Hs1 & [(e & -> & Hx)|(-> & Hx)])]; [|injection Hx as -> ->; by eexists..].
    cbn [call_ then_ run run_call] in Hk. unfold the_queue, the_handle in Hk. rewrite Hmb in Hk. cbn in Hk.
    rewrite (sv_system _ _ _ Hs1). destruct (mailboxes (w_sys w1) !! as_str (mb_address mb)) as [q|]; [|done].
    cbn [mbind option_bind] in Hk. destruct (receive q mb) as [mb' res]. injection Hk as <- <- <-.
    eexists. split_and!; [done|by apply serves_receive|done].
  - intros Hrun. unfold handle_peek.
    destruct (with_mailbox_runs s c w mailbox _ _ w' _ Hs Hrun) as [(s1 & c1 & h & w1 & mb & -> & Hcfg & Hs1 & Ha & Hmb & Hk)|
      (s1 & Hcfg & Hs1 & [(e & -> & Hx)|(-> & Hx)])]; [|injection Hx as -> ->; by eexists..].
    cbn [call_ then_ run run_call] in Hk. unfold the_queue, the_handle in Hk. rewrite Hmb in Hk. cbn in Hk.
    rewrite (sv_system _ _ _ Hs1). destruct (mailboxes (w_sys w1) !! as_str (mb_address mb)) as [q|]; [|done].
    cbn in Hk. injection Hk as <- <- <-. by eexists.
  - intros [= <- <- <-]. by eexists.
  - intros [= <- <- <-]. by eexists.
  - intros [= <- <- <-]. by eexists.
Qed.
End server_is_client.

(** ** Over the wire *)
Lemma ztake_all {A} n (l : list A) : len l ≤ n → ztake n l = l.
Proof. intros Hl. unfold ztake, len in *. apply take_ge. lia. Qed.

Section over_the_wire.
Context `{ByteQueueOk} `{MessageCodecOk} `{Os} `{BincodeOk}.
Context (usable : string → bool) (dir : string) (fuel : nat) (ids : nat → string) (clock : nat → Z).
Abbreviation run_ask := (ask fuel ids clock).
Abbreviation handled n := (handle_message (S (S fuel)) (ids n) (clock n)).

Definition server_of (p : Protocol) (w : NetWorld) : option MailboxServer :=
  match p with Tcp => nw_tcp w | Udp => nw_udp w end.
Definition after (p : Protocol) (s : MailboxServer) (w : NetWorld) : NetWorld :=
  match p with
  | Tcp => mkNetWorld (Some s) (nw_udp w) (S (nw_count w)) (nw_out w)
  | Udp => mkNetWorld (nw_tcp w) (Some s) (S (nw_count w)) (nw_out w)
  end.
Definition request (p : Protocol) (connect : outcome MailNetError unit) (peer : bytes → bytes)
    (exchange : bytes → outcome MailNetError bytes) (msg : NetworkMessage) : outcome MailNetError NetworkMessage :=
  match p with Tcp => request_tcp connect peer msg | Udp => request_udp exchange msg end.

Lemma on_wire_inv m : on_wire m = true → ∃ bs, bin_serialize m = Ok bs ∧ len bs ≤ MAX_DATAGRAM.
Proof. unfold on_wire. destruct (bin_serialize m) as [bs| |]; [|done..]. intros Hm. zbool. by exists bs. Qed.

(** A request that the server handles is answered, over either protocol. *)
Lemma ask_answered w p s s' msg r :
  server_of p w = Some s → MAX_DATAGRAM ≤ max_message_size (ms_config s) →
  handled (nw_count w) s msg = Some (s', Ok r) → on_wire msg = true → on_wire r = true →
  ∃ connect peer exchange, request p connect peer exchange msg = Ok r ∧
    ∀ A (f : _ → _ → _ → A), run_ask w p msg f = Some (after p s' w, f connect peer exchange).
Proof.
  intros Hs Hmax Hh (bs & Hbs & Hlen)%on_wire_inv (rs & Hrs & Hrlen)%on_wire_inv. unfold MAX_DATAGRAM in *.
  destruct p; cbn [server_of] in Hs; unfold ask; rewrite Hs; cbn [mbind option_bind request after].
  - assert (accepted fuel ids clock (nw_count w) s (framed bs) = Some (s', framed rs)) as Hacc.
    { unfold accepted.
      by rewrite (tcp_one fuel (λ _, (ids (nw_count w), clock (nw_count w))) s s' msg bs r rs Hbs ltac:(lia) ltac:(lia) Hh Hrs). }
    unfold wire. rewrite Hbs, Hacc. cbn [mbind option_bind]. eexists _, _, _. split; [|by intros A f].
    apply (request_tcp_reply _ msg bs r rs); [done| |done|lia]. cbn beta. by rewrite Hacc.
  - rewrite Hbs. rewrite (proj2 (Z.leb_le _ _)) by done.
    assert (udp_body (S (S fuel)) (ids (nw_count w)) (clock (nw_count w)) s bs = Some (s', Some rs)) as ->.
    { unfold udp_body. rewrite (ztake_all _ bs) by lia. rewrite (bin_roundtrip msg bs Hbs), Hh. cbn. by rewrite Hrs. }
    cbn [mbind option_bind]. rewrite (proj2 (Z.leb_le _ _)) by done. eexists _, _, _. split; [|by intros A f].
    unfold request_udp. rewrite Hbs. cbn [map_err mbind outcome_bind]. rewrite (ztake_all _ rs) by lia.
    by rewrite (bin_roundtrip r rs Hrs).
Qed.

(** The servers and the table of the specification. *)
Record net_repr (w : NetWorld) (t : NetTable) : Prop := {
  nr_server :
    match nt_server t with
    | None => nw_tcp w = None ∧ nw_udp w = None ∧ nt_table t = no_mail
    | Some (p, c) => ∃ s W, server_of p w = Some s ∧ serves s c W ∧ world_repr usable W (nt_table t) ∧
        MAX_DATAGRAM ≤ max_message_size (ms_config s)
    end;
  nr_count : nw_count w = nt_count t;
  nr_out : nw_out w = nt_out t
}.

Lemma server_after p s w : server_of p (after p s w) = Some s.
Proof. by destruct p. Qed.

Lemma ask_refines w t p msg t' r :
  roomy → net_repr w t → spec_ask usable ids clock p msg t = Some (t', r) →
  Forall (λ m, sendable m = true) (t_sent (nt_table t')) → Forall (λ m, on_wire m = true) (nt_wire t') →
  ∃ w' connect peer exchange, request p connect peer exchange msg = Ok r ∧ net_repr w' t' ∧
    ∀ A (f : _ → _ → _ → A), run_ask w p msg f = Some (w', f connect peer exchange).
Proof.
  intros Hroom [Hserver Hcount Hout]. unfold spec_ask. destruct (nt_server t) as [[q c]|]; [|done].
  destruct Hserver as (s & W & Hs & Hserves & Hrepr & Hmax).
  assert (∀ t1 c1 r1, spec_run usable (λ _, ids (nt_count t)) (λ _, clock (nt_count t)) (serve c msg) (nt_table t) = Some (t1, (c1, Ok r1)) →
    Forall (λ m, sendable m = true) (t_sent t1) → Forall (λ m, on_wire m = true) (nt_wire t ++ [msg; r1]) →
    ∃ w' connect peer exchange, request q connect peer exchange msg = Ok r1 ∧
      net_repr w' (mkNetTable (Some (q, c1)) t1 (S (nt_count t)) (nt_wire t ++ [msg; r1]) (nt_out t)) ∧
      ∀ A (f : _ → _ → _ → A), run_ask w q msg f = Some (w', f connect peer exchange)) as Hgo.
  { intros t1 c1 r1 Hrun Hsent [_ [Hm [Hr _]%Forall_cons]%Forall_cons]%Forall_app.
    destruct (client_run_refines usable (S fuel) _ _ _ W _ t1 _ Hroom Hrepr Hrun Hsent) as (W' & HW & Hrepr').
    destruct (server_is_client (S fuel) _ _ s c W msg W' c1 _ Hserves HW) as (s' & Hh & Hserves' & Hcfg).
    rewrite <- Hcount in Hh. destruct (ask_answered w q s s' msg r1 Hs Hmax Hh Hm Hr) as (connect & peer & exchange & Hreq & Hask).
    exists (after q s' w), connect, peer, exchange. split_and!; [done| |done]. split; cbn.
    - exists s', W'. rewrite server_after, Hcfg. done.
    - destruct q; cbn; by rewrite Hcount.
    - by destruct q. }
  destruct q, p; try done;
    (destruct (spec_run _ _ _ _ _) as [[t1 [c1 [r1| |]]]|] eqn:Hrun; [|done..]; cbn [mbind option_bind]; intros [= <- <-]; by apply Hgo).
Qed.

Definition hosted : Prop := ∃ sys, MailboxSystem_new dir = Ok sys ∧ opens usable sys.

Lemma new_system_empty sys : MailboxSystem_new dir = Ok sys → mailboxes sys = ∅.
Proof. unfold MailboxSystem_new. destruct (os_create_dir_all dir); [|done..]. by intros [= <-]. Qed.

Lemma net_call_refines {R} (c : net_call R) w t t' r :
  roomy → hosted → net_repr w t → spec_net_call usable ids clock c t = Some (t', r) →
  Forall (λ m, sendable m = true) (t_sent (nt_table t')) → Forall (λ m, on_wire m = true) (nt_wire t') →
  ∃ w', run_net_call dir fuel ids clock c w = Some (w', r) ∧ net_repr w' t'.
Proof.
  intros Hroom (sys & Hnew & Hopens) Hw. destruct c; cbn [spec_net_call run_net_call].
  - pose proof Hw as [Hserver Hcount Hout]. destruct (nt_server t) as [[]|]; [done|]. destruct Hserver as (Htcp & Hudp & Ht).
    destruct (_ <=? _) eqn:Hmax; [|done]. zbool. intros [= <- <-] _ _. rewrite Hnew. eexists. split; [done|].
    unfold start. cbn [MailboxServer_new ms_config].
    assert (serves (MailboxServer_new config sys) [] (mkWorld sys [] 0 [])) as Hs by (by split).
    pose proof (fresh_world_repr usable sys (new_system_empty sys Hnew) Hopens) as Hr.
    split; cbn; [|by destruct (nc_protocol config)..]. rewrite Ht. exists (MailboxServer_new config sys), (mkWorld sys [] 0 []).
    by destruct (nc_protocol config).
  - destruct (spec_ask _ _ _ _ _ _) as [[t1 r1]|] eqn:Hask; [|done]. cbn. intros [= <- <-] Hsent Hwire.
    destruct (ask_refines w t p _ t1 r1 Hroom Hw Hask Hsent Hwire) as (w' & connect & peer & exchange & Hreq & Hw' & Hrun).
    exists w'. rewrite Hrun. split; [|done]. do 2 f_equal.
    destruct p, subject as [subj|]; cbn [request] in Hreq;
      cbn [client_send client_send_with_subject]; unfold send_tcp, send_udp; by rewrite Hreq.
  - destruct (spec_ask _ _ _ _ _ _) as [[t1 r1]|] eqn:Hask; [|done]. cbn [mbind option_bind]. intros [= <- <-] Hsent Hwire.
    destruct (ask_refines w t p _ t1 r1 Hroom Hw Hask Hsent Hwire) as (w' & connect & peer & exchange & Hreq & Hw' & Hrun).
    exists w'. rewrite Hrun. split; [|done]. do 2 f_equal. unfold client_receive. destruct p; cbn [request] in Hreq; rewrite Hreq; by destruct r1.
  - intros [= <- <-] _ _. eexists. split; [done|]. destruct Hw as [Hserver Hcount Hout]. split; cbn; [|done|by rewrite Hout].
    destruct (nt_server t) as [[[] c]|]; done.
Qed.

(** Messages are only added. *)
Lemma spec_net_call_grows {R} (c : net_call R) t t' r :
  spec_net_call usable ids clock c t = Some (t', r) →
  (∃ more, t_sent (nt_table t') = t_sent (nt_table t) ++ more) ∧ ∃ more, nt_wire t' = nt_wire t ++ more.
Proof.
  assert (∀ p msg t1 r1, spec_ask usable ids clock p msg t = Some (t1, r1) →
    (∃ more, t_sent (nt_table t1) = t_sent (nt_table t) ++ more) ∧ ∃ more, nt_wire t1 = nt_wire t ++ more) as Hask.
  { intros p msg t1 r1. unfold spec_ask. destruct (nt_server t) as [[q c0]|]; [|done].
    destruct q, p; try done;
      (destruct (spec_run _ _ _ _ _) as [[t2 [c1 [r2| |]]]|] eqn:Hrun; [|done..]; cbn; intros [= <- <-]; cbn;
       split; [by eapply spec_run_sent|by eexists]). }
  destruct c; cbn [spec_net_call].
  - destruct (nt_server t) as [[]|]; [done|]. destruct (_ <=? _); [|done]. intros [= <- <-]. cbn. split; exists []; by rewrite app_nil_r.
  - destruct (spec_ask _ _ _ _ _ _) as [[t1 r1]|] eqn:Ha; [|done]. cbn. intros [= <- _]. by eapply Hask.
  - destruct (spec_ask _ _ _ _ _ _) as [[t1 r1]|] eqn:Ha; [|done]. cbn. intros [= <- _]. by eapply Hask.
  - intros [= <- <-]. cbn. split; exists []; by rewrite app_nil_r.
Qed.

Lemma spec_net_run_grows {A} (c : remote A) t t' a :
  spec_net_run usable ids clock c t = Some (t', a) →
  (∃ more, t_sent (nt_table t') = t_sent (nt_table t) ++ more) ∧ ∃ more, nt_wire t' = nt_wire t ++ more.
Proof.
  revert t. induction c as [b|R o k IH]; intros t; [intros [= <- <-]; split; exists []; by rewrite app_nil_r|].
  cbn [spec_net_run]. destruct (spec_net_call usable ids clock o t) as [[t1 r]|] eqn:Ho; [|done]. cbn. intros Hr.
  destruct (spec_net_call_grows o t t1 r Ho) as [[m1 H1'] [n1 H2']], (IH r t1 Hr) as [[m2 H3'] [n2 H4']].
  rewrite H3', H1', H4', H2', <- !app_assoc. split; by eexists.
Qed.

Lemma net_run_refines {A} (c : remote A) w t t' a :
  roomy → hosted → net_repr w t → spec_net_run usable ids clock c t = Some (t', a) →
  Forall (λ m, sendable m = true) (t_sent (nt_table t')) → Forall (λ m, on_wire m = true) (nt_wire t') →
  ∃ w', run_net dir fuel ids clock c w = Some (w', a) ∧ net_repr w' t'.
Proof.
  intros Hroom Hhosted. revert w t. induction c as [b|R o k IH]; intros w t Hw; [intros [= <- <-] _ _; by exists w|].
  cbn [spec_net_run run_net]. destruct (spec_net_call usable ids clock o t) as [[t1 r]|] eqn:Ho; [|done]. cbn. intros Hr Hsent Hwire.
  destruct (spec_net_run_grows (k r) t1 t' a Hr) as [[m Hm] [n Hn]]. pose proof Hsent as Hsent'. pose proof Hwire as Hwire'.
  rewrite Hm in Hsent'. rewrite Hn in Hwire'. apply Forall_app in Hsent' as [Hsent' _]. apply Forall_app in Hwire' as [Hwire' _].
  destruct (net_call_refines o w t t1 r Hroom Hhosted Hw Ho Hsent' Hwire') as (w1 & -> & Hw1). cbn. by apply (IH r w1 t1).
Qed.

Lemma no_servers_repr : net_repr no_servers no_server.
Proof. by split. Qed.
End over_the_wire.

(** ** Property *)
Section net_property.
Context `{ByteQueueOk} `{MessageCodecOk} `{Os} `{BincodeOk}.

(** C11. Every remote client gets the answers the specification gives it, over TCP
    and over UDP: a client for which the specification has a run (it starts one
    server, no mailbox holds too many messages and no two share a directory),
    whose mailbox messages can be encoded and are not too large and whose
    requests and answers fit in a datagram, returns what that run returns,
    having printed the same lines, and leaves every mailbox of the server
    holding the messages the specification says were sent to it. *)
Theorem remote_clients_see_logs {A} usable dir fuel ids clock (c : remote A) p h t a :
  roomy → hosted usable dir →
  spec_net_run usable ids clock c no_server = Some (t, a) → nt_server t = Some (p, h) →
  Forall (λ m, sendable m = true) (t_sent (nt_table t)) → Forall (λ m, on_wire m = true) (nt_wire t) →
  ∃ w s, run_net dir fuel ids clock c no_servers = Some (w, a) ∧ nw_out w = nt_out t ∧ server_of p w = Some s ∧
    ∀ address box, assoc address (t_boxes (nt_table t)) = Some box →
      ∃ q, mailboxes (ms_system s) !! address = Some q ∧ box_repr q box.
Proof.
  intros Hroom Hhosted Hrun Hp Hsent Hwire.
  destruct (net_run_refines usable dir fuel ids clock c _ _ t a Hroom Hhosted (no_servers_repr usable) Hrun Hsent Hwire) as (w & Hw & [Hserver _ Hout]).
  rewrite Hp in Hserver. destruct Hserver as (s & W & Hs & Hserves & Hrepr & _). exists w, s. split_and!; [done..|].
  intros address box Hbox. rewrite (sv_system _ _ _ Hserves). by eapply box_lookup.
Qed.
End net_property.

(** ** Notations for remote clients *)
Declare Scope remote_scope.
Delimit Scope remote_scope with remote.
Notation "x <-! c ; k" := (ask_must c (λ x, k)) (at level 100, c at level 90, k at level 200, right associativity) : remote_scope.
Notation "x <-? c ; k" := (ask_try c (λ x, k)) (at level 100, c at level 90, k at level 200, right associativity) : remote_scope.

(** Evaluating the specification one call at a time. *)
Ltac net_step :=
  cbn [ask_try ask_must net_print spec_net_run];
  lazymatch goal with
  | |- context [spec_net_call ?u ?i ?c ?call ?t] => client_value (spec_net_call u i c call t)
  end; cbn [mbind option_bind fst snd].
Ltac net_run := repeat net_step; cbn [ask_try ask_must net_print spec_net_run].

(** ** A concrete run over UDP *)
#[local] Existing Instances digit_codec digit_codec_ok persistq_queue mailbox_queues digit_bincode digit_bincode_ok.

Definition udp_config : NetworkConfig := mkNetConfig "127.0.0.1" 19091 Udp (10 * 1024 * 1024) 5000.

Lemma new_system_hosted u : (∀ a, u a = true → valid_address new_system a = true) → hosted u "/data".
Proof. intros Hu. exists new_system. split; [done|]. by apply new_system_opens. Qed.

(** Alice sends a message to herself and receives it. *)
Definition sample_remote : remote (outcome MailNetError (option MessageData)) := (
  _ <-? NetStart udp_config;
  _ <-? NetSend Udp "alice@dolda" "alice@dolda" (str_bytes "hi") None;
  Ask (NetReceive Udp "alice@dolda") Finish)%remote.

Lemma remote_clients_see_logs_witness :
  ∃ w, run_net "/data" 0 numbered Z.of_nat sample_remote no_servers =
    Some (w, Ok (Some (mkData "alice@dolda" "alice@dolda" "id0" 0 (str_bytes "hi") None))).
Proof.
  destruct (remote_clients_see_logs (λ a, String.eqb a "alice@dolda") "/data" 0 numbered Z.of_nat sample_remote
    Udp [("alice@dolda"%string, 0%nat)]
    (from_ok no_server (ok_or (fst <$> spec_net_run (λ a, String.eqb a "alice@dolda") numbered Z.of_nat sample_remote no_server) tt))
    (Ok (Some (mkData "alice@dolda" "alice@dolda" "id0" 0 (str_bytes "hi") None)))) as (w & s & Hw & _).
  - exact persistq_roomy.
  - apply new_system_hosted. intros a Ha. apply String.eqb_eq in Ha as ->. vm_compute; reflexivity.
  - vm_compute; reflexivity.
  - vm_compute; reflexivity.
  - by repeat constructor; vm_compute.
  - by repeat constructor; vm_compute.
  - exists w. exact Hw.
Defined.
