(* ===== verification/MailboxProcessor.v ===== *)
(** * Message processors (src/src/mailbox_processor.rs)

    A processor is attached to a mailbox and polled: each tick of its task
    receives one message and hands it to the processor, which may send to other
    mailboxes, each message under an id and a time of its own.  Ticks of
    different tasks interleave; each is atomic here.  The SQL layer is a
    parameter. *)

From stdpp Require Import base list numbers strings gmap pretty.
From Stdlib Require Import Strings.Byte.
From S2P Require Import Prelude Crc32 F64 StorageEngine PersistQueue ByteQueue Mailboxes.
Local Open Scope Z_scope.

(** Source: src/src/mailbox_processor.rs:43-62 (ProcessorError) *)
Inductive ProcessorError :=
  | PeMailbox (e : MailboxError)
  | PeDataFusion (e : string)
  | PeStorage (e : string)
  | PeSerialization (e : string)
  | PeIo (e : io_error)
  | PeProcessorNotFound (a : string).

(** Source: src/src/mailbox_processor.rs:66-73 (StorageBackend) *)
Inductive StorageBackend := Binary | Parquet (path : string).

(** Source: src/src/mailbox_processor.rs:151-165 (ProcessorConfig) *)
Record ProcessorConfig := mkProcessorConfig {
  enable_sql : bool; pc_storage_backend : StorageBackend; batch_size : Z; poll_interval_ms : Z }.

(** Source: src/src/mailbox_processor.rs:168-175 (ProcessorConfig::default) *)
Definition ProcessorConfig_default : ProcessorConfig := mkProcessorConfig false Binary 10 100.

(** The SQL layer of the crate, over the DataFusion library: a query gives
    record batches, written out as JSON by Arrow; an export writes a file. *)
Record DataFusionLayer := mkDataFusion {
  df_query : string → outcome string (list (outcome string bytes));
  df_export : string → string → outcome string unit
}.

(** The mailbox system is shared state, passed to the operations.
    Source: src/src/mailbox_processor.rs:75-88 (ProcessorContext) *)
Record ProcessorContext := mkContext {
  ctx_address : MailboxAddress;
  ctx_datafusion : option DataFusionLayer;
  ctx_storage_backend : StorageBackend
}.

(** What the processors share with the rest of the program: the mailbox system,
    and how many fresh ids and clock readings have been used up. *)
Record Shared `{ByteQueue} := mkShared { sh_system : MailboxSystem; sh_made : nat }.
Arguments mkShared {_} _ _.

Section processor.
Context `{ByteQueue} `{MessageCodec} `{Os}.

(** A call on the shared mailbox system; [None] when an append runs out of
    fuel. *)
Definition effect (A : Type) : Type := Shared → option (Shared * outcome ProcessorError A).

Definition ok {A} (a : A) : effect A := λ sh, Some (sh, Ok a).
Definition fail {A} (e : ProcessorError) : effect A := λ sh, Some (sh, Err e).
Definition bind {A B} (m : effect A) (f : A → effect B) : effect B := λ sh,
  match m sh with
  | Some (sh, Ok a) => f a sh
  | Some (sh, Err e) => Some (sh, Err e)
  | Some (sh, Panic) => Some (sh, Panic)
  | None => None
  end.

(** The fuel of appends, and the ids and the times of the messages in the order
    they are made. *)
Context (fuel : nat) (ids : nat → string) (clock : nat → Z).

(** Source: src/src/mailbox_processor.rs:91-102 (ProcessorContext::send_to) *)
Definition ctx_send_to (ctx : ProcessorContext) (to : string) (body : bytes) : effect unit := λ sh,
  let n := sh_made sh in
  match get_mailbox (sh_system sh) (as_str (ctx_address ctx)) with
  | Ok (Some mailbox) =>
      match send_to fuel (ids n) (clock n) (sh_system sh) mailbox to body with
      | Some (sys, r) => Some (mkShared sys (S n), _ ← map_err PeMailbox r; Ok tt)
      | None => None
      end
  | Ok None => Some (sh, Err (PeMailbox (MailboxNotFound (as_str (ctx_address ctx)))))
  | Err e => Some (sh, Err (PeMailbox e))
  | Panic => Some (sh, Panic)
  end.

(** Source: src/src/mailbox_processor.rs:104-114 (ProcessorContext::query) *)
Definition ctx_query (ctx : ProcessorContext) (sql : string)
    : outcome ProcessorError (list (outcome string bytes)) :=
  match ctx_datafusion ctx with
  | Some df => map_err PeDataFusion (df_query df sql)
  | None => Err (PeDataFusion "DataFusion not enabled for this mailbox")
  end.

(** Source: src/src/mailbox_processor.rs:116-126 (ProcessorContext::export_parquet) *)
Definition ctx_export_parquet (ctx : ProcessorContext) (sql path : string)
    : outcome ProcessorError unit :=
  match ctx_datafusion ctx with
  | Some df => map_err PeDataFusion (df_export df sql path)
  | None => Err (PeDataFusion "DataFusion not enabled for this mailbox")
  end.

(** Source: src/src/mailbox_processor.rs:134-149 (MailboxProcessor) *)
Record Processor := mkProcessor {
  process : ProcessorContext → Message → effect unit;
  init : ProcessorContext → effect unit;
  shutdown : ProcessorContext → effect unit
}.

(** *** The built-in processors *)

(** Source: src/src/mailbox_processor.rs:360-363 (EchoProcessor::process) *)
Definition EchoProcessor : Processor :=
  mkProcessor (λ ctx msg, ctx_send_to ctx (as_str (msg_from msg)) (msg_body msg))
    (λ _, ok tt) (λ _, ok tt).

Fixpoint send_batches (ctx : ProcessorContext) (output_mailbox : string)
    (results : list (outcome string bytes)) : effect unit :=
  match results with
  | [] => ok tt
  | Ok buf :: results =>
      bind (ctx_send_to ctx output_mailbox buf) (λ _, send_batches ctx output_mailbox results)
  | Err e :: _ => fail (PeStorage e)
  | Panic :: _ => λ sh, Some (sh, Panic)
  end.

(** Source: src/src/mailbox_processor.rs:380-400 (AggregationProcessor::process) *)
Definition AggregationProcessor (query output_mailbox : string) : Processor :=
  mkProcessor (λ ctx _,
      match ctx_query ctx query with
      | Ok results => send_batches ctx output_mailbox results
      | Err e => fail e
      | Panic => λ sh, Some (sh, Panic)
      end)
    (λ _, ok tt) (λ _, ok tt).

(** Source: src/src/mailbox_processor.rs:420-425 (FilterProcessor::process) *)
Definition FilterProcessor (predicate : Message → bool) (output_mailbox : string) : Processor :=
  mkProcessor (λ ctx msg,
      if predicate msg then ctx_send_to ctx output_mailbox (msg_body msg) else ok tt)
    (λ _, ok tt) (λ _, ok tt).

(** Source: src/src/mailbox_processor.rs:445-449 (TransformProcessor::process) *)
Definition TransformProcessor (transform : bytes → bytes) (output_mailbox : string) : Processor :=
  mkProcessor (λ ctx msg, ctx_send_to ctx output_mailbox (transform (msg_body msg)))
    (λ _, ok tt) (λ _, ok tt).

(** Source: src/src/mailbox_processor.rs:473-488 (ParquetExportProcessor::process) *)
Definition ParquetExportProcessor (output_dir : string) : Processor :=
  mkProcessor (λ ctx _ sh,
      let now := clock (sh_made sh) in
      let output_path := output_dir +:+ "/export_" +:+ pretty (now `div` 1000000) +:+ ".parquet" in
      Some (mkShared (sh_system sh) (S (sh_made sh)), ctx_export_parquet ctx "SELECT * FROM messages" output_path))
    (λ _ sh, Some (sh, map_err PeIo (os_create_dir_all output_dir))) (λ _, ok tt).

(** *** The manager *)

(** The entry of a registered processor, with the mailbox handle and the
    context of its task: replacing or removing an entry closes the shutdown
    channel, which ends the task.
    Source: src/src/mailbox_processor.rs:187-192 (ProcessorEntry) *)
Record ProcessorEntry := mkEntry {
  pe_processor : Processor; pe_config : ProcessorConfig; pe_mailbox : Mailbox;
  pe_context : ProcessorContext }.

(** Source: src/src/mailbox_processor.rs:178-185 (ProcessorManager) *)
Record ProcessorManager := mkProcessorManager {
  processors : gmap string ProcessorEntry; pm_shared : Shared }.
Definition pm_system (m : ProcessorManager) : MailboxSystem := sh_system (pm_shared m).

(** Source: src/src/mailbox_processor.rs:195-201 (ProcessorManager::new) *)
Definition ProcessorManager_new (shared : Shared) : ProcessorManager :=
  mkProcessorManager ∅ shared.

(** Source: src/src/mailbox_processor.rs:203-284 (ProcessorManager::register_processor) *)
Definition register_processor (m : ProcessorManager) (address : string) (processor : Processor)
    (config : ProcessorConfig) : option (ProcessorManager * outcome ProcessorError unit) :=
  match MailboxAddress_new address with
  | Err e => Some (m, Err (PeMailbox e))
  | Panic => Some (m, Panic)
  | Ok addr =>
      match get_mailbox (pm_system m) address with
      | Err e => Some (m, Err (PeMailbox e))
      | Panic => Some (m, Panic)
      | Ok None => Some (m, Err (PeMailbox (MailboxNotFound address)))
      | Ok (Some mailbox) =>
          let ctx := mkContext addr None (pc_storage_backend config) in
          match init processor ctx (pm_shared m) with
          | None => None
          | Some (sh, Ok _) =>
              Some (mkProcessorManager
                      (<[as_str addr := mkEntry processor config mailbox ctx]> (processors m)) sh,
                    Ok tt)
          | Some (sh, Err e) => Some (mkProcessorManager (processors m) sh, Err e)
          | Some (sh, Panic) => Some (mkProcessorManager (processors m) sh, Panic)
          end
      end
  end.

(** The handle is the task's own: receiving moves its offset.
    Source: src/src/mailbox_processor.rs:286-297 (ProcessorManager::process_messages) *)
Definition process_messages (entry : ProcessorEntry) (sh : Shared)
    : option (Shared * Mailbox * outcome ProcessorError unit) :=
  let mailbox := pe_mailbox entry in
  match mailboxes (sh_system sh) !! as_str (mb_address mailbox) with
  | None => Some (sh, mailbox, Panic)
  | Some queue =>
      match receive queue mailbox with
      | (mailbox, Ok (Some msg)) =>
          match process (pe_processor entry) (pe_context entry) msg sh with
          | None => None
          | Some (sh, r) => Some (sh, mailbox, r)
          end
      | (mailbox, Ok None) => Some (sh, mailbox, Ok tt)
      | (mailbox, Err e) => Some (sh, mailbox, Err (PeMailbox e))
      | (mailbox, Panic) => Some (sh, mailbox, Panic)
      end
  end.

(** One tick of the task of an address; an error is only logged.
    Source: src/src/mailbox_processor.rs:247-270 (ProcessorManager::register_processor, task) *)
Definition task_tick (m : ProcessorManager) (address : string) : option ProcessorManager :=
  match processors m !! address with
  | None => Some m
  | Some entry =>
      '(sh, mailbox, _) ← process_messages entry (pm_shared m);
      Some (mkProcessorManager
        (<[address := mkEntry (pe_processor entry) (pe_config entry) mailbox (pe_context entry)]>
           (processors m)) sh)
  end.

(** Source: src/src/mailbox_processor.rs:299-325 (ProcessorManager::unregister_processor) *)
Definition unregister_processor (m : ProcessorManager) (address : string)
    : option (ProcessorManager * outcome ProcessorError unit) :=
  match MailboxAddress_new address with
  | Err e => Some (m, Err (PeMailbox e))
  | Panic => Some (m, Panic)
  | Ok addr =>
      match processors m !! as_str addr with
      | None => Some (m, Ok tt)
      | Some entry =>
          let ctx := mkContext addr None (pc_storage_backend (pe_config entry)) in
          '(sh, r) ← shutdown (pe_processor entry) ctx (pm_shared m);
          Some (mkProcessorManager (delete (as_str addr) (processors m)) sh, r)
      end
  end.

(** The entries in the order of [map_to_list]: a [HashMap] has none.
    Source: src/src/mailbox_processor.rs:327-350 (ProcessorManager::shutdown_all) *)
Definition shutdown_all (m : ProcessorManager) : option (ProcessorManager * outcome ProcessorError unit) :=
  let close acc kv :=
    '(m : ProcessorManager) ← acc;
    let '(addr, entry) := (kv : string * ProcessorEntry) in
    let ctx := mkContext (mkAddress addr) None (pc_storage_backend (pe_config entry)) in
    '(sh, _) ← shutdown (pe_processor entry) ctx (pm_shared m);
    Some (mkProcessorManager (delete addr (processors m)) sh) in
  m ← foldl close (Some m) (map_to_list (processors m)); Some (m, Ok tt).
End processor.

Section processor_lemmas.
Context `{ByteQueueOk} `{MessageCodecOk} `{Os}.
Context (fuel : nat) (ids : nat → string) (clock : nat → Z).

(** A processor that answers each message with one message. *)
Definition forwards (p : Processor) (dest : Message → string) (f : Message → bytes) : Prop :=
  ∀ ctx msg, process p ctx msg = ctx_send_to fuel ids clock ctx (dest msg) (f msg).

Lemma echo_forwards :
  forwards (EchoProcessor fuel ids clock) (λ m, as_str (msg_from m)) msg_body.
Proof. done. Qed.
Lemma transform_forwards f output :
  forwards (TransformProcessor fuel ids clock f output) (λ _, output) (λ m, f (msg_body m)).
Proof. done. Qed.

(** The registered task of address [a], whose handle has one message waiting. *)
Record waiting (m : ProcessorManager) (a : string) (p : Processor) (q : bqueue)
    (done : list Message) (msg : Message) : Prop := {
  wt_entry : ∃ c ctx, processors m !! a =
    Some (mkEntry p c (mkMailbox (mkAddress a) (len done)) ctx) ∧ ctx_address ctx = mkAddress a;
  wt_name : a ≠ EmptyString;
  wt_queue : mailboxes (pm_system m) !! a = Some q;
  wt_box : box_repr q (done ++ [msg]);
  wt_len : len done < 2 ^ 64 - 1
}.

(** What a tick does with the waiting message. *)
Lemma tick_waiting m a p q l msg r sh' :
  waiting m a p q l msg →
  (∀ ctx, ctx_address ctx = mkAddress a → process p ctx msg (pm_shared m) = Some (sh', r)) →
  ∃ c ctx, ctx_address ctx = mkAddress a ∧ task_tick m a = Some (mkProcessorManager
    (<[a := mkEntry p c (mkMailbox (mkAddress a) (len l + 1)) ctx]> (processors m)) sh').
Proof.
  intros [(c & ctx & He & Hctx) Ha Hq Hbox Hlen] Hp. exists c, ctx. split; [done|].
  pose proof (len_nonneg l). pose proof (receive_box q _ (mkAddress a) (len l) Hbox ltac:(lia)) as Hr.
  rewrite drop_len in Hr. cbn in Hr.
  unfold task_tick. rewrite He. unfold process_messages. cbn [pe_mailbox mb_address as_str].
  unfold pm_system in Hq. rewrite Hq, Hr. cbn [pe_processor pe_context]. by rewrite Hp.
Qed.

(** Processing is at most once.  A tick of a processor that answers each
    message (the echo and transform processors do) consumes the waiting
    message; when the destination exists and has room, exactly the answer,
    sent from the processor's address under a fresh id and time, is appended to
    its queue; when it does
    not exist, the message is consumed all the same and nothing is sent. *)
Lemma tick_forwards_at_most_once m a p q l msg dest f qd msgs bs :
  waiting m a p q l msg → forwards p dest f → dest msg ≠ EmptyString →
  let n := sh_made (pm_shared m) in
  let answer := Message_new (ids n) (clock n) (mkAddress a) (mkAddress (dest msg)) (f msg) in
  match mailboxes (pm_system m) !! dest msg with
  | None => ∃ c ctx, task_tick m a = Some (mkProcessorManager
      (<[a := mkEntry p c (mkMailbox (mkAddress a) (len l + 1)) ctx]> (processors m)) (mkShared (pm_system m) (S n)))
  | Some qd' =>
      qd' = qd → bq_repr qd msgs → json_to_vec answer = Ok bs → bq_room msgs bs → (0 < fuel)%nat →
      ∃ c ctx sys' qd2, task_tick m a = Some (mkProcessorManager
          (<[a := mkEntry p c (mkMailbox (mkAddress a) (len l + 1)) ctx]> (processors m)) (mkShared sys' (S n))) ∧
        mailboxes sys' = <[dest msg := qd2]> (mailboxes (pm_system m)) ∧
        bq_repr qd2 (msgs ++ [bs])
  end.
Proof.
  intros Hw Hf Hd n answer.
  assert (∀ ctx, ctx_address ctx = mkAddress a → process p ctx msg (pm_shared m) =
    match route_message fuel (pm_system m) answer with
    | Some (sys, r) => Some (mkShared sys (S n), _ ← map_err PeMailbox r; Ok tt)
    | None => None
    end) as Hp.
  { intros ctx Hctx. rewrite Hf. unfold ctx_send_to, get_mailbox, send_to. rewrite Hctx. cbn [as_str].
    rewrite address_new by apply (wt_name _ _ _ _ _ _ Hw). cbn. pose proof (wt_queue _ _ _ _ _ _ Hw) as Hqa. unfold pm_system in Hqa. rewrite Hqa.
    by rewrite address_new. }
  destruct (mailboxes (pm_system m) !! dest msg) as [qd'|] eqn:Hlk.
  - intros -> Hq Hj Hroom Hfuel. destruct fuel as [|fl]; [lia|].
    destruct (route_delivers fl (pm_system m) answer qd msgs bs) as (q2 & Hr & Hq2);
      [exact Hlk|done..|]. rewrite Hr in Hp.
    destruct (tick_waiting m a p q l msg _ _ Hw Hp) as (c & ctx & _ & Ht).
    eexists c, ctx, _, q2. split; [exact Ht|]. by split.
  - unfold route_message in Hp. cbn [answer Message_new msg_to as_str] in Hp. rewrite Hlk in Hp.
    destruct (tick_waiting m a p q l msg _ _ Hw Hp) as (c & ctx & _ & Ht). by exists c, ctx.
Qed.
End processor_lemmas.

(** ** Concrete runs *)
#[local] Existing Instances byte_countable address_countable Message_eq_dec message_countable
  digit_codec digit_codec_ok persistq_queue sample_queues.

(** Alice's message waits in bob's queue; bob runs the echo processor. *)
Definition echo_system : MailboxSystem :=
  mkSystem (<[ "bob@dolda"%string := push (sample_queue 1) (hello_bytes 1) ]>
             {[ "alice@dolda"%string := sample_queue 1 ]}) "/data" (sample_config 1).

Definition answer_id (n : nat) : string := "r" +:+ pretty n.
Definition echo_manager : ProcessorManager :=
  mkProcessorManager
    {[ "bob@dolda"%string := mkEntry (EchoProcessor 1 answer_id Z.of_nat) ProcessorConfig_default
         (mkMailbox (mkAddress "bob@dolda") 0) (mkContext (mkAddress "bob@dolda") None Binary) ]}
    (mkShared echo_system 9).

Lemma echo_box : box_repr (push (sample_queue 1) (hello_bytes 1) : @bqueue persistq_queue) [hello 1].
Proof.
  destruct (queue_append (sample_queue 1) [] (hello_bytes 1) 0 5 7 sample_queue_repr)
    as (q1 & Ha1 & Hq1 & Hc1); [done|by vm_compute|].
  exists [hello_bytes 1]. split; [|by repeat constructor]. unfold push. rewrite Ha1.
  split_and!; [exact Hq1|by rewrite Hc1|by rewrite Hc1].
Qed.

Lemma tick_forwards_at_most_once_witness :
  ∃ c ctx sys' q2, task_tick echo_manager "bob@dolda" = Some (mkProcessorManager
      (<[ "bob@dolda"%string := mkEntry (EchoProcessor 1 answer_id Z.of_nat) c (mkMailbox (mkAddress "bob@dolda") 1) ctx ]>
         (processors echo_manager)) (mkShared sys' 10)) ∧
    mailboxes sys' = <[ "alice@dolda"%string := q2 ]> (mailboxes echo_system).
Proof.
  destruct (tick_forwards_at_most_once 1 answer_id Z.of_nat echo_manager "bob@dolda" (EchoProcessor 1 answer_id Z.of_nat)
    (push (sample_queue 1) (hello_bytes 1) : @bqueue persistq_queue) [] (hello 1)
    (λ m, as_str (msg_from m)) msg_body (sample_queue 1) []
    (pos_digits (encode (Message_new "r9" 9 (mkAddress "bob@dolda") (mkAddress "alice@dolda")
       (str_bytes "hi"))))) as (c & ctx & sys' & q2 & Ht & Hm & _).
  - split; [by eexists _, _|done|reflexivity|apply echo_box|done].
  - apply echo_forwards.
  - done.
  - reflexivity.
  - split_and!; [apply sample_queue_repr|done|done].
  - reflexivity.
  - by vm_compute.
  - lia.
  - exists c, ctx, sys', q2. split; [exact Ht|exact Hm].
Defined.
