(* ===== verification/Errors.v ===== *)
(** * The crate's error type (src/src/lib.rs)

    [DOLDAError] gathers the errors of the components. *)

From stdpp Require Import base strings.
From S2P Require Import Prelude RecordFormat StorageEngine Compaction Network Raft Resilience Mailboxes MailboxProcessor.
Local Open Scope Z_scope.

(** The errors of bincode and of the SQL layer are their texts.
    Source: src/src/lib.rs:43-93 (DOLDAError) *)
Inductive DOLDAError :=
  | DoldaIo (e : io_kind)
  | DoldaNetwork (e : string)
  | DoldaPartition (e : string)
  | DoldaFilesystem (e : string)
  | DoldaNode (e : string)
  | DoldaConfig (e : string)
  | DoldaSerialization (e : string)
  | DoldaStorage (e : StorageError)
  | DoldaRecord (e : RecordError)
  | DoldaCompaction (e : CompactionError)
  | DoldaResilience (e : ResilienceError)
  | DoldaNetworkLayer (e : NetworkError)
  | DoldaRaft (e : RaftError)
  | DoldaDataFusion (e : string)
  | DoldaMailbox (e : MailboxError)
  | DoldaProcessor (e : ProcessorError).
