(* ===== verification/Node.v ===== *)
(** * Nodes (src/src/types.rs, src/src/node.rs)

    The shared types of the distributed layer and one node: its life cycle,
    health, partitions, worker task, and the framing of its messages.  Binding a
    socket, parsing a socket address and encoding a message are parameters. *)

From stdpp Require Import base list numbers strings gmap pretty.
From Stdlib Require Import Strings.Byte.
From S2P Require Import Prelude F64 Network Errors.
Local Open Scope Z_scope.

(** Source: src/src/types.rs:21-22 (BLOCK_SIZE) *)
Definition BLOCK_SIZE : Z := 4096.
(** Source: src/src/types.rs:24-25 (MAX_PARTITIONS) *)
Definition MAX_PARTITIONS : Z := 65536.
(** Source: src/src/types.rs:27-28 (MAX_SHARDS_PER_PARTITION) *)
Definition MAX_SHARDS_PER_PARTITION : Z := 32.
(** Source: src/src/types.rs:18-19 (DEFAULT_DATA_PORT_BASE) *)
Definition DEFAULT_DATA_PORT_BASE : Z := 25081.

(** Source: src/src/types.rs:36-45 (NodeType) *)
Inductive NodeType := Control | Data | Mixed.
(** Source: src/src/types.rs:57-68 (NodeState) *)
Inductive NodeState := Init | Active | Degraded | Offline.
(** Source: src/src/types.rs:81-94 (FileType) *)
Inductive FileType := FileData | FileMetadata | FileIndex | FileLog | FileTemp.
(** Source: src/src/types.rs:108-119 (PartitionStrategy) *)
Inductive PartitionStrategy := ByHash | ByRange | ByList | RoundRobin.
(** Source: src/src/types.rs:132-139 (PartitionKeyType) *)
Inductive PartitionKeyType := StringKey | IntegerKey | TimestampKey | CompositeKey.

#[export] Instance NodeType_eq_dec : EqDecision NodeType.
Proof. solve_decision. Defined.
#[export] Instance NodeState_eq_dec : EqDecision NodeState.
Proof. solve_decision. Defined.

(** Source: src/src/types.rs:152-167 (NodeResources) *)
Record NodeResources := mkResources {
  total_memory : Z; available_memory : Z; total_storage : Z; available_storage : Z;
  cpu_cores : Z; cpu_usage : f64 }.

(** Source: src/src/types.rs:170-179 (NodeResources::default) *)
Definition NodeResources_default : NodeResources :=
  mkResources (8 * 1024 * 1024 * 1024) (6 * 1024 * 1024 * 1024) (100 * 1024 * 1024 * 1024)
    (80 * 1024 * 1024 * 1024) 4 (f64_of_int 25).

(** Source: src/src/types.rs:182-197 (FileAttrs) *)
Record FileAttrs := mkAttrs {
  fa_size : Z; fa_created_time : Z; fa_modified_time : Z; fa_permissions : Z;
  fa_file_type : FileType; fa_replica_count : Z }.

(** Source: src/src/types.rs:200-214 (FileAttrs::default) *)
Definition FileAttrs_default (now : Z) : FileAttrs := mkAttrs 0 now now 420 FileData 3.

(** [socket_addr] is the parsed address, printed.
    Source: src/src/types.rs:217-227 (NetworkEndpoint) *)
Record NetworkEndpoint := mkEndpoint { ep_ip : string; ep_port : Z; ep_socket_addr : option string }.

(** Source: src/src/types.rs:240-249 (BlockLocation) *)
Record BlockLocation := mkBlock { bl_node_id : Z; bl_offset : Z; bl_size : Z }.

(** Source: src/src/node.rs:16-24 (NodeConfig) *)
Record NodeConfig := mkNodeConfig {
  nc_name : string; nc_node_type : NodeType; nc_ip : string; nc_port : Z;
  nc_resources : NodeResources }.

(** Source: src/src/node.rs:27-35 (NodeConfig::default) *)
Definition NodeConfig_default : NodeConfig :=
  mkNodeConfig "default-node" Data "127.0.0.1" DEFAULT_DATA_PORT_BASE NodeResources_default.

(** The command channel is the queue of [worker] below.
    Source: src/src/node.rs:38-60 (Node) *)
Record Node := mkNode {
  node_id : Z; nd_config : NodeConfig; nd_state : NodeState; nd_endpoint : NetworkEndpoint;
  nd_last_heartbeat : Z; nd_failure_count : Z; owned_partitions : list Z;
  nd_listener : option string }.

(** Source: src/src/node.rs:62-75 (NodeCommand) *)
Inductive NodeCommand := CmdStart | CmdStop | CmdHeartbeat | CmdHandleConnection | CmdUpdateResources.

(** Source: src/src/node.rs:77-90 (NodeMessage) *)
Inductive NodeMessage :=
  | HeartbeatMsg (node_id timestamp : Z)
  | DataRequest (partition_id offset size : Z)
  | DataResponse (data : bytes)
  | MetadataSync (file_path : string) (attrs : FileAttrs)
  | PartitionAssignment (partition_id node_id : Z).

Definition node_type (n : Node) : NodeType := nc_node_type (nd_config n).
Definition set_id (n : Node) (id : Z) : Node :=
  mkNode id (nd_config n) (nd_state n) (nd_endpoint n) (nd_last_heartbeat n) (nd_failure_count n)
    (owned_partitions n) (nd_listener n).
Definition set_nd_state (n : Node) (s : NodeState) : Node :=
  mkNode (node_id n) (nd_config n) s (nd_endpoint n) (nd_last_heartbeat n) (nd_failure_count n)
    (owned_partitions n) (nd_listener n).
Definition set_heartbeat (n : Node) (now : Z) : Node :=
  mkNode (node_id n) (nd_config n) (nd_state n) (nd_endpoint n) now (nd_failure_count n)
    (owned_partitions n) (nd_listener n).
Definition set_failures (n : Node) (k : Z) : Node :=
  mkNode (node_id n) (nd_config n) (nd_state n) (nd_endpoint n) (nd_last_heartbeat n) k
    (owned_partitions n) (nd_listener n).
Definition set_partitions (n : Node) (l : list Z) : Node :=
  mkNode (node_id n) (nd_config n) (nd_state n) (nd_endpoint n) (nd_last_heartbeat n)
    (nd_failure_count n) l (nd_listener n).
Definition set_listener (n : Node) (l : option string) : Node :=
  mkNode (node_id n) (nd_config n) (nd_state n) (nd_endpoint n) (nd_last_heartbeat n)
    (nd_failure_count n) (owned_partitions n) l.
Definition set_resources (n : Node) (r : NodeResources) : Node :=
  mkNode (node_id n)
    (mkNodeConfig (nc_name (nd_config n)) (node_type n) (nc_ip (nd_config n)) (nc_port (nd_config n)) r)
    (nd_state n) (nd_endpoint n) (nd_last_heartbeat n) (nd_failure_count n) (owned_partitions n)
    (nd_listener n).

(** The network of the host: parsing an address, binding a listener. *)
Class NetEnv := {
  parse_socket_addr : string → option string;
  tcp_bind : string → outcome io_kind string
}.

(** The codec of [NodeMessage] (bincode). *)
Class NodeCodec := {
  node_serialize : NodeMessage → outcome string bytes;
  node_deserialize : bytes → outcome string NodeMessage
}.
Class NodeCodecOk `{NodeCodec} := {
  node_roundtrip m bs : node_serialize m = Ok bs → node_deserialize bs = Ok m
}.

Section node.
Context `{NetEnv}.

Definition address_text (ip : string) (port : Z) : string := ip +:+ ":" +:+ pretty port.

(** Source: src/src/types.rs:230-237 (NetworkEndpoint::new) *)
Definition NetworkEndpoint_new (ip : string) (port : Z) : NetworkEndpoint :=
  mkEndpoint ip port (parse_socket_addr (address_text ip port)).

(** The first endpoint of the source's body is overwritten before it is read.
    Source: src/src/node.rs:93-117 (Node::new) *)
Definition Node_new (now : Z) (config : NodeConfig) : outcome DOLDAError Node :=
  Ok (mkNode 0 config Init (NetworkEndpoint_new (nc_ip config) (nc_port config)) now 0 [] None).

(** A failing [bind] leaves the node marked active.  The worker task the source
    spawns at the end is [worker] below.
    Source: src/src/node.rs:119-141 (Node::start) *)
Definition Node_start (now : Z) (n : Node) : Node * outcome DOLDAError unit :=
  let n := set_nd_state n Active in
  let n := set_heartbeat n now in
  if bool_decide (node_type n ≠ Control) then
    match tcp_bind (address_text (nc_ip (nd_config n)) (nc_port (nd_config n))) with
    | Ok l => (set_listener n (Some l), Ok tt)
    | Err e => (n, Err (DoldaIo e))
    | Panic => (n, Panic)
    end
  else (n, Ok tt).

(** Source: src/src/node.rs:143-148 (Node::stop) *)
Definition Node_stop (n : Node) : Node := set_listener (set_nd_state n Offline) None.

(** The future of the async [stop] is dropped without being polled, so its body
    does not run.
    Source: src/src/node.rs:279-282 (Node::drop) *)
Definition Node_drop (n : Node) : Node := n.

(** [connect] is the outcome of dialing an address.
    Source: src/src/node.rs:150-158 (Node::connect_to) *)
Definition connect_to (connect : string → outcome io_kind stream) (target : Node)
    : outcome DOLDAError stream :=
  match ep_socket_addr (nd_endpoint target) with
  | Some addr => map_err DoldaIo (connect addr)
  | None => Err (DoldaNetwork "Invalid socket address")
  end.

(** [now - last_heartbeat] wraps.
    Source: src/src/node.rs:194-201 (Node::is_healthy) *)
Definition node_is_healthy (now : Z) (n : Node) : bool :=
  bool_decide (nd_state n = Active) && (u64 (now - nd_last_heartbeat n) <? 30000).

(** Source: src/src/node.rs:203-212 (Node::load_factor) *)
Definition load_factor (n : Node) : f64 :=
  let r := nc_resources (nd_config n) in
  let usage available total := f64_sub (f64_of_int 1) (f64_div (f64_of_int available) (f64_of_int total)) in
  let memory_usage := usage (available_memory r) (total_memory r) in
  let storage_usage := usage (available_storage r) (total_storage r) in
  let cpu := f64_div (cpu_usage r) (f64_of_int 100) in
  f64_div (f64_add (f64_add memory_usage storage_usage) cpu) (f64_of_int 3).

(** Source: src/src/node.rs:214-221 (Node::update_resources) *)
Definition update_resources (n : Node) : Node :=
  let r := nc_resources (nd_config n) in
  set_resources n
    (mkResources (total_memory r) (saturating_sub (available_memory r) (1024 * 1024))
       (total_storage r) (available_storage r) (cpu_cores r)
       (f64_rem (f64_add (cpu_usage r) (f64_of_int 1)) (f64_of_int 100))).

(** Source: src/src/node.rs:223-229 (Node::add_partition) *)
Definition add_partition (n : Node) (partition_id : Z) : Node :=
  if bool_decide (partition_id ∈ owned_partitions n) then n
  else set_partitions n (owned_partitions n ++ [partition_id]).

(** Source: src/src/node.rs:231-235 (Node::remove_partition) *)
Definition remove_partition (n : Node) (partition_id : Z) : Node :=
  set_partitions n (filter (λ id, id ≠ partition_id) (owned_partitions n)).
End node.

(** *** Messages between nodes *)
Section messages.
Context `{NodeCodec}.

(** Source: src/src/node.rs:160-176 (Node::send_message) *)
Definition send_message (s : stream) (message : NodeMessage) : stream * outcome DOLDAError unit :=
  match map_err DoldaSerialization (node_serialize message) with
  | Ok data =>
      match write_all (to_be_bytes 4 (u32 (len data))) s with
      | (s, Ok _) => let '(s, r) := write_all data s in (s, map_err DoldaIo r)
      | (s, Err e) => (s, Err (DoldaIo e))
      | (s, Panic) => (s, Panic)
      end
  | Err e => (s, Err e)
  | Panic => (s, Panic)
  end.

(** Source: src/src/node.rs:178-192 (Node::receive_message) *)
Definition receive_message (s : stream) : stream * outcome DOLDAError NodeMessage :=
  match read_exact 4 s with
  | (s, Ok size_buf) =>
      match read_exact (from_be_bytes size_buf) s with
      | (s, Ok data) => (s, map_err DoldaSerialization (node_deserialize data))
      | (s, Err e) => (s, Err (DoldaIo e))
      | (s, Panic) => (s, Panic)
      end
  | (s, Err e) => (s, Err (DoldaIo e))
  | (s, Panic) => (s, Panic)
  end.
End messages.

(** *** The worker task

    The worker, its command queue, and whether its loop is still running. *)
Record worker := mkWorker { wk_node : Node; wk_queue : list NodeCommand; wk_running : bool }.

(** A command sent to the node, a [stop] of the node, or one turn of the
    worker's loop that takes a command or sleeps. *)
Inductive worker_event := Sent (c : NodeCommand) | Stopped | Turn (now : Z) (takes : bool).

(** Inside the loop ([running]), a turn takes a command or lets the timer fire
    (on an empty queue only the timer can), then the state is checked again.
    Source: src/src/node.rs:246-275 (Node::run_worker) *)
Definition worker_step (w : worker) (e : worker_event) : worker :=
  let '(mkWorker n q running) := w in
  match e with
  | Sent c => mkWorker n (q ++ [c]) running
  | Stopped => mkWorker (Node_stop n) q running
  | Turn now takes =>
      if running then
        let '(n, q, again) :=
          match takes, q with
          | true, CmdStop :: q => (n, q, false)
          | true, CmdHeartbeat :: q => (set_heartbeat n now, q, true)
          | true, _ :: q => (n, q, true)
          | _, _ => (n, q, true)
          end in
        mkWorker n q (again && bool_decide (nd_state n = Active))
      else w
  end.

(** The worker as [start] spawns it. *)
Definition worker_spawn (n : Node) : worker := mkWorker n [] (bool_decide (nd_state n = Active)).

(** ** Lemmas *)

(** What is sent is received. *)
Lemma message_received `{NodeCodecOk} s s' m rest out :
  send_message s m = (s', Ok tt) → (∀ bs, node_serialize m = Ok bs → len bs < 2 ^ 32) →
  ∃ bs, tx s' = tx s ++ bs ∧
    receive_message (mkStream (bs ++ rest) out) = (mkStream rest out, Ok m).
Proof.
  unfold send_message. destruct (node_serialize m) as [bs| |] eqn:Hm; [|done..].
  cbn [map_err]. intros Hs Hlen. specialize (Hlen bs eq_refl). pose proof (len_nonneg bs).
  rewrite wrap_id in Hs by (unfold in_range; lia).
  destruct (write_all (to_be_bytes 4 (len bs)) s) as [s1 [[]| |]] eqn:H1w; [|done..].
  destruct (write_all bs s1) as [s2 r] eqn:H2w. destruct r as [[]| |]; try done. simplify_eq.
  apply write_all_ok in H1w, H2w. rewrite H1w, <- app_assoc in H2w.
  exists (to_be_bytes 4 (len bs) ++ bs). split; [done|]. clear H1w H2w. unfold receive_message.
  rewrite (read_exact_app 4 (to_be_bytes 4 (len bs)) (mkStream _ out)) with (rest := bs ++ rest);
    [|by rewrite len_to_be_bytes|cbn; by rewrite <- app_assoc].
  rewrite be_roundtrip by (unfold in_range; lia). cbn [tx].
  rewrite (read_exact_app (len bs) bs (mkStream _ out)) with (rest := rest) by done.
  by rewrite (node_roundtrip m bs Hm).
Qed.

(** A worker that has left its loop answers no heartbeat any more. *)
Lemma worker_left_loop w es :
  wk_running w = false →
  nd_last_heartbeat (wk_node (foldl worker_step w es)) = nd_last_heartbeat (wk_node w).
Proof.
  revert w. induction es as [|e es IH]; intros [n q r] Hr; [done|]. cbn in Hr; subst r.
  cbn [foldl]. rewrite IH; by destruct e.
Qed.

(** The stop command ends the loop but leaves the node marked active. *)
Lemma stop_command_keeps_active n now :
  nd_state n = Active →
  foldl worker_step (worker_spawn n) [Sent CmdStop; Turn now true] = mkWorker n [] false.
Proof. intros Ha. cbn. by rewrite bool_decide_eq_true_2. Qed.
