(* ===== verification/Cluster.v ===== *)
(** * Cluster membership (src/src/cluster.rs)

    Nodes are shared ([Arc<Node>]) between the cluster's map, its control node
    and whoever asked for them: the model keeps them in a heap of cells and a
    reference is the index of a cell.  Definitions first, then the invariant of
    a cluster and its properties. *)

From stdpp Require Import base list numbers strings gmap pretty.
From S2P Require Import Prelude F64 Network Errors Node.
Local Open Scope Z_scope.

(** Source: src/src/cluster.rs:14-25 (ClusterConfig) *)
Record ClusterConfig := mkClusterConfig {
  expected_nodes : Z; cl_heartbeat_interval : Z; health_timeout : Z; max_failures : Z }.

(** Source: src/src/cluster.rs:28-35 (ClusterConfig::default) *)
Definition ClusterConfig_default : ClusterConfig := mkClusterConfig 4 5000 30000 3.

(** Source: src/src/cluster.rs:55-70 (ClusterStats) *)
Record ClusterStats := mkClusterStats {
  cs_total_memory : Z; cs_total_storage : Z; cs_total_cores : Z; active_nodes : Z;
  degraded_nodes : Z; offline_nodes : Z }.

(** [cl_heap] holds every node ever shared; [cl_nodes] and [control_node] refer
    to its cells.
    Source: src/src/cluster.rs:38-53 (Cluster) *)
Record Cluster := mkCluster {
  cl_config : ClusterConfig;
  cl_heap : list Node;
  cl_nodes : gmap Z nat;
  control_node : option nat;
  next_node_id : Z;
  cl_stats : ClusterStats;
  cl_shutdown : bool
}.

(** The iteration order of the map, which is not specified: [Dash] picks one,
    [DashOk] states that it visits every entry once. *)
Class Dash := { dash_iter : gmap Z nat → list (Z * nat) }.
Class DashOk `{Dash} := { dash_iter_all m : dash_iter m ≡ₚ map_to_list m }.

Definition set_heap (c : Cluster) (h : list Node) : Cluster :=
  mkCluster (cl_config c) h (cl_nodes c) (control_node c) (next_node_id c) (cl_stats c) (cl_shutdown c).
Definition set_nodes (c : Cluster) (m : gmap Z nat) : Cluster :=
  mkCluster (cl_config c) (cl_heap c) m (control_node c) (next_node_id c) (cl_stats c) (cl_shutdown c).
Definition set_control (c : Cluster) (l : option nat) : Cluster :=
  mkCluster (cl_config c) (cl_heap c) (cl_nodes c) l (next_node_id c) (cl_stats c) (cl_shutdown c).
Definition set_next (c : Cluster) (i : Z) : Cluster :=
  mkCluster (cl_config c) (cl_heap c) (cl_nodes c) (control_node c) i (cl_stats c) (cl_shutdown c).
Definition set_stats (c : Cluster) (s : ClusterStats) : Cluster :=
  mkCluster (cl_config c) (cl_heap c) (cl_nodes c) (control_node c) (next_node_id c) s (cl_shutdown c).
Definition set_shutdown (c : Cluster) (b : bool) : Cluster :=
  mkCluster (cl_config c) (cl_heap c) (cl_nodes c) (control_node c) (next_node_id c) (cl_stats c) b.

(** Source: src/src/cluster.rs:73-83 (Cluster::new) *)
Definition Cluster_new (config : ClusterConfig) : Cluster :=
  mkCluster config [] ∅ None 1 (mkClusterStats 0 0 0 0 0 0) false.

Section cluster.
Context `{NetEnv} `{Dash}.

(** The nodes of the map, in iteration order. *)
Definition listed_nodes (c : Cluster) : list Node :=
  omap (λ e : Z * nat, cl_heap c !! e.2) (dash_iter (cl_nodes c)).

Definition in_state (s : NodeState) (n : Node) : Z := if bool_decide (nd_state n = s) then 1 else 0.

(** Source: src/src/cluster.rs:255-283 (Cluster::update_stats) *)
Definition update_stats (c : Cluster) : Cluster :=
  let nodes := listed_nodes c in
  let resources n := nc_resources (nd_config n) in
  set_stats c (mkClusterStats
    (sum_u64 (λ n, total_memory (resources n)) nodes)
    (sum_u64 (λ n, total_storage (resources n)) nodes)
    (foldl (λ acc n, u32 (acc + cpu_cores (resources n))) 0 nodes)
    (sum_u64 (in_state Active) nodes) (sum_u64 (in_state Degraded) nodes)
    (sum_u64 (in_state Offline) nodes)).

(** A node that fails to start is dropped, and its id is spent.
    Source: src/src/cluster.rs:85-114 (Cluster::add_node) *)
Definition add_node (now : Z) (c : Cluster) (node : Node) : Cluster * outcome DOLDAError Z :=
  let id := next_node_id c in
  let c := set_next c (u32 (id + 1)) in
  match Node_start now (set_id node id) with
  | (_, Err e) => (c, Err e)
  | (_, Panic) => (c, Panic)
  | (node, Ok _) =>
      let cell := length (cl_heap c) in
      let c := set_heap c (cl_heap c ++ [node]) in
      let c := set_nodes c (<[id := cell]> (cl_nodes c)) in
      let c := if bool_decide (node_type node = Control) then
          match control_node c with None => set_control c (Some cell) | Some _ => c end
        else c in
      (update_stats c, Ok id)
  end.

(** [held] tells which cells callers still hold a reference to; the control
    node's reference is the cluster's own.  [Arc::try_unwrap] gives the node
    only when no reference is left.
    Source: src/src/cluster.rs:116-139 (Cluster::remove_node) *)
Definition remove_node (held : nat → bool) (c : Cluster) (id : Z) : Cluster * outcome DOLDAError unit :=
  match cl_nodes c !! id with
  | None => (c, Ok tt)
  | Some cell =>
      let c := set_nodes c (delete id (cl_nodes c)) in
      if held cell || bool_decide (control_node c = Some cell)
      then (c, Err (DoldaNode "Node still has references"))
      else
        let c := set_heap c (alter Node_stop cell (cl_heap c)) in
        let c := match control_node c ≫= (λ cell, cl_heap c !! cell) with
          | Some ctrl => if bool_decide (node_id ctrl = id) then set_control c None else c
          | None => c
          end in
        (update_stats c, Ok tt)
  end.

(** References to the node of an id, and to the data nodes of the map.
    Source: src/src/cluster.rs:141-144 (Cluster::get_node) *)
Definition get_node (c : Cluster) (id : Z) : option nat := cl_nodes c !! id.

Definition is_data (n : Node) : bool :=
  bool_decide (node_type n = Data) || bool_decide (node_type n = Mixed).
Definition cell_is_data (c : Cluster) (cell : nat) : bool :=
  match cl_heap c !! cell with Some n => is_data n | None => false end.

(** Source: src/src/cluster.rs:146-156 (Cluster::get_data_nodes) *)
Definition get_data_nodes (c : Cluster) : list nat :=
  (filter (λ e : Z * nat, cell_is_data c e.2 = true) (dash_iter (cl_nodes c))).*2.

(** Source: src/src/cluster.rs:158-168 (Cluster::select_data_node) *)
Definition select_data_node (c : Cluster) (partition_id : Z) : option nat :=
  let data_nodes := get_data_nodes c in
  if bool_decide (data_nodes = []) then None
  else data_nodes !! Z.to_nat (partition_id `mod` len data_nodes).

(** Source: src/src/cluster.rs:170-187 (Cluster::handle_node_failure) *)
Definition handle_node_failure (c : Cluster) (id : Z) : Cluster * outcome DOLDAError unit :=
  match get_node c id with
  | None => (c, Ok tt)
  | Some cell =>
      (set_heap c (alter (λ n,
         let failures := u32 (nd_failure_count n + 1) in
         let n := set_failures n failures in
         if max_failures (cl_config c) <=? failures then set_nd_state n Degraded else n)
       cell (cl_heap c)), Ok tt)
  end.

(** What a tick does to one node; [now - last_heartbeat] wraps.
    Source: src/src/cluster.rs:216-229 (Cluster::start_health_monitor, one node) *)
Definition check_heartbeat (config : ClusterConfig) (now : Z) (n : Node) : Node :=
  if health_timeout config <? u64 (now - nd_last_heartbeat n) then
    if nd_failure_count n <? max_failures config
    then set_failures n (u32 (nd_failure_count n + 1)) else n
  else n.

(** One tick of the monitor: [clock] is the reading taken for each entry.
    Source: src/src/cluster.rs:206-231 (Cluster::start_health_monitor, tick) *)
Definition monitor_tick (clock : Z → Z) (c : Cluster) : Cluster :=
  if cl_shutdown c then c
  else set_heap c (foldl (λ h (e : Z * nat), alter (check_heartbeat (cl_config c) (clock e.1)) e.2 h)
                     (cl_heap c) (dash_iter (cl_nodes c))).

(** Source: src/src/cluster.rs:236-239 (Cluster::get_stats) *)
Definition get_stats (c : Cluster) : ClusterStats := cl_stats c.

Fixpoint remove_nodes (held : nat → bool) (c : Cluster) (ids : list Z)
    : Cluster * outcome DOLDAError unit :=
  match ids with
  | [] => (c, Ok tt)
  | id :: ids =>
      match remove_node held c id with
      | (c, Ok _) => remove_nodes held c ids
      | (c, r) => (c, r)
      end
  end.

(** Source: src/src/cluster.rs:241-253 (Cluster::shutdown) *)
Definition shutdown (held : nat → bool) (c : Cluster) : Cluster * outcome DOLDAError unit :=
  let c := set_shutdown c true in
  remove_nodes held c (dash_iter (cl_nodes c)).*1.
End cluster.

(** ** Runs

    The calls made on a cluster, in any order; [clock] and [held] as above. *)
Inductive cluster_op :=
  | AddNode (now : Z) (node : Node)
  | RemoveNode (held : nat → bool) (id : Z)
  | NodeFailure (id : Z)
  | MonitorTick (clock : Z → Z)
  | ShutdownOp (held : nat → bool).

Definition cluster_step `{NetEnv} `{Dash} (c : Cluster) (op : cluster_op) : Cluster :=
  match op with
  | AddNode now node => (add_node now c node).1
  | RemoveNode held id => (remove_node held c id).1
  | NodeFailure id => (handle_node_failure c id).1
  | MonitorTick clock => monitor_tick clock c
  | ShutdownOp held => (shutdown held c).1
  end.

Definition cluster_run `{NetEnv} `{Dash} (config : ClusterConfig) (ops : list cluster_op) : Cluster :=
  foldl cluster_step (Cluster_new config) ops.

(** What ties the map, the heap and the control node together. *)
Record cluster_inv (c : Cluster) : Prop := {
  ci_next : 1 ≤ next_node_id c;
  ci_nodes : ∀ id cell, cl_nodes c !! id = Some cell →
    ∃ n, cl_heap c !! cell = Some n ∧ node_id n = id;
  ci_heap : ∀ cell n, cl_heap c !! cell = Some n → 1 ≤ node_id n < next_node_id c;
  ci_unique : ∀ cell cell' n n', cl_heap c !! cell = Some n → cl_heap c !! cell' = Some n' →
    node_id n = node_id n' → cell = cell';
  ci_control : ∀ cell, control_node c = Some cell →
    ∃ n, cl_heap c !! cell = Some n ∧ node_type n = Control
}.

(** ** Lemmas *)
Section cluster_lemmas.
Context `{NetEnv} `{DashOk}.

(** A change to a node that leaves its id and its type alone. *)
Definition same_identity (n n' : Node) : Prop := node_id n' = node_id n ∧ node_type n' = node_type n.

Lemma inv_ext c c' :
  cl_heap c' = cl_heap c → cl_nodes c' = cl_nodes c → control_node c' = control_node c →
  next_node_id c' = next_node_id c → cluster_inv c → cluster_inv c'.
Proof. intros Hh Hn Hc Hi []. split; rewrite ?Hh, ?Hn, ?Hc, ?Hi; done. Qed.

Lemma inv_heap c h :
  Forall2 same_identity (cl_heap c) h → cluster_inv c → cluster_inv (set_heap c h).
Proof.
  intros Hh [Hi Hn Hr Hu Hc].
  assert (∀ cell n, h !! cell = Some n → ∃ n0, cl_heap c !! cell = Some n0 ∧ same_identity n0 n) as Hback
    by (intros; by eapply Forall2_lookup_r).
  split; [done| | | |]; cbn.
  - intros id cell Hid. destruct (Hn id cell Hid) as (n & Hcell & <-).
    destruct (Forall2_lookup_l _ _ _ _ _ Hh Hcell) as (n' & ? & ? & _). by exists n'.
  - intros cell n Hcell. destruct (Hback _ _ Hcell) as (n0 & ? & -> & _). by eapply Hr.
  - intros cell cell' n n' Ha Hb Heq.
    destruct (Hback _ _ Ha) as (n1 & ? & E1 & _). destruct (Hback _ _ Hb) as (n2 & ? & E2 & _).
    eapply Hu; [done..|congruence].
  - intros cell Hcell. destruct (Hc cell Hcell) as (n & Hl & Ht).
    destruct (Forall2_lookup_l _ _ _ _ _ Hh Hl) as (n' & ? & _ & ?). exists n'. split; [done|congruence].
Qed.

Lemma inv_nodes c m : m ⊆ cl_nodes c → cluster_inv c → cluster_inv (set_nodes c m).
Proof.
  intros Hm []. split; cbn; [done| |done..]. intros id cell Hid. apply ci_nodes0. by eapply lookup_weaken.
Qed.

#[local] Instance same_identity_preorder : PreOrder same_identity.
Proof. split; [done|]. intros n1 n2 n3 [] []. split; congruence. Qed.
Lemma same_refl h : Forall2 same_identity h h.
Proof. reflexivity. Qed.
Lemma same_alter h cell f :
  (∀ n, same_identity n (f n)) → Forall2 same_identity h (alter f cell h).
Proof.
  intros Hf. revert cell. induction h as [|n h IH]; intros [|cell]; cbn; constructor; done.
Qed.

Lemma check_heartbeat_same config now n : same_identity n (check_heartbeat config now n).
Proof. unfold check_heartbeat. by repeat case_match. Qed.

Lemma tick_same clock c : Forall2 same_identity (cl_heap c) (cl_heap (monitor_tick clock c)).
Proof.
  unfold monitor_tick. destruct (cl_shutdown c); [apply same_refl|]. cbn.
  generalize (cl_heap c). induction (dash_iter (cl_nodes c)) as [|e l IH]; intros h; [apply same_refl|].
  cbn. etransitivity; [|apply IH]. apply same_alter, check_heartbeat_same.
Qed.

Lemma failure_same c id :
  Forall2 same_identity (cl_heap c) (cl_heap (handle_node_failure c id).1).
Proof.
  unfold handle_node_failure. destruct (get_node c id); [|apply same_refl].
  apply same_alter. intros n0. by case_match.
Qed.

Lemma start_ok now node n :
  Node_start now node = (n, Ok tt) →
  node_id n = node_id node ∧ nd_config n = nd_config node ∧ nd_state n = Active ∧
  nd_last_heartbeat n = now ∧ nd_failure_count n = nd_failure_count node.
Proof. unfold Node_start. repeat case_match; intros ?; by simplify_eq. Qed.

(** Adding: what it does when the node starts, and otherwise. *)
Lemma add_node_cases now c node :
  (∃ n, Node_start now (set_id node (next_node_id c)) = (n, Ok tt) ∧
    add_node now c node = (update_stats (mkCluster (cl_config c) (cl_heap c ++ [n])
      (<[next_node_id c := length (cl_heap c)]> (cl_nodes c))
      (match control_node c with
       | Some l => Some l
       | None => if bool_decide (node_type n = Control) then Some (length (cl_heap c)) else None
       end) (u32 (next_node_id c + 1)) (cl_stats c) (cl_shutdown c)), Ok (next_node_id c))) ∨
  (∃ r, add_node now c node = (set_next c (u32 (next_node_id c + 1)), r) ∧ is_ok r = false).
Proof.
  unfold add_node. destruct (Node_start now _) as [n [[]|e|]] eqn:Hs; [left|right; eexists; (split; [reflexivity|done])..].
  exists n. split; [done|].
  unfold update_stats, listed_nodes, set_stats, set_nodes, set_heap, set_next, set_control.
  destruct (bool_decide (node_type n = Control)); cbn; destruct (control_node c) eqn:Hc; cbn; by rewrite ?Hc.
Qed.

Lemma inv_add now c node :
  cluster_inv c → next_node_id c < 2 ^ 32 - 1 →
  cluster_inv (add_node now c node).1 ∧ next_node_id (add_node now c node).1 = next_node_id c + 1.
Proof.
  intros [Hi Hn Hr Hu Hc] Hlt.
  assert (u32 (next_node_id c + 1) = next_node_id c + 1) as Hw
    by (apply wrap_id; unfold in_range; lia).
  destruct (add_node_cases now c node) as [(n & Hs & ->)|(r & -> & _)]; cbn; rewrite Hw; (split; [|done]).
  2:{ split; cbn; [lia|done| |done..]. intros cell n Hcell. specialize (Hr cell n Hcell). lia. }
  apply start_ok in Hs as (Hid & Hcfg & _). cbn in Hid.
  assert (∀ cell n', (cl_heap c ++ [n]) !! cell = Some n' →
    cl_heap c !! cell = Some n' ∨ (cell = length (cl_heap c) ∧ n' = n)) as Hcases.
  { intros cell n' [Hl|[Hlen Hl]]%lookup_app_Some; [by left|].
    right. apply list_lookup_singleton_Some in Hl as [Hz <-]. split; [lia|done]. }
  split; cbn; [lia| | | |].
  - intros id cell [[<- <-]|[Hne Hl]]%lookup_insert_Some.
    + exists n. split; [by apply list_lookup_middle|done].
    + destruct (Hn id cell Hl) as (n' & Hl' & ?). exists n'. split; [by apply lookup_app_l_Some|done].
  - intros cell n' [Hl|[-> ->]]%Hcases; [specialize (Hr _ _ Hl)|]; lia.
  - intros c1 c2 n1 n2 [Ha|[-> ->]]%Hcases [Hb|[-> ->]]%Hcases Heq; [by eapply Hu| | |done].
    + specialize (Hr _ _ Ha). lia.
    + specialize (Hr _ _ Hb). lia.
  - intros cell Hctrl. destruct (control_node c) as [l|].
    + destruct (Hc cell Hctrl) as (n' & ? & ?). exists n'. split; [by apply lookup_app_l_Some|done].
    + destruct (bool_decide _) eqn:Hb; [|done]. apply bool_decide_eq_true in Hb. simplify_eq.
      exists n. split; [by apply list_lookup_middle|done].
Qed.

(** Removing never clears the control node. *)
Lemma remove_node_cases held c id :
  cluster_inv c →
  (cl_nodes c !! id = None ∧ remove_node held c id = (c, Ok tt)) ∨
  ∃ cell, cl_nodes c !! id = Some cell ∧
    let c1 := set_nodes c (delete id (cl_nodes c)) in
    ((held cell = true ∨ control_node c = Some cell) ∧
       remove_node held c id = (c1, Err (DoldaNode "Node still has references"))) ∨
    (held cell = false ∧ control_node c ≠ Some cell ∧
       remove_node held c id = (update_stats (set_heap c1 (alter Node_stop cell (cl_heap c))), Ok tt)).
Proof.
  intros [Hi Hn Hr Hu Hc]. unfold remove_node. destruct (cl_nodes c !! id) as [cell|] eqn:Hid; [right|by left].
  exists cell. split; [done|]. cbn.
  destruct (held cell) eqn:Hh; cbn; [left; by auto|].
  destruct (bool_decide_reflect (control_node c = Some cell)) as [Hctl|Hctl]; [left; by auto|right].
  split_and!; [done..|]. destruct (control_node c) as [l|] eqn:Hl; cbn; [|done].
  rewrite list_lookup_alter_ne by congruence.
  destruct (cl_heap c !! l) as [ctrl|] eqn:Hctrl; [|done].
  rewrite bool_decide_eq_false_2; [done|]. intros Heq.
  destruct (Hn id cell Hid) as (n & Hcell & Hnid). apply Hctl. f_equal. eapply Hu; [done..|congruence].
Qed.

(** What every call keeps: the control node, and the identity of the cells. *)
Record keeps (c c' : Cluster) : Prop := {
  kp_control : ∀ cell, control_node c = Some cell → control_node c' = Some cell;
  kp_cells : ∀ cell n, cl_heap c !! cell = Some n →
    ∃ n', cl_heap c' !! cell = Some n' ∧ same_identity n n'
}.
#[local] Instance keeps_preorder : PreOrder keeps.
Proof.
  split; [intros c; split; [done|]; intros cell n Hn; by exists n|].
  intros c1 c2 c3 [Hc1 Hh1] [Hc2 Hh2]. split; [by auto|].
  intros cell n Hn. destruct (Hh1 cell n Hn) as (n' & Hn' & []).
  destruct (Hh2 cell n' Hn') as (n'' & ? & []). exists n''. split; [done|]. split; congruence.
Qed.

Lemma keeps_heap c c' :
  control_node c' = control_node c → Forall2 same_identity (cl_heap c) (cl_heap c') → keeps c c'.
Proof.
  intros Hc Hh. split; [by rewrite Hc|]. intros cell n Hn.
  destruct (Forall2_lookup_l _ _ _ _ _ Hh Hn) as (n' & ? & ?). by exists n'.
Qed.

Lemma add_keeps now c node : keeps c (add_node now c node).1.
Proof.
  destruct (add_node_cases now c node) as [(n & _ & ->)|(r & -> & _)]; [|by apply keeps_heap; [|apply same_refl]].
  split; cbn; [by intros cell ->|]. intros cell n' Hn. exists n'. split; [by apply lookup_app_l_Some|done].
Qed.

Lemma stop_same h cell : Forall2 same_identity h (alter Node_stop cell h).
Proof. by apply same_alter. Qed.

Lemma remove_inv held c id :
  cluster_inv c →
  cluster_inv (remove_node held c id).1 ∧ keeps c (remove_node held c id).1 ∧
  next_node_id (remove_node held c id).1 = next_node_id c.
Proof.
  intros Hc. destruct (remove_node_cases held c id Hc)
    as [[_ ->]|(cell & _ & [[_ ->]|(_ & _ & ->)])]; cbn.
  - by split_and!.
  - split_and!; [by apply inv_nodes; [apply delete_subseteq|]|by apply keeps_heap|done].
  - split_and!; [|apply keeps_heap; [done|apply stop_same]|done].
    apply (inv_ext (set_heap (set_nodes c (delete id (cl_nodes c))) (alter Node_stop cell (cl_heap c))));
      [done..|]. apply inv_heap.
    + apply stop_same.
    + by apply inv_nodes; [apply delete_subseteq|].
Qed.

Lemma remove_nodes_inv held ids c :
  cluster_inv c →
  cluster_inv (remove_nodes held c ids).1 ∧ keeps c (remove_nodes held c ids).1 ∧
  next_node_id (remove_nodes held c ids).1 = next_node_id c.
Proof.
  revert c. induction ids as [|id ids IH]; intros c Hc; [by split_and!|]. cbn [remove_nodes].
  destruct (remove_inv held c id Hc) as (Hc1 & Hk1 & Hn1).
  destruct (remove_node held c id) as [c1 [[]|e|]]; cbn in *; [|done..].
  destruct (IH c1 Hc1) as (? & ? & Hn2). split_and!; [done|by etransitivity|congruence].
Qed.

Lemma step_inv c op :
  cluster_inv c → next_node_id c < 2 ^ 32 - 1 →
  cluster_inv (cluster_step c op) ∧ keeps c (cluster_step c op) ∧
  next_node_id (cluster_step c op) ≤ next_node_id c + 1.
Proof.
  intros Hc Hlt. destruct op as [now node|held id|id|clock|held]; cbn [cluster_step].
  - destruct (inv_add now c node Hc Hlt) as [? ->]. split_and!; [done|apply add_keeps|done].
  - destruct (remove_inv held c id Hc) as (? & ? & ->). split_and!; [done..|lia].
  - pose proof (failure_same c id) as Hs. unfold handle_node_failure in *.
    destruct (get_node c id); cbn in *; split_and!; try done; try lia; [by apply inv_heap|by apply keeps_heap].
  - pose proof (tick_same clock c) as Hs. unfold monitor_tick in *.
    destruct (cl_shutdown c); cbn in *; split_and!; try done; try lia; [by apply inv_heap|by apply keeps_heap].
  - change (shutdown held c) with (remove_nodes held (set_shutdown c true) (dash_iter (cl_nodes c)).*1).
    destruct (remove_nodes_inv held (dash_iter (cl_nodes c)).*1 (set_shutdown c true)) as (? & [] & ->);
      [by eapply inv_ext; [..|exact Hc]|]. split_and!; [done|by split|cbn; lia].
Qed.

Lemma run_inv c ops :
  cluster_inv c → next_node_id c + len ops < 2 ^ 32 →
  cluster_inv (foldl cluster_step c ops) ∧ keeps c (foldl cluster_step c ops) ∧
  next_node_id (foldl cluster_step c ops) ≤ next_node_id c + len ops.
Proof.
  revert c. induction ops as [|op ops IH]; intros c Hc Hlen.
  { split_and!; [done..|]. rewrite len_nil. cbn. lia. }
  rewrite len_cons in Hlen. pose proof (len_nonneg ops).
  destruct (step_inv c op Hc) as (Hc1 & Hk1 & Hn1); [lia|].
  destruct (IH _ Hc1) as (? & ? & ?); [lia|]. rewrite len_cons. cbn [foldl].
  split_and!; [done|by etransitivity|lia].
Qed.

Lemma cluster_new_inv config : cluster_inv (Cluster_new config).
Proof. split; cbn; try done; intros *; by rewrite ?lookup_empty, ?lookup_nil. Qed.

(** The state after a run, and after more calls on it. *)
Lemma cluster_run_app config ops1 ops2 :
  len ops1 + len ops2 < 2 ^ 32 - 1 →
  cluster_inv (cluster_run config ops1) ∧ cluster_inv (cluster_run config (ops1 ++ ops2)) ∧
  keeps (cluster_run config ops1) (cluster_run config (ops1 ++ ops2)).
Proof.
  intros Hlen. pose proof (len_nonneg ops1). pose proof (len_nonneg ops2).
  destruct (run_inv (Cluster_new config) ops1 (cluster_new_inv config)) as (H1' & _ & Hn1);
    [cbn; lia|]. cbn in Hn1.
  destruct (run_inv _ ops2 H1') as (H2' & Hk & _); [lia|].
  unfold cluster_run. rewrite foldl_app. done.
Qed.

(** Every entry is visited once. *)
Lemma dash_entry m id cell : (id, cell) ∈ dash_iter m ↔ m !! id = Some cell.
Proof. rewrite dash_iter_all. apply elem_of_map_to_list. Qed.
Lemma dash_nodup m : NoDup (dash_iter m).*1.
Proof. rewrite dash_iter_all. apply NoDup_fst_map_to_list. Qed.
End cluster_lemmas.

(** What the properties below use. *)
Section cluster_facts.
Context `{NetEnv} `{DashOk}.

Definition references_left : DOLDAError := DoldaNode "Node still has references".

(** Removing nodes one after the other stops at the control node. *)
Lemma remove_nodes_control held ids c id cell :
  cluster_inv c → control_node c = Some cell → cl_nodes c !! id = Some cell → id ∈ ids →
  ∃ c', remove_nodes held c ids = (c', Err references_left).
Proof.
  revert c. induction ids as [|id' ids IH]; intros c Hc Hctl Hid Hin; [by apply not_elem_of_nil in Hin|].
  cbn [remove_nodes]. destruct (remove_inv held c id' Hc) as (Hc1 & [Hk _] & _).
  destruct (remove_node_cases held c id' Hc)
    as [[Hn ->]|(cell' & Hn & [[_ ->]|(_ & Hne & Hr)])]; [|by eexists|].
  - apply elem_of_cons in Hin as [->|Hin]; [congruence|]. by apply IH.
  - rewrite Hr in Hc1, Hk |- *. cbn [fst] in Hc1, Hk.
    assert (id ≠ id') as Hids by congruence.
    apply elem_of_cons in Hin as [->|Hin]; [done|]. apply IH; [done|by apply Hk| |done].
    cbn. by rewrite lookup_delete_ne.
Qed.

Lemma dash_cells_nodup c : cluster_inv c → NoDup (dash_iter (cl_nodes c)).*2.
Proof.
  intros Hc. apply NoDup_fmap_2_strong; [|eapply NoDup_fmap_1, dash_nodup].
  intros [id cell] [id' cell'] Hx%dash_entry Hy%dash_entry Heq. cbn in Heq; subst cell'.
  destruct (ci_nodes c Hc id cell Hx) as (n & Hn & <-).
  destruct (ci_nodes c Hc id' cell Hy) as (n' & Hn' & <-). congruence.
Qed.

Lemma fold_alter_lookup (f : Z → Node → Node) l (h : list Node) id cell :
  NoDup l.*2 → (id, cell) ∈ l →
  foldl (λ h (e : Z * nat), alter (f e.1) e.2 h) h l !! cell = f id <$> h !! cell.
Proof.
  assert (∀ l (h : list Node), cell ∉ l.*2 →
    foldl (λ h (e : Z * nat), alter (f e.1) e.2 h) h l !! cell = h !! cell) as Hskip.
  { clear. intros l. induction l as [|[i x] l IH]; intros h Hn; [done|]. cbn in *.
    rewrite not_elem_of_cons in Hn. destruct Hn. rewrite IH by done. by rewrite list_lookup_alter_ne by done. }
  revert h. induction l as [|[i x] l IH]; intros h Hnd Hin; [by apply not_elem_of_nil in Hin|].
  cbn in *. apply NoDup_cons in Hnd as [Hx Hnd].
  apply elem_of_cons in Hin as [[= <- <-]|Hin].
  - by rewrite Hskip, list_lookup_alter_eq.
  - rewrite IH by done. rewrite list_lookup_alter_ne; [done|].
    intros ->. apply Hx. by apply (list_elem_of_fmap_2 snd) in Hin.
Qed.

(** A tick checks each registered node once, and nothing else changes. *)
Lemma tick_spec clock c id cell :
  cluster_inv c → cl_shutdown c = false → cl_nodes c !! id = Some cell →
  cl_heap (monitor_tick clock c) !! cell =
    check_heartbeat (cl_config c) (clock id) <$> cl_heap c !! cell ∧
  cluster_inv (monitor_tick clock c) ∧ cl_shutdown (monitor_tick clock c) = false ∧
  cl_nodes (monitor_tick clock c) = cl_nodes c ∧ cl_config (monitor_tick clock c) = cl_config c.
Proof.
  intros Hc Hs Hid. pose proof (tick_same clock c) as Hsame. unfold monitor_tick in *. rewrite Hs in *.
  split_and!; [|by apply inv_heap|done..]. cbn.
  apply (fold_alter_lookup (λ i, check_heartbeat (cl_config c) (clock i)));
    [by apply dash_cells_nodup|by apply dash_entry].
Qed.

(** A registered node that stays silent over the ticks. *)
Lemma ticks_spec clocks c id cell n :
  cluster_inv c → cl_shutdown c = false → cl_nodes c !! id = Some cell →
  cl_heap c !! cell = Some n → 0 ≤ nd_failure_count n ≤ max_failures (cl_config c) →
  max_failures (cl_config c) < 2 ^ 32 - 1 →
  Forall (λ clock : Z → Z, health_timeout (cl_config c) < u64 (clock id - nd_last_heartbeat n)) clocks →
  let c' := foldl (λ c clock, monitor_tick clock c) c clocks in
  cl_heap c' !! cell =
    Some (set_failures n (Z.min (max_failures (cl_config c)) (nd_failure_count n + len clocks))) ∧
  cl_nodes c' !! id = Some cell ∧ cl_config c' = cl_config c.
Proof.
  revert c n. induction clocks as [|clock clocks IH]; intros c n Hc Hs Hid Hn Hf Hmax Hclocks.
  { rewrite len_nil, Z.add_0_r, Z.min_r by lia. split_and!; [|done..]. by destruct n. }
  apply Forall_cons in Hclocks as [Hclock Hclocks]. rewrite len_cons. pose proof (len_nonneg clocks).
  destruct (tick_spec clock c id cell Hc Hs Hid) as (Hn1 & Hc1 & Hs1 & Hnodes & Hcfg).
  rewrite Hn in Hn1. cbn [fmap option_fmap option_map] in Hn1. unfold check_heartbeat in Hn1.
  rewrite (proj2 (Z.ltb_lt _ _) Hclock) in Hn1. cbn [foldl].
  destruct (nd_failure_count n <? max_failures (cl_config c)) eqn:Hlt; zbool.
  - rewrite wrap_id in Hn1 by (unfold in_range; lia).
    destruct (IH _ (set_failures n (nd_failure_count n + 1)) Hc1 Hs1) as (-> & -> & ->);
      rewrite ?Hcfg, ?Hnodes; try done; [cbn; lia|].
    split_and!; [|done..]. cbn. do 2 f_equal. lia.
  - destruct (IH _ n Hc1 Hs1) as (-> & -> & ->); rewrite ?Hcfg, ?Hnodes; try done.
    split_and!; [|done..]. do 2 f_equal. lia.
Qed.

(** Data nodes are the registered cells of that type. *)
Lemma data_node_iff c cell :
  cell ∈ get_data_nodes c ↔ cell_is_data c cell = true ∧ ∃ id, get_node c id = Some cell.
Proof.
  unfold get_data_nodes. rewrite list_elem_of_fmap. split.
  - intros ([id cell'] & -> & Hin). apply list_elem_of_filter in Hin as [Hd Hin].
    split; [done|]. exists id. by apply dash_entry.
  - intros (Hd & id & Hid). exists (id, cell). split; [done|]. apply list_elem_of_filter.
    split; [done|]. by apply dash_entry.
Qed.
End cluster_facts.

(** ** Properties *)
Section cluster_properties.
Context `{NetEnv} `{DashOk}.

(** C39. The control node is permanent: in every run of fewer than [2^32 - 1]
    calls, a control node once set stays the same node, whatever is added,
    removed or shut down later.  As long as it is registered, removing it is
    refused after it has left the map (the cluster's own reference to it is
    never given up), and a shutdown fails with the same error. *)
Theorem control_node_is_permanent config ops1 ops2 cell :
  len ops1 + len ops2 < 2 ^ 32 - 1 → control_node (cluster_run config ops1) = Some cell →
  let c := cluster_run config (ops1 ++ ops2) in
  control_node c = Some cell ∧
  ∃ n, cl_heap c !! cell = Some n ∧ node_type n = Control ∧
    (∀ held, get_node c (node_id n) = Some cell →
      remove_node held c (node_id n) =
        (set_nodes c (delete (node_id n) (cl_nodes c)), Err references_left) ∧
      ∃ c', shutdown held c = (c', Err references_left) ∧ control_node c' = Some cell).
Proof.
  intros Hlen Hctl c. destruct (cluster_run_app config ops1 ops2 Hlen) as (_ & Hc & [Hk _]).
  pose proof (Hk cell Hctl) as Hctl'. change (control_node c = Some cell) in Hctl'. split; [done|].
  destruct (ci_control _ Hc cell Hctl') as (n & Hn & Ht). exists n. split_and!; [done..|].
  intros held Hid. split.
  - destruct (remove_node_cases held c (node_id n) Hc)
      as [[Hno _]|(cell' & Hid' & [[_ Hr]|(_ & Hne & _)])]; [|done|]; unfold get_node in *; congruence.
  - assert (cluster_inv (set_shutdown c true)) as Hc1 by (by eapply inv_ext; [..|exact Hc]).
    destruct (remove_nodes_control held (dash_iter (cl_nodes c)).*1 (set_shutdown c true) (node_id n) cell)
      as [c' Hr]; [done..| |].
    { rewrite list_elem_of_fmap. exists (node_id n, cell). split; [done|]. by apply dash_entry. }
    exists c'. split; [exact Hr|].
    destruct (remove_nodes_inv held (dash_iter (cl_nodes c)).*1 (set_shutdown c true) Hc1) as (_ & [Hk' _] & _).
    rewrite Hr in Hk'. by apply Hk'.
Qed.

(** Data node selection: whatever the iteration order of the map, a
    partition is given a registered data or mixed node, nothing exactly when
    there is none, and the selection goes round: each of the [n] data nodes has
    a remainder [r < n] such that it is selected for all the partitions equal to
    [r] modulo [n]. *)
Lemma select_data_node_covers c :
  let n := len (get_data_nodes c) in
  (∀ p, 0 ≤ p → match select_data_node c p with
    | Some cell => cell_is_data c cell = true ∧ ∃ id, get_node c id = Some cell
    | None => ∀ id cell, get_node c id = Some cell → cell_is_data c cell = false
    end) ∧
  (∀ id cell, get_node c id = Some cell → cell_is_data c cell = true →
    ∃ r, 0 ≤ r < n ∧ ∀ k, 0 ≤ k → select_data_node c (r + k * n) = Some cell).
Proof.
  intros n. assert (∀ p, 0 ≤ p → get_data_nodes c ≠ [] →
    select_data_node c p = get_data_nodes c !! Z.to_nat (p `mod` n)) as Hsel.
  { intros p Hp Hne. unfold select_data_node. by rewrite bool_decide_eq_false_2. }
  split.
  - intros p Hp. destruct (decide (get_data_nodes c = [])) as [Hnil|Hne].
    + unfold select_data_node. rewrite bool_decide_eq_true_2 by done. intros id cell Hid.
      destruct (cell_is_data c cell) eqn:Hd; [|done].
      assert (cell ∈ get_data_nodes c) as Hin by (apply data_node_iff; eauto).
      rewrite Hnil in Hin. by apply not_elem_of_nil in Hin.
    + rewrite Hsel by done. destruct (lookup_lt_is_Some_2 (get_data_nodes c) (Z.to_nat (p `mod` n))) as [cell Hl].
      { assert (0 < n) by (unfold n, len; destruct (get_data_nodes c); [done|simpl; lia]).
        pose proof (Z.mod_pos_bound p n). unfold n, len in *. lia. }
      rewrite Hl. by apply data_node_iff, list_elem_of_lookup_2 with (Z.to_nat (p `mod` n)).
  - intros id cell Hid Hd. assert (cell ∈ get_data_nodes c) as Hin by (apply data_node_iff; eauto).
    apply list_elem_of_lookup in Hin as [i Hi]. pose proof (lookup_lt_Some _ _ _ Hi) as Hlt.
    exists (Z.of_nat i). unfold n, len in *. split; [lia|]. intros k Hk.
    rewrite Hsel; [|nia|intros Hnil; by rewrite Hnil in Hi].
    rewrite Z.mod_add, Z.mod_small, Nat2Z.id by lia. done.
Qed.

(** The monitor counts missed heartbeats but degrades nobody: a registered
    node that stays silent over [k] ticks has its failure count raised by [k],
    up to [max_failures], and keeps its state; the next reported failure is what
    degrades it, once the count has reached [max_failures - 1]. *)
Lemma silent_node_is_counted_not_degraded c clocks id cell n :
  cluster_inv c → cl_shutdown c = false → get_node c id = Some cell → cl_heap c !! cell = Some n →
  0 ≤ nd_failure_count n ≤ max_failures (cl_config c) → max_failures (cl_config c) < 2 ^ 32 - 1 →
  Forall (λ clock : Z → Z, health_timeout (cl_config c) < u64 (clock id - nd_last_heartbeat n)) clocks →
  let c' := foldl (λ c clock, monitor_tick clock c) c clocks in
  let failures := Z.min (max_failures (cl_config c)) (nd_failure_count n + len clocks) in
  cl_heap c' !! cell = Some (set_failures n failures) ∧
  (max_failures (cl_config c) ≤ failures + 1 →
   nd_state <$> cl_heap (handle_node_failure c' id).1 !! cell = Some Degraded).
Proof.
  intros Hc Hs Hid Hn Hf Hmax Hclocks c'.
  destruct (ticks_spec clocks c id cell n) as (Hl & Hnode & Hcfg); [done..|]. split; [exact Hl|].
  intros Hge. unfold handle_node_failure, get_node, c'. rewrite Hnode, Hcfg. cbn.
  rewrite list_lookup_alter_eq, Hl. cbn. rewrite wrap_id by (pose proof (len_nonneg clocks); unfold in_range; lia).
  by rewrite (proj2 (Z.leb_le _ _)) by lia.
Qed.
End cluster_properties.

(** ** Concrete runs *)
Definition sample_net : NetEnv := {| parse_socket_addr a := Some a; tcp_bind a := Ok a |}.
Definition sample_dash : Dash := {| dash_iter := map_to_list |}.
#[local] Existing Instance sample_net.
#[local] Existing Instance sample_dash.
#[local] Instance sample_dash_ok : DashOk.
Proof. by split. Qed.

Definition fresh_node (t : NodeType) : Node :=
  mkNode 0 (mkNodeConfig "n" t "127.0.0.1" 25081 NodeResources_default) Init
    (NetworkEndpoint_new "127.0.0.1" 25081) 0 0 [] None.
Definition sample_ops : list cluster_op := [AddNode 5 (fresh_node Control); AddNode 6 (fresh_node Data)].

Example sample_stats :
  let s := get_stats (cluster_run ClusterConfig_default sample_ops) in
  (active_nodes s, cs_total_cores s) = (2, 8).
Proof. vm_compute. reflexivity. Qed.

Lemma control_node_is_permanent_witness :
  ∃ c', shutdown (λ _, false) (cluster_run ClusterConfig_default (sample_ops ++ [RemoveNode (λ _, false) 2])) =
    (c', Err references_left) ∧ control_node c' = Some 0%nat.
Proof.
  destruct (control_node_is_permanent ClusterConfig_default sample_ops [RemoveNode (λ _, false) 2] 0)
    as (_ & n & Hn & _ & Hs); [by vm_compute|reflexivity|].
  vm_compute in Hn. injection Hn as <-. apply Hs. vm_compute. reflexivity.
Defined.

Definition sample_ticks : list (Z → Z) := replicate 4 (λ _, 100000).

Lemma silent_node_is_counted_not_degraded_witness :
  nd_state <$> cl_heap (foldl (λ c clock, monitor_tick clock c)
    (cluster_run ClusterConfig_default sample_ops) sample_ticks) !! 1%nat = Some Active.
Proof.
  destruct (silent_node_is_counted_not_degraded (cluster_run ClusterConfig_default sample_ops)
    sample_ticks 2 1 (set_heartbeat (set_id (set_listener (set_nd_state (fresh_node Data) Active)
      (Some "127.0.0.1:25081"%string)) 2) 6)) as [Hl _];
    [apply (cluster_run_app _ sample_ops []); by vm_compute|reflexivity|reflexivity|reflexivity
    |by vm_compute|by vm_compute|by repeat constructor|].
  rewrite Hl. reflexivity.
Defined.

Lemma select_data_node_covers_witness :
  ∃ r, 0 ≤ r < 1 ∧
    select_data_node (cluster_run ClusterConfig_default sample_ops) (r + 5 * 1) = Some 1%nat.
Proof.
  destruct (select_data_node_covers (cluster_run ClusterConfig_default sample_ops)) as [_ Hcover].
  destruct (Hcover 2 1%nat) as (r & Hr & Hk); [reflexivity|reflexivity|].
  exists r. split; [exact Hr|]. apply (Hk 5). done.
Defined.
