(* ===== verification/Partition.v ===== *)
(** * Partitions and shards (src/src/partition.rs)

    A partition is created on all the data nodes of the cluster at that time,
    with a shard on each; keys are routed to partitions by their CRC32.
    Definitions first, then the properties. *)

From stdpp Require Import base list numbers strings gmap pretty.
From coqutil Require Import Byte.
From Stdlib Require Import Strings.Byte.
From S2P Require Import Prelude Crc32 F64 Network Errors Node Cluster.
Local Open Scope Z_scope.

(** Source: src/src/partition.rs:15-22 (PartitionKey) *)
Inductive PartitionKey :=
  | KString (s : string)
  | KInteger (i : Z)
  | KTimestamp (ts : Z)
  | KComposite (data : bytes).

(** Source: src/src/partition.rs:45-53 (PartitionKey::key_type) *)
Definition key_type (k : PartitionKey) : PartitionKeyType :=
  match k with
  | KString _ => StringKey
  | KInteger _ => IntegerKey
  | KTimestamp _ => TimestampKey
  | KComposite _ => CompositeKey
  end.

(** Source: src/src/partition.rs:76-85 (DataShard) *)
Record DataShard := mkShard {
  sd_shard_id : Z; sd_node_id : Z; sd_size_bytes : Z; sd_record_count : Z; sd_data_path : string;
  sd_is_primary : bool }.

(** Source: src/src/partition.rs:88-97 (DataShard::new) *)
Definition DataShard_new (shard_id node_id : Z) (is_primary : bool) : DataShard :=
  mkShard shard_id node_id 0 0 ("/shards/shard_" +:+ pretty shard_id) is_primary.

(** Source: src/src/partition.rs:100-112 (Partition) *)
Record Partition := mkPartition {
  pt_partition_id : Z; pt_strategy : PartitionStrategy; pt_min_key : option PartitionKey;
  pt_max_key : option PartitionKey; pt_shards : list DataShard; pt_assigned_nodes : list Z;
  pt_total_records : Z; pt_total_size : Z; pt_created_time : Z }.

(** Source: src/src/partition.rs:115-136 (Partition::new) *)
Definition Partition_new (now_secs : Z) (partition_id : Z) (strategy : PartitionStrategy)
    (min_key max_key : option PartitionKey) (_replica_count : Z) : Partition :=
  mkPartition partition_id strategy min_key max_key [] [] 0 0 now_secs.

(** Source: src/src/partition.rs:154-160 (PartitionStats) *)
Record PartitionStats := mkPartitionStats {
  pst_total_partitions : Z; pst_total_shards : Z; pst_total_data_size : Z }.

(** The cluster the source refers to is an argument of the operations.
    Source: src/src/partition.rs:139-152 (PartitionManager) *)
Record PartitionManager := mkPartitionManager {
  pm_partitions : gmap Z Partition; pm_default_strategy : PartitionStrategy;
  pm_default_replicas : Z; pm_max_shards_per_partition : Z; pm_stats : PartitionStats }.

(** Source: src/src/partition.rs:163-173 (PartitionManager::new) *)
Definition PartitionManager_new : PartitionManager :=
  mkPartitionManager ∅ ByHash 3 MAX_SHARDS_PER_PARTITION (mkPartitionStats 0 0 0).

(** Source: src/src/partition.rs:294-304 (PartitionManager::generate_partition_id) *)
Definition generate_partition_id (now_ms : Z) : Z := u32 (u32 now_ms `mod` MAX_PARTITIONS + 1).

Section partition.
Context `{Crc32} `{Dash}.

(** Source: src/src/partition.rs:55-73 (PartitionKey::hash) *)
Definition key_hash (k : PartitionKey) : Z :=
  hasher_finalize (hasher_update hasher_new
    match k with
    | KString s => str_bytes s
    | KInteger i => to_be_bytes 8 (u64 i)
    | KTimestamp ts => to_be_bytes 8 ts
    | KComposite data => data
    end).

(** Source: src/src/partition.rs:306-320 (PartitionManager::assign_nodes_to_partition) *)
Definition assign_nodes_to_partition (c : Cluster) (p : Partition) : outcome DOLDAError Partition :=
  let data_nodes := get_data_nodes c in
  if bool_decide (data_nodes = []) then Err (DoldaPartition "No data nodes available") else
  Ok (mkPartition (pt_partition_id p) (pt_strategy p) (pt_min_key p) (pt_max_key p) (pt_shards p)
        (omap (λ cell, node_id <$> cl_heap c !! cell) data_nodes)
        (pt_total_records p) (pt_total_size p) (pt_created_time p)).

(** The shard of the [i]-th assigned node. *)
Definition shard_of (partition_id : Z) (i : nat) (node_id : Z) : DataShard :=
  DataShard_new (u32 (u32 (partition_id * 1000) + u32 (Z.of_nat i))) node_id (bool_decide (i = 0%nat)).

(** Source: src/src/partition.rs:322-338 (PartitionManager::create_shards_for_partition) *)
Definition create_shards_for_partition (p : Partition) : outcome DOLDAError Partition :=
  if bool_decide (pt_assigned_nodes p = []) then Err (DoldaPartition "No nodes assigned to partition") else
  Ok (mkPartition (pt_partition_id p) (pt_strategy p) (pt_min_key p) (pt_max_key p)
        (pt_shards p ++ imap (shard_of (pt_partition_id p)) (pt_assigned_nodes p))
        (pt_assigned_nodes p) (pt_total_records p) (pt_total_size p) (pt_created_time p)).

(** Source: src/src/partition.rs:175-205 (PartitionManager::create_partition) *)
Definition create_partition (now_ms now_secs : Z) (c : Cluster) (pm : PartitionManager)
    (strategy : PartitionStrategy) (min_key max_key : option PartitionKey) (replica_count : Z)
    : PartitionManager * outcome DOLDAError Z :=
  let partition_id := generate_partition_id now_ms in
  let partition := Partition_new now_secs partition_id strategy min_key max_key replica_count in
  match (partition ← assign_nodes_to_partition c partition; create_shards_for_partition partition) with
  | Ok partition =>
      let stats := pm_stats pm in
      (mkPartitionManager (<[partition_id := partition]> (pm_partitions pm)) (pm_default_strategy pm)
         (pm_default_replicas pm) (pm_max_shards_per_partition pm)
         (mkPartitionStats (u64 (pst_total_partitions stats + 1))
            (u64 (pst_total_shards stats + len (pt_shards partition))) (pst_total_data_size stats)),
       Ok partition_id)
  | Err e => (pm, Err e)
  | Panic => (pm, Panic)
  end.

(** Source: src/src/partition.rs:207-219 (PartitionManager::get_partition_for_key) *)
Definition get_partition_for_key (pm : PartitionManager) (key : PartitionKey) : option Z :=
  let hash := key_hash key in
  let partition_count := Z.of_nat (size (pm_partitions pm)) in
  if partition_count =? 0 then None else Some (u32 (hash `mod` partition_count + 1)).

(** Source: src/src/partition.rs:221-233 (PartitionManager::get_node_for_key) *)
Definition get_node_for_key (c : Cluster) (pm : PartitionManager) (key : PartitionKey) : option nat :=
  partition_id ← get_partition_for_key pm key;
  partition ← pm_partitions pm !! partition_id;
  match pt_assigned_nodes partition with
  | [] => None
  | node_id :: _ => get_node c node_id
  end.

(** Source: src/src/partition.rs:235-246 (PartitionManager::get_shard_for_key) *)
Definition get_shard_for_key (pm : PartitionManager) (key : PartitionKey) : option DataShard :=
  partition_id ← get_partition_for_key pm key;
  partition ← pm_partitions pm !! partition_id;
  head (pt_shards partition).

(** Source: src/src/partition.rs:248-256 (PartitionManager::split_partition) *)
Definition split_partition (pm : PartitionManager) (_partition_id : Z) (_split_key : PartitionKey)
    : outcome DOLDAError (Z * Z) :=
  Err (DoldaPartition "Partition splitting not implemented").

(** Source: src/src/partition.rs:258-266 (PartitionManager::merge_partitions) *)
Definition merge_partitions (pm : PartitionManager) (_partition1_id _partition2_id : Z)
    : outcome DOLDAError Z :=
  Err (DoldaPartition "Partition merging not implemented").
End partition.

(** ** Lemmas *)
Lemma generated_id_range now_ms : 1 ≤ generate_partition_id now_ms ≤ MAX_PARTITIONS.
Proof.
  unfold generate_partition_id, MAX_PARTITIONS. pose proof (Z.mod_pos_bound (u32 now_ms) 65536).
  rewrite wrap_id; unfold in_range; lia.
Qed.

(** The id in plain arithmetic: 65536 divides [2 ^ 32]. *)
Lemma generated_id_spec now_ms : generate_partition_id now_ms = now_ms `mod` 65536 + 1.
Proof.
  unfold generate_partition_id, MAX_PARTITIONS, wrap.
  rewrite Z.mod_mod_divide by (by exists 65536).
  pose proof (Z.mod_pos_bound now_ms 65536). rewrite Z.mod_small; lia.
Qed.

Section partition_lemmas.
Context `{Crc32} `{DashOk}.

(** The ids of the data nodes of a cluster, in iteration order. *)
Definition data_node_ids (c : Cluster) : list Z :=
  omap (λ cell, node_id <$> cl_heap c !! cell) (get_data_nodes c).

Lemma data_node_ids_length c : length (data_node_ids c) = length (get_data_nodes c).
Proof.
  unfold data_node_ids. assert (∀ cell, cell ∈ get_data_nodes c → is_Some (cl_heap c !! cell)) as Hall.
  { intros cell [Hd _]%data_node_iff. unfold cell_is_data in Hd. by destruct (cl_heap c !! cell). }
  induction (get_data_nodes c) as [|cell l IH]; [done|]. cbn.
  destruct (Hall cell) as [n ->]; [by left|]. cbn. rewrite IH; [done|]. intros. apply Hall. by right.
Qed.

(** A key is routed to one of the first [n] numbers. *)
Lemma route_bounds pm key p :
  get_partition_for_key pm key = Some p → 1 ≤ p ∧ p ≤ Z.of_nat (size (pm_partitions pm)) ∨
  2 ^ 32 ≤ Z.of_nat (size (pm_partitions pm)).
Proof.
  unfold get_partition_for_key. destruct (_ =? 0) eqn:Hz; [done|]. zbool. intros [= <-].
  set (n := Z.of_nat _) in *. assert (0 < n) by (unfold n in *; lia).
  pose proof (Z.mod_pos_bound (key_hash key) n). destruct (Z.lt_ge_cases n (2 ^ 32)); [left|by right].
  destruct (decide (key_hash key `mod` n + 1 < 2 ^ 32)); [rewrite wrap_id; unfold in_range; lia|lia].
Qed.
End partition_lemmas.

(** ** Properties *)
Section partition_properties.
Context `{Crc32} `{DashOk}.

(** Creating a partition: refused without data nodes, and otherwise the new
    partition has an id between 1 and 65536 (the creation time in milliseconds
    modulo 65536), one shard on each data node of the cluster, with distinct
    ids, the first shard alone being primary; a partition that had this id is
    replaced, the other ones are kept, and the statistics count one more
    partition whatever happened. *)
Lemma create_partition_spec now_ms now_secs c pm strategy min_key max_key replicas :
  let id := now_ms `mod` 65536 + 1 in
  let '(pm', res) := create_partition now_ms now_secs c pm strategy min_key max_key replicas in
  (get_data_nodes c = [] ∧ pm' = pm ∧ res = Err (DoldaPartition "No data nodes available")) ∨
  (get_data_nodes c ≠ [] ∧ res = Ok id ∧ 1 ≤ id ≤ MAX_PARTITIONS ∧
   pst_total_partitions (pm_stats pm') = u64 (pst_total_partitions (pm_stats pm) + 1) ∧
   (∀ id', id' ≠ id → pm_partitions pm' !! id' = pm_partitions pm !! id') ∧
   ∃ p, pm_partitions pm' !! id = Some p ∧ pt_assigned_nodes p = data_node_ids c ∧
     sd_node_id <$> pt_shards p = data_node_ids c ∧
     (∀ i sd, pt_shards p !! i = Some sd → Z.of_nat i < 2 ^ 31 →
        sd_shard_id sd = id * 1000 + Z.of_nat i ∧ (sd_is_primary sd = true ↔ i = 0%nat))).
Proof.
  intros id. unfold create_partition. rewrite generated_id_spec. fold id.
  assert (1 ≤ id ≤ MAX_PARTITIONS) as Hid
    by (unfold id; rewrite <- generated_id_spec; apply generated_id_range).
  unfold assign_nodes_to_partition. fold (data_node_ids c). pose proof (data_node_ids_length c) as Hlen.
  destruct (decide (get_data_nodes c = [])) as [Hnil|Hne];
    [rewrite bool_decide_eq_true_2 by done; by left|rewrite bool_decide_eq_false_2 by done].
  cbn [mbind outcome_bind]. unfold create_shards_for_partition. cbn [pt_assigned_nodes pt_partition_id].
  assert (data_node_ids c ≠ []) as Hne'.
  { intros Hnil. rewrite Hnil in Hlen. by destruct (get_data_nodes c). }
  rewrite bool_decide_eq_false_2 by done. cbn. right.
  do 4 (split; [done|]). split; [intros; by rewrite lookup_insert_ne|].
  rewrite lookup_insert_eq. eexists. split; [done|]. split; [done|]. cbn. split.
  - apply list_eq. intros i. rewrite list_lookup_fmap, list_lookup_imap. by destruct (data_node_ids c !! i).
  - intros i sd. rewrite list_lookup_imap. intros (x & Hx & ->)%fmap_Some Hi. cbn.
    unfold MAX_PARTITIONS in Hid. rewrite (wrap_id 32 (Z.of_nat i)) by (unfold in_range; lia).
    rewrite (wrap_id 32 (id * 1000)) by (unfold in_range; lia).
    rewrite wrap_id by (unfold in_range; lia). split; [done|]. by rewrite bool_decide_eq_true.
Qed.

(** Key routing assumes that the [n] partitions are numbered [1 .. n]: every
    key is sent to one of these numbers, so a partition numbered above [n] is
    never used, and when all are (ids come from the clock, [create_partition_spec])
    no key has a node or a shard.  When the numbers are [1 .. n], every key has
    its partition, and its node is the first one of that partition. *)
Lemma routing_needs_consecutive_ids c pm :
  0 < Z.of_nat (size (pm_partitions pm)) < 2 ^ 32 →
  let n := Z.of_nat (size (pm_partitions pm)) in
  (∀ key, ∃ p, get_partition_for_key pm key = Some p ∧ 1 ≤ p ≤ n) ∧
  ((∀ id, is_Some (pm_partitions pm !! id) → n < id) →
   ∀ key, get_node_for_key c pm key = None ∧ get_shard_for_key pm key = None) ∧
  ((∀ id, 1 ≤ id ≤ n → is_Some (pm_partitions pm !! id)) →
   ∀ key, ∃ p part, get_partition_for_key pm key = Some p ∧ pm_partitions pm !! p = Some part ∧
     get_node_for_key c pm key = head (pt_assigned_nodes part) ≫= get_node c).
Proof.
  intros Hn n. assert (∀ key, ∃ p, get_partition_for_key pm key = Some p ∧ 1 ≤ p ≤ n) as Hroute.
  { intros key. destruct (get_partition_for_key pm key) as [p|] eqn:Hp.
    - exists p. split; [done|]. destruct (route_bounds pm key p Hp); unfold n; lia.
    - unfold get_partition_for_key in Hp. destruct (_ =? 0) eqn:Hz; [|done]. zbool. lia. }
  split; [done|]. split.
  - intros Hids key. destruct (Hroute key) as (p & Hp & Hle).
    unfold get_node_for_key, get_shard_for_key. rewrite Hp. cbn.
    destruct (pm_partitions pm !! p) eqn:Hl; [|done]. specialize (Hids p ltac:(by eexists)). lia.
  - intros Hids key. destruct (Hroute key) as (p & Hp & Hle). destruct (Hids p Hle) as [part Hpart].
    exists p, part. split_and!; [done..|]. unfold get_node_for_key. rewrite Hp. cbn. rewrite Hpart. cbn.
    by destruct (pt_assigned_nodes part).
Qed.
End partition_properties.

(** ** Concrete runs *)
#[local] Existing Instance sample_net.
#[local] Existing Instance sample_dash.
#[local] Existing Instance sample_dash_ok.
Definition sample_cluster : Cluster := cluster_run ClusterConfig_default sample_ops.
Definition sample_partitions : PartitionManager :=
  (create_partition 1700000000000 1700000000 sample_cluster PartitionManager_new ByHash None None 3).1.

(** Two partitions created in the same millisecond: one is left, two are counted. *)
Example same_millisecond :
  let pm := (create_partition 1700000000000 1700000000 sample_cluster sample_partitions ByHash None None 3).1 in
  (size (pm_partitions pm), pst_total_partitions (pm_stats pm)) = (1%nat, 2).
Proof. vm_compute. reflexivity. Qed.

Lemma routing_needs_consecutive_ids_witness :
  get_node_for_key sample_cluster sample_partitions (KString "test_key") = None ∧
  get_shard_for_key sample_partitions (KString "test_key") = None.
Proof.
  apply (routing_needs_consecutive_ids sample_cluster sample_partitions); [by vm_compute|].
  assert (pm_partitions sample_partitions =
    {[ 1700000000000 `mod` 65536 + 1 := default (Partition_new 0 0 ByHash None None 0)
         (pm_partitions sample_partitions !! (1700000000000 `mod` 65536 + 1)) ]}) as ->
    by (vm_compute; reflexivity).
  intros id. rewrite lookup_singleton_is_Some. intros <-. rewrite map_size_singleton. by vm_compute.
Defined.

Lemma create_partition_spec_witness :
  ∃ p, pm_partitions sample_partitions !! (1700000000000 `mod` 65536 + 1) = Some p ∧
    pt_assigned_nodes p = [2] ∧ sd_node_id <$> pt_shards p = [2].
Proof.
  pose proof (create_partition_spec 1700000000000 1700000000 sample_cluster PartitionManager_new
    ByHash None None 3) as Hspec.
  unfold sample_partitions. destruct (create_partition _ _ _ _ _ _ _ _) as [pm' res].
  destruct Hspec as [[Hnil _]|(_ & _ & _ & _ & _ & p & Hp & Hn & Hs & _)]; [by vm_compute in Hnil|].
  exists p. split; [exact Hp|]. split; [rewrite Hn; by vm_compute|rewrite Hs; by vm_compute].
Defined.
