(* ===== verification/Filesystem.v ===== *)
(** * The logical file system (src/src/filesystem.rs)

    A table of files, each a list of blocks spread over the data nodes.  A file
    of the table is shared and immutable; a caller writes to a file of its own.
    Definitions first, then the properties. *)

From stdpp Require Import base list numbers strings gmap pretty.
From coqutil Require Import Byte.
From Stdlib Require Import Strings.Byte.
From S2P Require Import Prelude F64 Network Errors Node Cluster.
Local Open Scope Z_scope.

(** Source: src/src/filesystem.rs:16-31 (DistributedFile) *)
Record DistributedFile := mkFile {
  df_logical_path : string; df_physical_name : string; df_attrs : FileAttrs;
  df_blocks : list BlockLocation; df_replica_nodes : list Z; df_primary_node : Z }.

(** The fresh uuid and the clock reading in seconds are arguments.
    Source: src/src/filesystem.rs:34-57 (DistributedFile::new) *)
Definition DistributedFile_new (uuid : string) (now : Z) (logical_path : string)
    (file_type : FileType) (replica_count : Z) : DistributedFile :=
  mkFile logical_path uuid (mkAttrs 0 now now 420 file_type replica_count) [] [] 0.

(** Source: src/src/filesystem.rs:60-66 (DirEntry) *)
Record DirEntry := mkDirEntry { de_name : string; de_is_directory : bool; de_attrs : FileAttrs }.

(** Source: src/src/filesystem.rs:68-75 (LogicalDirectory) *)
Record LogicalDirectory := mkDirectory {
  ld_path : string; ld_entries : gmap string DirEntry; ld_primary_node : Z; ld_replica_nodes : list Z }.

(** Source: src/src/filesystem.rs:92-98 (FilesystemStats) *)
Record FilesystemStats := mkFsStats { total_files : Z; total_size : Z; total_blocks : Z }.

(** The cluster the source refers to is an argument of the operations.
    Source: src/src/filesystem.rs:77-90 (Filesystem) *)
Record Filesystem := mkFilesystem {
  root_dir : LogicalDirectory; file_table : gmap string DistributedFile;
  metadata_node : option nat; fs_stats : FilesystemStats }.

Definition set_table (fs : Filesystem) (t : gmap string DistributedFile) : Filesystem :=
  mkFilesystem (root_dir fs) t (metadata_node fs) (fs_stats fs).
Definition set_fs_stats (fs : Filesystem) (s : FilesystemStats) : Filesystem :=
  mkFilesystem (root_dir fs) (file_table fs) (metadata_node fs) s.
Definition set_primary (f : DistributedFile) (id : Z) : DistributedFile :=
  mkFile (df_logical_path f) (df_physical_name f) (df_attrs f) (df_blocks f) (df_replica_nodes f) id.
Definition set_blocks (f : DistributedFile) (l : list BlockLocation) : DistributedFile :=
  mkFile (df_logical_path f) (df_physical_name f) (df_attrs f) l (df_replica_nodes f) (df_primary_node f).
Definition set_size_time (f : DistributedFile) (size now : Z) : DistributedFile :=
  let a := df_attrs f in
  mkFile (df_logical_path f) (df_physical_name f)
    (mkAttrs size (fa_created_time a) now (fa_permissions a) (fa_file_type a) (fa_replica_count a))
    (df_blocks f) (df_replica_nodes f) (df_primary_node f).

(** [metadata] is the metadata node, a reference, with its id.
    Source: src/src/filesystem.rs:101-117 (Filesystem::new) *)
Definition Filesystem_new (metadata : option (nat * Z)) : Filesystem :=
  mkFilesystem (mkDirectory "/" ∅ (match metadata with Some (_, id) => id | None => 0 end) [])
    ∅ (fst <$> metadata) (mkFsStats 0 0 0).

Section filesystem.
Context `{Dash}.

(** Block [i] of a file, on the nodes [ids] in turn. *)
Definition block_at (ids : list Z) (i : nat) : BlockLocation :=
  mkBlock (default 0 (ids !! (i mod length ids)%nat)) (u64 (u64 (Z.of_nat i) * BLOCK_SIZE)) (u32 BLOCK_SIZE).

(** The node ids behind the references of [get_data_nodes]. *)
Definition node_ids (c : Cluster) : list Z :=
  (λ cell, match cl_heap c !! cell with Some n => node_id n | None => 0 end) <$> get_data_nodes c.

(** Source: src/src/filesystem.rs:278-306 (Filesystem::allocate_blocks) *)
Definition allocate_blocks (c : Cluster) (fs : Filesystem) (file : DistributedFile)
    (additional_blocks : nat) : Filesystem * DistributedFile * outcome DOLDAError unit :=
  if bool_decide (get_data_nodes c = []) then
    (fs, file, Err (DoldaFilesystem "No data nodes available"))
  else
    let start_block := length (df_blocks file) in
    let file := set_blocks file (df_blocks file ++
      ((λ i, block_at (node_ids c) (start_block + i)%nat) <$> seq 0 additional_blocks)) in
    let s := fs_stats fs in
    (set_fs_stats fs (mkFsStats (total_files s) (total_size s)
       (u64 (total_blocks s + Z.of_nat additional_blocks))), file, Ok tt).

(** Source: src/src/filesystem.rs:119-153 (Filesystem::create_file) *)
Definition create_file (uuid : string) (now : Z) (c : Cluster) (fs : Filesystem)
    (logical_path : string) (file_type : FileType) (replica_count : Z)
    : Filesystem * outcome DOLDAError DistributedFile :=
  match file_table fs !! logical_path with
  | Some _ => (fs, Err (DoldaFilesystem ("File " +:+ logical_path +:+ " already exists")))
  | None =>
      let file := DistributedFile_new uuid now logical_path file_type replica_count in
      let file := match select_data_node c 0 ≫= (λ cell, cl_heap c !! cell) with
        | Some primary => set_primary file (node_id primary)
        | None => file
        end in
      match allocate_blocks c fs file 0 with
      | (fs, file, Ok _) =>
          let fs := set_table fs (<[logical_path := file]> (file_table fs)) in
          let s := fs_stats fs in
          (set_fs_stats fs (mkFsStats (u64 (total_files s + 1)) (total_size s) (total_blocks s)), Ok file)
      | (fs, _, Err e) => (fs, Err e)
      | (fs, _, Panic) => (fs, Panic)
      end
  end.

(** Source: src/src/filesystem.rs:155-161 (Filesystem::open_file) *)
Definition open_file (fs : Filesystem) (logical_path : string) : outcome DOLDAError DistributedFile :=
  ok_or (file_table fs !! logical_path)
    (DoldaFilesystem ("File " +:+ logical_path +:+ " not found")).

(** Source: src/src/filesystem.rs:308-313 (Filesystem::free_blocks) *)
Definition free_blocks (fs : Filesystem) (_file : DistributedFile) : Filesystem := fs.

(** Source: src/src/filesystem.rs:163-181 (Filesystem::delete_file) *)
Definition delete_file (fs : Filesystem) (logical_path : string) : Filesystem * outcome DOLDAError unit :=
  match file_table fs !! logical_path with
  | Some file =>
      let fs := set_table fs (delete logical_path (file_table fs)) in
      let fs := free_blocks fs file in
      let s := fs_stats fs in
      (set_fs_stats fs (mkFsStats (saturating_sub (total_files s) 1)
         (saturating_sub (total_size s) (fa_size (df_attrs file)))
         (saturating_sub (total_blocks s) (len (df_blocks file)))), Ok tt)
  | None => (fs, Ok tt)
  end.

(** The bytes returned are zeros: no content is kept.
    Source: src/src/filesystem.rs:183-202 (Filesystem::read_file) *)
Definition read_file (file : DistributedFile) (offset size : Z) : outcome DOLDAError bytes :=
  if fa_size (df_attrs file) <=? offset then Ok []
  else
    let available := u64 (fa_size (df_attrs file) - offset) in
    Ok (replicate (Z.to_nat (Z.min size available)) x00).

(** Source: src/src/filesystem.rs:204-237 (Filesystem::write_file) *)
Definition write_file (now : Z) (c : Cluster) (fs : Filesystem) (file : DistributedFile)
    (offset : Z) (data : bytes) : Filesystem * DistributedFile * outcome DOLDAError Z :=
  let new_size := u64 (offset + len data) in
  let needed_blocks := u64 (u64 (new_size + BLOCK_SIZE) - 1) `div` BLOCK_SIZE in
  match
    (if len (df_blocks file) <? needed_blocks
     then allocate_blocks c fs file (Z.to_nat (needed_blocks - len (df_blocks file)))
     else (fs, file, Ok tt))
  with
  | (fs, file, Err e) => (fs, file, Err e)
  | (fs, file, Panic) => (fs, file, Panic)
  | (fs, file, Ok _) =>
      let size := fa_size (df_attrs file) in
      let file := set_size_time file (if size <? new_size then new_size else size) now in
      let s := fs_stats fs in
      (set_fs_stats fs (mkFsStats (total_files s) (Z.max (total_size s) (fa_size (df_attrs file)))
         (total_blocks s)), file, Ok (len data))
  end.

(** Source: src/src/filesystem.rs:239-243 (Filesystem::sync_file) *)
Definition sync_file (fs : Filesystem) (_file : DistributedFile) : outcome DOLDAError unit := Ok tt.

(** The table is listed in no particular order: here, the one of [map_to_list].
    Source: src/src/filesystem.rs:245-271 (Filesystem::list_directory) *)
Definition list_directory (fs : Filesystem) (path : string) : outcome DOLDAError (list DirEntry) :=
  if String.eqb path "/" then
    Ok ((λ e : string * DistributedFile, mkDirEntry e.1 false (df_attrs e.2)) <$>
      filter (λ e, String.prefix "/data/" e.1 || String.prefix "/index/" e.1
                   || String.prefix "/logs/" e.1 = true) (map_to_list (file_table fs)))
  else Ok [].
End filesystem.

(** ** Writes to a file, and calls on the file system *)

(** Successive writes by the owner of a file: time, offset and data. *)
Fixpoint write_all `{Dash} (c : Cluster) (fs : Filesystem) (file : DistributedFile)
    (ws : list (Z * Z * bytes)) : Filesystem * DistributedFile * outcome DOLDAError unit :=
  match ws with
  | [] => (fs, file, Ok tt)
  | (now, offset, data) :: ws =>
      match write_file now c fs file offset data with
      | (fs, file, Ok _) => write_all c fs file ws
      | (fs, file, Err e) => (fs, file, Err e)
      | (fs, file, Panic) => (fs, file, Panic)
      end
  end.

(** The size after writes: the furthest byte written. *)
Definition extent (ws : list (Z * Z * bytes)) : Z :=
  foldr (λ w size, Z.max (w.1.2 + len w.2) size) 0 ws.

(** A call: a creation, a write to a file some caller holds, or a deletion. *)
Inductive fs_op :=
  | CreateFile (uuid : string) (now : Z) (path : string) (t : FileType) (replicas : Z)
  | WriteFile (now : Z) (file : DistributedFile) (offset : Z) (data : bytes)
  | DeleteFile (path : string).

Definition fs_step `{Dash} (c : Cluster) (fs : Filesystem) (op : fs_op) : Filesystem :=
  match op with
  | CreateFile uuid now path t replicas => (create_file uuid now c fs path t replicas).1
  | WriteFile now file offset data => (write_file now c fs file offset data).1.1
  | DeleteFile path => (delete_file fs path).1
  end.

(** ** Lemmas *)
Section filesystem_lemmas.
Context `{DashOk}.

Definition blocks_for (size : Z) : Z := (size + 4095) `div` 4096.
Definition layout (ids : list Z) (n : nat) : list BlockLocation := block_at ids <$> seq 0 n.

(** A file of [size] bytes with just the blocks it needs, on [ids] in turn. *)
Record file_repr (ids : list Z) (f : DistributedFile) (size : Z) : Prop := {
  fr_size : fa_size (df_attrs f) = size;
  fr_range : 0 ≤ size < 2 ^ 63;
  fr_blocks : df_blocks f = layout ids (Z.to_nat (blocks_for size))
}.

Lemma len_layout ids n : len (layout ids n) = Z.of_nat n.
Proof. unfold len, layout. by rewrite length_fmap, length_seq. Qed.

Lemma layout_app ids a b :
  layout ids a ++ ((λ i, block_at ids (a + i)%nat) <$> seq 0 b) = layout ids (a + b).
Proof.
  unfold layout. rewrite seq_app, fmap_app. f_equal. cbn.
  replace (seq a b) with (seq (a + 0) b) by (f_equal; lia).
  by rewrite <- fmap_add_seq, <- list_fmap_compose.
Qed.

Lemma blocks_for_mono a b : a ≤ b → blocks_for a ≤ blocks_for b.
Proof. intros. unfold blocks_for. apply Z.div_le_mono; lia. Qed.
Lemma blocks_for_nonneg a : 0 ≤ a → 0 ≤ blocks_for a.
Proof. intros. unfold blocks_for. apply Z.div_pos; lia. Qed.

Lemma extent_nonneg ws : 0 ≤ extent ws.
Proof.
  induction ws as [|w ws IH]; [done|]. change (0 ≤ Z.max (w.1.2 + len w.2) (extent ws)). lia.
Qed.

(** The number of blocks a write asks for. *)
Lemma needed_spec n : 0 ≤ n < 2 ^ 63 → u64 (u64 (n + BLOCK_SIZE) - 1) `div` BLOCK_SIZE = blocks_for n.
Proof.
  intros. unfold BLOCK_SIZE, blocks_for. rewrite (wrap_id 64 (n + 4096)) by (unfold in_range; lia).
  rewrite wrap_id by (unfold in_range; lia). f_equal. lia.
Qed.

Lemma allocate_spec c fs f n :
  get_data_nodes c ≠ [] →
  ∃ fs', allocate_blocks c fs f n = (fs', set_blocks f (df_blocks f ++
      ((λ i, block_at (node_ids c) (length (df_blocks f) + i)%nat) <$> seq 0 n)), Ok tt) ∧
    file_table fs' = file_table fs.
Proof. intros Hne. unfold allocate_blocks. rewrite bool_decide_eq_false_2 by done. by eexists. Qed.

(** One write by the owner of a file. *)
Lemma write_file_repr now c fs f size offset data :
  get_data_nodes c ≠ [] → file_repr (node_ids c) f size → 0 ≤ offset → offset + len data < 2 ^ 63 →
  ∃ fs' f', write_file now c fs f offset data = (fs', f', Ok (len data)) ∧
    file_repr (node_ids c) f' (Z.max size (offset + len data)).
Proof.
  intros Hne [Hsize Hrange Hblocks] Ho Hlt. pose proof (len_nonneg data).
  unfold write_file. rewrite (wrap_id 64 (offset + len data)) by (unfold in_range; lia).
  rewrite needed_spec by lia. set (new := offset + len data) in *.
  pose proof (blocks_for_nonneg size ltac:(lia)). pose proof (blocks_for_nonneg new ltac:(lia)).
  assert (len (df_blocks f) = blocks_for size) as Hlen by (rewrite Hblocks, len_layout; lia).
  rewrite Hlen. destruct (blocks_for size <? blocks_for new) eqn:Hgrow; zbool.
  - destruct (allocate_spec c fs f (Z.to_nat (blocks_for new - blocks_for size)) Hne) as (fs' & -> & _).
    cbn [set_blocks df_attrs]. rewrite Hsize.
    assert (size < new) as Hsn.
    { destruct (Z.lt_ge_cases size new) as [|Hge]; [done|]. pose proof (blocks_for_mono _ _ Hge). lia. }
    rewrite (proj2 (Z.ltb_lt _ _) Hsn), (Z.max_r size new) by lia. do 2 eexists. split; [done|].
    split; cbn; [done|lia|]. unfold len in Hlen. rewrite Hblocks at 1.
    replace (length (df_blocks f)) with (Z.to_nat (blocks_for size)) by lia.
    rewrite layout_app. f_equal. lia.
  - rewrite Hsize. do 2 eexists. split; [done|].
    assert (blocks_for (Z.max size new) = blocks_for size) as Hmax.
    { destruct (Z.max_spec size new) as [[Hlt' ->]|[_ ->]]; [|done].
      pose proof (blocks_for_mono size new ltac:(lia)). lia. }
    split; cbn; [destruct (size <? new) eqn:?; zbool; lia|lia|by rewrite Hmax].
Qed.

Lemma write_all_repr c ws fs f size :
  get_data_nodes c ≠ [] → file_repr (node_ids c) f size →
  Forall (λ w, 0 ≤ w.1.2 ∧ w.1.2 + len w.2 < 2 ^ 63) ws →
  ∃ fs' f', write_all c fs f ws = (fs', f', Ok tt) ∧
    file_repr (node_ids c) f' (Z.max size (extent ws)).
Proof.
  intros Hne. revert fs f size. induction ws as [|[[now off] data] ws IH]; intros fs f size Hf Hws.
  { exists fs, f. split; [done|]. cbn. rewrite Z.max_l by (apply fr_range in Hf; lia). done. }
  apply Forall_cons in Hws as [[Ho Hlt] Hws]. cbn in Ho, Hlt. cbn [write_all].
  destruct (write_file_repr now c fs f size off data Hne Hf Ho Hlt) as (fs1 & f1 & -> & Hf1).
  destruct (IH fs1 f1 _ Hf1 Hws) as (fs' & f' & Hr & Hf'). exists fs', f'. split; [done|].
  cbn. by rewrite Z.max_assoc.
Qed.

(** The block of a byte of a file. *)
Lemma layout_byte ids n x :
  ids ≠ [] → 0 ≤ x → x `div` 4096 < Z.of_nat n → x < 2 ^ 63 →
  ∃ b, layout ids n !! Z.to_nat (x `div` 4096) = Some b ∧
    bl_offset b ≤ x < bl_offset b + bl_size b ∧
    ids !! Z.to_nat ((x `div` 4096) `mod` len ids) = Some (bl_node_id b).
Proof.
  intros Hids Hx Hn Hlt. set (i := x `div` 4096) in *.
  assert (0 ≤ i) by (apply Z.div_pos; lia). pose proof (Z.div_mod x 4096) as Hdm.
  pose proof (Z.mod_pos_bound x 4096). fold i in Hdm.
  exists (block_at ids (Z.to_nat i)). split.
  { unfold layout. rewrite list_lookup_fmap, lookup_seq_lt by lia. done. }
  unfold block_at; cbn. rewrite Z2Nat.id by lia. unfold BLOCK_SIZE.
  rewrite (wrap_id 64 i), (wrap_id 64 (i * 4096)), (wrap_id 32) by (unfold in_range; lia).
  split; [lia|]. destruct ids as [|id ids]; [done|]. set (l := id :: ids) in *.
  assert (Z.to_nat (i `mod` len l) = Z.to_nat i mod length l)%nat as ->.
  { unfold len. rewrite Z2Nat.inj_mod by lia. by rewrite Nat2Z.id. }
  destruct (lookup_lt_is_Some_2 l (Z.to_nat i mod length l)%nat) as [v ->]; [|done].
  apply Nat.mod_upper_bound. done.
Qed.

Lemma node_ids_nonempty c : get_data_nodes c ≠ [] → node_ids c ≠ [].
Proof. unfold node_ids. by destruct (get_data_nodes c). Qed.

(** A new file has no blocks; the table and the statistics around it. *)
Lemma create_file_ok uuid now c fs path t replicas fs' f :
  create_file uuid now c fs path t replicas = (fs', Ok f) →
  get_data_nodes c ≠ [] ∧ file_table fs !! path = None ∧
  file_table fs' = <[path := f]> (file_table fs) ∧ fa_size (df_attrs f) = 0 ∧ df_blocks f = [].
Proof.
  unfold create_file, allocate_blocks. destruct (file_table fs !! path) eqn:Hp; [done|].
  destruct (bool_decide_reflect (get_data_nodes c = [])) as [|Hne]; [done|].
  destruct (_ ≫= _); intros Hc; cbn in Hc; injection Hc as <- <-; by split_and!.
Qed.

Lemma create_file_err uuid now c fs path t replicas fs' r :
  create_file uuid now c fs path t replicas = (fs', r) → is_ok r = false →
  file_table fs' = file_table fs.
Proof.
  unfold create_file, allocate_blocks. destruct (file_table fs !! path); [by intros [= <- <-]|].
  destruct (bool_decide _); [by intros [= <- <-]|]. destruct (_ ≫= _); by intros [= <- <-].
Qed.

Lemma write_file_table now c fs f offset data :
  file_table (write_file now c fs f offset data).1.1 = file_table fs.
Proof.
  unfold write_file. destruct (_ <? _); [|done]. unfold allocate_blocks.
  by destruct (bool_decide _).
Qed.

(** The files of the table are empty and the counters are not negative. *)
Definition fs_inv (fs : Filesystem) : Prop :=
  (∀ path f, file_table fs !! path = Some f → fa_size (df_attrs f) = 0 ∧ df_blocks f = []) ∧
  0 ≤ total_size (fs_stats fs) ∧ 0 ≤ total_blocks (fs_stats fs).

Lemma fs_new_inv metadata : fs_inv (Filesystem_new metadata).
Proof. split; [|done]. intros path f. cbn. by rewrite lookup_empty. Qed.

Lemma allocate_stats c fs f n :
  0 ≤ total_size (fs_stats fs) ∧ 0 ≤ total_blocks (fs_stats fs) →
  let fs' := (allocate_blocks c fs f n).1.1 in
  0 ≤ total_size (fs_stats fs') ∧ 0 ≤ total_blocks (fs_stats fs').
Proof.
  intros []. unfold allocate_blocks. destruct (bool_decide _); [done|]. cbn. split; [done|].
  apply wrap_range. lia.
Qed.

Lemma create_inv uuid now c fs path t replicas :
  fs_inv fs → fs_inv (create_file uuid now c fs path t replicas).1.
Proof.
  intros [Ht Hs]. destruct (create_file uuid now c fs path t replicas) as [fs' r] eqn:Hc. cbn [fst]. split.
  - destruct r as [f|e|]; [|by rewrite (create_file_err _ _ _ _ _ _ _ _ _ Hc)..].
    destruct (create_file_ok _ _ _ _ _ _ _ _ _ Hc) as (_ & _ & -> & Hz & Hb).
    intros path' f' [[_ <-]|[_ Hl]]%lookup_insert_Some; [done|by apply (Ht path')].
  - change fs' with (fs', r).1. rewrite <- Hc. clear Hc. unfold create_file.
    destruct (file_table fs !! path); [done|].
    set (file := match _ ≫= _ with Some _ => _ | None => _ end).
    pose proof (allocate_stats c fs file 0 Hs) as Ha.
    by destruct (allocate_blocks c fs file 0) as [[fs1 f1] [| |]].
Qed.

Lemma write_inv now c fs f offset data : fs_inv fs → fs_inv (write_file now c fs f offset data).1.1.
Proof.
  intros [Ht Hs]. split; [by rewrite write_file_table|]. unfold write_file.
  destruct (_ <? _); [|cbn; lia].
  match goal with |- context [allocate_blocks c fs f ?n] => pose proof (allocate_stats c fs f n Hs) as Ha end.
  destruct (allocate_blocks c fs f _) as [[fs1 f1] [| |]]; cbn in *; lia.
Qed.

Lemma delete_inv fs path : fs_inv fs → fs_inv (delete_file fs path).1.
Proof.
  intros [Ht Hs]. unfold delete_file. destruct (file_table fs !! path); [|done].
  split; cbn; [|unfold saturating_sub; lia]. intros path' f' [_ Hl]%lookup_delete_Some. by apply (Ht path').
Qed.

Lemma fs_run_inv c ops fs : fs_inv fs → fs_inv (foldl (fs_step c) fs ops).
Proof.
  revert fs. induction ops as [|op ops IH]; intros fs Hf; [done|]. cbn. apply IH.
  destruct op; cbn [fs_step]; [by apply create_inv|by apply write_inv|by apply delete_inv].
Qed.
End filesystem_lemmas.

(** ** Properties *)
Section filesystem_properties.
Context `{DashOk}.

(** Block layout: starting from a file just created, any sequence of writes
    (within 2^63 bytes) is acknowledged; the file then has the size of the
    furthest byte written and exactly the blocks this size needs, and every byte
    of the file lies in the block of its number, which is on the data node that
    round robin gives to this number.  A read returns as many bytes as are
    available from its offset. *)
Lemma writes_stripe_blocks uuid now c fs path t replicas fs1 f ws :
  create_file uuid now c fs path t replicas = (fs1, Ok f) →
  Forall (λ w, 0 ≤ w.1.2 ∧ w.1.2 + len w.2 < 2 ^ 63) ws →
  ∃ fs2 f', write_all c fs1 f ws = (fs2, f', Ok tt) ∧
    fa_size (df_attrs f') = extent ws ∧ len (df_blocks f') = (extent ws + 4095) `div` 4096 ∧
    (∀ x, 0 ≤ x < extent ws → ∃ b, df_blocks f' !! Z.to_nat (x `div` 4096) = Some b ∧
      bl_offset b ≤ x < bl_offset b + bl_size b ∧
      node_ids c !! Z.to_nat ((x `div` 4096) `mod` len (node_ids c)) = Some (bl_node_id b)) ∧
    (∀ offset n, 0 ≤ offset → 0 ≤ n →
      ∃ bs, read_file f' offset n = Ok bs ∧ len bs = Z.min n (Z.max 0 (extent ws - offset))).
Proof.
  intros Hc Hws. destruct (create_file_ok _ _ _ _ _ _ _ _ _ Hc) as (Hne & _ & _ & Hsize & Hblocks).
  assert (file_repr (node_ids c) f 0) as Hf by (split; [done|lia|by rewrite Hblocks]).
  destruct (write_all_repr c ws fs1 f 0 Hne Hf Hws) as (fs2 & f' & Hr & [Hs Hrange Hb]).
  pose proof (extent_nonneg ws).
  rewrite Z.max_r in Hs, Hrange, Hb by done. pose proof (blocks_for_nonneg (extent ws) ltac:(lia)) as Hnn.
  exists fs2, f'. split_and!; [done|done|rewrite Hb, len_layout; unfold blocks_for in *; lia| |].
  - intros x Hx. rewrite Hb. apply layout_byte; [by apply node_ids_nonempty|lia| |lia].
    unfold blocks_for in *. rewrite Z2Nat.id by done.
    apply Z.div_lt_upper_bound; [lia|]. pose proof (Z.mod_pos_bound (extent ws + 4095) 4096).
    pose proof (Z.div_mod (extent ws + 4095) 4096 ltac:(lia)). lia.
  - intros offset n Ho Hn. unfold read_file. rewrite Hs.
    destruct (extent ws <=? offset) eqn:Hle; zbool; eexists; (split; [done|]).
    + rewrite len_nil. lia.
    + rewrite len_replicate, wrap_id by (unfold in_range; lia). lia.
Qed.

(** The table never sees a write: in every run of creations, writes and
    deletions, each file of the table still has size 0 and no block, so a file
    opened by its path reads as empty whatever has been written to it; and a
    deletion gives nothing back: it leaves the counts of bytes and of blocks as
    they were. *)
Lemma table_never_sees_writes c metadata ops path :
  let fs := foldl (fs_step c) (Filesystem_new metadata) ops in
  (∀ f, open_file fs path = Ok f →
    df_blocks f = [] ∧ ∀ offset n, 0 ≤ offset → read_file f offset n = Ok []) ∧
  total_size (fs_stats (delete_file fs path).1) = total_size (fs_stats fs) ∧
  total_blocks (fs_stats (delete_file fs path).1) = total_blocks (fs_stats fs).
Proof.
  intros fs. assert (fs_inv fs) as [Ht [Hs Hb]] by apply fs_run_inv, fs_new_inv. split.
  - unfold open_file. intros f. destruct (file_table fs !! path) as [f'|] eqn:Hp; [|done].
    intros [= ->]. destruct (Ht path f Hp) as [Hz Hbl]. split; [done|]. intros offset n Ho.
    unfold read_file. by rewrite Hz, (proj2 (Z.leb_le _ _)).
  - unfold delete_file. destruct (file_table fs !! path) as [f|] eqn:Hp; [|done].
    destruct (Ht path f Hp) as [Hz Hbl].
    cbn [free_blocks set_fs_stats fs_stats fst total_size total_blocks set_table].
    assert (len (df_blocks f) = 0) as -> by (by rewrite Hbl).
    rewrite Hz. unfold saturating_sub. lia.
Qed.
End filesystem_properties.

(** ** Concrete runs *)
#[local] Existing Instance sample_net.
#[local] Existing Instance sample_dash.
#[local] Existing Instance sample_dash_ok.
Definition two_data_nodes : Cluster :=
  cluster_run ClusterConfig_default [AddNode 5 (fresh_node Data); AddNode 6 (fresh_node Mixed)].
Definition sample_fs : Filesystem := Filesystem_new None.
Definition sample_file : DistributedFile :=
  from_ok (DistributedFile_new EmptyString 0 EmptyString FileData 0)
    (create_file "u" 9 two_data_nodes sample_fs "/data/t" FileData 3).2.
Definition sample_writes : list (Z * Z * bytes) := [(10, 0, str_bytes "abc"); (11, 5000, str_bytes "de")].

Lemma writes_stripe_blocks_witness :
  ∃ fs2 f', write_all two_data_nodes (create_file "u" 9 two_data_nodes sample_fs "/data/t" FileData 3).1
      sample_file sample_writes = (fs2, f', Ok tt) ∧
    fa_size (df_attrs f') = 5002 ∧ len (df_blocks f') = 2.
Proof.
  destruct (writes_stripe_blocks "u" 9 two_data_nodes sample_fs "/data/t" FileData 3
    (create_file "u" 9 two_data_nodes sample_fs "/data/t" FileData 3).1 sample_file sample_writes)
    as (fs2 & f' & Hw & Hs & Hb & _); [by vm_compute| |].
  - constructor; [by vm_compute|]. constructor; [by vm_compute|constructor].
  - exists fs2, f'. split; [exact Hw|]. split; [exact Hs|exact Hb].
Defined.
