(* ===== verification/Demo.v ===== *)
(** * The demonstration cluster (src/src/demo.rs)

    Nodes, files and partitions of [DemoCluster], the routing of keys, the
    simulated writes, and the program [demonstrate_architecture] without what it
    prints.  Clock readings are arguments. *)

From stdpp Require Import base list list_numbers numbers strings gmap sets fin_maps pretty.
From Stdlib Require Import Strings.Byte.
From S2P Require Import Prelude Crc32 F64.
Local Open Scope Z_scope.

(** ** Definitions *)

(** Source: src/src/demo.rs:8-17 (NodeType) *)
Inductive NodeType := Control | Data | Mixed.
(** Source: src/src/demo.rs:20-26 (NodeType::fmt) *)
Definition NodeType_fmt (t : NodeType) : string :=
  match t with Control => "Control" | Data => "Data" | Mixed => "Mixed" end.

(** Source: src/src/demo.rs:29-40 (DemoNode) *)
Record DemoNode := mkDemoNode {
  dn_id : Z; dn_name : string; dn_node_type : NodeType; dn_ip : string; dn_port : Z;
  dn_memory_gb : Z; dn_storage_gb : Z; dn_active : bool }.

(** Source: src/src/demo.rs:43-54 (DemoNode::new) *)
Definition DemoNode_new (id : Z) (name : string) (node_type : NodeType) : DemoNode :=
  {| dn_id := id; dn_name := name; dn_node_type := node_type; dn_ip := "127.0.0.1";
     dn_port := u16 (8080 + u16 id); dn_memory_gb := 8; dn_storage_gb := 100; dn_active := true |}.

(** Source: src/src/demo.rs:56-59 (DemoNode::load_factor) *)
Definition load_factor (n : DemoNode) : f64 :=
  f64_add (f64_lit 1 4) (f64_rem (f64_mul (f64_of_int (dn_id n)) (f64_lit 1 10)) (f64_lit 1 2)).

(** Source: src/src/demo.rs:62-68 (PartitionKey) *)
Inductive PartitionKey :=
  | KString (s : string)
  | KInteger (i : Z)
  | KTimestamp (t : Z).

(** Source: src/src/demo.rs:71-80 (PartitionKey::hash) *)
Definition PartitionKey_hash `{Crc32} (k : PartitionKey) : Z :=
  hasher_finalize (hasher_update hasher_new
    match k with
    | KString s => str_bytes s
    | KInteger i => to_le_bytes 8 i
    | KTimestamp t => to_le_bytes 8 t
    end).

(** Source: src/src/demo.rs:107-114 (DemoFile) *)
Record DemoFile := mkDemoFile {
  df_logical_path : string; df_size_bytes : Z; df_node_id : Z; df_replicas : list Z }.
(** Source: src/src/demo.rs:117-124 (DemoFile::new) *)
Definition DemoFile_new (path : string) (size node_id : Z) (replicas : list Z) : DemoFile :=
  {| df_logical_path := path; df_size_bytes := size; df_node_id := node_id; df_replicas := replicas |}.

(** Source: src/src/demo.rs:127-134 (DemoPartition) *)
Record DemoPartition := mkDemoPartition {
  dp_id : Z; dp_node_ids : list Z; dp_total_records : Z; dp_total_size : Z }.
(** Source: src/src/demo.rs:137-144 (DemoPartition::new) *)
Definition DemoPartition_new (id : Z) (node_ids : list Z) : DemoPartition :=
  {| dp_id := id; dp_node_ids := node_ids; dp_total_records := u64 (100000 * id);
     dp_total_size := u64 (100 * 1024 * 1024 * id) |}.

(** Source: src/src/demo.rs:147-155 (DemoCluster) *)
Record DemoCluster := mkDemoCluster {
  dc_nodes : gmap Z DemoNode; dc_files : gmap string DemoFile;
  dc_partitions : gmap Z DemoPartition; dc_total_memory : Z; dc_total_storage : Z }.

(** Source: src/src/demo.rs:235-243 (ClusterStats) *)
Record DemoStats := mkDemoStats {
  ds_active_nodes : Z; ds_total_files : Z; ds_total_partitions : Z;
  ds_total_memory : Z; ds_total_storage : Z }.

(** Source: src/src/demo.rs:245-251 (DataRecord) *)
Record DataRecord := mkDataRecord { dr_key : PartitionKey; dr_value : bytes; dr_timestamp : Z }.
(** [now] is the clock in seconds.
    Source: src/src/demo.rs:254-263 (DataRecord::new) *)
Definition DataRecord_new (now : Z) (key : PartitionKey) (value : bytes) : DataRecord :=
  {| dr_key := key; dr_value := value; dr_timestamp := now |}.
(** Source: src/src/demo.rs:265-267 (DataRecord::size) *)
Definition DataRecord_size (r : DataRecord) : Z := usize (len (dr_value r) + 8).

(** Source: src/src/demo.rs:270-279 (WriteResult) *)
Record WriteResult := mkWriteResult {
  wr_record : DataRecord; wr_partition_id : Z; wr_node_id : Z; wr_replicas : list Z;
  wr_success : bool; wr_latency_ms : Z }.

(** The iteration order of the node map, which is not specified. *)
Class HashOrder := { hash_keys : gmap Z DemoNode → list Z }.
Class HashOrderOk `{HashOrder} := { hash_keys_all m : hash_keys m ≡ₚ (map_to_list m).*1 }.

(** Source: src/src/demo.rs:158-166 (DemoCluster::new) *)
Definition DemoCluster_new : DemoCluster :=
  {| dc_nodes := ∅; dc_files := ∅; dc_partitions := ∅; dc_total_memory := 0; dc_total_storage := 0 |}.

(** Source: src/src/demo.rs:168-172 (DemoCluster::add_node) *)
Definition add_node (c : DemoCluster) (node : DemoNode) : DemoCluster :=
  {| dc_nodes := <[dn_id node := node]> (dc_nodes c); dc_files := dc_files c;
     dc_partitions := dc_partitions c;
     dc_total_memory := u64 (dc_total_memory c + dn_memory_gb node);
     dc_total_storage := u64 (dc_total_storage c + dn_storage_gb node) |}.

Definition with_files (c : DemoCluster) (files : gmap string DemoFile) : DemoCluster :=
  {| dc_nodes := dc_nodes c; dc_files := files; dc_partitions := dc_partitions c;
     dc_total_memory := dc_total_memory c; dc_total_storage := dc_total_storage c |}.
Definition with_partitions (c : DemoCluster) (partitions : gmap Z DemoPartition) : DemoCluster :=
  {| dc_nodes := dc_nodes c; dc_files := dc_files c; dc_partitions := partitions;
     dc_total_memory := dc_total_memory c; dc_total_storage := dc_total_storage c |}.

Section cluster.
Context `{Crc32} `{HashOrder}.

(** Source: src/src/demo.rs:174-183 (DemoCluster::create_file) *)
Definition create_file (c : DemoCluster) (path : string) (size node_id : Z)
    : DemoCluster * outcome string unit :=
  match dc_nodes c !! node_id with
  | None => (c, Err ("Node " +:+ pretty node_id +:+ " not found"))
  | Some _ =>
      let replicas := take 3 (hash_keys (dc_nodes c)) in
      (with_files c (<[path := DemoFile_new path size node_id replicas]> (dc_files c)), Ok tt)
  end.

(** Source: src/src/demo.rs:185-194 (DemoCluster::create_partition) *)
Definition create_partition (c : DemoCluster) (id : Z) : DemoCluster * outcome string unit :=
  match hash_keys (dc_nodes c) with
  | [] => (c, Err "No nodes available")
  | node_ids => (with_partitions c (<[id := DemoPartition_new id node_ids]> (dc_partitions c)), Ok tt)
  end.

(** Source: src/src/demo.rs:196-207 (DemoCluster::get_node_for_key) *)
Definition get_node_for_key (c : DemoCluster) (key : PartitionKey) : option DemoNode :=
  let node_count := Z.of_nat (size (dc_nodes c)) in
  if node_count =? 0 then None else
  let node_index := u32 (PartitionKey_hash key `mod` node_count) in
  id ← hash_keys (dc_nodes c) !! Z.to_nat node_index; dc_nodes c !! id.

(** Source: src/src/demo.rs:209-218 (DemoCluster::get_partition_for_key) *)
Definition get_partition_for_key (c : DemoCluster) (key : PartitionKey) : option DemoPartition :=
  let partition_count := Z.of_nat (size (dc_partitions c)) in
  if partition_count =? 0 then None else
  dc_partitions c !! u32 (PartitionKey_hash key `mod` partition_count + 1).

(** Source: src/src/demo.rs:220-232 (DemoCluster::stats) *)
Definition DemoCluster_stats (c : DemoCluster) : DemoStats :=
  {| ds_active_nodes := len (filter (λ n, Is_true (dn_active n)) (map snd (map_to_list (dc_nodes c))));
     ds_total_files := Z.of_nat (size (dc_files c));
     ds_total_partitions := Z.of_nat (size (dc_partitions c));
     ds_total_memory := dc_total_memory c; ds_total_storage := dc_total_storage c |}.

(** The statistics of a partition after a write.
    Source: src/src/demo.rs:323-327 (DemoCluster::write_record, statistics) *)
Definition count_record (r : DataRecord) (p : DemoPartition) : DemoPartition :=
  {| dp_id := dp_id p; dp_node_ids := dp_node_ids p; dp_total_records := u64 (dp_total_records p + 1);
     dp_total_size := u64 (dp_total_size p + DataRecord_size r) |}.

(** [start_time] and [end_time] are the clock readings in microseconds.
    Source: src/src/demo.rs:282-338 (DemoCluster::write_record) *)
Definition write_record (start_time end_time : Z) (c : DemoCluster) (record : DataRecord)
    : DemoCluster * outcome string WriteResult :=
  let partition_id := from_option dp_id 1 (get_partition_for_key c (dr_key record)) in
  match get_node_for_key c (dr_key record) with
  | None => (c, Err "No suitable node found for key")
  | Some n =>
      let primary_node_id := dn_id n in
      let replicas := take 2 (filter (λ id, id ≠ primary_node_id) (hash_keys (dc_nodes c))) in
      (with_partitions c (alter (count_record record) partition_id (dc_partitions c)),
       Ok {| wr_record := record; wr_partition_id := partition_id; wr_node_id := primary_node_id;
             wr_replicas := replicas; wr_success := true;
             wr_latency_ms := u64 (end_time - start_time) `div` 1000 |})
  end.

(** Each record with the clock readings of its write.
    Source: src/src/demo.rs:340-345 (DemoCluster::write_batch) *)
Fixpoint write_batch (c : DemoCluster) (records : list (Z * Z * DataRecord))
    : DemoCluster * list (outcome string WriteResult) :=
  match records with
  | [] => (c, [])
  | (start_time, end_time, record) :: records =>
      let '(c, result) := write_record start_time end_time c record in
      let '(c, results) := write_batch c records in (c, result :: results)
  end.

(** Source: src/src/demo.rs:347-357 (DemoCluster::read_record) *)
Definition read_record (c : DemoCluster) (_key : PartitionKey) : option DataRecord := None.

(** *** The program *)

(** Source: src/src/demo.rs:371-376 (demonstrate_architecture, nodes) *)
Definition demo_nodes : list DemoNode :=
  [DemoNode_new 1 "control-node" Control; DemoNode_new 2 "data-node-1" Data;
   DemoNode_new 3 "data-node-2" Data; DemoNode_new 4 "mixed-node" Mixed].
(** Source: src/src/demo.rs:389-394 (demonstrate_architecture, files) *)
Definition demo_files : list (string * Z) :=
  [("/data/users", 1024 * 1024); ("/data/orders", 10 * 1024 * 1024);
   ("/index/users_idx", 512 * 1024); ("/logs/app.log", 100 * 1024)]%string.
(** Source: src/src/demo.rs:421-425 (demonstrate_architecture, keys) *)
Definition demo_keys : list PartitionKey := [KString "user_123"; KInteger 42; KTimestamp 1640995200].
(** Source: src/src/demo.rs:440-445 (demonstrate_architecture, records) *)
Definition demo_records (now : Z) : list DataRecord :=
  [DataRecord_new now (KString "user_123") (str_bytes "John Doe, john@example.com, active");
   DataRecord_new now (KInteger 42) (str_bytes "Answer to everything: 42");
   DataRecord_new now (KTimestamp 1640995200) (str_bytes "New Year 2022 data");
   DataRecord_new now (KString "order_456") (str_bytes "Order #456: $299.99, shipped")].

(** What the program prints: the routed keys, the writes, the partitions, the
    nodes' loads and the statistics. *)
Record DemoReport := mkDemoReport {
  rep_routes : list (PartitionKey * DemoNode * DemoPartition);
  rep_writes : list (outcome string WriteResult);
  rep_partitions : list DemoPartition;
  rep_loads : list (string * f64 * string);
  rep_stats : DemoStats }.

(** Source: src/src/demo.rs:427-434 (demonstrate_architecture, routing) *)
Definition routed (c : DemoCluster) (key : PartitionKey) : option (PartitionKey * DemoNode * DemoPartition) :=
  node ← get_node_for_key c key; partition ← get_partition_for_key c key; Some (key, node, partition).

(** Source: src/src/demo.rs:468-476 (demonstrate_architecture, load indicator) *)
Definition load_indicator (load : f64) : string :=
  if f64_lt load (f64_lit 3 10) then "Low"
  else if f64_lt load (f64_lit 7 10) then "Medium" else "High".

(** The cluster of steps 1 to 3.
    Source: src/src/demo.rs:367-417 (demonstrate_architecture, cluster) *)
Definition demo_cluster : DemoCluster :=
  let cluster := foldl add_node DemoCluster_new demo_nodes in
  let cluster := foldl (λ c f, (create_file c f.1 f.2 2).1) cluster demo_files in
  foldl (λ c i, (create_partition c i).1) cluster (seqZ 1 8).

(** The writes go to a clone of the cluster.
    Source: src/src/demo.rs:360-499 (demonstrate_architecture) *)
Definition demonstrate_architecture (now : Z) (times : list (Z * Z)) : DemoReport :=
  let cluster := demo_cluster in
  let '(write_cluster, results) := write_batch cluster (zip times (demo_records now)) in
  {| rep_routes := omap (routed cluster) demo_keys; rep_writes := results;
     rep_partitions := map snd (map_to_list (dc_partitions write_cluster));
     rep_loads := map (λ n, (dn_name n, load_factor n, load_indicator (load_factor n)))
                    (map snd (map_to_list (dc_nodes cluster)));
     rep_stats := DemoCluster_stats write_cluster |}.
End cluster.

(** ** Routing *)

(** Partitions are numbered [1 ..= n], as the program creates them; a node's
    entry is under its id. *)
Definition numbered (c : DemoCluster) (n : nat) : Prop :=
  ∀ id, is_Some (dc_partitions c !! id) ↔ 1 ≤ id ≤ Z.of_nat n.
Definition keyed (c : DemoCluster) : Prop :=
  (∀ id n, dc_nodes c !! id = Some n → dn_id n = id) ∧
  (∀ id p, dc_partitions c !! id = Some p → dp_id p = id).

Section lemmas.
Context `{Crc32Ok} `{HashOrderOk}.

Lemma key_hash_range k : in_range 32 (PartitionKey_hash k).
Proof. apply finalize_range. Qed.

Lemma hash_keys_length m : length (hash_keys m) = size m.
Proof. by rewrite (hash_keys_all m), length_fmap, length_map_to_list. Qed.
Lemma hash_keys_elem m id : id ∈ hash_keys m ↔ is_Some (m !! id).
Proof.
  rewrite (hash_keys_all m), list_elem_of_fmap. split.
  - intros ([i n] & -> & Hin%elem_of_map_to_list). by exists n.
  - intros [n Hn]. exists (id, n). split; [done|]. by apply elem_of_map_to_list.
Qed.
Lemma hash_keys_NoDup m : NoDup (hash_keys m).
Proof. rewrite (hash_keys_all m). apply NoDup_fst_map_to_list. Qed.

(** A key is routed to a node of the cluster as soon as there is one. *)
Lemma node_for_key c key :
  Z.of_nat (size (dc_nodes c)) < 2 ^ 32 →
  if (size (dc_nodes c) =? 0)%nat then get_node_for_key c key = None
  else ∃ id n, get_node_for_key c key = Some n ∧ dc_nodes c !! id = Some n.
Proof.
  intros Hsz. unfold get_node_for_key. destruct (size (dc_nodes c)) as [|k] eqn:Hk; [done|]. cbn [Nat.eqb].
  rewrite (proj2 (Z.eqb_neq _ _)) by lia.
  pose proof (Z.mod_pos_bound (PartitionKey_hash key) (Z.of_nat (S k)) ltac:(lia)) as Hm.
  rewrite wrap_id by (unfold in_range; lia).
  destruct (lookup_lt_is_Some_2 (hash_keys (dc_nodes c)) (Z.to_nat (PartitionKey_hash key `mod` Z.of_nat (S k)))) as [id Hid].
  { rewrite hash_keys_length, Hk. lia. }
  rewrite Hid. cbn [mbind option_bind].
  destruct (proj1 (hash_keys_elem (dc_nodes c) id)) as [n Hn]; [by eapply list_elem_of_lookup_2|].
  exists id, n. by rewrite Hn.
Qed.

Lemma numbered_size c n : numbered c n → size (dc_partitions c) = n.
Proof.
  intros Hn. rewrite <- size_dom.
  assert (dom (dc_partitions c) = list_to_set (seqZ 1 (Z.of_nat n))) as ->.
  { apply set_eq. intros id. by rewrite elem_of_dom, elem_of_list_to_set, elem_of_seqZ, (Hn id); lia. }
  rewrite size_list_to_set by apply NoDup_seqZ. rewrite length_seqZ. lia.
Qed.

Lemma numbered_routes c n key :
  numbered c n → (0 < n)%nat → Z.of_nat n < 2 ^ 32 - 1 →
  ∃ p, get_partition_for_key c key = Some p ∧
    dc_partitions c !! (PartitionKey_hash key `mod` Z.of_nat n + 1) = Some p.
Proof.
  intros Hn Hpos Hb. unfold get_partition_for_key. rewrite (numbered_size c n Hn), (proj2 (Z.eqb_neq _ _)) by lia.
  pose proof (Z.mod_pos_bound (PartitionKey_hash key) (Z.of_nat n) ltac:(lia)).
  rewrite wrap_id by (unfold in_range; lia).
  destruct (proj2 (Hn (PartitionKey_hash key `mod` Z.of_nat n + 1))) as [p Hp]; [lia|].
  rewrite Hp. by exists p.
Qed.
End lemmas.

(** ** Totals *)

(** The sum of a quantity over the values of a map. *)
Definition map_sum {A} (f : A → Z) (m : gmap Z A) : Z := zsum (λ kv : Z * A, f kv.2) (map_to_list m).

Section sums.
Context {A : Type} (f : A → Z).

Lemma zsum_perm {B} (g : B → Z) l k : l ≡ₚ k → zsum g l = zsum g k.
Proof. induction 1; simpl; lia. Qed.
Lemma map_sum_insert m i x : m !! i = None → map_sum f (<[i := x]> m) = f x + map_sum f m.
Proof. intros Hi. unfold map_sum. by rewrite (zsum_perm _ _ _ (map_to_list_insert m i x Hi)). Qed.
Lemma map_sum_delete m i x : m !! i = Some x → map_sum f m = f x + map_sum f (delete i m).
Proof. intros Hi. rewrite <- (insert_delete_id m i x Hi) at 1. by rewrite map_sum_insert by apply lookup_delete_eq. Qed.
Lemma map_sum_overwrite m i x y : m !! i = Some x → map_sum f (<[i := y]> m) = map_sum f m - f x + f y.
Proof.
  intros Hi. rewrite <- insert_delete_eq, map_sum_insert by apply lookup_delete_eq.
  rewrite (map_sum_delete m i x Hi). lia.
Qed.
Lemma map_sum_alter (g : A → A) m i x : m !! i = Some x → map_sum f (alter g i m) = map_sum f m - f x + f (g x).
Proof.
  intros Hi. rewrite <- (map_sum_overwrite m i x (g x) Hi). f_equal.
  apply map_eq. intros j. destruct (decide (i = j)) as [<-|Hne].
  - by rewrite lookup_alter_eq, Hi, lookup_insert_eq.
  - by rewrite lookup_alter_ne, lookup_insert_ne.
Qed.
Lemma map_sum_lookup_le m i x : (∀ y, 0 ≤ f y) → m !! i = Some x → f x ≤ map_sum f m.
Proof.
  intros Hf Hi. rewrite (map_sum_delete m i x Hi).
  pose proof (zsum_nonneg (λ kv : Z * A, f kv.2) (map_to_list (delete i m)) (λ kv, Hf kv.2)).
  unfold map_sum. lia.
Qed.
End sums.

(** ** Writes *)
Definition replicas_ok (c : DemoCluster) (primary : Z) (replicas : list Z) : Prop :=
  NoDup replicas ∧ (primary ∉ replicas) ∧ (∀ id, id ∈ replicas → is_Some (dc_nodes c !! id)) ∧
  length replicas = Nat.min 2 (size (dc_nodes c) - 1).

Section writes.
Context `{Crc32Ok} `{HashOrderOk}.

Lemma filter_ne_length (x : Z) (l : list Z) :
  NoDup l → x ∈ l → length (filter (λ y, y ≠ x) l) = (length l - 1)%nat.
Proof.
  induction l as [|y l IH]; [by intros _ ?%elem_of_nil|]. intros [Hy Hnd]%NoDup_cons Hin.
  rewrite filter_cons. destruct (decide (y ≠ x)) as [Hne|Heq%dec_stable].
  - apply elem_of_cons in Hin as [->|Hin]; [done|]. simpl. rewrite IH by done.
    destruct l; [by apply elem_of_nil in Hin|simpl; lia].
  - subst y. simpl. rewrite Nat.sub_0_r. f_equal.
    assert (∀ k : list Z, (x ∉ k) → filter (λ y : Z, y ≠ x) k = k) as Hid; [|by apply Hid].
    intros k. induction k as [|z k IHk]; [done|]. intros Hk. rewrite filter_cons, decide_True by (intros ->; apply Hk; left).
    f_equal. apply IHk. intros Hx. apply Hk. by right.
Qed.

Lemma write_replicas c id n :
  dc_nodes c !! id = Some n →
  replicas_ok c id (take 2 (filter (λ i, i ≠ id) (hash_keys (dc_nodes c)))).
Proof.
  intros Hid. pose proof (hash_keys_NoDup (dc_nodes c)) as Hnd.
  assert (∀ i, i ∈ take 2 (filter (λ i, i ≠ id) (hash_keys (dc_nodes c))) →
    i ≠ id ∧ i ∈ hash_keys (dc_nodes c)) as Hin.
  { by intros i Hi%subseteq_take%list_elem_of_filter. }
  split_and!.
  - eapply sublist_NoDup; [|apply sublist_take]. by apply NoDup_filter.
  - intros Hi. by destruct (Hin _ Hi).
  - intros i Hi. apply hash_keys_elem. by destruct (Hin _ Hi).
  - rewrite length_take, filter_ne_length, hash_keys_length; [done|done|]. apply hash_keys_elem. by exists n.
Qed.
End writes.

Section properties.
Context `{Crc32Ok} `{HashOrderOk}.

(** A write, on every branch: without a node it fails and changes
    nothing; otherwise it succeeds on a node of the cluster, with as many
    replicas as there are other nodes, at most two, all distinct nodes of the
    cluster other than the primary; and it changes only the statistics of the
    partition it reports, when that partition exists. *)
Lemma write_record_spec t0 t1 c r :
  keyed c → Z.of_nat (size (dc_nodes c)) < 2 ^ 32 →
  if (size (dc_nodes c) =? 0)%nat then write_record t0 t1 c r = (c, Err "No suitable node found for key") else
  ∃ w primary, write_record t0 t1 c r =
      (with_partitions c (alter (count_record r) (wr_partition_id w) (dc_partitions c)), Ok w) ∧
    wr_record w = r ∧ wr_success w = true ∧ wr_node_id w = primary ∧ is_Some (dc_nodes c !! primary) ∧
    replicas_ok c primary (wr_replicas w) ∧
    wr_partition_id w = from_option dp_id 1 (get_partition_for_key c (dr_key r)).
Proof.
  intros [Hkn Hkp] Hsz. pose proof (node_for_key c (dr_key r) Hsz) as Hn.
  destruct (size (dc_nodes c) =? 0)%nat.
  - unfold write_record. by rewrite Hn.
  - destruct Hn as (id & n & Hget & Hid). unfold write_record. rewrite Hget.
    rewrite (Hkn id n Hid). eexists _, id.
    split; [eapply (f_equal2 pair); [|reflexivity]; reflexivity|]. cbn.
    split_and!; try done. by apply (write_replicas c id n).
Qed.

(** The cluster's totals: adding a node under a new id keeps the total
    memory and storage the sums over the nodes; adding one under an id that is
    taken replaces the node but counts the old one's memory and storage for
    ever. *)
Lemma add_node_totals c n :
  dc_total_memory c = map_sum dn_memory_gb (dc_nodes c) →
  dc_total_storage c = map_sum dn_storage_gb (dc_nodes c) →
  in_range 64 (dc_total_memory c + dn_memory_gb n) → in_range 64 (dc_total_storage c + dn_storage_gb n) →
  let c' := add_node c n in
  let old f := from_option f 0 (dc_nodes c !! dn_id n) in
  dc_nodes c' !! dn_id n = Some n ∧
  dc_total_memory c' = map_sum dn_memory_gb (dc_nodes c') + old dn_memory_gb ∧
  dc_total_storage c' = map_sum dn_storage_gb (dc_nodes c') + old dn_storage_gb.
Proof.
  intros Hm Hs Hrm Hrs c' old. unfold c', old, add_node. cbn [dc_nodes dc_total_memory dc_total_storage].
  rewrite !wrap_id by done. split; [apply lookup_insert_eq|]. rewrite Hm, Hs.
  destruct (dc_nodes c !! dn_id n) as [n0|] eqn:Hn; cbn [from_option].
  - rewrite !(map_sum_overwrite _ _ _ n0 n Hn). lia.
  - rewrite !map_sum_insert by done. lia.
Qed.

(** A cluster in use: partitions numbered [1 ..= n], and room in the totals of
    every partition for the records to come. *)
Record ready (c : DemoCluster) (n : nat) (recs bytes : Z) : Prop := {
  rd_keyed : keyed c;
  rd_nodes : 0 < Z.of_nat (size (dc_nodes c)) < 2 ^ 32;
  rd_numbered : numbered c n;
  rd_count : (0 < n)%nat ∧ Z.of_nat n < 2 ^ 32 - 1;
  rd_nonneg : map_Forall (λ _ p, 0 ≤ dp_total_records p ∧ 0 ≤ dp_total_size p) (dc_partitions c);
  rd_room : map_Forall (λ _ p, dp_total_records p + recs < 2 ^ 64 ∧ dp_total_size p + bytes < 2 ^ 64)
              (dc_partitions c) }.

Lemma DataRecord_size_nonneg r : 0 ≤ DataRecord_size r.
Proof. apply Z.mod_pos_bound. lia. Qed.

Lemma write_ready t0 t1 c n r recs bytes :
  ready c n (recs + 1) (bytes + DataRecord_size r) → 0 ≤ recs → 0 ≤ bytes →
  ∃ w c', write_record t0 t1 c r = (c', Ok w) ∧ ready c' n recs bytes ∧
    map_sum dp_total_records (dc_partitions c') = map_sum dp_total_records (dc_partitions c) + 1 ∧
    map_sum dp_total_size (dc_partitions c') = map_sum dp_total_size (dc_partitions c) + DataRecord_size r ∧
    wr_partition_id w = PartitionKey_hash (dr_key r) `mod` Z.of_nat n + 1 ∧
    wr_success w = true ∧ wr_record w = r ∧ ∃ ps, c' = with_partitions c ps.
Proof.
  intros Hr Hrecs Hbytes. pose proof (DataRecord_size_nonneg r) as Hsz.
  destruct (rd_keyed _ _ _ _ Hr) as [Hkn Hkp]. destruct (rd_count _ _ _ _ Hr) as [Hn1 Hn2].
  pose proof (node_for_key c (dr_key r) (proj2 (rd_nodes _ _ _ _ Hr))) as Hnode.
  pose proof (rd_nodes _ _ _ _ Hr) as Hnodes. rewrite (proj2 (Nat.eqb_neq _ _)) in Hnode by lia.
  destruct Hnode as (id & nd & Hget & Hid).
  destruct (numbered_routes c n (dr_key r) (rd_numbered _ _ _ _ Hr) Hn1 Hn2) as (p & Hp & Hpl).
  set (k := PartitionKey_hash (dr_key r) `mod` Z.of_nat n + 1) in *.
  pose proof (rd_nonneg _ _ _ _ Hr _ _ Hpl) as [Hp0 Hp1]. pose proof (rd_room _ _ _ _ Hr _ _ Hpl) as [Hp2 Hp3].
  assert (dp_total_records (count_record r p) = dp_total_records p + 1 ∧
    dp_total_size (count_record r p) = dp_total_size p + DataRecord_size r) as [Hc1 Hc2]
    by (cbn; rewrite !wrap_id by (unfold in_range; lia); done).
  unfold write_record. rewrite Hget, Hp. cbn [from_option]. rewrite (Hkp k p Hpl).
  eexists _, _. split; [reflexivity|]. cbn [wr_partition_id dc_partitions with_partitions].
  rewrite !(map_sum_alter _ _ _ _ p Hpl), Hc1, Hc2.
  split; [|split_and!; try done; [lia|lia|by eexists]].
  split; cbn [dc_nodes dc_partitions with_partitions]; try by destruct Hr.
  - split; [done|]. cbn. intros i q. rewrite lookup_alter_Some. intros [(<- & q' & Hq & ->)|[_ Hq]]; [|by apply Hkp].
    cbn. by apply Hkp.
  - intros i. rewrite <- (rd_numbered _ _ _ _ Hr i). cbn. rewrite lookup_alter_is_Some. done.
  - intros i q. rewrite lookup_alter_Some. intros [(<- & q' & Hq & ->)|[_ Hq]]; [|by apply (rd_nonneg _ _ _ _ Hr i)].
    rewrite Hpl in Hq. injection Hq as <-. lia.
  - intros i q. rewrite lookup_alter_Some. intros [(<- & q' & Hq & ->)|[_ Hq]].
    + rewrite Hpl in Hq. injection Hq as <-. lia.
    + pose proof (rd_room _ _ _ _ Hr i q Hq). cbv beta in *. lia.
Qed.

(** A batch of writes, with what it leaves alone. *)
Lemma write_batch_ready rs c n :
  ready c n (len rs) (zsum (λ x : Z * Z * DataRecord, DataRecord_size x.2) rs) →
  ∃ c' results, write_batch c rs = (c', results) ∧
    Forall2 (λ (x : Z * Z * DataRecord) res, ∃ w, res = Ok w ∧ wr_success w = true ∧ wr_record w = x.2 ∧
      wr_partition_id w = PartitionKey_hash (dr_key x.2) `mod` Z.of_nat n + 1) rs results ∧
    map_sum dp_total_records (dc_partitions c') = map_sum dp_total_records (dc_partitions c) + len rs ∧
    map_sum dp_total_size (dc_partitions c') =
      map_sum dp_total_size (dc_partitions c) + zsum (λ x : Z * Z * DataRecord, DataRecord_size x.2) rs ∧
    numbered c' n ∧ ∃ ps, c' = with_partitions c ps.
Proof.
  revert c. induction rs as [|[[t0 t1] r] rs IH]; intros c Hr; cbn [write_batch zsum foldr snd] in *.
  { exists c, []. change (len []) with 0. split_and!; [done|constructor|lia|lia|by destruct Hr|].
    exists (dc_partitions c). by destruct c. }
  pose proof (len_nonneg rs). rewrite len_cons in *.
  pose proof (zsum_nonneg (λ x : Z * Z * DataRecord, DataRecord_size x.2) rs (λ x, DataRecord_size_nonneg x.2)) as Hz.
  set (total := zsum _ rs) in *. change (foldr _ 0 rs) with total in *.
  destruct (write_ready t0 t1 c n r (len rs) total) as (w & c1 & Hw & Hr1 & Hs1 & Hs2 & Hp & Hok & Hrec & ps1 & Hc1); [|done..|].
  { by rewrite (Z.add_comm (len rs)), (Z.add_comm total). }
  destruct (IH c1 Hr1) as (c' & results & Hb & Hall & Hs1' & Hs2' & Hn' & ps & Hc').
  exists c', (Ok w :: results). rewrite Hw, Hb. split; [done|]. split; [constructor; [by exists w|done]|].
  split; [lia|]. split; [lia|]. split; [done|]. exists ps. by rewrite Hc', Hc1.
Qed.

(** The books balance: when the partitions are numbered from 1 as the
    program creates them and the totals have room, every write of a batch
    succeeds in the partition its key's checksum selects, and the records and
    bytes counted by all partitions together grow by exactly those of the
    batch. *)
Lemma write_batch_counts rs c n :
  ready c n (len rs) (zsum (λ x : Z * Z * DataRecord, DataRecord_size x.2) rs) →
  ∃ c' results, write_batch c rs = (c', results) ∧
    Forall2 (λ (x : Z * Z * DataRecord) res, ∃ w, res = Ok w ∧ wr_success w = true ∧ wr_record w = x.2 ∧
      wr_partition_id w = PartitionKey_hash (dr_key x.2) `mod` Z.of_nat n + 1) rs results ∧
    map_sum dp_total_records (dc_partitions c') = map_sum dp_total_records (dc_partitions c) + len rs ∧
    map_sum dp_total_size (dc_partitions c') =
      map_sum dp_total_size (dc_partitions c) + zsum (λ x : Z * Z * DataRecord, DataRecord_size x.2) rs.
Proof.
  intros Hr. destruct (write_batch_ready rs c n Hr) as (c' & results & Hb & Hall & Hs1 & Hs2 & _).
  by exists c', results.
Qed.

(** A write whose key selects a partition that does not exist reports
    partition 1, and when that does not exist either it counts nowhere. *)
Lemma unrouted_write_is_not_counted t0 t1 c r n :
  get_partition_for_key c (dr_key r) = None → get_node_for_key c (dr_key r) = Some n →
  dc_partitions c !! 1 = None →
  ∃ w, write_record t0 t1 c r = (c, Ok w) ∧ wr_success w = true ∧ wr_partition_id w = 1.
Proof.
  intros Hp Hn Hone. unfold write_record. rewrite Hp, Hn. cbn [from_option].
  eexists. split; [eapply (f_equal2 pair); [|reflexivity]|done].
  destruct c as [nodes files parts mem sto]. unfold with_partitions. cbn in *. f_equal.
  apply map_eq. intros i. destruct (decide (1 = i)) as [<-|Hne].
  - by rewrite lookup_alter_eq, Hone.
  - by rewrite lookup_alter_ne.
Qed.

(** *** The demonstration's cluster *)
Lemma create_files_fold fs c :
  is_Some (dc_nodes c !! 2) →
  foldl (λ c f, (create_file c f.1 f.2 2).1) c fs =
    with_files c (foldl (λ m (f : string * Z),
      <[f.1 := DemoFile_new f.1 f.2 2 (take 3 (hash_keys (dc_nodes c)))]> m) (dc_files c) fs).
Proof.
  revert c. induction fs as [|f fs IH]; intros c Hc; [by destruct c|].
  cbn [foldl]. destruct Hc as [n Hn]. unfold create_file at 2. rewrite Hn. cbn [fst]. rewrite IH by (cbn; by exists n).
  done.
Qed.

Lemma create_partitions_fold (k : nat) c :
  dc_partitions c = ∅ → (0 < size (dc_nodes c))%nat →
  ∃ ps, foldl (λ c i, (create_partition c i).1) c (seqZ 1 (Z.of_nat k)) = with_partitions c ps ∧
    ∀ i, ps !! i = if decide (1 ≤ i ≤ Z.of_nat k) then Some (DemoPartition_new i (hash_keys (dc_nodes c))) else None.
Proof.
  intros He Hn. induction k as [|k (ps & IH & Hps)].
  - exists ∅. split; [destruct c; cbn in *; by subst|]. intros i. by rewrite decide_False by lia.
  - replace (Z.of_nat (S k)) with (Z.of_nat k + 1) by lia. rewrite seqZ_app, foldl_app, IH by lia.
    change (seqZ (1 + Z.of_nat k) 1) with [Z.of_nat 0 + (1 + Z.of_nat k)]. cbn [foldl].
    unfold create_partition. cbn [dc_nodes with_partitions].
    destruct (hash_keys (dc_nodes c)) as [|x l] eqn:Hk.
    { pose proof (hash_keys_length (dc_nodes c)) as Hl. rewrite Hk in Hl. simpl in Hl. lia. }
    eexists. split; [reflexivity|]. cbn [dc_partitions with_partitions]. intros i.
    destruct (decide (i = Z.of_nat k + 1)) as [->|Hne].
    + rewrite decide_True by lia. replace (Z.of_nat 0 + (1 + Z.of_nat k)) with (Z.of_nat k + 1) by lia. apply lookup_insert_eq.
    + rewrite lookup_insert_ne, Hps by lia. destruct (decide _), (decide _); done || lia.
Qed.

(** The cluster of steps 1 to 3: four nodes, four files, eight partitions. *)
Lemma demo_cluster_shape :
  dc_nodes demo_cluster = list_to_map (map (λ n, (dn_id n, n)) demo_nodes) ∧
  size (dc_files demo_cluster) = 4%nat ∧ dc_total_memory demo_cluster = 32 ∧ dc_total_storage demo_cluster = 400 ∧
  ∃ ids, dc_partitions demo_cluster = list_to_map (map (λ i, (i, DemoPartition_new i ids)) (seqZ 1 8)) ∧
    ∀ i, dc_partitions demo_cluster !! i = if decide (1 ≤ i ≤ 8) then Some (DemoPartition_new i ids) else None.
Proof.
  set (c0 := foldl add_node DemoCluster_new demo_nodes).
  assert (dc_nodes c0 = list_to_map (map (λ n, (dn_id n, n)) demo_nodes) ∧ dc_files c0 = ∅ ∧ dc_partitions c0 = ∅ ∧
    dc_total_memory c0 = 32 ∧ dc_total_storage c0 = 400) as (Hn & Hf & Hp & Hm & Hs) by (vm_compute; done).
  unfold demo_cluster. fold c0. clearbody c0.
  rewrite create_files_fold by (rewrite Hn; vm_compute; by eexists).
  set (files := foldl _ (dc_files c0) demo_files).
  destruct (create_partitions_fold 8 (with_files c0 files)) as (ps & Hfold & Hps); [done|cbn; rewrite Hn; vm_compute; lia|].
  change (Z.of_nat 8) with 8 in *. rewrite Hfold. cbn. cbn in Hps. rewrite Hn, Hm, Hs. split; [done|]. split.
  { unfold files. rewrite Hf. set (ids := take 3 _). clearbody ids. vm_compute. done. }
  split; [done|]. split; [done|]. exists (hash_keys (dc_nodes c0)). rewrite Hn in Hps.
  rewrite Hn. set (ids := hash_keys _) in *. clearbody ids. split; [|done].
  apply map_eq. intros i. rewrite Hps. symmetry. destruct (decide _) as [Hi|Hi].
  - apply elem_of_list_to_map_1.
    { replace (_.*1) with (seqZ 1 8) by (vm_compute; reflexivity). apply NoDup_seqZ. }
    apply list_elem_of_fmap. exists i. split; [done|]. apply elem_of_seqZ. lia.
  - apply not_elem_of_list_to_map_1. intros ((i', p) & Hi' & (j & [= -> ->] & Hj%elem_of_seqZ)%list_elem_of_fmap)%list_elem_of_fmap.
    simpl in Hi'. subst. lia.
Qed.

Lemma demo_cluster_ready recs bytes :
  0 ≤ recs < 2 ^ 62 → 0 ≤ bytes < 2 ^ 62 → ready demo_cluster 8 recs bytes.
Proof.
  intros Hr Hb. destruct demo_cluster_shape as (Hn & _ & _ & _ & ids & _ & Hp).
  assert (∀ i p, dc_partitions demo_cluster !! i = Some p → 1 ≤ i ≤ 8 ∧ p = DemoPartition_new i ids) as Hpi.
  { intros i p. rewrite Hp. by destruct (decide _); [intros [= <-]|]. }
  assert (∀ i, 1 ≤ i ≤ 8 → u64 (100000 * i) = 100000 * i ∧ u64 (100 * 1024 * 1024 * i) = 104857600 * i) as Hu
    by (intros i Hi; rewrite !wrap_id by (unfold in_range; lia); lia).
  split; [split| | |lia| |].
  - rewrite Hn. assert (bool_decide (map_Forall (λ id n, dn_id n = id)
      (list_to_map (map (λ n, (dn_id n, n)) demo_nodes) : gmap Z DemoNode)) = true) as Hk by (vm_compute; reflexivity).
    by apply bool_decide_eq_true_1 in Hk.
  - intros i p Hip. by destruct (Hpi i p Hip) as [_ ->].
  - rewrite Hn. vm_compute. done.
  - intros i. rewrite Hp. change (Z.of_nat 8) with 8. destruct (decide _) as [Hi|Hi]; [done|]. split; [by intros []|done].
  - intros i p Hip. destruct (Hpi i p Hip) as [Hi ->]. destruct (Hu i Hi) as [Hu1 Hu2]. cbn. rewrite Hu1, Hu2. lia.
  - intros i p Hip. destruct (Hpi i p Hip) as [Hi ->]. destruct (Hu i Hi) as [Hu1 Hu2]. cbn. rewrite Hu1, Hu2. lia.
Qed.

(** The demonstration does what it announces, whatever the iteration
    order and the checksums: every key is routed, every write succeeds, the
    statistics are 4 active nodes, 4 files, 8 partitions, 32 GB of memory and
    400 GB of storage, and the partitions count 4 records more than the
    3,600,000 they were created with. *)
Lemma demonstration_report now times :
  length times = 4%nat →
  let report := demonstrate_architecture now times in
  length (rep_routes report) = 3%nat ∧
  Forall (λ res, ∃ w, res = Ok w ∧ wr_success w = true) (rep_writes report) ∧
  length (rep_writes report) = 4%nat ∧
  rep_stats report = mkDemoStats 4 4 8 32 400 ∧
  zsum dp_total_records (rep_partitions report) = 3600004.
Proof.
  intros Ht report. unfold report, demonstrate_architecture. clear report.
  destruct demo_cluster_shape as (Hn & Hf & Hm & Hs & ids & Hps & _).
  set (rs := zip times (demo_records now)).
  assert (length rs = 4%nat) as Hrs by (unfold rs; by rewrite length_zip_with, Ht).
  assert (0 ≤ zsum (λ x : Z * Z * DataRecord, DataRecord_size x.2) rs < 2 ^ 62) as Hbytes.
  { by destruct times as [|? [|? [|? [|? [|]]]]]. }
  assert (ready demo_cluster 8 (len rs) (zsum (λ x : Z * Z * DataRecord, DataRecord_size x.2) rs)) as Hready
    by (apply demo_cluster_ready; [unfold len; lia|done]).
  destruct (write_batch_ready rs demo_cluster 8 Hready) as (c' & results & -> & Hall & Hrec & _ & Hn' & ps & Hc').
  cbn [rep_routes rep_writes rep_stats rep_partitions].
  assert (∀ key, is_Some (routed demo_cluster key)) as Hroute.
  { intros key. unfold routed. pose proof (node_for_key demo_cluster key (proj2 (rd_nodes _ _ _ _ Hready))) as Hnk.
    rewrite (proj2 (Nat.eqb_neq _ _)) in Hnk by (pose proof (rd_nodes _ _ _ _ Hready); lia).
    destruct Hnk as (id & nd & -> & _). cbn [mbind option_bind].
    destruct (numbered_routes demo_cluster 8 key (rd_numbered _ _ _ _ Hready)) as (p & -> & _); [lia..|]. by eexists. }
  split_and!.
  - unfold demo_keys. cbn [omap list_omap]. destruct (Hroute (KString "user_123")) as [? ->], (Hroute (KInteger 42)) as [? ->],
      (Hroute (KTimestamp 1640995200)) as [? ->]. done.
  - apply Forall_forall. intros res [i Hi]%list_elem_of_lookup.
    destruct (Forall2_lookup_r _ _ _ _ _ Hall Hi) as (x & _ & w & -> & Hok & _). by exists w.
  - by rewrite <- (Forall2_length _ _ _ Hall).
  - unfold DemoCluster_stats. rewrite (numbered_size c' 8 Hn'), Hc'. cbn [dc_nodes dc_files dc_total_memory dc_total_storage with_partitions].
    rewrite Hn, Hf, Hm, Hs. f_equal.
  - transitivity (map_sum dp_total_records (dc_partitions c')).
    { unfold map_sum. generalize (map_to_list (dc_partitions c')). intros l. induction l as [|x l IH]; [done|]. simpl. by rewrite IH. }
    rewrite Hrec, Hps. unfold len. rewrite Hrs. clear. vm_compute. done.
Qed.
End properties.

(** ** Concrete runs *)
#[export] Instance sample_order : HashOrder := { hash_keys m := (map_to_list m).*1 }.
#[export] Instance sample_order_ok : HashOrderOk.
Proof. by split. Qed.

Lemma write_record_spec_witness :
  ∃ w, write_record 10 2510 demo_cluster (DataRecord_new 7 (KInteger 42) [x61]) =
      (with_partitions demo_cluster (alter (count_record (DataRecord_new 7 (KInteger 42) [x61])) (wr_partition_id w)
        (dc_partitions demo_cluster)), Ok w) ∧ replicas_ok demo_cluster (wr_node_id w) (wr_replicas w).
Proof.
  pose proof (write_record_spec 10 2510 demo_cluster (DataRecord_new 7 (KInteger 42) [x61])
    (rd_keyed _ _ _ _ (demo_cluster_ready 0 0 ltac:(lia) ltac:(lia)))
    (proj2 (rd_nodes _ _ _ _ (demo_cluster_ready 0 0 ltac:(lia) ltac:(lia))))) as Hspec.
  assert ((size (dc_nodes demo_cluster) =? 0)%nat = false) as Hne by (vm_compute; reflexivity).
  rewrite Hne in Hspec. destruct Hspec as (w & p & Hw & _ & _ & Hp & _ & Hr & _).
  exists w. rewrite Hp. split; [exact Hw|exact Hr].
Defined.

(** A node added twice. *)
Lemma add_node_totals_witness :
  let c := add_node (add_node DemoCluster_new (DemoNode_new 1 "a" Data)) (DemoNode_new 1 "b" Data) in
  dc_total_memory c = map_sum dn_memory_gb (dc_nodes c) + 8.
Proof.
  destruct (add_node_totals (add_node DemoCluster_new (DemoNode_new 1 "a" Data)) (DemoNode_new 1 "b" Data))
    as (_ & Hm & _); [by vm_compute..|]. exact Hm.
Defined.

Lemma write_batch_counts_witness :
  ∃ c' results, write_batch demo_cluster [(10, 2510, DataRecord_new 7 (KInteger 42) [x61])] = (c', results) ∧
    map_sum dp_total_records (dc_partitions c') = map_sum dp_total_records (dc_partitions demo_cluster) + 1.
Proof.
  destruct (write_batch_counts [(10, 2510, DataRecord_new 7 (KInteger 42) [x61])] demo_cluster 8)
    as (c' & results & Hb & _ & Hs & _); [apply demo_cluster_ready; by vm_compute|].
  exists c', results. split; [exact Hb|exact Hs].
Defined.

Lemma demonstration_report_witness :
  rep_stats (demonstrate_architecture 7 (replicate 4 (0, 500))) = mkDemoStats 4 4 8 32 400.
Proof.
  destruct (demonstration_report 7 (replicate 4 (0, 500))) as (_ & _ & _ & Hs & _); [reflexivity|]. exact Hs.
Defined.
