(* ===== verification/Utf8.v ===== *)
(** * Text of the standard library: lossy UTF-8, prefixes and splitting

    [String::from_utf8_lossy], [str::starts_with] and [str::split] with a
    character, on strings as UTF-8 bytes. *)

From stdpp Require Import base list numbers strings.
From coqutil Require Import Byte.
From Stdlib Require Import Strings.Byte Strings.Ascii.
From S2P Require Import Prelude.
Local Open Scope Z_scope.

Definition bval (b : Init.Byte.byte) : Z := byte.unsigned b.
Definition within (lo hi : Z) (b : Init.Byte.byte) : bool := (lo <=? bval b) && (bval b <=? hi).
Definition continuation : Init.Byte.byte → bool := within 128 191.

(** The second byte that may follow a first byte of three or four. *)
Definition second_of_3 (b0 b1 : Init.Byte.byte) : bool :=
  if bval b0 =? 224 then within 160 191 b1
  else if bval b0 =? 237 then within 128 159 b1
  else within 225 239 b0 && continuation b1.
Definition second_of_4 (b0 b1 : Init.Byte.byte) : bool :=
  if bval b0 =? 240 then within 144 191 b1
  else if bval b0 =? 244 then within 128 143 b1
  else within 241 243 b0 && continuation b1.

(** U+FFFD *)
Definition replacement : bytes := [xef; xbf; xbd].

(** Every maximal prefix of a character that breaks off is replaced. *)
Fixpoint utf8_lossy (l : bytes) : bytes :=
  match l with
  | [] => []
  | b0 :: r0 =>
      if bval b0 <? 128 then b0 :: utf8_lossy r0 else
      match r0 with
      | [] => replacement
      | b1 :: r1 =>
          if within 194 223 b0 && continuation b1 then b0 :: b1 :: utf8_lossy r1
          else if second_of_3 b0 b1 then
            match r1 with
            | b2 :: r2 => if continuation b2 then b0 :: b1 :: b2 :: utf8_lossy r2
                          else replacement ++ utf8_lossy r1
            | [] => replacement
            end
          else if second_of_4 b0 b1 then
            match r1 with
            | b2 :: r2 =>
                if continuation b2 then
                  match r2 with
                  | b3 :: r3 => if continuation b3 then b0 :: b1 :: b2 :: b3 :: utf8_lossy r3
                                else replacement ++ utf8_lossy r2
                  | [] => replacement
                  end
                else replacement ++ utf8_lossy r1
            | [] => replacement
            end
          else replacement ++ utf8_lossy r0
      end
  end.

Definition from_utf8_lossy (l : bytes) : string := String.string_of_list_byte (utf8_lossy l).

Definition starts_with (prefix s : string) : bool := String.prefix prefix s.

(** [s.split(c).collect()]: always at least one part. *)
Fixpoint split_char (c : Ascii.ascii) (s : string) : list string :=
  match s with
  | EmptyString => [EmptyString]
  | String a s =>
      if Ascii.eqb a c then EmptyString :: split_char c s
      else match split_char c s with
           | part :: parts => String a part :: parts
           | [] => [String a EmptyString]
           end
  end.

Lemma utf8_lossy_ascii l : Forall (λ b, bval b < 128) l → utf8_lossy l = l.
Proof.
  induction 1 as [|b l Hb _ IH]; [done|]. simpl. rewrite (proj2 (Z.ltb_lt _ _)) by done. by rewrite IH.
Qed.
Lemma from_utf8_lossy_ascii s : Forall (λ b, bval b < 128) (str_bytes s) → from_utf8_lossy (str_bytes s) = s.
Proof.
  intros Hs. unfold from_utf8_lossy. rewrite utf8_lossy_ascii by done.
  apply String.string_of_list_byte_of_string.
Qed.
Lemma split_char_nonempty c s : split_char c s ≠ [].
Proof. destruct s as [|a s]; simpl; [done|]. destruct (Ascii.eqb a c); [done|]. by destruct (split_char c s). Qed.

Example lossy_truncated : utf8_lossy [x41; xe2; x82] = [x41; xef; xbf; xbd].
Proof. reflexivity. Qed.
Example split_command : split_char ":"%char "QUOTE:AAPL:NYSE" = ["QUOTE"; "AAPL"; "NYSE"]%string.
Proof. reflexivity. Qed.
