(* ===== verification/Servers.v ===== *)
(** * Accept loops (src/src/network.rs, src/src/health.rs)

    The two socket servers as systems of interleaved tasks: the node server,
    whose connections share one message handler and whose sockets may break, and
    the health server, whose
    probes read the component table that the background checker and the
    application write.  A schedule is the list of what happens; every schedule
    is a run. *)

From stdpp Require Import base list numbers strings relations.
From coqutil Require Import Byte.
From Stdlib Require Import Strings.Byte.
From S2P Require Import Prelude F64 Network Health Utf8.
Local Open Scope Z_scope.

(** ** The node server *)
Section node_server.
(** The handler: [MessageHandler::handle_message], an async function on a shared
    state.  A call starts with the message; each step runs it to its next await
    or to its answer, so that the calls of several connections may overlap. *)
Context {St H : Type} (handler_start : MessageType → bytes → H)
  (handler_step : St → H → St * (H + outcome NetworkError bytes)).

(** Where the task of a connection is in [handle_connection]. *)
Inductive conn_task :=
  | Reading
  | Handling (message : Message) (running : H)
  | Writing (response : Message)
  | Finished (result : outcome NetworkError unit).

(** A spawned task: its stream as it was accepted and as it is, where it is, and
    how often it has run outside a handler's awaits. *)
Record conn := mkConn { ct_opened : stream; ct_stream : stream; ct_task : conn_task; ct_turns : nat }.
Definition set_conn (c : conn) (s : stream) (task : conn_task) : conn := mkConn (ct_opened c) s task (S (ct_turns c)).

(** A call of the handler that has returned: the connection, the message and the
    answer. *)
Record call := mkCall { cl_conn : nat; cl_message : Message; cl_answer : outcome NetworkError bytes }.

(** The handler, the tasks spawned so far, what [serve] returned if it did, and
    the calls that have returned so far.
    Source: src/src/network.rs:310-316 (NetworkServer) *)
Record NetworkServer := mkServer {
  sv_handler : St; sv_conns : list conn; sv_result : option NetworkError; sv_calls : list call }.

(** Source: src/src/network.rs:370-374 (NetworkServer::handle_connection, response) *)
Definition response_to (m : Message) (payload : bytes) : Message :=
  Message_new (get_response_type (hd_msg_type (nm_header m))) payload (hd_request_id (nm_header m)).

(** One step of a connection's task: a read, a step of its handler call or a
    write.
    Source: src/src/network.rs:349-380 (NetworkServer::handle_connection, one await at a time) *)
Definition conn_step (i : nat) (h : St) (c : conn) : St * conn * list call :=
  match ct_task c with
  | Reading =>
      match read_from (ct_stream c) with
      | (s, Ok message) =>
          (h, set_conn c s (Handling message (handler_start (hd_msg_type (nm_header message)) (nm_payload message))), [])
      | (s, Err (NetIo UnexpectedEof)) => (h, set_conn c s (Finished (Ok tt)), [])
      | (s, Err e) => (h, set_conn c s (Finished (Err e)), [])
      | (s, Panic) => (h, set_conn c s (Finished Panic), [])
      end
  | Handling message running =>
      match handler_step h running with
      | (h, inl running) => (h, mkConn (ct_opened c) (ct_stream c) (Handling message running) (ct_turns c), [])
      | (h, inr answer) =>
          let task := match answer with
            | Ok response_payload => Writing (response_to message response_payload)
            | Err e => Finished (Err e)
            | Panic => Finished Panic
            end in
          (h, set_conn c (ct_stream c) task, [mkCall i message answer])
      end
  | Writing response =>
      match write_to response (ct_stream c) with
      | (s, Ok _) => (h, set_conn c s Reading, [])
      | (s, Err e) => (h, set_conn c s (Finished (Err e)), [])
      | (s, Panic) => (h, set_conn c s (Finished Panic), [])
      end
  | Finished _ => (h, c, [])
  end.

(** A connection is accepted, on which these bytes arrive before receiving ends
    in this way, and sending breaks there; accepting fails; or a task runs. *)
Inductive net_event :=
  | Accepts (incoming : bytes) (ends : io_kind) (room : option (nat * io_kind))
  | AcceptFails (e : io_kind)
  | Runs (i : nat).

Definition conn_new (incoming : bytes) (ends : io_kind) (room : option (nat * io_kind)) : conn :=
  let s := mkTcp incoming ends [] room in mkConn s s Reading 0.

(** Source: src/src/network.rs:326-329 (NetworkServer::new) *)
Definition serve_new (handler : St) : NetworkServer := mkServer handler [] None [].
(** Source: src/src/network.rs:331-347 (NetworkServer::serve) *)
Definition serve_step (sv : NetworkServer) (ev : net_event) : NetworkServer :=
  match ev with
  | Accepts incoming ends room =>
      match sv_result sv with
      | None => mkServer (sv_handler sv) (sv_conns sv ++ [conn_new incoming ends room]) None (sv_calls sv)
      | Some _ => sv
      end
  | AcceptFails e =>
      match sv_result sv with
      | None => mkServer (sv_handler sv) (sv_conns sv) (Some (NetIo e)) (sv_calls sv)
      | Some _ => sv
      end
  | Runs i =>
      match sv_conns sv !! i with
      | Some c =>
          let '(h, c, calls) := conn_step i (sv_handler sv) c in
          mkServer h (<[i := c]> (sv_conns sv)) (sv_result sv) (sv_calls sv ++ calls)
      | None => sv
      end
  end.
Definition serve_run (handler : St) (evs : list net_event) : NetworkServer :=
  foldl serve_step (serve_new handler) evs.

(** *** What a run is compared with *)

(** An answer that the handler can give to a message: steps of its call, on
    states of the handler that other calls may have changed in between, lead to
    it. *)
Definition call_step (k k' : H) : Prop := ∃ h h', handler_step h k = (h', inl k').
Definition runs_for (m : Message) (k : H) : Prop :=
  rtc call_step (handler_start (hd_msg_type (nm_header m)) (nm_payload m)) k.
Definition can_answer (c : call) : Prop :=
  ∃ k h h', runs_for (cl_message c) k ∧ handler_step h k = (h', inr (cl_answer c)).

Definition calls_of (i : nat) (l : list call) : list call := filter (λ c, cl_conn c = i) l.
Definition response_of (c : call) : option Message :=
  match cl_answer c with Ok p => Some (response_to (cl_message c) p) | _ => None end.
Definition answered (c : call) : bool := match cl_answer c with Ok _ => true | _ => false end.
Definition all_answered (l : list call) : Prop := Forall (λ c, answered c = true) l.
Definition responses (l : list call) : bytes := wire (omap response_of l).

(** How far a task can still go: three turns a request and one for the end. *)
Definition turns_left (todo : list Message) (task : conn_task) : nat :=
  match task with
  | Reading => 3 * length todo + 1
  | Handling _ _ => 3 * length todo + 3
  | Writing _ => 3 * length todo + 2
  | Finished _ => 0
  end.

(** What is left of the room of a stream after some bytes. *)
Definition room_after (room : option (nat * io_kind)) (out : bytes) : option (nat * io_kind) :=
  (λ '(n, e), (n - length out, e)%nat) <$> room.
Definition room_for (room : option (nat * io_kind)) (out : bytes) : Prop :=
  match room with Some (n, _) => (length out ≤ n)%nat | None => True end.

(** Why a connection on [opened] ends with [r], when the calls it has made are
    [mine] and its client has sent [reqs]: the client has closed it, receiving
    fails, the handler fails its last call, or sending a response fails. *)
Inductive ends_with (opened : stream) (reqs : list Message) (mine : list call) (out : bytes) : outcome NetworkError unit → Prop :=
  | ends_closed : rx_end opened = UnexpectedEof → reqs = map cl_message mine → all_answered mine → out = responses mine →
      ends_with opened reqs mine out (Ok tt)
  | ends_receiving : rx_end opened ≠ UnexpectedEof → reqs = map cl_message mine → all_answered mine → out = responses mine →
      ends_with opened reqs mine out (Err (NetIo (rx_end opened)))
  | ends_handler earlier last : mine = earlier ++ [last] → all_answered earlier → answered last = false → out = responses mine →
      ends_with opened reqs mine out ((λ _, tt) <$> cl_answer last)
  | ends_sending n e : tx_room opened = Some (n, e) → all_answered mine → (n < length (responses mine))%nat → out = take n (responses mine) →
      ends_with opened reqs mine out (Err (NetIo e)).

(** *** Lemmas *)

Lemma calls_of_app i l1 l2 : calls_of i (l1 ++ l2) = calls_of i l1 ++ calls_of i l2.
Proof. apply filter_app. Qed.
Lemma calls_of_self i c : cl_conn c = i → calls_of i [c] = [c].
Proof. intros Hc. unfold calls_of. by rewrite filter_cons_True by done. Qed.
Lemma calls_of_other i c : cl_conn c ≠ i → calls_of i [c] = [].
Proof. intros Hc. unfold calls_of. by rewrite filter_cons_False by done. Qed.

Lemma wire_app l1 l2 : wire (l1 ++ l2) = wire l1 ++ wire l2.
Proof. unfold wire. by rewrite map_app, concat_app. Qed.
Lemma wire_single m : wire [m] = message_to_bytes m.
Proof. apply app_nil_r. Qed.

Lemma responses_snoc l c : responses (l ++ [c]) = responses l ++ wire (option_list (response_of c)).
Proof. unfold responses. rewrite omap_app, wire_app. by f_equal. Qed.
Lemma responses_failed l c : answered c = false → responses (l ++ [c]) = responses l.
Proof. intros Hc. rewrite responses_snoc. unfold response_of, answered in *. destruct (cl_answer c); [done|..]; apply app_nil_r. Qed.

Lemma all_answered_snoc l c : all_answered l → answered c = true → all_answered (l ++ [c]).
Proof. intros Hl Hc. apply Forall_app. split; [done|]. by constructor. Qed.

(** Writing a response on a stream that has been written to. *)
Lemma write_response r s room out :
  tx s = out → tx_room s = room_after room out → room_for room out →
  match write_to r s with
  | (s', Ok _) => tx s' = out ++ message_to_bytes r ∧ tx_room s' = room_after room (out ++ message_to_bytes r) ∧
      room_for room (out ++ message_to_bytes r)
  | (s', Err e') => ∃ n e, room = Some (n, e) ∧ e' = NetIo e ∧ (n < length (out ++ message_to_bytes r))%nat ∧
      tx s' = take n (out ++ message_to_bytes r)
  | (_, Panic) => False
  end.
Proof.
  intros Hout Hs Hroom. unfold write_to, write_all. rewrite Hs, Hout. rewrite length_app.
  destruct room as [[n e]|]; cbn [room_after fmap option_fmap option_map room_for] in *; [|by split_and!].
  case_bool_decide as Hfit; cbn [map_err tx tx_room].
  - rewrite length_app. split_and!; [done|by rewrite Nat.sub_add_distr|lia].
  - exists n, e. split_and!; [done|done|lia|]. rewrite take_app, (take_ge out) by done. done.
Qed.

(** What connection [c] has done when the calls it has made are [mine] and its
    client sends [reqs] and breaks off after [tail]. *)
Definition conn_inv (reqs : list Message) (tail : bytes) (mine : list call) (c : conn) : Prop :=
  Forall can_answer mine ∧
  let open out todo := all_answered mine ∧ rx (ct_stream c) = wire todo ++ tail ∧ rx_end (ct_stream c) = rx_end (ct_opened c) ∧
    tx (ct_stream c) = out ∧ tx_room (ct_stream c) = room_after (tx_room (ct_opened c)) out ∧ room_for (tx_room (ct_opened c)) out ∧
    (ct_turns c + turns_left todo (ct_task c) = 3 * length reqs + 1)%nat in
  match ct_task c with
  | Reading => ∃ todo, reqs = map cl_message mine ++ todo ∧ open (responses mine) todo
  | Handling m k => ∃ todo, reqs = map cl_message mine ++ m :: todo ∧ runs_for m k ∧ open (responses mine) todo
  | Writing r => ∃ todo earlier last, mine = earlier ++ [last] ∧ response_of last = Some r ∧
      reqs = map cl_message mine ++ todo ∧ open (responses earlier) todo
  | Finished r => map cl_message mine `prefix_of` reqs ∧ ends_with (ct_opened c) reqs mine (tx (ct_stream c)) r
  end.

Lemma step_reading reqs tail mine i h c h' c' calls :
  Forall message_wf reqs → len tail < 20 → conn_inv reqs tail mine c → ct_task c = Reading →
  conn_step i h c = (h', c', calls) → conn_inv reqs tail (mine ++ calls) c' ∧ ct_opened c' = ct_opened c.
Proof.
  intros Hwf Ht (Hcan & Hinv) Htask Hstep. unfold conn_step in Hstep. rewrite Htask in Hinv, Hstep.
  destruct Hinv as (todo & -> & Hok & Hrx & Hend & Htx & Hroom & Hfor & Hk).
  destruct (ct_stream c) as [rx0 end0 tx0 room0]. cbn in Hrx, Hend, Htx, Hroom. subst rx0 end0 tx0 room0.
  destruct todo as [|m todo].
  - cbn [wire map concat app] in Hstep. rewrite read_short in Hstep by done.
    destruct (rx_end (ct_opened c)) as [|e] eqn:Hend; simplify_eq; rewrite !app_nil_r; (split; [|done]); (split; [done|]);
      cbn; (split; [done|]); [by constructor|rewrite <- Hend; constructor; by rewrite ?Hend].
  - apply Forall_app in Hwf as [_ [Hm _]%Forall_cons]. unfold wire in Hstep at 1. cbn [map concat] in Hstep.
    rewrite <- app_assoc, read_message in Hstep by done. simplify_eq. rewrite app_nil_r. split; [|done]. split; [done|].
    cbn. exists todo. split_and!; try done; [apply rtc_refl|]. unfold turns_left in *. cbn in *. lia.
Qed.

Lemma step_handling reqs tail mine i h c m k h' c' calls :
  conn_inv reqs tail mine c → ct_task c = Handling m k →
  conn_step i h c = (h', c', calls) → conn_inv reqs tail (mine ++ calls) c' ∧ ct_opened c' = ct_opened c.
Proof.
  intros (Hcan & Hinv) Htask Hstep. unfold conn_step in Hstep. rewrite Htask in Hinv, Hstep.
  destruct Hinv as (todo & -> & Hrun & Hok & Hrx & Hend & Htx & Hroom & Hfor & Hk).
  destruct (handler_step h k) as [h1 [k'|a]] eqn:Hh; simplify_eq.
  { rewrite app_nil_r. split; [|done]. split; [done|]. cbn. exists todo. split_and!; try done.
    eapply rtc_r; [exact Hrun|]. by exists h, h'. }
  split; [|done]. set (last := mkCall i m a).
  assert (Forall can_answer (mine ++ [last])) as Hcan'.
  { apply Forall_app. split; [done|]. constructor; [|constructor]. by exists k, h, h'. }
  assert (map cl_message mine ++ m :: todo = map cl_message (mine ++ [last]) ++ todo) as Hreqs.
  { rewrite map_app, <- app_assoc. done. }
  split; [done|]. destruct a as [p|e|] eqn:Ha; cbn.
  - exists todo, mine, last. rewrite Hreqs. split_and!; try done.
    + by apply all_answered_snoc.
    + rewrite <- Hreqs. unfold turns_left in *. cbn in *. lia.
  - rewrite Hreqs. split; [by eexists|].
    by apply (ends_handler _ _ _ _ mine last); [..|rewrite responses_failed].
  - rewrite Hreqs. split; [by eexists|].
    by apply (ends_handler _ _ _ _ mine last); [..|rewrite responses_failed].
Qed.

Lemma step_writing reqs tail mine i h c r h' c' calls :
  conn_inv reqs tail mine c → ct_task c = Writing r →
  conn_step i h c = (h', c', calls) → conn_inv reqs tail (mine ++ calls) c' ∧ ct_opened c' = ct_opened c.
Proof.
  intros (Hcan & Hinv) Htask Hstep. unfold conn_step in Hstep. rewrite Htask in Hinv, Hstep.
  destruct Hinv as (todo & earlier & last & Hmine & Hlast & -> & Hok & Hrx & Hend & Htx & Hroom & Hfor & Hk).
  assert (responses mine = responses earlier ++ message_to_bytes r) as Hall.
  { by rewrite Hmine, responses_snoc, Hlast, <- wire_single. }
  pose proof (write_response r (ct_stream c) _ _ Htx Hroom Hfor) as Hw.
  destruct (write_to r (ct_stream c)) as [s [u|e|]] eqn:Hwrite; [| |done]; simplify_eq;
    rewrite app_nil_r; (split; [|done]); (split; [done|]); rewrite <- Hall in Hw; cbn.
  - apply write_to_rx in Hwrite as [Hrx' Hend']. destruct Hw as (Htx' & Hroom' & Hfor').
    exists todo. rewrite Hrx', Hend'. split_and!; try done. unfold turns_left in *. cbn in *. lia.
  - destruct Hw as (n & e' & Hr & -> & Hn & Htx'). split; [by eexists|]. by eapply ends_sending.
Qed.

Lemma conn_step_inv reqs tail mine i h c h' c' calls :
  Forall message_wf reqs → len tail < 20 → conn_inv reqs tail mine c →
  conn_step i h c = (h', c', calls) → conn_inv reqs tail (mine ++ calls) c' ∧ ct_opened c' = ct_opened c.
Proof.
  intros Hwf Ht Hinv Hstep. destruct (ct_task c) as [|m k|r|r] eqn:Htask.
  - by eapply step_reading.
  - by eapply step_handling.
  - by eapply step_writing.
  - unfold conn_step in Hstep. rewrite Htask in Hstep. simplify_eq. by rewrite app_nil_r.
Qed.

(** A step returns from the handler at most once, for its own connection. *)
Lemma conn_step_calls i h c h' c' calls :
  conn_step i h c = (h', c', calls) →
  ct_opened c' = ct_opened c ∧ (calls = [] ∨ ∃ m a, calls = [mkCall i m a]).
Proof. unfold conn_step. intros. repeat case_match; simplify_eq; eauto. Qed.

Definition server_inv (sv : NetworkServer) : Prop :=
  Forall (λ cl, cl_conn cl < length (sv_conns sv))%nat (sv_calls sv) ∧
  ∀ i c reqs tail, sv_conns sv !! i = Some c → rx (ct_opened c) = wire reqs ++ tail →
    Forall message_wf reqs → len tail < 20 → conn_inv reqs tail (calls_of i (sv_calls sv)) c.

Lemma calls_of_fresh i l : Forall (λ cl, cl_conn cl < i)%nat l → calls_of i l = [].
Proof.
  induction 1 as [|cl l Hcl _ IH]; [done|]. change (cl :: l) with ([cl] ++ l).
  by rewrite calls_of_app, IH, calls_of_other by lia.
Qed.

Lemma accept_inv sv incoming ends room :
  server_inv sv →
  server_inv (mkServer (sv_handler sv) (sv_conns sv ++ [conn_new incoming ends room]) None (sv_calls sv)).
Proof.
  intros (Hb & Hc). split; simpl.
  - eapply Forall_impl; [apply Hb|]. simpl. intros cl ?. rewrite length_app. lia.
  - intros i c reqs tail [Hi|[? Hi]]%lookup_app_Some Hin Hwf Ht; [by eapply Hc|].
    apply list_lookup_singleton_Some in Hi as [? <-]. simpl in Hin.
    rewrite calls_of_fresh by (replace i with (length (sv_conns sv)) by lia; done).
    split; [by apply Forall_nil_2|]. exists reqs. cbn. split_and!; try done; [by apply Forall_nil_2| |].
    + destruct room as [[n e]|]; [|done]. cbn. by rewrite Nat.sub_0_r.
    + destruct room as [[n e]|]; [|done]. cbn. lia.
Qed.

Lemma runs_inv sv i c h' c' calls :
  server_inv sv → sv_conns sv !! i = Some c → conn_step i (sv_handler sv) c = (h', c', calls) →
  server_inv (mkServer h' (<[i := c']> (sv_conns sv)) (sv_result sv) (sv_calls sv ++ calls)).
Proof.
  intros (Hb & Hc) Hi Hs. destruct (conn_step_calls _ _ _ _ _ _ Hs) as [Hopened Hcalls].
  pose proof (lookup_lt_Some _ _ _ Hi) as Hlt. split; simpl.
  - rewrite length_insert. apply Forall_app. split; [done|].
    destruct Hcalls as [->|(m & a & ->)]; by repeat constructor.
  - intros j d reqs tail Hj Hin Hwf Ht. rewrite calls_of_app.
    destruct (decide (i = j)) as [->|Hij].
    + rewrite list_lookup_insert_eq in Hj by done. simplify_eq.
      assert (calls_of j calls = calls) as ->.
      { destruct Hcalls as [->|(m & a & ->)]; [done|by apply calls_of_self]. }
      eapply conn_step_inv; [done..| |done]. eapply Hc; [done|congruence|done..].
    + rewrite list_lookup_insert_ne in Hj by done.
      assert (calls_of j calls = []) as ->.
      { destruct Hcalls as [->|(m & a & ->)]; [done|by apply calls_of_other]. }
      rewrite app_nil_r. by eapply Hc.
Qed.

Lemma serve_run_inv h0 evs : server_inv (serve_run h0 evs).
Proof.
  induction evs as [|ev evs IH] using rev_ind.
  { split; simpl; [constructor|]. intros i c reqs tail Hi. simpl in Hi. by rewrite lookup_nil in Hi. }
  unfold serve_run in *. rewrite foldl_snoc. set (sv := foldl _ _ evs) in *. destruct ev as [incoming ends room|e|i]; simpl.
  - destruct (sv_result sv) eqn:Hres; [done|]. by apply accept_inv.
  - destruct (sv_result sv); [done|]. exact IH.
  - destruct (sv_conns sv !! i) as [c|] eqn:Hi; [|done].
    destruct (conn_step i (sv_handler sv) c) as [[h c'] calls] eqn:Hs. by eapply runs_inv.
Qed.
End node_server.
Arguments Reading {_}.
Arguments Handling {_} _ _.
Arguments Writing {_} _.
Arguments Finished {_} _.
Arguments mkConn {_} _ _ _ _.
Arguments mkServer {_ _} _ _ _ _.
Arguments ct_opened {_} _.
Arguments ct_stream {_} _.
Arguments ct_task {_} _.
Arguments ct_turns {_} _.
Arguments sv_handler {_ _} _.
Arguments sv_conns {_ _} _.
Arguments sv_result {_ _} _.
Arguments sv_calls {_ _} _.

(** A handler whose calls have no await. *)
Section atomic_handler.
Context {St : Type} (handle_message : St → MessageType → bytes → St * outcome NetworkError bytes).

Definition atomic_step (h : St) (k : MessageType * bytes) : St * ((MessageType * bytes) + outcome NetworkError bytes) :=
  let '(h, answer) := handle_message h k.1 k.2 in (h, inr answer).

(** Three turns of a task that runs alone are one turn of the loop of
    [handle_connection]; a turn that leaves the loop may take fewer. *)
Lemma turns_alone_are_loop i h c :
  ct_task c = Reading →
  let step h c := conn_step pair atomic_step i h c in
  let '(h1, c1, _) := step h c in
  let '(h2, c2, _) := step h1 c1 in
  let '(h3, c3, _) := step h2 c2 in
  match connection_body handle_message (h, ct_stream c) with
  | Continue (h', s') => h3 = h' ∧ ct_stream c3 = s' ∧ ct_task c3 = Reading
  | Return (h', s') r => h3 = h' ∧ ct_stream c3 = s' ∧ ct_task c3 = Finished r
  end.
Proof.
  destruct c as [op s task k]. simpl. intros ->. unfold conn_step at 1. simpl.
  destruct (read_from s) as [s1 [m|e|]]; [|destruct e as [[]| | | | |]; by split_and!|by split_and!].
  simpl. unfold conn_step at 1. simpl. unfold atomic_step. destruct (handle_message h _ _) as [h1 [p|e|]]; [|done..].
  simpl. unfold conn_step. simpl. unfold response_to. by destruct (write_to _ s1) as [s2 [u|e|]].
Qed.
End atomic_handler.

(** ** The health server *)

(** What the application and the checker do to the component table. *)
Inductive table_op :=
  | Register (name : string)
  | Update (now_us : Z) (name : string) (status : HealthStatus) (message : string).
Definition apply_op (s : HealthServer) (op : table_op) : HealthServer :=
  match op with
  | Register name => register_component s name
  | Update now_us name status message => update_component now_us s name status message
  end.

Section health_server.
Context (to_string_pretty : SystemHealth → option string) (format_one_decimal : f64 → string).

(** A probe's connection: what its client sends, whether its answer is ready
    (with how much was read, the uptime and the operations before it), sent, or
    none is given. *)
Inductive probe_task := Opened | Answering (n : nat) (elapsed : Z) (seen : nat) (response : string) | Closed.
Record probe := mkProbe { pb_sent : bytes; pb_task : probe_task; pb_received : option string }.

(** Where the checker is: waiting for a tick, or between its two updates. *)
Inductive checker_task := Waiting | Checking.

(** The server, its probes, whether it still accepts, the checker, and the
    operations on the table so far. *)
Record health_system := mkSystem {
  hy_server : HealthServer; hy_probes : list probe; hy_accepting : bool;
  hy_checker : checker_task; hy_ops : list table_op }.

Inductive health_event :=
  | Connects (sent : bytes) | AcceptBreaks
  | Reads (i n : nat) (elapsed : Z)      (* a read gives [n] bytes *)
  | ReadBreaks (i : nat)
  | Sends (i : nat) (works : bool)
  | App (op : table_op)                  (* a call of the application *)
  | Ticks (now_us : Z)
  | Measures (now_us used total : Z).

Definition with_op (y : health_system) (op : table_op) (checker : checker_task) : health_system :=
  mkSystem (apply_op (hy_server y) op) (hy_probes y) (hy_accepting y) checker (hy_ops y ++ [op]).
Definition with_probe (y : health_system) (i : nat) (p : probe) : health_system :=
  mkSystem (hy_server y) (<[i := p]> (hy_probes y)) (hy_accepting y) (hy_checker y) (hy_ops y).

(** The first 1024 bytes at most, read as lossy UTF-8. *)
Definition request_text (sent : bytes) (n : nat) : bytes := utf8_lossy (take (n `min` 1024) sent).

(** Source: src/src/health.rs:142-164 (HealthServer::serve) *)
Definition probe_step (y : health_system) (ev : health_event) : health_system :=
  match ev with
  | Connects sent =>
      if hy_accepting y then
        mkSystem (hy_server y) (hy_probes y ++ [mkProbe sent Opened None]) true (hy_checker y) (hy_ops y)
      else y
  | AcceptBreaks => mkSystem (hy_server y) (hy_probes y) false (hy_checker y) (hy_ops y)
  | Reads i n elapsed =>
      match hy_probes y !! i with
      | Some (mkProbe sent Opened received) =>
          if bool_decide (take (n `min` 1024) sent = []) then with_probe y i (mkProbe sent Closed received)
          else
            let response := handle_request to_string_pretty elapsed (hy_server y) (request_text sent n) in
            with_probe y i (mkProbe sent (Answering n elapsed (length (hy_ops y)) response) received)
      | _ => y
      end
  | ReadBreaks i =>
      match hy_probes y !! i with
      | Some (mkProbe sent Opened received) => with_probe y i (mkProbe sent Closed received)
      | _ => y
      end
  | Sends i works =>
      match hy_probes y !! i with
      | Some (mkProbe sent (Answering n elapsed seen response) _) =>
          with_probe y i (mkProbe sent Closed (if works : bool then Some response else None))
      | _ => y
      end
  | _ => y
  end.

(** One await at a time of the loop around [perform_checks].
    Source: src/src/health.rs:252-260 (HealthChecker::run) *)
Definition checker_step (y : health_system) (ev : health_event) : health_system :=
  match ev, hy_checker y with
  | Ticks now_us, Waiting => with_op y (Update now_us "system" Healthy "System is running") Checking
  | Measures now_us used total, Checking =>
      let '(status, message) := check_memory format_one_decimal used total in
      with_op y (Update now_us "memory" status message) Waiting
  | _, _ => y
  end.

Definition health_step (y : health_system) (ev : health_event) : health_system :=
  match ev with
  | App op => with_op y op (hy_checker y)
  | Ticks _ | Measures _ _ _ => checker_step y ev
  | _ => probe_step y ev
  end.
Definition health_start (now : Z) (version : string) : health_system :=
  mkSystem (HealthServer_new now version) [] true Waiting [].
Definition health_run (now : Z) (version : string) (evs : list health_event) : health_system :=
  foldl health_step (health_start now version) evs.
End health_server.

(** *** Lemmas *)
Section health_lemmas.
Context (to_string_pretty : SystemHealth → option string) (format_one_decimal : f64 → string).
Context (now : Z) (version : string).

(** The table after the first [k] operations. *)
Definition table_after (ops : list table_op) : HealthServer := foldl apply_op (HealthServer_new now version) ops.

(** An answer for the table at some moment of the run. *)
Definition answers_probe (ops : list table_op) (sent : bytes) (response : string) : Prop :=
  ∃ n elapsed k, (k ≤ length ops)%nat ∧ take (n `min` 1024) sent ≠ [] ∧
    response = handle_request to_string_pretty elapsed (table_after (take k ops)) (request_text sent n).

Definition probe_inv (ops : list table_op) (p : probe) : Prop :=
  (match pb_task p with Answering _ _ _ response => answers_probe ops (pb_sent p) response | _ => True end) ∧
  (∀ response, pb_received p = Some response → answers_probe ops (pb_sent p) response).

Definition health_inv (y : health_system) : Prop :=
  hy_server y = table_after (hy_ops y) ∧ Forall (probe_inv (hy_ops y)) (hy_probes y).

Lemma answers_later ops op sent response : answers_probe ops sent response → answers_probe (ops ++ [op]) sent response.
Proof.
  intros (n & e & k & Hk & Hn & ->). exists n, e, k. rewrite take_app_le, length_app by done. simpl.
  split_and!; [lia|done|done].
Qed.

Lemma with_op_inv y op checker : health_inv y → health_inv (with_op y op checker).
Proof.
  intros [Hs Hp]. split; simpl.
  - unfold table_after in *. by rewrite foldl_snoc, Hs.
  - eapply Forall_impl; [done|]. intros p [Ht Hr]. split; [|intros; by apply answers_later, Hr].
    destruct (pb_task p); [done|by apply answers_later|done].
Qed.

Lemma with_probe_inv y i p : health_inv y → probe_inv (hy_ops y) p → health_inv (with_probe y i p).
Proof. intros [Hs Hp] Hi. split; [done|]. by apply Forall_insert. Qed.

Lemma health_run_inv evs : health_inv (health_run to_string_pretty format_one_decimal now version evs).
Proof.
  induction evs as [|ev evs IH] using rev_ind; [by split; [|constructor]|].
  unfold health_run in *. rewrite foldl_snoc. set (y := foldl _ _ evs) in *.
  assert (∀ i p, hy_probes y !! i = Some p → probe_inv (hy_ops y) p) as Hprobe.
  { intros i p Hi. eapply Forall_lookup_1; [apply IH|done]. }
  destruct ev as [sent| |i n e|i|i works|op|t|t u w]; simpl.
  - destruct (hy_accepting y); [|done]. destruct IH as [Hs Hp]. split; [done|]. simpl. apply Forall_app.
    split; [done|]. repeat constructor. done.
  - exact IH.
  - destruct (hy_probes y !! i) as [[sent [| |] received]|] eqn:Hi; try done. apply Hprobe in Hi as [_ Hr].
    case_bool_decide; apply with_probe_inv; try done; split; try done; simpl.
    exists n, e, (length (hy_ops y)). rewrite firstn_all. destruct IH as [<- _]. done.
  - destruct (hy_probes y !! i) as [[sent [| |] received]|] eqn:Hi; try done. apply Hprobe in Hi as [_ Hr].
    by apply with_probe_inv.
  - destruct (hy_probes y !! i) as [[sent [| |] received]|] eqn:Hi; try done. apply Hprobe in Hi as [Ht Hr].
    apply with_probe_inv; [done|]. split; [done|]. simpl. destruct works; [|done]. by intros ? [= <-].
  - by apply with_op_inv.
  - unfold checker_step. destruct (hy_checker y); [by apply with_op_inv|done].
  - unfold checker_step. destruct (hy_checker y); [done|]. destruct (check_memory format_one_decimal u w). by apply with_op_inv.
Qed.

(** No operation removes a component, and only updates of its name change one. *)
Definition updates (name : string) (op : table_op) : bool :=
  match op with Update _ name' _ _ => String.eqb name name' | Register _ => false end.

Lemma update_first_keeps name name' status message t l :
  name ≠ name' → mkComponent name Unknown "Not yet checked" 0 ∈ l →
  mkComponent name Unknown "Not yet checked" 0 ∈ update_first name' status message t l.
Proof.
  intros Hne. induction l as [|c l IH]; [done|]. simpl. intros [<-|Hin]%elem_of_cons.
  - simpl. rewrite (proj2 (String.eqb_neq _ _)) by done. by left.
  - destruct (String.eqb (ch_name c) name'); right; [done|by apply IH].
Qed.

Lemma unchecked_stays ops name :
  Register name ∈ ops → Forall (λ op, updates name op = false) ops →
  mkComponent name Unknown "Not yet checked" 0 ∈ hs_components (table_after ops).
Proof.
  induction ops as [|op ops IH] using rev_ind; [by intros ?%not_elem_of_nil|].
  intros Hin [Hops Hop]%Forall_app. unfold table_after in *. rewrite foldl_snoc.
  apply elem_of_app in Hin as [Hin|Hin%list_elem_of_singleton].
  - specialize (IH Hin Hops). destruct op as [name'|t name' status message]; simpl.
    + apply elem_of_app. by left.
    + apply Forall_inv, String.eqb_neq in Hop. by apply update_first_keeps.
  - subst op. simpl. apply elem_of_app. right. by constructor.
Qed.
End health_lemmas.

(** The checker's updates with nothing in between are one [perform_checks]. *)
Lemma check_alone_is_perform_checks to_string_pretty format_one_decimal y now_us used total :
  hy_checker y = Waiting →
  hy_server (foldl (health_step to_string_pretty format_one_decimal) y [Ticks now_us; Measures now_us used total]) =
    perform_checks format_one_decimal now_us used total (hy_server y).
Proof.
  destruct y as [s ps a ck ops]. simpl. intros ->. unfold checker_step. simpl. unfold perform_checks.
  reflexivity.
Qed.

(** ** Properties *)

(** C16. Connections of the node server are answered in order and end for a
    known reason.  In every schedule of accepting and of the reads, the steps of
    handler calls and the writes of all connections, with calls of the shared
    handler overlapping, take a connection on which the requests [reqs] arrive
    before it ends inside at most a header.  It has had a prefix of them handled,
    in order; each answer is one that the handler can give to that request; it has
    written a prefix of the responses.  After three turns a request and one more,
    the awaits inside the handler not counted, it is finished.  Then one of four
    things holds: it was closed, [Ok], with every request answered and every
    response written; receiving failed at that point with the stream's error; the
    handler failed the last call, every earlier one was answered and these
    responses are written; or all calls were answered but their responses are
    longer than what the stream takes, which is written, and the result is the
    stream's error. *)
Theorem connections_answered_in_order {St H} (start : MessageType → bytes → H)
    (step : St → H → St * (H + outcome NetworkError bytes)) h0 evs i c reqs tail
    (Hi : sv_conns (serve_run start step h0 evs) !! i = Some c)
    (Harrives : rx (ct_opened c) = wire reqs ++ tail) (Hwf : Forall message_wf reqs) (Htail : len tail < 20) :
  let mine := calls_of i (sv_calls (serve_run start step h0 evs)) in
  map cl_message mine `prefix_of` reqs ∧ Forall (can_answer start step) mine ∧
  tx (ct_stream c) `prefix_of` responses mine ∧
  ((3 * length reqs + 1 ≤ ct_turns c)%nat → ∃ r, ct_task c = Finished r) ∧
  (∀ r, ct_task c = Finished r → ends_with (ct_opened c) reqs mine (tx (ct_stream c)) r).
Proof.
  intros mine. destruct (serve_run_inv start step h0 evs) as (_ & Hc).
  destruct (Hc i c reqs tail Hi Harrives Hwf Htail) as [Hcan Hinv]. fold mine in Hcan, Hinv.
  destruct (ct_task c) as [|m k|resp|r] eqn:Ht.
  - destruct Hinv as (todo & Hq & _ & _ & _ & -> & _ & _ & Hk).
    split_and!; [rewrite Hq; by eexists|done..| |done]. cbn in Hk. lia.
  - destruct Hinv as (todo & Hq & _ & _ & _ & _ & -> & _ & _ & Hk).
    split_and!; [rewrite Hq; by eexists|done..| |done]. cbn in Hk. lia.
  - destruct Hinv as (todo & earlier & last & Hmine & _ & Hq & _ & _ & _ & -> & _ & _ & Hk).
    split_and!; [rewrite Hq; by eexists|done|rewrite Hmine, responses_snoc; by eexists| |done]. cbn in Hk. lia.
  - destruct Hinv as (Hq & Hends). split_and!; [done..| |eauto|by intros ? [= <-]].
    destruct Hends as [_ _ _ ->|_ _ _ ->|earlier last _ _ _ ->|n e _ _ _ ->]; try done. apply prefix_take.
Qed.

(** A handler that reads a counter, waits, and stores the next value. *)
Definition counting_start (t : MessageType) (payload : bytes) : option nat * bytes := (None, payload).
Definition counting_step (h : nat) (k : option nat * bytes) : nat * ((option nat * bytes) + outcome NetworkError bytes) :=
  match k with
  | (None, payload) => (h, inl (Some h, payload))
  | (Some n, payload) => (S n, inr (Ok payload))
  end.

(** Two clients whose calls overlap, so that one count is lost; the second one
    breaks off inside a header, and the connection of the first one breaks
    inside the second response. *)
Definition two_clients : list net_event :=
  [Accepts (wire [ping_request 7; ping_request 8]) UnexpectedEof (Some (30%nat, OtherIo "reset"));
   Accepts (wire [ping_request 7] ++ str_bytes "x") UnexpectedEof None;
   Runs 0; Runs 1; Runs 1; Runs 0; Runs 1; AcceptFails (OtherIo "closed"); Accepts [] UnexpectedEof None; Runs 0; Runs 0;
   Runs 1; Runs 0; Runs 1; Runs 0; Runs 0; Runs 0].

Lemma connections_answered_in_order_witness :
  let sv := serve_run counting_start counting_step 0%nat two_clients in
  sv_handler sv = 2%nat ∧ length (sv_calls sv) = 3%nat ∧
  ∃ c, sv_conns sv !! 0%nat = Some c ∧ ct_task c = Finished (Err (NetIo (OtherIo "reset"))) ∧
    ends_with (ct_opened c) [ping_request 7; ping_request 8] (calls_of 0 (sv_calls sv)) (tx (ct_stream c))
      (Err (NetIo (OtherIo "reset"))).
Proof.
  cbv zeta. split; [by vm_compute|]. split; [by vm_compute|].
  assert (Forall message_wf [ping_request 7; ping_request 8]) as Hwf by (do 2 (constructor; [by vm_compute|]); constructor).
  destruct (sv_conns (serve_run counting_start counting_step 0%nat two_clients) !! 0%nat) as [c|] eqn:Hc; [|by vm_compute in Hc].
  exists c. split; [done|].
  destruct (connections_answered_in_order counting_start counting_step 0%nat two_clients 0 c
    [ping_request 7; ping_request 8] []) as (_ & _ & _ & _ & Hfin).
  - exact Hc.
  - vm_compute in Hc. simplify_eq. by vm_compute.
  - exact Hwf.
  - exact eq_refl.
  - assert (ct_task c = Finished (Err (NetIo (OtherIo "reset")))) as Ht by (vm_compute in Hc; by simplify_eq).
    split; [exact Ht|]. by apply Hfin.
Defined.

(** C33. Probes and the table: in every schedule of probes, of the checker and
    of the application's calls, the table is the result of the operations one
    after the other; every answer a probe has received is the answer to what
    was read of its request (at most 1024 bytes) for the table at one moment;
    and while a registered component has not been updated under its name the
    readiness code is 503. *)
Theorem probes_see_the_table to_string_pretty format_one_decimal now version evs :
  let y := health_run to_string_pretty format_one_decimal now version evs in
  hy_server y = table_after now version (hy_ops y) ∧
  (∀ i sent task response, hy_probes y !! i = Some (mkProbe sent task (Some response)) →
     answers_probe to_string_pretty now version (hy_ops y) sent response) ∧
  (∀ k name elapsed, Register name ∈ take k (hy_ops y) → Forall (λ op, updates name op = false) (take k (hy_ops y)) →
     http_code (sh_status (get_health elapsed (table_after now version (take k (hy_ops y))))) = 503).
Proof.
  intros y. destruct (health_run_inv to_string_pretty format_one_decimal now version evs) as [Hs Hp]. fold y in Hs, Hp.
  split_and!; [exact Hs| |].
  - intros i sent task response Hi. eapply Forall_lookup_1 in Hp as [_ Hr]; [|exact Hi]. by apply Hr.
  - intros k name elapsed Hin Hno. pose proof (unchecked_stays now version _ name Hin Hno) as Hu.
    set (s := table_after now version (take k (hy_ops y))) in *. clearbody s.
    destruct (overall_status_worst elapsed s) as (_ & _ & Hle & _). specialize (Hle _ Hu).
    destruct (sh_status (get_health elapsed s)); cbn in Hle |- *; [lia|lia|lia|done].
Qed.

(** A run: the readiness probe that comes before the first check is told 503,
    and so is the next one, since nothing reports the second component. *)
Definition probe_text : bytes := str_bytes "GET /health/ready HTTP/1.1".
Definition two_probes : list health_event :=
  [App (Register "system"); App (Register "storage"); Connects probe_text; Reads 0 100 1; Ticks 5;
   Sends 0 true; Connects probe_text; Reads 1 100 2; Sends 1 true].
Lemma probes_see_the_table_witness :
  let y := health_run (λ _, None) (λ _, EmptyString) 0 "1.0" two_probes in
  http_code (sh_status (get_health 9 (table_after 0 "1.0" (take 3 (hy_ops y))))) = 503 ∧
  map pb_received (hy_probes y) =
    [Some (http_response 503 "Service Unavailable" "not ready");
     Some (http_response 503 "Service Unavailable" "not ready")].
Proof.
  split; [|vm_compute; reflexivity].
  apply (proj2 (proj2 (probes_see_the_table (λ _, None) (λ _, EmptyString) 0 "1.0" two_probes))) with (name := "storage"%string).
  - vm_compute. right. left.
  - repeat constructor.
Defined.
