(* ===== verification/QueueTests.v ===== *)
(** * The tests of the queue (src/src/persistq.rs, [mod tests])

    The tests of the module with their assertions, and a proof that all of them
    pass on a machine that grants what they ask of it: the one with concurrent
    writers under every interleaving.  They pass although a read returns too
    much, because each of them compares only a prefix of what it reads. *)

From stdpp Require Import base list list_numbers numbers strings gmap relations sorting pretty.
From Stdlib Require Import Strings.Byte.
From S2P Require Import Prelude Crc32 F64 StorageEngine PersistQueue QueueSegments QueueConc QueuePerf Utf8.
Local Open Scope Z_scope.

(** ** Definitions *)

(** [&data[..expected.len()] == expected] *)
Definition begins_with (expected data : bytes) : outcome string bool :=
  prefix ← unwrap (slice data 0 (len expected)); Ok (bool_decide (prefix = expected)).

Section tests.
Context `{Crc32} `{Os} `{Fs}.

(** Source: src/src/persistq.rs:1028-1049 (tests::test_segment_operations) *)
Definition test_segment_operations : verdict :=
  segment ← unwrap_ok (Segment_new "/tmp/dolda_test_segment/test_segment.dat" 1024);
  let data := str_bytes "Hello, World!" in
  let '(segment, appended) := Segment_append segment data in
  offset ← unwrap_ok appended;
  _ ← assert_that (offset =? 0);
  read_data ← unwrap_ok (Segment_read segment 0);
  same ← begins_with data read_data;
  _ ← assert_that same;
  unwrap_ok (Segment_flush segment).

(** Source: src/src/persistq.rs:1051-1068 (tests::test_segment_manager) *)
Definition test_segment_manager (fuel : nat) : option verdict :=
  match QManager_new 1 1024 "/tmp/dolda_test_manager" with
  | Ok manager =>
      let data := str_bytes "Test record" in
      '(manager, appended) ← QManager_append fuel manager data;
      Some (offset ← unwrap_ok appended;
            read_data ← unwrap_ok (QManager_read manager (usize offset));
            same ← begins_with data read_data;
            assert_that same)
  | _ => Some Panic
  end.

(** Source: src/src/persistq.rs:1070-1076 (tests::test_persistq_config) *)
Definition test_persistq_config : verdict :=
  let config := PersistQConfig_default in
  _ ← assert_that (num_partitions config =? 8);
  _ ← assert_that (segment_size config =? 64 * 1024 * 1024);
  assert_that (replication_factor config =? 3).

(** The fields the tests set one by one. *)
Definition with_partitions (c : PersistQConfig) (n : Z) : PersistQConfig :=
  mkConfig (storage_dir c) (segment_size c) n (replication_factor c) (cache_config c).
Definition with_segment_size (c : PersistQConfig) (size : Z) : PersistQConfig :=
  mkConfig (storage_dir c) size (num_partitions c) (replication_factor c) (cache_config c).
Definition with_storage_dir (c : PersistQConfig) (dir : string) : PersistQConfig :=
  mkConfig dir (segment_size c) (num_partitions c) (replication_factor c) (cache_config c).
Definition with_threshold (c : PersistQConfig) (t : f64) : PersistQConfig :=
  mkConfig (storage_dir c) (segment_size c) (num_partitions c) (replication_factor c)
    (mkCache (cc_enabled (cache_config c)) (cc_size_bytes (cache_config c)) t).

(** Source: src/src/persistq.rs:1081-1091 (tests::test_config_validation, valid configuration) *)
Definition valid_config : PersistQConfig :=
  {| storage_dir := "/tmp/test"; segment_size := 1024 * 1024; num_partitions := 4; replication_factor := 2;
     cache_config := {| cc_enabled := true; cc_size_bytes := 1024; hot_data_threshold := f64_lit 1 2 |} |}.

(** Source: src/src/persistq.rs:1078-1116 (tests::test_config_validation) *)
Definition test_config_validation : verdict :=
  _ ← assert_that (is_ok (validate_config valid_config));
  _ ← assert_that (is_err (validate_config (with_partitions valid_config 0)));
  _ ← assert_that (is_err (validate_config (with_partitions valid_config 2000)));
  _ ← assert_that (is_err (validate_config (with_segment_size valid_config 100)));
  _ ← assert_that (is_err (validate_config (with_storage_dir valid_config "../etc/passwd")));
  assert_that (is_err (validate_config (with_threshold valid_config (f64_lit 15 10)))).

(** The configuration of the tests of the queue.
    Source: src/src/persistq.rs:1123-1133 (tests::test_persistq_append_and_read, configuration) *)
Definition test_config (dir : string) (size n : Z) : PersistQConfig :=
  {| storage_dir := dir; segment_size := size; num_partitions := n; replication_factor := 1;
     cache_config := {| cc_enabled := false; cc_size_bytes := 0; hot_data_threshold := f64_lit 0 1 |} |}.

(** The loops that append records, each result [unwrap]ped and checked. *)
Fixpoint append_all (fuel : nat) (t : clock) (i : nat) (check : AppendResult → bool) (q : PersistQ)
    (records : list bytes) (results : list AppendResult)
    : option (outcome string (PersistQ * list AppendResult)) :=
  match records with
  | [] => Some (Ok (q, results))
  | data :: records =>
      '(q, result) ← PersistQ_append fuel (t i).1 (t i).2 q data;
      match result with
      | Ok r =>
          if check r then append_all fuel t (S i) check q records (results ++ [r]) else Some Panic
      | _ => Some Panic
      end
  end.

(** The loops that read each record back by its global offset. *)
Fixpoint read_all (t : clock) (i : nat) (check : bytes → AppendResult → QueueRecord → outcome string bool)
    (q : PersistQ) (records : list bytes) (results : list AppendResult) : verdict :=
  match results, records with
  | r :: results, data :: records =>
      read_result ← unwrap_ok (PersistQ_read (t i).1 (t i).2 q (ar_global_offset r));
      same ← check data r (rr_record read_result);
      _ ← assert_that same;
      read_all t (S i) check q records results
  | [], _ => Ok tt
  | _ :: _, [] => Panic
  end.

(** Source: src/src/persistq.rs:1139-1143 (tests::test_persistq_append_and_read, records) *)
Definition three_records : list bytes := map str_bytes ["Record 1"; "Record 2"; "Record 3"]%string.

(** Source: src/src/persistq.rs:1118-1160 (tests::test_persistq_append_and_read) *)
Definition test_persistq_append_and_read (fuel : nat) (ta tr : clock) : option verdict :=
  match PersistQ_new (test_config "/tmp/dolda_test_persistq" (1024 * 1024) 2) with
  | Ok persistq =>
      appended ← append_all fuel ta 0 (λ r, (0 <? ar_partition_id r) && (ar_partition_id r <=? 2))
                   persistq three_records [];
      Some ('(persistq, results) ← appended;
            read_all tr 0 (λ data r rec, begins_with data (qr_data rec)) persistq three_records results)
  | _ => Some Panic
  end.

(** Source: src/src/persistq.rs:1242-1248 (tests::test_offset_mapping_correctness, records) *)
Definition five_records : list bytes :=
  map str_bytes ["Record A"; "Record B"; "Record C"; "Record D"; "Record E"]%string.

(** Source: src/src/persistq.rs:1257-1262 (tests::test_offset_mapping_correctness, reads) *)
Definition reads_back (data : bytes) (r : AppendResult) (rec : QueueRecord) : outcome string bool :=
  prefix ← unwrap (slice (qr_data rec) 0 (len data));
  _ ← assert_that (bool_decide (str_bytes (from_utf8_lossy prefix) = data));
  Ok (qr_partition_id rec =? ar_partition_id r).

(** Source: src/src/persistq.rs:1221-1266 (tests::test_offset_mapping_correctness) *)
Definition test_offset_mapping_correctness (fuel : nat) (ta tr : clock) : option verdict :=
  match PersistQ_new (test_config "/tmp/dolda_test_offset_mapping" (1024 * 1024) 4) with
  | Ok persistq =>
      appended ← append_all fuel ta 0 (λ _, true) persistq five_records [];
      Some ('(persistq, append_results) ← appended;
            read_all tr 0 reads_back persistq five_records append_results)
  | _ => Some Panic
  end.

(** Source: src/src/persistq.rs:1268-1304 (tests::test_segment_rollover) *)
Definition test_segment_rollover (fuel : nat) (ta : clock) : option verdict :=
  match PersistQ_new (test_config "/tmp/dolda_test_rollover" 1024 1) with
  | Ok persistq =>
      appended ← append_all fuel ta 0 (λ _, true) persistq (replicate 5 (replicate 512 x00)) [];
      Some ('(persistq, offsets) ← appended;
            segment_manager ← unwrap (segment_managers persistq !! 1);
            assert_that (1 <? len (qm_segments segment_manager)))
  | _ => Some Panic
  end.

(** Source: src/src/persistq.rs:1306-1314 (tests::test_performance_framework) *)
Definition test_performance_framework : verdict :=
  results ← unwrap_ok (PerfResults_new "test" [100; 200; 150; 300; 250] 1024 1000);
  _ ← assert_that (pr_operations results =? 5);
  _ ← assert_that (pr_total_bytes results =? 1024);
  assert_that (f64_gt (pr_avg_latency_us results) (f64_lit 0 1)).

(** *** The test with concurrent writers

    The appends of the ten writers, in the order of the writers; an append
    starts when the one before it in its writer has returned a result. *)
Definition num_writers : nat := 10.
Definition records_per_writer : nat := 100.

(** Source: src/src/persistq.rs:1192-1192 (tests::test_concurrent_appends, data) *)
Definition writer_data (writer_id i : nat) : bytes :=
  str_bytes ("Writer " +:+ pretty (Z.of_nat writer_id) +:+ " Record " +:+ pretty (Z.of_nat i)).
Definition writers_data (k n : nat) : list bytes :=
  flat_map (λ w, map (writer_data w) (seq 0 k)) (seq 0 n).

(** The append returned an offset. *)
Definition numbered (t : qthread) : bool := match t with QDone _ (Ok _) => true | _ => false end.

(** Source: src/src/persistq.rs:1184-1199 (tests::test_concurrent_appends, writers) *)
Definition writers_step (k : nat) (c c' : qconfig) : Prop :=
  ∃ i, in_turn k numbered (qc_threads c) i = true ∧ qstep i c = Some c'.

(** The offsets collected from the writers, in their order, when they ended.
    Source: src/src/persistq.rs:1201-1206 (tests::test_concurrent_appends, joins) *)
Fixpoint joined (ts : list qthread) : option (outcome string (list Z)) :=
  match ts with
  | [] => Some (Ok [])
  | QDone _ (Ok g) :: ts =>
      offsets ← joined ts; Some (rest ← offsets; Ok (g :: rest))
  | QDone _ _ :: _ => Some Panic
  | _ => None
  end.

(** [Vec::dedup]: of equal neighbours one is kept. *)
Fixpoint dedup (l : list Z) : list Z :=
  match l with
  | x :: ((y :: _) as rest) => if x =? y then dedup rest else x :: dedup rest
  | _ => l
  end.

(** Source: src/src/persistq.rs:1208-1215 (tests::test_concurrent_appends, checks) *)
Definition concurrent_verdict (k n : nat) (c : qconfig) : option verdict :=
  offsets ← joined (qc_threads c);
  Some (all_offsets ← offsets;
        _ ← assert_that (len all_offsets =? Z.of_nat (n * k));
        let unique_offsets := dedup (merge_sort Z.le all_offsets) in
        assert_that (len unique_offsets =? len all_offsets)).
End tests.

(** ** Lemmas *)
Section lemmas.
Context `{Crc32Ok} `{OsOk} `{Fs}.

Lemma begins_with_app data rest : begins_with data (data ++ rest) = Ok true.
Proof. unfold begins_with. rewrite slice_head by done. cbn. by rewrite bool_decide_eq_true_2. Qed.

(** Sequential appends within the room of a segment. *)
Lemma append_all_ok records fuel t i check q log results :
  queue_repr q log → len log + len records < 2 ^ 63 →
  zsum len log + zsum len records ≤ segment_size (pq_config q) →
  (∀ r, 1 ≤ ar_partition_id r ≤ num_partitions (pq_config q) → check r = true) →
  ∃ q' rs, append_all (S fuel) t i check q records results = Some (Ok (q', results ++ rs)) ∧
    map ar_global_offset rs = seqZ (len log) (len records) ∧
    map ar_partition_id rs = map (route (num_partitions (pq_config q))) records ∧
    queue_repr q' (log ++ records) ∧ pq_config q' = pq_config q.
Proof.
  revert i q log results. induction records as [|d records IH]; intros i q log results Hq Hc Hfit Hcheck.
  - exists q, []. cbn [append_all]. by rewrite !app_nil_r.
  - rewrite len_cons in *. cbn [zsum foldr] in Hfit. change (foldr _ 0 records) with (zsum len records) in Hfit.
    pose proof (len_nonneg records). pose proof (zsum_nonneg len records len_nonneg).
    pose proof (len_partition_content (num_partitions (pq_config q)) (route (num_partitions (pq_config q)) d) log).
    destruct (queue_append q log d fuel (t i).1 (t i).2 Hq) as (q1 & Ha & Hq1 & Hc1); [lia|lia|].
    set (r := mkAppendResult _ _ _ _) in Ha.
    destruct (IH (S i) q1 _ (results ++ [r]) Hq1) as (q' & rs & Ha' & Hrs & Hps & Hq' & Hc').
    { rewrite len_snoc. lia. }
    { rewrite Hc1, zsum_app. cbn [zsum foldr]. lia. }
    { by rewrite Hc1. }
    exists q', (r :: rs). split; [|split; [|split; [|split; [|by rewrite Hc', Hc1]]]].
    + cbn [append_all]. rewrite Ha. cbn [mbind option_bind]. rewrite Hcheck by (apply route_range, (qr_parts _ _ Hq)).
      rewrite Ha'. by rewrite <- app_assoc.
    + cbn [map]. rewrite Hrs, len_snoc. rewrite (seqZ_cons (len log)) by lia. cbn [ar_global_offset r].
      by replace (Z.pred (1 + len records)) with (len records) by lia.
    + cbn [map]. rewrite Hps, Hc1. done.
    + by rewrite <- app_assoc in Hq'.
Qed.

(** Reading them back: a record is followed by the later ones of its
    partition, which a check of the prefix does not see. *)
Lemma read_all_ok t check q log k i rs :
  let n := num_partitions (pq_config q) in
  queue_repr q log → Forall (λ d, d ≠ []) log →
  map ar_global_offset rs = seqZ (Z.of_nat k) (len log - Z.of_nat k) →
  map ar_partition_id rs = map (route n) (drop k log) →
  (∀ d r rec rest, d ∈ log → ar_partition_id r = route n d → qr_data rec = d ++ rest → qr_partition_id rec = route n d →
     check d r rec = Ok true) →
  read_all t i check q (drop k log) rs = Ok tt.
Proof.
  intros n Hq Hne Ho Hp Hcheck. remember (drop k log) as records eqn:Hr.
  revert k i rs Hr Ho Hp. induction records as [|d records IH]; intros k i rs Hr Ho Hp; [by destruct rs|].
  assert (log !! k = Some d) as Hd by (rewrite <- (Nat.add_0_r k), <- lookup_drop, <- Hr; done).
  pose proof (lookup_lt_Some _ _ _ Hd) as Hlt.
  rewrite (drop_S log d k Hd) in Hr. injection Hr as Hr.
  rewrite seqZ_cons in Ho by (unfold len; lia). destruct rs as [|r rs]; [done|].
  cbn [map] in Ho, Hp. injection Ho as Hr0 Ho. injection Hp as Hp0 Hp. cbn [read_all].
  rewrite Hr0, (queue_read _ _ _ _ _ Hq), Nat2Z.id, Hd by lia. cbv zeta. fold n.
  rewrite (drop_S log d k Hd), <- Hr.
  assert (partition_content n (route n d) (d :: records) = d ++ partition_content n (route n d) records) as ->.
  { unfold partition_content. by rewrite filter_cons, decide_True. }
  pose proof (Forall_lookup_1 _ _ _ _ Hne Hd) as Hd'. cbv beta in Hd'. rewrite len_app.
  assert (0 < len d) by (destruct d as [|b d]; [done|rewrite len_cons; pose proof (len_nonneg d); lia]).
  pose proof (len_nonneg (partition_content n (route n d) records)). rewrite (proj2 (Z.leb_gt _ _)) by lia.
  cbn [unwrap_ok mbind outcome_bind rr_record].
  rewrite (Hcheck d r _ (partition_content n (route n d) records)) by (done || by eapply list_elem_of_lookup_2).
  cbn [mbind outcome_bind assert_that]. apply (IH (S k)); [done| |done].
  rewrite Ho. f_equal; lia.
Qed.

(** Appends past the first segment. *)
Lemma append_all_live ds fuel t i q log results :
  queue_live q log → len log + len ds < 2 ^ 64 → Forall (λ d, len d ≤ segment_size (pq_config q)) ds →
  (∀ path, is_ok (os_map_file path (segment_size (pq_config q))) = true) →
  ∃ q' rs, append_all (S (S fuel)) t i (λ _, true) q ds results = Some (Ok (q', rs)) ∧
    queue_live q' (log ++ ds) ∧ pq_config q' = pq_config q.
Proof.
  revert i q log results. induction ds as [|d ds IH]; intros i q log results Hq Hb Hd Hos.
  - exists q, results. by rewrite app_nil_r.
  - rewrite len_cons in Hb. pose proof (len_nonneg ds). apply Forall_cons in Hd as [Hd Hds].
    destruct (queue_live_append q log d fuel (t i).1 (t i).2 Hq) as (q1 & Ha & Hq1 & Hc1); [lia|done..|].
    destruct (IH (S i) q1 _ (results ++ [mkAppendResult (len log) (route (num_partitions (pq_config q)) d)
      (route (num_partitions (pq_config q)) d) (saturating_sub (t i).2 (t i).1)]) Hq1) as (q' & rs & Hp & Hq' & Hc');
      [rewrite len_snoc; lia|by rewrite Hc1..|].
    exists q', rs. cbn [append_all]. rewrite Ha. cbn [mbind option_bind]. rewrite Hp, Hc', Hc1, <- app_assoc in *. done.
Qed.

(** *** Concurrent writers *)

Lemma remaining_done t : remaining t = 0%nat → ∃ d res, t = QDone d res.
Proof. destruct t; try done. by repeat eexists. Qed.

(** When all have returned, the offsets collected are their numbers. *)
Lemma joined_done ts :
  (∀ i t, ts !! i = Some t → ∃ d g, t = QDone d (Ok g)) →
  ∃ gs, joined ts = Some (Ok gs) ∧ length gs = length ts ∧ ∀ i g, gs !! i = Some g → ∃ d, ts !! i = Some (QDone d (Ok g)).
Proof.
  induction ts as [|t ts IH]; intros Hts; [by exists []|].
  destruct (Hts 0%nat t eq_refl) as (d & g & ->). destruct IH as (gs & Hj & Hl & Hg); [intros i; apply (Hts (S i))|].
  exists (g :: gs). cbn [joined]. rewrite Hj. split; [done|]. split; [by cbn; rewrite Hl|].
  intros [|i] x Hx; [injection Hx as <-; by exists d|]. by apply Hg.
Qed.

Lemma dedup_nodup l : NoDup l → dedup l = l.
Proof.
  induction l as [|x [|y l] IH]; intros Hl; [done..|].
  change (dedup (x :: y :: l)) with (if x =? y then dedup (y :: l) else x :: dedup (y :: l)).
  apply NoDup_cons in Hl as [Hx Hl]. destruct (Z.eqb_spec x y) as [->|_]; [set_solver|]. by rewrite IH.
Qed.
Lemma unique_offsets l : NoDup l → len (dedup (merge_sort Z.le l)) = len l.
Proof.
  intros Hl. pose proof (merge_sort_Permutation Z.le l) as Hp. rewrite dedup_nodup by (by rewrite Hp).
  unfold len. by rewrite Hp.
Qed.

(** The writers pass, or one of them can go on; every step brings them nearer. *)
Lemma writers_progress n log ws c k m :
  queue_inv n log ws c → length (qc_threads c) = (m * k)%nat →
  concurrent_verdict k m c = Some (Ok tt) ∨ ∃ c', writers_step k c c'.
Proof.
  intros Hinv Hlen. pose proof (qi_threads _ _ _ _ Hinv) as Hts.
  assert (∀ i d res, qc_threads c !! i = Some (QDone d res) → ∃ g, res = Ok g) as Hres.
  { intros i d res Hi. pose proof (Forall_lookup_1 _ _ _ _ Hts Hi) as Hok. destruct res; [by eexists|done..]. }
  destruct (first_pending remaining (qc_threads c)) as [Hall|(i & t & Hi & Ht & Hbefore)].
  - left. destruct (joined_done (qc_threads c)) as (gs & Hj & Hl & Hg).
    { intros i t Hi. destruct (remaining_done t (Hall i t Hi)) as (d & res & ->). destruct (Hres _ _ _ Hi) as [g ->]. by repeat eexists. }
    unfold concurrent_verdict. rewrite Hj. cbn [mbind option_bind outcome_bind].
    assert (len gs = Z.of_nat (m * k)) as Hn by (unfold len; lia). rewrite Hn, Z.eqb_refl. cbn [assert_that].
    rewrite unique_offsets, Hn, Z.eqb_refl; [done|]. apply NoDup_alt. intros i j g Hi Hj'.
    destruct (Hg _ _ Hi) as [d Hd], (Hg _ _ Hj') as [d' Hd'].
    by apply (no_distinct _ _ _ (qi_numbers _ _ _ _ Hinv) i j _ _ g Hd Hd').
  - right. destruct (inv_qstep _ _ _ _ _ _ Hinv Hi Ht) as (c' & t' & Hs & _). exists c', i. split; [|done].
    apply (first_in_turn k m numbered _ i t Hlen Hi). intros j u Hj Hu.
    destruct (remaining_done u (Hbefore j u Hj Hu)) as (d & res & ->). by destruct (Hres _ _ _ Hu) as [g ->].
Qed.

Lemma writers_decrease n log ws c k c' :
  queue_inv n log ws c → writers_step k c c' →
  S (total remaining (qc_threads c')) = total remaining (qc_threads c) ∧ length (qc_threads c') = length (qc_threads c).
Proof.
  intros Hinv (i & _ & Hs). assert (∃ t, qc_threads c !! i = Some t ∧ (0 < remaining t)%nat) as (t & Hi & Ht).
  { pose proof Hs as Hs'. unfold qstep in Hs'. apply bind_Some in Hs' as (t & Hi & Hs'). exists t. split; [done|].
    apply bind_Some in Hs' as (x & Hx & _). destruct t; cbn [remaining]; try lia. done. }
  destruct (inv_qstep _ _ _ _ _ _ Hinv Hi Ht) as (c2 & t' & Hs2 & Hts & _ & Hr). rewrite Hs in Hs2. injection Hs2 as <-.
  rewrite Hts, length_insert. split; [by apply (total_insert _ _ _ t)|done].
Qed.
End lemmas.

(** ** Properties *)

(** A machine that grants what the tests ask of it. *)
Record grants `{Os} `{Fs} : Prop := {
  gr_dir : ∀ dir, os_create_dir_all dir = Ok tt;
  gr_canon : ∀ dir, is_ok (fs_canonicalize false dir) = true;
  gr_map : ∀ path size, 0 ≤ size < 2 ^ 63 → is_ok (os_map_file path size) = true;
  gr_flush : ∀ path mm, os_flush path mm = Ok tt
}.

Section properties.
Context `{Crc32Ok} `{OsOk} `{Fs}.

(** The configurations of the tests are opened. *)
Lemma test_queue_opens dir size n :
  grants → 1 ≤ n ≤ 1024 → validate_config (test_config dir size n) = Ok tt → 0 ≤ size < 2 ^ 63 →
  ∃ q, PersistQ_new (test_config dir size n) = Ok q ∧ queue_repr q [] ∧
    num_partitions (pq_config q) = n ∧ segment_size (pq_config q) = size.
Proof.
  intros [Hdir Hcanon Hmap _] Hn Hv Hsize.
  assert (∃ d, canonical_dir dir = Ok d) as [d Hd].
  { unfold canonical_dir. specialize (Hcanon dir). destruct (fs_canonicalize false dir); [by eexists|done..]. }
  destruct (queue_opens (test_config dir size n) d Hv Hd) as [q Hq]; [intros path; by apply Hmap|by rewrite Hdir|].
  exists q. split; [done|]. by apply (queue_new_repr (test_config dir size n) q); [unfold in_range; cbn; lia..|].
Qed.

Lemma three_records_nonempty : Forall (λ d, d ≠ []) three_records.
Proof. by repeat constructor. Qed.
Lemma five_records_nonempty : Forall (λ d, d ≠ []) five_records.
Proof. by repeat constructor. Qed.

Lemma append_and_read_passes fuel ta tr :
  grants → test_persistq_append_and_read (S fuel) ta tr = Some (Ok tt).
Proof.
  intros Hg. unfold test_persistq_append_and_read.
  destruct (test_queue_opens "/tmp/dolda_test_persistq" (1024 * 1024) 2 Hg) as (q & Hnew & Hq & Hn & Hs); [lia|by vm_compute|lia|].
  rewrite Hnew.
  destruct (append_all_ok three_records fuel ta 0 (λ r, (0 <? ar_partition_id r) && (ar_partition_id r <=? 2)) q [] [] Hq)
    as (q' & rs & Ha & Ho & Hp & Hq' & Hc); [by vm_compute|rewrite Hs; by vm_compute| |].
  { intros r Hr. rewrite Hn in Hr. apply andb_true_iff. split; [apply Z.ltb_lt; lia|apply Z.leb_le; lia]. }
  rewrite Ha. cbn [mbind option_bind outcome_bind app]. f_equal.
  rewrite <- Hc in Hp. apply (read_all_ok tr _ q' three_records 0 0 rs Hq' three_records_nonempty Ho Hp).
  intros d r rec rest _ _ Hrec _. rewrite Hrec. apply begins_with_app.
Qed.

Lemma offset_mapping_passes fuel ta tr :
  grants → test_offset_mapping_correctness (S fuel) ta tr = Some (Ok tt).
Proof.
  intros Hg. unfold test_offset_mapping_correctness.
  destruct (test_queue_opens "/tmp/dolda_test_offset_mapping" (1024 * 1024) 4 Hg) as (q & Hnew & Hq & Hn & Hs); [lia|by vm_compute|lia|].
  rewrite Hnew.
  destruct (append_all_ok five_records fuel ta 0 (λ _, true) q [] [] Hq)
    as (q' & rs & Ha & Ho & Hp & Hq' & Hc); [by vm_compute|rewrite Hs; by vm_compute|done|].
  rewrite Ha. cbn [mbind option_bind outcome_bind app]. f_equal.
  rewrite <- Hc in Hp. apply (read_all_ok tr _ q' five_records 0 0 rs Hq' five_records_nonempty Ho Hp).
  intros d r rec rest Hin Hr Hrec Hpart. unfold reads_back. rewrite Hrec, slice_head by done.
  cbn [unwrap mbind outcome_bind]. rewrite Hpart, Hr, Z.eqb_refl.
  apply list_elem_of_fmap in Hin as (s & -> & Hs').
  rewrite from_utf8_lossy_ascii; [by rewrite bool_decide_eq_true_2|].
  clear Hpart Hr Hrec. revert s Hs'. apply Forall_forall. repeat constructor; by vm_compute.
Qed.

Lemma one_partition (ds : list bytes) : filter (λ d, route 1 d = 1) ds = ds.
Proof.
  induction ds as [|d ds IH]; [done|]. pose proof (route_range 1 d ltac:(lia)).
  by rewrite filter_cons, decide_True, IH by lia.
Qed.

Lemma rollover_passes fuel ta : grants → test_segment_rollover (S (S fuel)) ta = Some (Ok tt).
Proof.
  intros Hg. unfold test_segment_rollover.
  destruct (test_queue_opens "/tmp/dolda_test_rollover" 1024 1 Hg) as (q & Hnew & Hq & Hn & Hs); [lia|by vm_compute|lia|].
  rewrite Hnew.
  destruct (append_all_live (replicate 5 (replicate 512 x00)) fuel ta 0 q [] [] (queue_live_new q Hq))
    as (q' & rs & Ha & Hq' & Hc); [done| |intros path; rewrite Hs; by apply (gr_map Hg)|].
  { rewrite Hs. repeat constructor; by vm_compute. }
  rewrite Ha. cbn [mbind option_bind outcome_bind]. f_equal.
  destruct (qv_managers _ _ Hq' 1) as (m & Hm & Hl); [rewrite Hc, Hn; lia|]. rewrite Hm. cbn [unwrap mbind outcome_bind].
  rewrite (ql_count _ _ _ Hl), Hc, Hs, Hn. unfold lengths_of. rewrite one_partition. by vm_compute.
Qed.

Lemma segment_operations_passes : grants → test_segment_operations = Ok tt.
Proof.
  intros Hg. unfold test_segment_operations.
  destruct (Segment_new _ 1024) as [s|e|] eqn:Hnew;
    [|unfold Segment_new in Hnew; pose proof (gr_map Hg "/tmp/dolda_test_segment/test_segment.dat" 1024 ltac:(lia)); by destruct (os_map_file _ _)..].
  destruct (segment_new_qrepr _ 1024 _ ltac:(lia) Hnew) as [Hs Hmax]. cbn [unwrap_ok mbind outcome_bind].
  destruct (qappend_fits s [] (str_bytes "Hello, World!") Hs) as (s' & -> & Hs' & _); [rewrite Hmax; by vm_compute|].
  cbn [unwrap_ok mbind outcome_bind]. rewrite (qread_from s' [] _ Hs' : Segment_read s' 0 = _).
  unfold Segment_flush. rewrite (gr_flush Hg). by vm_compute.
Qed.

Lemma segment_manager_passes fuel : grants → test_segment_manager (S fuel) = Some (Ok tt).
Proof.
  intros Hg. unfold test_segment_manager.
  destruct (create_managers_ok 1 1024 "/tmp/dolda_test_manager") as [ms Hms];
    [intros path; by apply (gr_map Hg)|by rewrite (gr_dir Hg)|]. cbn [create_managers mbind outcome_bind] in Hms.
  destruct (QManager_new (Z.of_nat 1) 1024 "/tmp/dolda_test_manager") as [m| |] eqn:Hm; [|done..]. change (Z.of_nat 1) with 1 in Hm.
  rewrite Hm. pose proof (qmanager_new_repr 1 1024 _ m ltac:(lia) Hm) as Hr.
  destruct (qappend_one m 1024 [] (str_bytes "Test record") fuel Hr) as (m' & -> & [(s & Hsegs & Hs & _) _ _]); [by vm_compute|].
  cbn [mbind option_bind unwrap_ok outcome_bind]. unfold QManager_read. rewrite Hsegs. change (usize (len (@nil Byte.byte))) with (len (@nil Byte.byte)).
  rewrite (qread_from s [] _ Hs), (proj2 (Z.leb_gt _ _)) by (by vm_compute). by vm_compute.
Qed.

(** The sequential tests of the queue all pass on a machine that grants
    what they ask of it: an append needs one turn of the loop, or two when the
    segment is full, and what they compare of a read is what was appended. *)
Lemma queue_tests_pass fuel ta tr :
  grants →
  test_segment_operations = Ok tt ∧ test_segment_manager (S fuel) = Some (Ok tt) ∧
  test_persistq_config = Ok tt ∧ test_config_validation = Ok tt ∧
  test_persistq_append_and_read (S fuel) ta tr = Some (Ok tt) ∧
  test_offset_mapping_correctness (S fuel) ta tr = Some (Ok tt) ∧
  test_segment_rollover (S (S fuel)) ta = Some (Ok tt) ∧
  test_performance_framework = Ok tt.
Proof.
  intros Hg. split; [by apply segment_operations_passes|]. split; [by apply segment_manager_passes|].
  split; [by vm_compute|]. split; [by vm_compute|]. split; [by apply append_and_read_passes|].
  split; [by apply offset_mapping_passes|]. split; [by apply rollover_passes|]. by vm_compute.
Qed.

(** C21. The test with concurrent writers passes under every interleaving: as
    long as not all its appends have returned some writer can take a step, no
    run takes more than 4000 steps, and at the end of each the offsets are a
    thousand different ones. *)
Theorem concurrent_appends_test_passes q j c :
  let n := num_writers in let k := records_per_writer in
  PersistQ_new (test_config "/tmp/dolda_test_concurrent" (1024 * 1024) 4) = Ok q →
  nsteps (writers_step k) j (start_appends q (writers_data k n)) c →
  (concurrent_verdict k n c = Some (Ok tt) ∨ ∃ c', writers_step k c c') ∧ (j ≤ 4000)%nat.
Proof.
  intros n k Hnew Hsteps.
  destruct (queue_new_repr (test_config "/tmp/dolda_test_concurrent" (1024 * 1024) 4) q) as (Hq & Hn & Hs);
    [unfold in_range; cbn; lia..|done|].
  set (I c j := ∃ ws, queue_inv (num_partitions (pq_config q)) [] ws c ∧ length (qc_threads c) = (n * k)%nat ∧
    (total remaining (qc_threads c) + j = 4000)%nat).
  assert (I (start_appends q (writers_data k n)) 0%nat) as Hstart.
  { exists []. split; [apply queue_inv_start; [done|by vm_compute|]|split; by vm_compute].
    intros p _. pose proof (len_partition_content (num_partitions (pq_config q)) p (writers_data k n)) as Hl.
    rewrite Hs. eapply Z.le_trans; [exact Hl|]. by vm_compute. }
  assert (∀ i c1 c2 j, nsteps (writers_step k) i c1 c2 → I c1 j → I c2 (i + j)%nat) as Hpres.
  { clear. intros i. induction i as [|i IH]; intros c1 c2 j Hsteps HI; [by inversion Hsteps; subst|].
    apply nsteps_inv_r in Hsteps as (c & Hsteps & Hstep). destruct (IH _ _ j Hsteps HI) as (ws & Hinv & Hlen & Htot).
    destruct (writers_decrease _ _ _ _ _ _ Hinv Hstep) as [Hr Hl].
    destruct (queue_inv_step _ _ _ _ c2 Hinv) as [ws' Hinv']; [by destruct Hstep as (t & _ & Ht); exists t|].
    exists ws'. split; [done|]. lia. }
  destruct (Hpres _ _ _ 0%nat Hsteps Hstart) as (ws & Hinv & Hlen & Htot).
  split; [by eapply writers_progress|]. lia.
Qed.
End properties.

(** ** A machine that grants every mapping *)
Lemma sample_grants : grants.
Proof.
  split; try done. intros path size Hsize. cbn. by rewrite (proj2 (Z.ltb_ge _ _)) by lia.
Qed.

Lemma queue_tests_pass_witness : test_segment_rollover 2 ticks = Some (Ok tt) ∧ test_offset_mapping_correctness 1 ticks ticks = Some (Ok tt).
Proof.
  destruct (queue_tests_pass 0 ticks ticks sample_grants) as (_ & _ & _ & _ & _ & Hm & Hr & _). split; [exact Hr|exact Hm].
Defined.

Lemma concurrent_appends_test_passes_witness :
  ∃ q c, PersistQ_new (test_config "/tmp/dolda_test_concurrent" (1024 * 1024) 4) = Ok q ∧
    writers_step records_per_writer (start_appends q (writers_data records_per_writer num_writers)) c.
Proof.
  destruct (test_queue_opens "/tmp/dolda_test_concurrent" (1024 * 1024) 4 sample_grants) as (q & Hnew & _); [lia|by vm_compute|lia|].
  exists q.
  destruct (concurrent_appends_test_passes q 0 (start_appends q (writers_data records_per_writer num_writers)) Hnew (nsteps_O _ _))
    as [[Hv|[c Hc]] _]; [|by exists c]. exfalso. by vm_compute in Hv.
Defined.
