(* ===== verification/MailboxExample.v ===== *)
(** * The mailbox example (src/examples/mailbox_example.rs)

    The example's program as a client of the mailbox system, with the lines it
    prints that show what it received or counted; headings are left out.  Its
    third scenario ends it with an error, so the last three never run. *)

From stdpp Require Import base list numbers strings gmap pretty.
From S2P Require Import Prelude Crc32 F64 StorageEngine PersistQueue ByteQueue Mailboxes MailboxClients MailboxTests Utf8.
Local Open Scope Z_scope.
Local Open Scope client_scope.

(** ** Definitions *)

Definition from_line (m : Message) : string := "Received from: " +:+ as_str (msg_from m).
Definition body_line (what : string) (m : Message) : string := what +:+ from_utf8_lossy (msg_body m).

(** [while let Some(msg) = bob.receive().await?], with [k] after the loop; a loop
    of more than [fuel] messages is not followed further.
    Source: src/examples/mailbox_example.rs:95-102 (main, part) *)
Fixpoint read_all (fuel : nat) (bob : handle) (count : Z) (k : client (outcome MailboxError unit)) : client (outcome MailboxError unit) :=
  match fuel with
  | O => Done Panic
  | S fuel =>
      msg <-? CallReceive bob;
      match msg with
      | Some msg =>
          print ("Message " +:+ pretty count +:+ ": From=" +:+ as_str (msg_from msg) +:+ body_line ", Body=" msg)
            (read_all fuel bob (count + 1) k)
      | None => k
      end
  end.

(** The first two scenarios: an exchange and a reply.
    Source: src/examples/mailbox_example.rs:37-77 (main, part) *)
Definition exchanges (alice bob charlie : handle) (k : client (outcome MailboxError unit)) : client (outcome MailboxError unit) :=
  _ <-? CallSend alice "bob@dolda" (str_bytes "Hello Bob! How are you?");
  msg <-? CallReceive bob;
  msg <-some msg;
  print (from_line msg) (print (body_line "Body: " msg) (
  _ <-? CallSendSubject charlie "alice@dolda" "Meeting Request" (str_bytes "Can we meet tomorrow at 2pm?");
  msg <-? CallReceive alice;
  msg <-some msg;
  print (from_line msg) (
  subject <-some msg_subject msg;
  print ("Subject: " +:+ subject) (print (body_line "Body: " msg) (
  _ <-? CallReply alice msg (str_bytes "Yes, 2pm works great! See you then.");
  reply <-? CallReceive charlie;
  reply <-some reply;
  print (from_line reply) (
  subject <-some msg_subject reply;
  print ("Subject: " +:+ subject) (print (body_line "Body: " reply) k))))))).

(** The third: three messages for Bob, who reads them all.
    Source: src/examples/mailbox_example.rs:84-104 (main, part) *)
Definition multiple (fuel : nat) (alice bob charlie : handle) (k : client (outcome MailboxError unit)) : client (outcome MailboxError unit) :=
  _ <-? CallSend alice "bob@dolda" (str_bytes "Bob, can you review my code?");
  _ <-? CallSend charlie "bob@dolda" (str_bytes "Bob, lunch today?");
  _ <-? CallSend alice "bob@dolda" (str_bytes "Bob, meeting in 5 minutes!");
  pending <-- CallPending bob;
  print ("Bob's mailbox: " +:+ pretty pending +:+ " pending messages") (
  read_all fuel bob 1 (
  pending <-- CallPending bob;
  print ("Bob's mailbox: " +:+ pretty pending +:+ " pending messages (all read)") k)).

(** The fourth: peeking before receiving.
    Source: src/examples/mailbox_example.rs:111-128 (main, part) *)
Definition peeking (alice charlie : handle) (k : client (outcome MailboxError unit)) : client (outcome MailboxError unit) :=
  _ <-? CallSend alice "charlie@dolda" (str_bytes "Important notification!");
  msg <-? CallPeek charlie;
  msg <-some msg;
  print (body_line "Peeked: " msg) (
  pending <-- CallPending charlie;
  print ("Still pending: " +:+ pretty pending) (
  msg2 <-? CallPeek charlie;
  msg2 <-some msg2;
  print (body_line "Peeked: " msg2) (
  print ("Same message ID: " +:+ (if String.eqb (msg_id msg) (msg_id msg2) then "true" else "false")) (
  msg3 <-? CallReceive charlie;
  msg3 <-some msg3;
  print (body_line "Received: " msg3) (
  pending <-- CallPending charlie;
  print ("Pending after receive: " +:+ pretty pending) k))))).

(** The fifth: one text to two mailboxes.
    Source: src/examples/mailbox_example.rs:135-147 (main, part) *)
Definition broadcast (alice bob charlie : handle) (k : client (outcome MailboxError unit)) : client (outcome MailboxError unit) :=
  let announcement := str_bytes "Team meeting at 3pm in conference room!" in
  _ <-? CallSend alice "bob@dolda" announcement;
  _ <-? CallSend alice "charlie@dolda" announcement;
  msg <-? CallReceive bob;
  let rest :=
    msg <-? CallReceive charlie;
    match msg with Some msg => print (body_line "Charlie received: " msg) k | None => k end in
  match msg with Some msg => print (body_line "Bob received: " msg) rest | None => rest end.

(** The statistics at the end; addresses and entries come in the order of the
    sets' elements.
    Source: src/examples/mailbox_example.rs:154-164 (main, part) *)
Definition statistics (k : client (outcome MailboxError unit)) : client (outcome MailboxError unit) :=
  mailboxes <-- CallList;
  print ("Total mailboxes: " +:+ pretty (Z.of_nat (size mailboxes))) (
  foldr (λ a k, print ("- " +:+ a) k) (
    stats <-- CallStats;
    foldr (λ '(a, stat) k, print (a +:+ ": " +:+ pretty (total_messages stat) +:+ " total messages") k) k (map_to_list stats))
    (elements mailboxes)).

(** Source: src/examples/mailbox_example.rs:13-174 (main) *)
Definition mailbox_example (fuel : nat) : client (outcome MailboxError unit) :=
  alice <-? CallCreate "alice@dolda";
  bob <-? CallCreate "bob@dolda";
  charlie <-? CallCreate "charlie@dolda";
  exchanges alice bob charlie (
  multiple fuel alice bob charlie (
  peeking alice charlie (
  broadcast alice bob charlie (
  statistics (Done (Ok tt)))))).

(** ** What it prints *)
Section example.
Context `{MessageCodec}.
Context (ids : nat → string) (clock : nat → Z).

(** The six messages that are sent. *)
Definition example_messages : list Message :=
  [test_message ids clock 0 "alice@dolda" "bob@dolda" "Hello Bob! How are you?";
   with_subject (test_message ids clock 1 "charlie@dolda" "alice@dolda" "Can we meet tomorrow at 2pm?") "Meeting Request";
   with_subject (test_message ids clock 2 "alice@dolda" "charlie@dolda" "Yes, 2pm works great! See you then.") "Re: Meeting Request";
   test_message ids clock 3 "alice@dolda" "bob@dolda" "Bob, can you review my code?";
   test_message ids clock 4 "charlie@dolda" "bob@dolda" "Bob, lunch today?";
   test_message ids clock 5 "alice@dolda" "bob@dolda" "Bob, meeting in 5 minutes!"].

Definition example_lines : list string :=
  ["Received from: alice@dolda"; "Body: Hello Bob! How are you?";
   "Received from: charlie@dolda"; "Subject: Meeting Request"; "Body: Can we meet tomorrow at 2pm?";
   "Received from: alice@dolda"; "Subject: Re: Meeting Request"; "Body: Yes, 2pm works great! See you then.";
   "Bob's mailbox: 1 pending messages"].

Lemma example_spec fuel : ∃ t,
  spec_run test_address ids clock (mailbox_example (S fuel)) (mkTable [] [] [] 0 []) =
    Some (t, Err (Serialization (garbled (drop 3 example_messages)))) ∧
  t_sent t = example_messages ∧ t_out t = example_lines ∧
  assoc "bob@dolda" (t_boxes t) = Some (filter (λ m, as_str (msg_to m) = "bob@dolda") example_messages).
Proof.
  eexists. unfold mailbox_example, exchanges, multiple. client_run. cbn [read_all]. client_run. split_and!; reflexivity.
Qed.
End example.

(** ** Property *)
Section example_property.
Context `{ByteQueueOk} `{MessageCodecOk} `{Os}.

(** The example does not reach its end: once three messages wait for Bob it
    counts one, the first [receive] of the loop that reads them all fails to
    deserialize, and the program returns that error; what it has printed is the
    first two scenarios and that count, and peeking, broadcast and statistics
    never run.  The messages are all in Bob's mailbox. *)
Lemma mailbox_example_fails ids clock sys fuel :
  mailboxes sys = ∅ → opens test_address sys → roomy →
  Forall (λ m, sendable m = true) (example_messages ids clock) →
  ∃ w e, run 0 ids clock (mailbox_example (S fuel)) (mkWorld sys [] 0 []) = Some (w, Err (Serialization e)) ∧
    w_out w = example_lines ∧
    ∃ q, mailboxes (w_sys w) !! ("bob@dolda" : string) = Some q ∧
      box_repr q (filter (λ m, as_str (msg_to m) = "bob@dolda") (example_messages ids clock)).
Proof.
  intros Hs Ho Hroom Hm. destruct (example_spec ids clock fuel) as (t & Hrun & Hsent & Hout & Hbox).
  rewrite <- Hsent in Hm.
  destruct (client_run_refines test_address 0 ids clock _ (mkWorld sys [] 0 []) _ t _ Hroom
    (fresh_world_repr test_address sys Hs Ho) Hrun Hm) as (w & Hw & Hr).
  eexists w, _. split; [exact Hw|]. split; [by rewrite (wr_out _ _ _ Hr)|].
  exact (box_lookup test_address w t _ _ Hr Hbox).
Qed.
End example_property.

(** ** A concrete machine *)
#[local] Existing Instances digit_codec digit_codec_ok persistq_queue mailbox_queues.

Lemma mailbox_example_fails_witness :
  ∃ w e, run 0 numbered Z.of_nat (mailbox_example 10) (mkWorld new_system [] 0 []) = Some (w, Err (Serialization e)) ∧
    w_out w = example_lines.
Proof.
  destruct (new_system_opens test_address) as [He Ho].
  { intros a [[Ha|Ha]%orb_true_iff|Ha]%orb_true_iff; apply String.eqb_eq in Ha as ->; vm_compute; reflexivity. }
  destruct (mailbox_example_fails numbered Z.of_nat new_system 9) as (w & e & Hw & Hout & _);
    [exact He|exact Ho|exact persistq_roomy|by repeat constructor; vm_compute|].
  exists w, e. split; [exact Hw|exact Hout].
Defined.
