(* ===== verification/NetworkExample.v ===== *)
(** * The network example and test (src/examples/mailbox_network_example.rs, [mod tests] of src/src/mailbox_network.rs)

    Both as remote clients, with the lines the example prints of what it
    received; headings and the measured times are left out.  Both send to a
    mailbox that nobody has created, so both fail at their first [receive]. *)

From stdpp Require Import base list numbers strings gmap pretty.
From S2P Require Import Prelude Crc32 F64 StorageEngine PersistQueue ByteQueue Network Mailboxes MailboxClients MailboxTests MailboxNetwork NetworkClients Utf8.
Local Open Scope Z_scope.
Local Open Scope remote_scope.

(** ** Definitions *)
Abbreviation program := (remote (outcome MailNetError unit)).

Definition tcp_config : NetworkConfig :=
  mkNetConfig "127.0.0.1" 19090 Tcp (max_message_size NetworkConfig_default) (nc_timeout_ms NetworkConfig_default).

(** Source: src/src/mailbox_network.rs:566-608 (tests::test_tcp_server) *)
Definition test_tcp_server : program :=
  _ <-! NetStart tcp_config;
  _ <-! NetSend Tcp "bob@dolda" "alice@dolda" (str_bytes "Hello!") None;
  msg <-! NetReceive Tcp "bob@dolda";
  match msg with
  | Some msg => if bool_decide (md_body msg = str_bytes "Hello!") then Finish (Ok tt) else Finish Panic
  | None => Finish Panic
  end.

Definition body_line (what : string) (msg : MessageData) : string := what +:+ from_utf8_lossy (md_body msg).

(** The second scenario: a message over TCP.
    Source: src/examples/mailbox_network_example.rs:70-87 (main, part) *)
Definition over_tcp (k : program) : program :=
  _ <-? NetSend Tcp "bob@dolda" "alice@dolda" (str_bytes "Hello Bob from remote Alice via TCP!") None;
  msg <-? NetReceive Tcp "bob@dolda";
  match msg with
  | Some msg =>
      net_print ("   From: " +:+ md_from msg) (net_print ("   To: " +:+ md_to msg) (
      net_print (body_line "   Body: " msg) (net_print ("   ID: " +:+ md_id msg) k)))
  | None => k
  end.

(** The third: a message with a subject.
    Source: src/examples/mailbox_network_example.rs:94-108 (main, part) *)
Definition with_a_subject (k : program) : program :=
  _ <-? NetSend Tcp "charlie@dolda" "alice@dolda" (str_bytes "Can we meet tomorrow at 2pm?") (Some "Meeting Request"%string);
  msg <-? NetReceive Tcp "charlie@dolda";
  match msg with
  | Some msg =>
      net_print ("   From: " +:+ md_from msg) (
      net_print ("   Subject: " +:+ default "None" (md_subject msg)) (net_print (body_line "   Body: " msg) k))
  | None => k
  end.

(** The fourth: a second system on the same directory and a UDP server over it.
    Source: src/examples/mailbox_network_example.rs:115-157 (main, part) *)
Definition over_udp (k : program) : program :=
  _ <-? NetStart udp_config;
  _ <-? NetSend Udp "bob@dolda" "alice@dolda" (str_bytes "Fast message via UDP!") None;
  msg <-? NetReceive Udp "bob@dolda";
  match msg with
  | Some msg => net_print "   Protocol: UDP (low latency)" (net_print (body_line "   Body: " msg) k)
  | None => k
  end.

(** The fifth: five messages and five receives.
    Source: src/examples/mailbox_network_example.rs:164-179 (main, part) *)
Definition five_messages (k : program) : program :=
  foldr (λ i k, _ <-? NetSend Tcp "inbox@dolda" "sender@dolda" (str_bytes ("Message number " +:+ pretty i)) None; k)
    (foldr (λ i k,
        msg <-? NetReceive Tcp "inbox@dolda";
        match msg with
        | Some msg => net_print (body_line ("   Message " +:+ pretty i +:+ ": ") msg) k
        | None => k
        end) k [1; 2; 3; 4; 5])
    [1; 2; 3; 4; 5].

(** The sixth: a round trip over each protocol.
    Source: src/examples/mailbox_network_example.rs:186-198 (main, part) *)
Definition round_trips (k : program) : program :=
  _ <-? NetSend Tcp "perf@dolda" "test@dolda" (str_bytes "test") None;
  _ <-? NetReceive Tcp "perf@dolda";
  _ <-? NetSend Udp "perf@dolda" "test@dolda" (str_bytes "test") None;
  _ <-? NetReceive Udp "perf@dolda";
  k.

(** Source: src/examples/mailbox_network_example.rs:19-214 (main) *)
Definition network_example : program :=
  _ <-? NetStart tcp_config;
  over_tcp (with_a_subject (over_udp (five_messages (round_trips (Finish (Ok tt)))))).

(** ** What they do *)

(** The requests and answers of sending [body] to Bob and receiving for him. *)
Definition lost_mail (body : string) : list NetworkMessage :=
  [Send "bob@dolda" "alice@dolda" (str_bytes body) None;
   ErrorMessage "Failed to send: Mailbox not found: bob@dolda";
   Receive "bob@dolda";
   ErrorMessage "Failed to receive: PersistQ error: Global offset 0 not found"].
Definition no_mail_for_bob : MailNetError :=
  MnMailbox (MailboxNotFound "Failed to receive: PersistQ error: Global offset 0 not found").

Section example.
Context `{MessageCodec}.
Context (ids : nat → string) (clock : nat → Z).

(** Two mailboxes, both empty, and no message. *)
Definition lost (body : string) (r : outcome MailNetError unit) (o : option (NetTable * outcome MailNetError unit)) : Prop :=
  ∃ t h, o = Some (t, r) ∧ nt_server t = Some (Tcp, h) ∧ nt_out t = [] ∧ nt_wire t = lost_mail body ∧
    t_boxes (nt_table t) = [("alice@dolda", []); ("bob@dolda", [])]%string ∧ t_sent (nt_table t) = [].

Lemma test_spec : lost "Hello!" Panic (spec_net_run test_address ids clock test_tcp_server no_server).
Proof. unfold test_tcp_server, lost. net_run. by eexists _, _. Qed.

Lemma network_example_spec :
  lost "Hello Bob from remote Alice via TCP!" (Err no_mail_for_bob) (spec_net_run test_address ids clock network_example no_server).
Proof. unfold network_example, over_tcp, lost. net_run. by eexists _, _. Qed.
End example.

(** ** Property *)
Section example_property.
Context `{ByteQueueOk} `{MessageCodecOk} `{Os} `{BincodeOk}.

(** Neither delivers anything. *)
Definition nothing_delivered (o : option (NetWorld * outcome MailNetError unit)) (r : outcome MailNetError unit) : Prop :=
  ∃ w s, o = Some (w, r) ∧ nw_out w = [] ∧ nw_tcp w = Some s ∧
    ∀ a, a ∈ ["alice@dolda"; "bob@dolda"]%string → ∃ q, mailboxes (ms_system s) !! a = Some q ∧ box_repr q [].

Lemma lost_delivers_nothing dir fuel ids clock (c : program) body r :
  roomy → hosted test_address dir → Forall (λ m, on_wire m = true) (lost_mail body) →
  lost body r (spec_net_run test_address ids clock c no_server) →
  nothing_delivered (run_net dir fuel ids clock c no_servers) r.
Proof.
  intros Hroom Hhosted Hwire (t & h & Hrun & Hserver & Hout & Hw & Hboxes & Hsent). rewrite <- Hw in Hwire.
  destruct (net_run_refines test_address dir fuel ids clock c _ _ t r Hroom Hhosted (no_servers_repr test_address) Hrun ltac:(by rewrite Hsent) Hwire)
    as (w & Hr & [Hs _ Ho]).
  rewrite Hserver in Hs. destruct Hs as (s & W & Hs & Hserves & Hrepr & _). exists w, s. split_and!; [done|by rewrite Ho|done|].
  intros a Ha. rewrite (sv_system _ _ _ Hserves). eapply box_lookup; [done|]. rewrite Hboxes.
  apply elem_of_cons in Ha as [->|[->|[]%not_elem_of_nil]%elem_of_cons]; done.
Qed.

(** Mail to a mailbox that nobody has created is lost without an error: the
    example's first [send] to Bob returns success although the server refused
    it, the [receive] after it creates Bob's mailbox and fails because it is
    empty, and the example ends with that error before it has printed a received
    message; the module's own test panics at the same place. *)
Lemma network_example_loses_mail dir fuel ids clock :
  roomy → hosted test_address dir →
  (∀ body, body ∈ ["Hello!"; "Hello Bob from remote Alice via TCP!"]%string → Forall (λ m, on_wire m = true) (lost_mail body)) →
  nothing_delivered (run_net dir fuel ids clock network_example no_servers) (Err no_mail_for_bob) ∧
  nothing_delivered (run_net dir fuel ids clock test_tcp_server no_servers) Panic.
Proof.
  intros Hroom Hhosted Hwire. split.
  - eapply lost_delivers_nothing; [done|done| |apply network_example_spec]. apply Hwire. set_solver.
  - eapply lost_delivers_nothing; [done|done| |apply test_spec]. apply Hwire. set_solver.
Qed.
End example_property.

(** ** A concrete machine *)
#[local] Existing Instances digit_codec digit_codec_ok persistq_queue mailbox_queues digit_bincode digit_bincode_ok.

Lemma network_example_loses_mail_witness :
  nothing_delivered (run_net "/data" 0 numbered Z.of_nat network_example no_servers) (Err no_mail_for_bob).
Proof.
  refine (proj1 (network_example_loses_mail "/data" 0 numbered Z.of_nat persistq_roomy _ _)).
  - apply new_system_hosted. intros a [[Ha|Ha]%orb_true_iff|Ha]%orb_true_iff; apply String.eqb_eq in Ha as ->; vm_compute; reflexivity.
  - intros body [->|[->|[]%not_elem_of_nil]%elem_of_cons]%elem_of_cons; by repeat constructor; vm_compute.
Defined.
