(* ===== verification/ServiceTests.v ===== *)
(** * Tests of the services between nodes

    The [mod tests] of src/src/network.rs, src/src/raft.rs,
    src/src/resilience.rs and src/src/health.rs, and when they pass: three
    depend on the clock, the others pass on every machine. *)

From stdpp Require Import base list numbers strings gmap.
From coqutil Require Import Byte.
From S2P Require Import Prelude F64 Crc32 StorageEngine PersistQueue Network Raft Resilience Health.
Local Open Scope Z_scope.

(** ** Definitions *)

(** [assert_eq!]. *)
Definition assert_eq {A} `{EqDecision A} (x y : A) : verdict := assert_that (bool_decide (x = y)).
(** [assert!(matches!(r, Err(..)))]. *)
Definition assert_err {E A} (r : outcome E A) (p : E → bool) : verdict :=
  assert_that (match r with Err e => p e | _ => false end).

#[export] Instance CircuitState_eq_dec : EqDecision CircuitState.
Proof. solve_decision. Defined.

(** *** The protocol *)

(** Source: src/src/network.rs:398-409 (tests::test_message_header_roundtrip) *)
Definition test_message_header_roundtrip : verdict :=
  let header := MessageHeader_new Ping 100 42 in
  decoded ← unwrap_ok (header_from_bytes (header_to_bytes header));
  _ ← assert_eq (hd_magic decoded) PROTOCOL_MAGIC;
  _ ← assert_eq (hd_version decoded) PROTOCOL_VERSION;
  _ ← assert_eq (hd_msg_type decoded) Ping;
  _ ← assert_eq (hd_payload_len decoded) 100;
  assert_eq (hd_request_id decoded) 42.

(** Source: src/src/network.rs:411-419 (tests::test_message_serialization) *)
Definition test_message_serialization : verdict :=
  let payload := map byte.of_Z [1; 2; 3; 4; 5] in
  let bs := message_to_bytes (Message_new AppendRequest payload 123) in
  _ ← assert_eq (len bs) (HEADER_SIZE + len payload);
  assert_eq (slice bs 0 4) (Some (to_be_bytes 4 PROTOCOL_MAGIC)).

(** Twenty bytes that start with [l]. *)
Definition header_starting (l : bytes) : bytes := l ++ replicate (Z.to_nat (HEADER_SIZE - len l)) (byte.of_Z 0).

(** Source: src/src/network.rs:421-428 (tests::test_invalid_magic) *)
Definition test_invalid_magic : verdict :=
  assert_err (header_from_bytes (header_starting (to_be_bytes 4 0xDEADBEEF)))
    (λ e, match e with InvalidMessage _ => true | _ => false end).

(** Source: src/src/network.rs:430-438 (tests::test_unsupported_version) *)
Definition test_unsupported_version : verdict :=
  assert_err (header_from_bytes (header_starting (to_be_bytes 4 PROTOCOL_MAGIC ++ to_be_bytes 2 999)))
    (λ e, match e with UnsupportedVersion v => v =? 999 | _ => false end).

(** Source: src/src/network.rs:440-447 (tests::test_connection_pool) *)
Definition test_connection_pool : verdict := assert_eq (connection_count ConnectionPool_new) 0%nat.

(** *** Elections; [now] are the clock readings. *)

(** A configuration with the defaults for the timers. *)
Definition raft_config (node_id : Z) (nodes : list Z) : RaftConfig :=
  mkRaftConfig node_id nodes (election_timeout_min RaftConfig_default) (election_timeout_max RaftConfig_default)
    (heartbeat_interval RaftConfig_default).

(** Source: src/src/raft.rs:535-548 (tests::test_node_creation) *)
Definition test_node_creation (now : nat → Z) : verdict :=
  let node := RaftNode_new (raft_config 1 [1; 2; 3]) (now 0%nat) in
  _ ← assert_eq (state node) Follower;
  _ ← assert_eq (term node) 0;
  _ ← assert_eq (leader node) None;
  assert_that (negb (is_leader node)).

(** Source: src/src/raft.rs:550-563 (tests::test_term_management) *)
Definition test_term_management (now : nat → Z) : verdict :=
  let node := RaftNode_new RaftConfig_default (now 0%nat) in
  _ ← assert_eq (get_term node) 0;
  let '(node, new_term) := increment_term node in
  _ ← assert_eq new_term 1;
  _ ← assert_eq (get_term node) 1;
  assert_eq (get_term (set_term node 5)) 5.

(** Source: src/src/raft.rs:565-595 (tests::test_vote_handling) *)
Definition test_vote_handling (now : nat → Z) : verdict :=
  let node := RaftNode_new (raft_config 1 []) (now 0%nat) in
  let '(node, response1) := handle_vote_request node (now 1%nat) (mkVoteRequest 1 2 0 0) in
  _ ← assert_that (vs_vote_granted response1);
  _ ← assert_eq (vs_term response1) 1;
  let '(node, response2) := handle_vote_request node (now 2%nat) (mkVoteRequest 1 3 0 0) in
  assert_that (negb (vs_vote_granted response2)).

(** Source: src/src/raft.rs:597-614 (tests::test_heartbeat_handling) *)
Definition test_heartbeat_handling (now : nat → Z) : verdict :=
  let node := RaftNode_new (raft_config 1 []) (now 0%nat) in
  let '(node, response) := handle_heartbeat node (now 1%nat) (mkHeartbeat 1 2) in
  _ ← assert_that (hr_success response);
  _ ← assert_eq (hr_term response) 1;
  assert_eq (leader node) (Some 2).

(** Source: src/src/raft.rs:616-635 (tests::test_stale_term_rejection) *)
Definition test_stale_term_rejection (now : nat → Z) : verdict :=
  let node := set_term (RaftNode_new RaftConfig_default (now 0%nat)) 5 in
  let '(node, response) := handle_vote_request node (now 1%nat) (mkVoteRequest 3 2 0 0) in
  _ ← assert_that (negb (vs_vote_granted response));
  assert_eq (vs_term response) 5.

(** Source: src/src/raft.rs:637-649 (tests::test_state_transitions) *)
Definition test_state_transitions (now : nat → Z) : verdict :=
  let node := RaftNode_new RaftConfig_default (now 0%nat) in
  _ ← assert_eq (get_state node) Follower;
  let node := set_state node Candidate in
  _ ← assert_eq (get_state node) Candidate;
  assert_eq (get_state (set_state node Leader)) Leader.

(** *** Resilience *)

Definition breaker_config (failures successes : Z) (timeout : Z) : CircuitBreakerConfig :=
  mkBreakerConfig failures successes timeout (window_size CircuitBreakerConfig_default).

(** Source: src/src/resilience.rs:314-337 (tests::test_circuit_breaker_closed_to_open) *)
Definition test_circuit_breaker_closed_to_open (now : nat → Z) : verdict :=
  let breaker := CircuitBreaker_new
    (breaker_config 3 (success_threshold CircuitBreakerConfig_default) (timeout CircuitBreakerConfig_default)) (now 0%nat) in
  _ ← assert_eq (breaker_state breaker) Closed;
  let '(breaker, r) := can_proceed breaker (now 1%nat) in
  _ ← assert_that (is_ok r);
  let breaker := record_failure breaker (now 2%nat) in
  _ ← assert_eq (breaker_state breaker) Closed;
  let breaker := record_failure breaker (now 3%nat) in
  _ ← assert_eq (breaker_state breaker) Closed;
  let breaker := record_failure breaker (now 4%nat) in
  _ ← assert_eq (breaker_state breaker) Open;
  let '(breaker, r) := can_proceed breaker (now 5%nat) in
  assert_that (is_err r).

(** Source: src/src/resilience.rs:339-367 (tests::test_circuit_breaker_half_open_to_closed) *)
Definition test_circuit_breaker_half_open_to_closed (now : nat → Z) : verdict :=
  let breaker := CircuitBreaker_new (breaker_config 2 2 (10 * 1000000)) (now 0%nat) in
  let breaker := record_failure breaker (now 1%nat) in
  let breaker := record_failure breaker (now 2%nat) in
  _ ← assert_eq (breaker_state breaker) Open;
  let '(breaker, r) := can_proceed breaker (now 3%nat) in
  _ ← assert_that (is_ok r);
  _ ← assert_eq (breaker_state breaker) HalfOpen;
  let breaker := record_success breaker (now 4%nat) in
  _ ← assert_eq (breaker_state breaker) HalfOpen;
  let breaker := record_success breaker (now 5%nat) in
  assert_eq (breaker_state breaker) Closed.

Definition retry_config (retries : Z) : RetryConfig :=
  mkRetry retries (10 * 1000000) (100 * 1000000) (f64_of_int 2).

(** The state of the operation is the shared counter.
    Source: src/src/resilience.rs:369-394 (tests::test_retry_with_backoff_success) *)
Definition test_retry_with_backoff_success (fuel : nat) : option verdict :=
  '(st, result) ← retry_with_backoff
    (λ count : Z, (usize (count + 1), if count <? 2 then Err "Not yet"%string else Ok 42)) fuel (retry_config 3) 0;
  Some (_ ← assert_that (is_ok result);
        result ← unwrap_ok result;
        _ ← assert_eq result 42;
        assert_eq (rt_op st) 3).

(** Source: src/src/resilience.rs:396-417 (tests::test_retry_with_backoff_failure) *)
Definition test_retry_with_backoff_failure (fuel : nat) : option verdict :=
  '(st, result) ← retry_with_backoff
    (λ count : Z, (usize (count + 1), (Err "Always fails"%string : outcome string Z))) fuel (retry_config 2) 0;
  Some (_ ← assert_that (is_err result); assert_eq (rt_op st) 3).

(** What the timer reports of a task that takes [took]. *)
Definition finishes {T} (duration took : Z) (output : T) : option T := if took <? duration then Some output else None.

(** [took] is the time the task takes, at least the ten milliseconds it sleeps.
    Source: src/src/resilience.rs:419-429 (tests::test_with_timeout_success) *)
Definition test_with_timeout_success (took : Z) : verdict :=
  let result := with_timeout (1000 * 1000000) (finishes (1000 * 1000000) took 42) in
  _ ← assert_that (is_ok result);
  result ← unwrap_ok result;
  assert_eq result 42.

(** [took] is at least the second the task sleeps.
    Source: src/src/resilience.rs:431-440 (tests::test_with_timeout_failure) *)
Definition test_with_timeout_failure (took : Z) : verdict :=
  assert_that (is_err (with_timeout (10 * 1000000) (finishes (10 * 1000000) took 42))).

(** Source: src/src/resilience.rs:442-455 (tests::test_with_fallback) *)
Definition test_with_fallback : verdict :=
  let '(_, result) := with_fallback (λ s : unit, (s, (Ok 42 : outcome string Z))) (λ s, (s, Ok 0)) tt in
  result ← unwrap_ok result;
  _ ← assert_eq result 42;
  let '(_, result) := with_fallback (λ s : unit, (s, (Err "Primary failed"%string : outcome string Z))) (λ s, (s, Ok 99)) tt in
  result ← unwrap_ok result;
  assert_eq result 99.

(** *** Health reports; [now] and [uptime] are the clock's. *)

(** Source: src/src/health.rs:313-319 (tests::test_health_status) *)
Definition test_health_status : verdict :=
  _ ← assert_that (is_healthy Healthy);
  _ ← assert_that (negb (is_healthy Unhealthy));
  _ ← assert_eq (http_code Healthy) 200;
  assert_eq (http_code Unhealthy) 503.

(** The component at a place; [components[i]] panics without one. *)
Definition component_at (health : SystemHealth) (i : nat) : outcome string ComponentHealth := unwrap (sh_components health !! i).

(** Source: src/src/health.rs:321-329 (tests::test_component_registration) *)
Definition test_component_registration (now : nat → Z) (uptime : Z) : verdict :=
  let server := register_component (HealthServer_new (now 0%nat) "1.0.0") "test" in
  let health := get_health uptime server in
  _ ← assert_eq (len (sh_components health)) 1;
  c ← component_at health 0;
  assert_eq (ch_name c) "test"%string.

(** Source: src/src/health.rs:331-340 (tests::test_component_update) *)
Definition test_component_update (now : nat → Z) (uptime : Z) : verdict :=
  let server := register_component (HealthServer_new (now 0%nat) "1.0.0") "test" in
  let server := update_component (now 1%nat) server "test" Healthy "All good" in
  c ← component_at (get_health uptime server) 0;
  _ ← assert_eq (ch_status c) Healthy;
  assert_eq (ch_message c) "All good"%string.

(** Source: src/src/health.rs:342-354 (tests::test_system_health_aggregation) *)
Definition test_system_health_aggregation (now : nat → Z) (uptime : Z) : verdict :=
  let server := HealthServer_new (now 0%nat) "1.0.0" in
  let server := register_component (register_component server "comp1") "comp2" in
  let server := update_component (now 1%nat) server "comp1" Healthy "Good" in
  let server := update_component (now 2%nat) server "comp2" Degraded "Slow" in
  assert_eq (sh_status (get_health uptime server)) Degraded.

(** Source: src/src/health.rs:356-364 (tests::test_http_parsing) *)
Definition test_http_parsing (to_string_pretty : SystemHealth → option string) (now : nat → Z) (uptime : Z) : verdict :=
  let server := HealthServer_new (now 0%nat) "1.0.0" in
  let request := "GET /health HTTP/1.1" +:+ crlf +:+ "Host: localhost" +:+ crlf +:+ crlf in
  let response := handle_request to_string_pretty uptime server (str_bytes request) in
  _ ← assert_that (str_contains "200 OK" response);
  assert_that (str_contains "alive" response).

(** ** Verdicts *)

Lemma network_tests_pass :
  test_message_header_roundtrip = Ok tt ∧ test_message_serialization = Ok tt ∧ test_invalid_magic = Ok tt ∧
  test_unsupported_version = Ok tt ∧ test_connection_pool = Ok tt.
Proof. split_and!; vm_compute; reflexivity. Qed.

Lemma raft_tests_pass now :
  test_node_creation now = Ok tt ∧ test_term_management now = Ok tt ∧ test_vote_handling now = Ok tt ∧
  test_heartbeat_handling now = Ok tt ∧ test_stale_term_rejection now = Ok tt ∧ test_state_transitions now = Ok tt.
Proof. split_and!; vm_compute; reflexivity. Qed.

Lemma retry_tests_pass fuel :
  test_retry_with_backoff_success (S (S (S fuel))) = Some (Ok tt) ∧
  test_retry_with_backoff_failure (S (S (S fuel))) = Some (Ok tt) ∧ test_with_fallback = Ok tt.
Proof. split_and!; vm_compute; reflexivity. Qed.

Lemma health_tests_pass to_string_pretty now uptime :
  test_health_status = Ok tt ∧ test_component_registration now uptime = Ok tt ∧ test_component_update now uptime = Ok tt ∧
  test_system_health_aggregation now uptime = Ok tt ∧ test_http_parsing to_string_pretty now uptime = Ok tt.
Proof. split_and!; vm_compute; reflexivity. Qed.

(** The breaker's tests look at the clock twice: when it opens, and after. *)
Lemma breaker_opens_verdict now :
  test_circuit_breaker_closed_to_open now =
    assert_that (saturating_sub (now 5%nat) (now 4%nat) <? timeout CircuitBreakerConfig_default).
Proof.
  transitivity (let '(_, r) := can_proceed (mkBreaker Open 3 0 (now 4%nat)
    (breaker_config 3 (success_threshold CircuitBreakerConfig_default) (timeout CircuitBreakerConfig_default))) (now 5%nat) in
    assert_that (is_err r)); [vm_compute; reflexivity|].
  unfold can_proceed. cbn [cb_state cb_config last_state_change timeout breaker_config]. rewrite Z.ltb_antisym. by destruct (_ <=? _).
Qed.
Lemma breaker_closes_verdict now :
  test_circuit_breaker_half_open_to_closed now = assert_that (10 * 1000000 <=? saturating_sub (now 3%nat) (now 2%nat)).
Proof.
  unfold test_circuit_breaker_half_open_to_closed. cbv zeta.
  assert (record_failure (record_failure (CircuitBreaker_new (breaker_config 2 2 (10 * 1000000)) (now 0%nat)) (now 1%nat)) (now 2%nat) =
    mkBreaker Open 2 0 (now 2%nat) (breaker_config 2 2 (10 * 1000000))) as -> by (vm_compute; reflexivity).
  unfold can_proceed. cbn [cb_state cb_config last_state_change timeout breaker_config].
  destruct (_ <=? _); vm_compute; reflexivity.
Qed.

(** The tests of the services pass: those of the protocol, of elections, of
    retries and of health reports on every machine; the breaker's exactly when
    less than a minute, and at least ten milliseconds, pass between its
    opening and the next call; the two of the timeout exactly when the short
    task takes less than a second and the long one at least ten milliseconds. *)
Lemma service_tests_verdicts to_string_pretty now uptime took fuel :
  (test_message_header_roundtrip = Ok tt ∧ test_message_serialization = Ok tt ∧ test_invalid_magic = Ok tt ∧
   test_unsupported_version = Ok tt ∧ test_connection_pool = Ok tt) ∧
  (test_node_creation now = Ok tt ∧ test_term_management now = Ok tt ∧ test_vote_handling now = Ok tt ∧
   test_heartbeat_handling now = Ok tt ∧ test_stale_term_rejection now = Ok tt ∧ test_state_transitions now = Ok tt) ∧
  (test_health_status = Ok tt ∧ test_component_registration now uptime = Ok tt ∧ test_component_update now uptime = Ok tt ∧
   test_system_health_aggregation now uptime = Ok tt ∧ test_http_parsing to_string_pretty now uptime = Ok tt) ∧
  (test_retry_with_backoff_success (S (S (S fuel))) = Some (Ok tt) ∧
   test_retry_with_backoff_failure (S (S (S fuel))) = Some (Ok tt) ∧ test_with_fallback = Ok tt) ∧
  test_circuit_breaker_closed_to_open now = assert_that (saturating_sub (now 5%nat) (now 4%nat) <? 60 * 1000000000) ∧
  test_circuit_breaker_half_open_to_closed now = assert_that (10 * 1000000 <=? saturating_sub (now 3%nat) (now 2%nat)) ∧
  test_with_timeout_success took = assert_that (took <? 1000 * 1000000) ∧
  test_with_timeout_failure took = assert_that (10 * 1000000 <=? took).
Proof.
  split; [apply network_tests_pass|]. split; [apply raft_tests_pass|]. split; [apply health_tests_pass|]. split; [apply retry_tests_pass|].
  split; [apply breaker_opens_verdict|]. split; [apply breaker_closes_verdict|].
  unfold test_with_timeout_success, test_with_timeout_failure, finishes. rewrite (Z.leb_antisym took).
  split; [by destruct (took <? _)|by destruct (took <? _)].
Qed.
