(* ===== verification/SqlLayer.v ===== *)
(** * The SQL layer (src/src/datafusion_layer.rs)

    Tables over a segment manager, the conversion of records to columns, and the
    builder of tables with other schemas.  Arrow (arrays and batches) and
    DataFusion (sessions, plans, SQL) are interfaces; what the file itself does
    with them is modelled. *)

From stdpp Require Import base list numbers strings.
From Stdlib Require Import Morphisms Setoid.
From S2P Require Import Prelude Crc32 RecordFormat F64 StorageEngine Utf8.
Local Open Scope Z_scope.

(** ** Definitions *)

(** A column's name, type and whether it may hold nulls, and a schema. *)
Record Field (T : Type) := mkField { field_name : string; field_type : T; field_nullable : bool }.
Arguments mkField {_} _ _ _.
Arguments field_name {_} _.
Arguments field_type {_} _.
Arguments field_nullable {_} _.

(** The arrays the file makes, none with a null in it. *)
Inductive column :=
  | StringArray (l : list string)
  | TimestampMicrosecondArray (l : list Z)
  | UInt64Array (l : list Z).
Definition column_len (c : column) : Z :=
  match c with StringArray l => len l | TimestampMicrosecondArray l => len l | UInt64Array l => len l end.

(** Arrow's types and batches: [RecordBatch::try_new] and [new_empty]. *)
Class Arrow := {
  DataType : Type;
  DataType_eq_dec :: EqDecision DataType;
  Utf8 : DataType;
  TimestampMicrosecond : DataType;
  UInt64 : DataType;
  Int64 : DataType;
  ArrowError : Type;
  RecordBatch : Type;
  batch_schema : RecordBatch → list (Field DataType);
  batch_columns : RecordBatch → list column;
  batch_new_empty : list (Field DataType) → RecordBatch;
  batch_try_new : list (Field DataType) → list column → outcome ArrowError RecordBatch
}.
Abbreviation Schema := (list (Field DataType)).

Definition column_type `{Arrow} (c : column) : DataType :=
  match c with
  | StringArray _ => Utf8
  | TimestampMicrosecondArray _ => TimestampMicrosecond
  | UInt64Array _ => UInt64
  end.

(** [try_new] makes a batch of columns that have the schema's number and types
    and one length, and refuses columns of other types or another number. *)
Class ArrowOk `{Arrow} := {
  try_new_ok schema cols n :
    map field_type schema = map column_type cols → Forall (λ c, column_len c = n) cols →
    ∃ b, batch_try_new schema cols = Ok b ∧ batch_schema b = schema ∧ batch_columns b = cols;
  try_new_mismatch schema cols :
    map field_type schema ≠ map column_type cols → ∃ e, batch_try_new schema cols = Err e;
  new_empty_schema schema : batch_schema (batch_new_empty schema) = schema;
  new_empty_rows schema : Forall (λ c, column_len c = 0) (batch_columns (batch_new_empty schema));
  Int64_UInt64 : Int64 ≠ UInt64
}.

(** What DataFusion sees of a table ([TableProvider]): a schema, and a plan for
    the columns asked for. *)
Record Table `{Arrow} (E Plan : Type) := mkTable {
  tbl_schema : Schema;
  tbl_scan : option (list Z) → outcome E Plan
}.
Arguments mkTable {_ _ _} _ _.
Arguments tbl_schema {_ _ _} _.
Arguments tbl_scan {_ _ _} _ _.

(** DataFusion: sessions, data frames and in-memory plans.  [df_external] is the
    error another library's error is wrapped in. *)
Class DataFusion `{Arrow} := {
  DfError : Type;
  DfPlan : Type;
  SessionContext : Type;
  DataFrame : Type;
  df_external : string → DfError;
  memory_exec : list (list RecordBatch) → Schema → option (list Z) → outcome DfError DfPlan;
  ctx_new : SessionContext;
  ctx_register_table : SessionContext → string → Table DfError DfPlan → SessionContext * outcome DfError unit;
  ctx_register_parquet : SessionContext → string → string → SessionContext * outcome DfError unit;
  ctx_sql : SessionContext → string → outcome DfError DataFrame;
  ctx_table_schema : SessionContext → string → outcome DfError Schema;
  ctx_table_names : SessionContext → list string;
  df_collect : DataFrame → outcome DfError (list RecordBatch);
  df_write_parquet : DataFrame → string → outcome DfError unit
}.

(** Source: src/src/datafusion_layer.rs:57-76 (DataFusionError) *)
Inductive DataFusionError `{DataFusion} :=
  | DfDataFusion (e : DfError)
  | DfStorage (e : StorageError)
  | DfArrow (e : ArrowError)
  | TableNotFound (name : string)
  | InvalidSchema (what : string)
  | DfSerialization (what : string).

(** [Vec::with_capacity] for elements of [size] bytes. *)
Definition with_capacity {E} (n size : Z) : outcome E unit := if 2 ^ 63 - 1 <? n * size then Panic else Ok tt.

Section layer.
Context `{Crc32} `{DataFusion}.

(** Source: src/src/datafusion_layer.rs:80-84 (DataFusionLayer) *)
Record DataFusionLayer := mkLayer { dl_ctx : SessionContext; dl_storage : SegmentManager }.

(** Source: src/src/datafusion_layer.rs:164-170 (DoldaTableProvider) *)
Record DoldaTableProvider := mkProvider {
  tp_storage : SegmentManager;
  tp_schema : Schema;
  tp_data_field : string;
  tp_timestamp_field : string
}.

(** Source: src/src/datafusion_layer.rs:184-203 (DoldaTableProvider::new) *)
Definition DoldaTableProvider_new (storage : SegmentManager) (data_field timestamp_field : string)
    : outcome DataFusionError DoldaTableProvider :=
  Ok {| tp_storage := storage;
        tp_schema := [mkField data_field Utf8 false; mkField timestamp_field TimestampMicrosecond false;
                      mkField "record_id" UInt64 false];
        tp_data_field := data_field; tp_timestamp_field := timestamp_field |}.

(** One record's values: its data as text, its time and its place.
    Source: src/src/datafusion_layer.rs:216-226 (DoldaTableProvider::records_to_batch, loop body) *)
Definition record_row (idx : Z) (record : Rec) : string * Z * Z :=
  (from_utf8_lossy (rec_data record), i64 (rec_timestamp record), u64 idx).

(** Source: src/src/datafusion_layer.rs:205-242 (DoldaTableProvider::records_to_batch) *)
Definition records_to_batch (p : DoldaTableProvider) (records : list Rec) : outcome DataFusionError RecordBatch :=
  if len records =? 0 then Ok (batch_new_empty (tp_schema p)) else
  let rows := imap (λ i r, record_row (Z.of_nat i) r) records in
  map_err DfArrow (batch_try_new (tp_schema p)
    [StringArray (map (λ v, v.1.1) rows); TimestampMicrosecondArray (map (λ v, v.1.2) rows);
     UInt64Array (map snd rows)]).

(** Source: src/src/datafusion_layer.rs:251-253 (DoldaTableProvider::schema) *)
Definition provider_schema (p : DoldaTableProvider) : Schema := tp_schema p.

(** The size of a [Record]: a time and a vector. *)
Definition SIZE_OF_RECORD : Z := 32.

(** [e_text] is the text of the wrapped error.
    Source: src/src/datafusion_layer.rs:259-286 (DoldaTableProvider::scan) *)
Definition scan_table (e_text : DataFusionError → string) (p : DoldaTableProvider) (projection : option (list Z))
    : outcome DfError DfPlan :=
  let stats := SegmentManager_stats (tp_storage p) in
  _ ← with_capacity (usize (ms_total_records stats)) SIZE_OF_RECORD;
  let records := [] in
  batch ← map_err (df_external ∘ e_text) (records_to_batch p records);
  memory_exec [[batch]] (provider_schema p) projection.

Definition as_table (e_text : DataFusionError → string) (p : DoldaTableProvider) : Table DfError DfPlan :=
  mkTable (provider_schema p) (scan_table e_text p).

(** Source: src/src/datafusion_layer.rs:87-94 (DataFusionLayer::new) *)
Definition DataFusionLayer_new (storage : SegmentManager) : outcome DataFusionError DataFusionLayer :=
  Ok {| dl_ctx := ctx_new; dl_storage := storage |}.

(** Source: src/src/datafusion_layer.rs:96-116 (DataFusionLayer::register_table) *)
Definition register_table (e_text : DataFusionError → string) (l : DataFusionLayer)
    (table_name data_field timestamp_field : string) : DataFusionLayer * outcome DataFusionError unit :=
  match DoldaTableProvider_new (dl_storage l) data_field timestamp_field with
  | Ok provider =>
      let '(ctx, r) := ctx_register_table (dl_ctx l) table_name (as_table e_text provider) in
      ({| dl_ctx := ctx; dl_storage := dl_storage l |}, map_err DfDataFusion r)
  | Err e => (l, Err e)
  | Panic => (l, Panic)
  end.

(** Source: src/src/datafusion_layer.rs:118-123 (DataFusionLayer::query) *)
Definition query (l : DataFusionLayer) (sql : string) : outcome DataFusionError (list RecordBatch) :=
  df ← map_err DfDataFusion (ctx_sql (dl_ctx l) sql);
  map_err DfDataFusion (df_collect df).

(** Source: src/src/datafusion_layer.rs:125-129 (DataFusionLayer::query_dataframe) *)
Definition query_dataframe (l : DataFusionLayer) (sql : string) : outcome DataFusionError DataFrame :=
  map_err DfDataFusion (ctx_sql (dl_ctx l) sql).

(** Source: src/src/datafusion_layer.rs:131-136 (DataFusionLayer::export_to_parquet) *)
Definition export_to_parquet (l : DataFusionLayer) (sql path : string) : outcome DataFusionError unit :=
  df ← map_err DfDataFusion (ctx_sql (dl_ctx l) sql);
  map_err DfDataFusion (df_write_parquet df path).

(** Source: src/src/datafusion_layer.rs:138-142 (DataFusionLayer::register_parquet) *)
Definition register_parquet (l : DataFusionLayer) (table_name path : string)
    : DataFusionLayer * outcome DataFusionError unit :=
  let '(ctx, r) := ctx_register_parquet (dl_ctx l) table_name path in
  ({| dl_ctx := ctx; dl_storage := dl_storage l |}, map_err DfDataFusion r).

(** Source: src/src/datafusion_layer.rs:144-154 (DataFusionLayer::get_table_schema) *)
Definition get_table_schema (l : DataFusionLayer) (table_name : string) : outcome DataFusionError Schema :=
  map_err (λ _, TableNotFound table_name) (ctx_table_schema (dl_ctx l) table_name).

(** Source: src/src/datafusion_layer.rs:156-161 (DataFusionLayer::list_tables) *)
Definition list_tables (l : DataFusionLayer) : list string := ctx_table_names (dl_ctx l).

(** Source: src/src/datafusion_layer.rs:292-299 (TableBuilder) *)
Record TableBuilder := mkBuilder { tb_storage : SegmentManager; tb_schema_fields : Schema; tb_name : string }.

(** Source: src/src/datafusion_layer.rs:302-308 (TableBuilder::new) *)
Definition TableBuilder_new (storage : SegmentManager) (name : string) : TableBuilder := mkBuilder storage [] name.

(** Source: src/src/datafusion_layer.rs:310-314 (TableBuilder::add_field) *)
Definition add_field (b : TableBuilder) (name : string) (data_type : DataType) (nullable : bool) : TableBuilder :=
  mkBuilder (tb_storage b) (tb_schema_fields b ++ [mkField name data_type nullable]) (tb_name b).

(** Source: src/src/datafusion_layer.rs:316-319 (TableBuilder::add_string_field) *)
Definition add_string_field (b : TableBuilder) (name : string) : TableBuilder := add_field b name Utf8 false.
(** Source: src/src/datafusion_layer.rs:321-324 (TableBuilder::add_timestamp_field) *)
Definition add_timestamp_field (b : TableBuilder) (name : string) : TableBuilder :=
  add_field b name TimestampMicrosecond false.
(** Source: src/src/datafusion_layer.rs:326-329 (TableBuilder::add_int64_field) *)
Definition add_int64_field (b : TableBuilder) (name : string) : TableBuilder := add_field b name Int64 false.

(** Source: src/src/datafusion_layer.rs:331-355 (TableBuilder::build) *)
Definition build (b : TableBuilder) : outcome DataFusionError DoldaTableProvider :=
  match tb_schema_fields b with
  | [] => Err (InvalidSchema "Schema must have at least one field")
  | data :: rest =>
      Ok {| tp_storage := tb_storage b; tp_schema := data :: rest; tp_data_field := field_name data;
            tp_timestamp_field := match rest with t :: _ => field_name t | [] => "timestamp" end |}
  end.
End layer.

(** Tables that DataFusion cannot tell apart. *)
#[export] Instance table_equiv `{Arrow} E Plan : Equiv (Table E Plan) :=
  λ t1 t2, tbl_schema t1 = tbl_schema t2 ∧ ∀ projection, tbl_scan t1 projection = tbl_scan t2 projection.
#[export] Instance table_equivalence `{Arrow} E Plan : Equivalence (≡@{Table E Plan}).
Proof.
  split; [done|by intros t1 t2 [H1 H2]|]. intros t1 t2 t3 [H1 H2] [H3 H4].
  split; [congruence|]. intros projection. by rewrite H2.
Qed.

(** DataFusion reads a table through its provider only: sessions with
    equivalent tables answer alike.  A table that was registered is listed and
    has its provider's schema. *)
Class DataFusionOk `{DataFusion} := {
  ctx_equiv :: Equiv SessionContext;
  ctx_equivalence :: Equivalence (≡@{SessionContext});
  register_proper :: Proper ((≡) ==> (=) ==> (≡) ==> prod_relation (≡) (=)) ctx_register_table;
  collect_proper c1 c2 sql : c1 ≡ c2 → (ctx_sql c1 sql ≫= df_collect) = (ctx_sql c2 sql ≫= df_collect);
  registered_listed c name t c' : ctx_register_table c name t = (c', Ok tt) → name ∈ ctx_table_names c';
  registered_schema c name t c' : ctx_register_table c name t = (c', Ok tt) → ctx_table_schema c' name = Ok (tbl_schema t)
}.

(** Tables registered one after the other: name, data field and time field. *)
Definition register_all `{Crc32} `{DataFusion} (e_text : DataFusionError → string) (l : DataFusionLayer)
    (tables : list (string * string * string)) : DataFusionLayer :=
  foldl (λ l '(name, data, time), (register_table e_text l name data time).1) l tables.

(** The number of records a scan can make room for. *)
Definition scannable (m : SegmentManager) : Prop := usize (ms_total_records (SegmentManager_stats m)) * SIZE_OF_RECORD < 2 ^ 63.

(** ** Lemmas *)
Section sql_lemmas.
Context `{Crc32} `{ArrowOk} `{!DataFusion}.

(** A scan gives the plan of an empty batch. *)
Lemma scan_empty e_text p projection :
  scannable (tp_storage p) →
  scan_table e_text p projection = memory_exec [[batch_new_empty (tp_schema p)]] (tp_schema p) projection.
Proof.
  intros Hs. unfold scannable in Hs. unfold scan_table, with_capacity. by rewrite (proj2 (Z.ltb_ge _ _)) by lia.
Qed.

Lemma as_table_equiv e_text m1 m2 schema data time :
  scannable m1 → scannable m2 →
  as_table e_text (mkProvider m1 schema data time) ≡ as_table e_text (mkProvider m2 schema data time).
Proof. intros H1' H2'. split; [done|]. intros projection. cbn. by rewrite !scan_empty. Qed.

(** The three columns of [records_to_batch]. *)
Definition record_columns (records : list Rec) : list column :=
  [StringArray (map (λ r, from_utf8_lossy (rec_data r)) records);
   TimestampMicrosecondArray (map (λ r, i64 (rec_timestamp r)) records);
   UInt64Array (seqZ 0 (len records))].

Lemma records_to_batch_columns p records :
  records ≠ [] → len records < 2 ^ 64 →
  records_to_batch p records = map_err DfArrow (batch_try_new (tp_schema p) (record_columns records)).
Proof.
  intros Hne Hlen. unfold records_to_batch. destruct records as [|r0 rs]; [done|].
  rewrite (proj2 (Z.eqb_neq _ _)) by (rewrite len_cons; pose proof (len_nonneg rs); lia).
  set (records := r0 :: rs) in *. do 2 f_equal. unfold record_columns.
  f_equal; [|f_equal; [|f_equal]]; f_equal; apply list_eq; intros i; rewrite !list_lookup_fmap, list_lookup_imap.
  - by destruct (records !! i).
  - by destruct (records !! i).
  - unfold len in *. destruct (records !! i) as [r|] eqn:Hi.
    + apply lookup_lt_Some in Hi. rewrite lookup_seqZ_lt by lia. cbn. f_equal.
      rewrite wrap_id; [lia|unfold in_range; lia].
    + apply lookup_ge_None in Hi. by rewrite lookup_seqZ_ge by lia.
Qed.

Lemma records_to_batch_iff p records :
  records ≠ [] → len records < 2 ^ 64 →
  match records_to_batch p records with
  | Ok b => map field_type (tp_schema p) = [Utf8; TimestampMicrosecond; UInt64] ∧
            batch_schema b = tp_schema p ∧ batch_columns b = record_columns records
  | Err e => map field_type (tp_schema p) ≠ [Utf8; TimestampMicrosecond; UInt64] ∧ ∃ a, e = DfArrow a
  | Panic => False
  end.
Proof.
  intros Hne Hlen. rewrite records_to_batch_columns by done.
  assert ([Utf8; TimestampMicrosecond; UInt64] = map column_type (record_columns records)) as Hty by done.
  rewrite Hty. set (cols := record_columns records) in *. set (schema := tp_schema p).
  assert (Forall (λ c, column_len c = len records) cols) as Hcols.
  { repeat constructor; cbn [column_len]; unfold len; rewrite ?length_map, ?length_seqZ; unfold len; lia. }
  destruct (decide (map field_type schema = map column_type cols)) as [Heq|Hneq].
  - destruct (try_new_ok schema cols _ Heq Hcols) as (b & -> & Hs & Hc). done.
  - destruct (try_new_mismatch schema cols Hneq) as [e ->]. cbn. eauto.
Qed.

(** The fields a builder was given, and what it builds. *)
Lemma build_spec m name fields :
  build (foldl (λ b f, add_field b (field_name f) (field_type f) (field_nullable f)) (TableBuilder_new m name) fields) =
    match fields with
    | [] => Err (InvalidSchema "Schema must have at least one field")
    | data :: rest => Ok (mkProvider m (data :: rest) (field_name data)
                            (match rest with t :: _ => field_name t | [] => "timestamp" end))
    end.
Proof.
  assert (∀ fs, tb_storage (foldl (λ b f, add_field b (field_name f) (field_type f) (field_nullable f)) (TableBuilder_new m name) fs) = m ∧
    tb_schema_fields (foldl (λ b f, add_field b (field_name f) (field_type f) (field_nullable f)) (TableBuilder_new m name) fs) = fs) as Hb.
  { intros fs. induction fs as [|f fs [IH1 IH2]] using rev_ind; [done|]. rewrite foldl_snoc. cbn. rewrite IH1, IH2. by destruct f. }
  destruct (Hb fields) as [Hs Hf]. unfold build. rewrite Hs, Hf. by destruct fields.
Qed.
End sql_lemmas.

(** ** Properties *)
Section sql_properties.
Context `{Crc32} `{ArrowOk} `{!DataFusion} `{!DataFusionOk}.

Lemma register_all_equiv e_text m1 m2 tables l1 l2 :
  scannable m1 → scannable m2 → dl_storage l1 = m1 → dl_storage l2 = m2 → dl_ctx l1 ≡ dl_ctx l2 →
  dl_ctx (register_all e_text l1 tables) ≡ dl_ctx (register_all e_text l2 tables).
Proof.
  intros H1' H2'. revert l1 l2. induction tables as [|[[name data] time] tables IH]; intros l1 l2 Hl1 Hl2 Hc; [done|].
  unfold register_all. cbn [foldl]. apply IH.
  - unfold register_table, DoldaTableProvider_new. by destruct (ctx_register_table (dl_ctx l1) _ _).
  - unfold register_table, DoldaTableProvider_new. by destruct (ctx_register_table (dl_ctx l2) _ _).
  - unfold register_table, DoldaTableProvider_new. rewrite Hl1, Hl2.
    destruct (register_proper (dl_ctx l1) (dl_ctx l2) Hc name name eq_refl _ _
      (as_table_equiv e_text m1 m2 [mkField data Utf8 false; mkField time TimestampMicrosecond false;
         mkField "record_id" UInt64 false] data time H1' H2')) as [Hr _].
    destruct (ctx_register_table (dl_ctx l1) _ _), (ctx_register_table (dl_ctx l2) _ _). exact Hr.
Qed.

(** Layers over two storages with the same tables registered. *)
Lemma query_same e_text m1 m2 l1 l2 tables sql :
  scannable m1 → scannable m2 → DataFusionLayer_new m1 = Ok l1 → DataFusionLayer_new m2 = Ok l2 →
  query (register_all e_text l1 tables) sql = query (register_all e_text l2 tables) sql.
Proof.
  intros H1' H2' [= <-] [= <-]. unfold query.
  assert (∀ a, (map_err DfDataFusion a ≫= λ df, map_err DfDataFusion (df_collect df)) = map_err DfDataFusion (a ≫= df_collect))
    as Hq by (by intros []).
  rewrite !Hq. f_equal. apply collect_proper, (register_all_equiv e_text m1 m2); done.
Qed.

(** C26. No query sees a record: layers over two storages, one of them empty
    for instance, with the same tables registered, answer every query alike,
    however many records each storage has (as long as a scan can make room for
    that many). *)
Theorem queries_never_see_records e_text m1 m2 l1 l2 tables sql :
  scannable m1 → scannable m2 → DataFusionLayer_new m1 = Ok l1 → DataFusionLayer_new m2 = Ok l2 →
  query (register_all e_text l1 tables) sql = query (register_all e_text l2 tables) sql.
Proof. apply query_same. Qed.

(** Records become rows of the table's batch in their order: text, time
    and place of each.  It takes a schema of exactly a string, a timestamp and
    an unsigned column: a table built with any other, as with the builder's own
    integer field, refuses every record. *)
Lemma records_to_batch_spec p records :
  records ≠ [] → len records < 2 ^ 64 →
  match records_to_batch p records with
  | Ok b => map field_type (tp_schema p) = [Utf8; TimestampMicrosecond; UInt64] ∧
            batch_schema b = tp_schema p ∧ batch_columns b = record_columns records
  | Err e => map field_type (tp_schema p) ≠ [Utf8; TimestampMicrosecond; UInt64] ∧ ∃ a, e = DfArrow a
  | Panic => False
  end.
Proof. apply records_to_batch_iff. Qed.

(** The builder's own kinds of field: a string, a timestamp and an integer make a
    table, and that table holds no record. *)
Lemma int64_table_refuses_records m name f1 f2 f3 records p :
  records ≠ [] → len records < 2 ^ 64 →
  build (add_int64_field (add_timestamp_field (add_string_field (TableBuilder_new m name) f1) f2) f3) = Ok p →
  ∃ e, records_to_batch p records = Err (DfArrow e).
Proof.
  intros Hne Hlen [= <-]. set (p := mkProvider _ _ _ _).
  pose proof (records_to_batch_iff p records Hne Hlen) as Hr. pose proof Int64_UInt64.
  destruct (records_to_batch p records) as [b|e|]; [|destruct Hr as [_ [a ->]]; eauto|done].
  destruct Hr as [Hty _]. cbn in Hty. by injection Hty.
Qed.

(** A table that was registered is listed, with its three columns. *)
Lemma registered_table e_text l name data time l' :
  register_table e_text l name data time = (l', Ok tt) →
  name ∈ list_tables l' ∧
  get_table_schema l' name =
    Ok [mkField data Utf8 false; mkField time TimestampMicrosecond false; mkField "record_id" UInt64 false].
Proof.
  unfold register_table, DoldaTableProvider_new. destruct (ctx_register_table _ _ _) as [ctx [[]|e|]] eqn:Hr; [|done..].
  intros [= <-]. split; [by eapply registered_listed|].
  unfold get_table_schema. cbn [dl_ctx]. by rewrite (registered_schema _ _ _ _ Hr).
Qed.

(** Any failure to find a table's schema is reported as a missing table. *)
Lemma get_table_schema_error l name e :
  ctx_table_schema (dl_ctx l) name = Err e → get_table_schema l name = Err (TableNotFound name).
Proof. intros He. unfold get_table_schema. by rewrite He. Qed.
End sql_properties.

(** ** A concrete library: batches as their columns, a query as a table's name *)
Inductive sample_type := TUtf8 | TTimestamp | TUInt64 | TInt64.
#[local] Instance sample_type_eq_dec : EqDecision sample_type.
Proof. solve_decision. Defined.
#[local] Instance Field_eq_dec : EqDecision (Field sample_type).
Proof. solve_decision. Defined.

Definition sample_column_type (c : column) : sample_type :=
  match c with StringArray _ => TUtf8 | TimestampMicrosecondArray _ => TTimestamp | UInt64Array _ => TUInt64 end.

#[local] Instance sample_arrow : Arrow := {|
  DataType := sample_type; Utf8 := TUtf8; TimestampMicrosecond := TTimestamp; UInt64 := TUInt64; Int64 := TInt64;
  ArrowError := string;
  RecordBatch := list (Field sample_type) * list column;
  batch_schema := fst; batch_columns := snd;
  batch_new_empty schema := (schema, []);
  batch_try_new schema cols :=
    if decide (map field_type schema = map sample_column_type cols) then Ok (schema, cols) else Err "schema mismatch"
|}.
#[local] Instance sample_arrow_ok : ArrowOk.
Proof.
  assert (∀ cols, map column_type cols = map sample_column_type cols) as Hty
    by (intros cols; apply map_ext; by intros []).
  split; cbn; try done.
  - intros schema cols n Heq _. rewrite Hty in Heq. rewrite decide_True by done. by eexists.
  - intros schema cols Hne. rewrite Hty in Hne. rewrite decide_False by done. by eexists.
Qed.

(** A session is its tables; [pick] is the name of the table that a query scans.
    Files are accepted and forgotten. *)
#[local] Instance sample_datafusion (pick : string → string) : DataFusion := {|
  DfError := string; DfPlan := list (list RecordBatch);
  SessionContext := list (string * Table string (list (list RecordBatch)));
  DataFrame := list (list RecordBatch);
  df_external := id;
  memory_exec batches _ _ := Ok batches;
  ctx_new := [];
  ctx_register_table ctx name t := ((name, t) :: ctx, Ok tt);
  ctx_register_parquet ctx _ _ := (ctx, Ok tt);
  ctx_sql ctx sql :=
    match find_first (λ nt, String.eqb nt.1 (pick sql)) ctx with Some nt => tbl_scan nt.2 None | None => Err "no table" end;
  ctx_table_schema ctx name :=
    match find_first (λ nt, String.eqb nt.1 name) ctx with Some nt => Ok (tbl_schema nt.2) | None => Err "no table" end;
  ctx_table_names ctx := map fst ctx;
  df_collect plan := Ok (concat plan);
  df_write_parquet _ _ := Ok tt
|}.
#[local] Instance sample_tables_equiv pick : Equiv (@SessionContext _ (sample_datafusion pick)) := Forall2 (λ a b : string * Table string (list (list RecordBatch)), a.1 = b.1 ∧ a.2 ≡ b.2).
#[local] Instance sample_datafusion_ok pick : @DataFusionOk _ (sample_datafusion pick).
Proof.
  assert (Equivalence (sample_tables_equiv pick)) as Heq.
  { unfold sample_tables_equiv. split.
    - intros l. induction l as [|a l IH]; constructor; done.
    - intros l k Hlk. induction Hlk as [|a b l k [? ?] _ IH]; constructor; done.
    - intros l k j Hlk. revert j. induction Hlk as [|a b l k [? ?] _ IH]; intros j Hkj; inversion Hkj as [|? ? ? ? [? ?]]; subst;
        constructor; [split; [congruence|by etrans]|by apply IH]. }
  refine {| ctx_equiv := sample_tables_equiv pick; ctx_equivalence := Heq |}.
  - intros c1 c2 Hc n1 n2 -> t1 t2 Ht. split; [|done]. by constructor.
  - intros c1 c2 sql Hc. cbn. induction Hc as [|[n1 t1] [n2 t2] c1 c2 [Hn [_ Ht]] _ IH]; [done|]. cbn in Hn, Ht |- *. subst n2.
    destruct (String.eqb n1 (pick sql)); [|exact IH]. cbn. by rewrite Ht.
  - intros c name t c' [= <-]. by left.
  - intros c name t c' [= <-]. cbn. by rewrite String.eqb_refl.
Defined.

#[local] Instance by_name : DataFusion := sample_datafusion id.

Lemma queries_never_see_records_witness :
  let l m := from_ok (mkLayer ctx_new m) (DataFusionLayer_new m) in
  let empty := {| sm_partition_id := 1; sm_segments := []; sm_current_segment := None; sm_segment_size := 64;
                  sm_storage_dir := "d"; sm_index_enabled := true |} in
  ms_total_records (SegmentManager_stats sample_manager) = 1 ∧
  query (register_all (λ _, "e"%string) (l sample_manager) [("events", "data", "time")]%string) "events" =
  query (register_all (λ _, "e"%string) (l empty) [("events", "data", "time")]%string) "events".
Proof.
  intros l empty. split; [by vm_compute|].
  apply (queries_never_see_records (λ _, "e"%string) sample_manager empty); by vm_compute.
Defined.

Lemma records_to_batch_spec_witness :
  let p := mkProvider sample_manager [mkField "data" Utf8 false; mkField "time" TimestampMicrosecond false;
                                      mkField "record_id" UInt64 false]%string "data" "time" in
  match records_to_batch p [sample_record] with
  | Ok b => batch_columns b = [StringArray ["Hello"%string]; TimestampMicrosecondArray [1700000000000000]; UInt64Array [0]]
  | _ => False
  end.
Proof.
  intros p. pose proof (records_to_batch_spec p [sample_record] ltac:(done) ltac:(by vm_compute)) as Hs.
  destruct (records_to_batch p [sample_record]) as [b|e|]; [|by destruct Hs as [Hs _]|done].
  destruct Hs as (_ & _ & Hs). exact Hs.
Defined.
