(* ===== verification/SqlTests.v ===== *)
(** * Programs of the SQL layer

    The [mod tests] of src/src/datafusion_layer.rs and
    src/examples/datafusion_example.rs.  What DataFusion answers is not fixed by
    its interface, so a test that asks it something passes when it answers; that
    the example's queries see none of its ten events is proved. *)

From stdpp Require Import base list numbers strings pretty.
From Stdlib Require Import Strings.Byte Strings.Ascii.
From S2P Require Import Prelude Crc32 F64 RecordFormat StorageEngine StorageRuns SqlLayer.
Local Open Scope Z_scope.

(** ** Definitions *)

(** The errors of the programs. *)
Inductive sql_error `{DataFusion} :=
  | SqlRun (e : run_error)
  | SqlStorage (e : StorageError)
  | SqlQuery (e : DataFusionError).

Section programs.
Context `{Crc32} `{Os} `{DataFusion}.
Context (e_text : DataFusionError → string) (dir : string) (fuel : nat) (now : nat → Z).

(** Source: src/src/datafusion_layer.rs:364-375 (tests::create_test_storage) *)
Definition create_test_storage : outcome string SegmentManager :=
  unwrap_ok (SegmentManager_new 1 (10 * 1024 * 1024) dir false).

(** Source: src/src/datafusion_layer.rs:377-382 (tests::test_datafusion_layer_creation) *)
Definition test_datafusion_layer_creation : verdict :=
  storage ← create_test_storage;
  assert_that (is_ok (DataFusionLayer_new storage)).

(** Source: src/src/datafusion_layer.rs:384-394 (tests::test_table_registration) *)
Definition test_table_registration : verdict :=
  storage ← create_test_storage;
  df_layer ← unwrap_ok (DataFusionLayer_new storage);
  let '(df_layer, result) := register_table e_text df_layer "test_table" "data" "timestamp" in
  _ ← assert_that (is_ok result);
  assert_that (bool_decide ("test_table"%string ∈ list_tables df_layer)).

(** Source: src/src/datafusion_layer.rs:396-416 (tests::test_simple_query) *)
Definition test_simple_query : option verdict :=
  match create_test_storage with
  | Ok storage =>
      written ← manager_writes fuel now 0 storage (map (λ i, str_bytes ("test_event_" +:+ pretty (Z.of_nat i))) (seq 0 5));
      Some (storage ← unwrap_ok written;
            df_layer ← unwrap_ok (DataFusionLayer_new storage);
            let '(df_layer, r) := register_table e_text df_layer "events" "data" "timestamp" in
            _ ← unwrap_ok r;
            assert_that (is_ok (query df_layer "SELECT COUNT(*) FROM events")))
  | Err e => Some (Err e)
  | Panic => Some Panic
  end.

(** Source: src/src/datafusion_layer.rs:418-432 (tests::test_table_builder) *)
Definition test_table_builder : verdict :=
  storage ← create_test_storage;
  let builder := TableBuilder_new storage "custom_table" in
  let builder := add_int64_field (add_timestamp_field (add_string_field builder "event_type") "event_time") "user_id" in
  let table := build builder in
  _ ← assert_that (is_ok table);
  table ← unwrap_ok table;
  assert_that (len (provider_schema table) =? 3).

(** The double quote. *)
Definition quote : string := String (ascii_of_nat 34) EmptyString.
Definition quoted (s : string) : string := quote +:+ s +:+ quote.

(** Source: src/examples/datafusion_example.rs:37-48 (main, part) *)
Definition sample_events : list (string * string) :=
  [("user_login", "alice"); ("page_view", "alice"); ("user_login", "bob"); ("purchase", "alice"); ("page_view", "bob");
   ("user_login", "charlie"); ("purchase", "bob"); ("page_view", "charlie"); ("purchase", "alice"); ("user_login", "alice")]%string.

(** Source: src/examples/datafusion_example.rs:51 (main, part) *)
Definition event_payload (e : string * string) : bytes :=
  str_bytes ("{" +:+ quoted "event" +:+ ":" +:+ quoted e.1 +:+ "," +:+ quoted "user" +:+ ":" +:+ quoted e.2 +:+ "}").

(** What the example reports: the number of records, the tables, the batches of
    its queries, those of the Parquet file, and the schema. *)
Record sql_report := mkReport {
  sr_total : Z; sr_tables : list string; sr_count : list RecordBatch; sr_types : list RecordBatch;
  sr_all : list RecordBatch; sr_parquet : list RecordBatch; sr_schema : Schema }.

(** Rendering the batches is Arrow's.
    Source: src/examples/datafusion_example.rs:15-121 (main) *)
Definition datafusion_example (parquet_path : string) : option (outcome sql_error sql_report) :=
  match map_err SqlStorage (SegmentManager_new 1 (64 * 1024 * 1024) dir false) with
  | Ok storage =>
      written ← manager_writes fuel now 0 storage (map event_payload sample_events);
      Some (storage ← map_err SqlRun written;
            let stats := SegmentManager_stats storage in
            df_layer ← map_err SqlQuery (DataFusionLayer_new storage);
            let '(df_layer, r) := register_table e_text df_layer "events" "data" "timestamp" in
            _ ← map_err SqlQuery r;
            let tables := list_tables df_layer in
            count ← map_err SqlQuery (query df_layer "SELECT COUNT(*) as total FROM events");
            types ← map_err SqlQuery (query df_layer "SELECT data, COUNT(*) as count FROM events GROUP BY data LIMIT 5");
            all ← map_err SqlQuery (query df_layer "SELECT record_id, data FROM events");
            _ ← map_err SqlQuery (export_to_parquet df_layer "SELECT * FROM events" parquet_path);
            let '(df_layer, r) := register_parquet df_layer "events_parquet" parquet_path in
            _ ← map_err SqlQuery r;
            parquet ← map_err SqlQuery (query df_layer "SELECT COUNT(*) FROM events_parquet");
            schema ← map_err SqlQuery (get_table_schema df_layer "events");
            Ok (mkReport (ms_total_records stats) tables count types all parquet schema))
  | Err e => Some (Err e)
  | Panic => Some Panic
  end.
End programs.

(** ** What they do *)
Section lemmas.
Context `{Crc32Ok} `{OsOk} `{ArrowOk} `{!DataFusion} `{!DataFusionOk}.
Context (e_text : DataFusionError → string) (dir : string) (now : nat → Z) (Hos : os_grants) (Hnow : ∀ i, in_range 64 (now i)).

(** A few short payloads written to a new storage. *)
Lemma storage_written size payloads :
  1024 * 1024 ≤ size < 2 ^ 63 → len payloads ≤ 1024 → Forall (λ d, len d ≤ 1000) payloads →
  ∃ m m', SegmentManager_new 1 size dir false = Ok m ∧ manager_writes 2 now 0 m payloads = Some (Ok m') ∧
    ms_total_records (SegmentManager_stats m') = len payloads ∧ scannable m'.
Proof.
  intros Hsize Hlen Hd. destruct (manager_opens Hos 1 size dir false) as (m & seg & Hm & Hr & Hsz & _); [lia|].
  assert (Forall (λ d, len d ≤ MAX_RECORD_SIZE) payloads) as Hd' by (eapply Forall_impl; [exact Hd|]; unfold MAX_RECORD_SIZE; cbn; lia).
  assert (Forall (λ n, n ≤ 1020) (record_sizes payloads)) as Hrs.
  { apply Forall_map. eapply Forall_impl; [exact Hd|]. cbn. unfold RECORD_HEADER_SIZE. lia. }
  destruct (manager_writes_ok now Hnow payloads 0 m [] seg [] [] Hr) as (m' & init' & seg' & linit' & l' & Hw & Hm' & _ & Hcat & _).
  { intros path. apply (og_map Hos). lia. }
  { done. }
  { eapply Forall_impl; [exact Hrs|]. cbn. lia. }
  cbn in Hcat.
  assert (log_size (new_records now 0 payloads) ≤ 1024 * 1020) as Hlog.
  { rewrite new_records_size by done. clear -Hrs Hlen. unfold record_sizes in *.
    assert (zsum id (map (λ d, RECORD_HEADER_SIZE + len d) payloads) ≤ 1020 * len payloads) as Hz; [|lia].
    clear Hlen. induction payloads as [|d ds IH]; [done|]. cbn [map] in Hrs. apply Forall_cons in Hrs as [Hd Hrs].
    specialize (IH Hrs). rewrite len_cons. unfold zsum in *. cbn [map foldr id] in *. lia. }
  destruct (stats_of_logs m' init' seg' linit' l' Hm') as (_ & Ht & _); [rewrite Hcat; lia|].
  rewrite Hcat in Ht. exists m, m'. split; [done|]. split; [done|].
  assert (len (new_records now 0 payloads) = len payloads) as Hl by (unfold len; by rewrite new_records_length).
  rewrite Hl in Ht. split; [done|]. unfold scannable. rewrite Ht. unfold SIZE_OF_RECORD.
  rewrite wrap_id by (unfold in_range; pose proof (len_nonneg payloads); lia). lia.
Qed.

(** A layer over a storage with one table of events. *)
Definition events_layer (storage : SegmentManager) : DataFusionLayer :=
  register_all e_text (mkLayer ctx_new storage) [("events", "data", "timestamp")]%string.

Lemma registered_events storage l r :
  register_table e_text (mkLayer ctx_new storage) "events" "data" "timestamp" = (l, r) → l = events_layer storage.
Proof. intros Hr. unfold events_layer, register_all. cbn [foldl]. by rewrite Hr. Qed.

Lemma events_same m1 m2 sql : scannable m1 → scannable m2 → query (events_layer m1) sql = query (events_layer m2) sql.
Proof. intros H1' H2'. by apply (query_same e_text m1 m2). Qed.

(** The verdicts of the tests, when DataFusion takes the tables it is given: the
    one that queries passes if the query is answered over any storage. *)
Lemma sql_tests_verdicts storage :
  scannable storage → (∀ c name t, (ctx_register_table c name t).2 = Ok tt) →
  test_datafusion_layer_creation dir = Ok tt ∧ test_table_builder dir = Ok tt ∧ test_table_registration e_text dir = Ok tt ∧
  test_simple_query e_text dir 2 now = Some (assert_that (is_ok (query (events_layer storage) "SELECT COUNT(*) FROM events"))).
Proof.
  intros Hstorage Htakes.
  destruct (storage_written (10 * 1024 * 1024) (map (λ i, str_bytes ("test_event_" +:+ pretty (Z.of_nat i))) (seq 0 5)))
    as (m & m' & Hm & Hw & _ & Hscan); [lia|done|by repeat constructor; vm_compute|].
  assert (create_test_storage dir = Ok m) as Hc by (unfold create_test_storage; by rewrite Hm).
  split; [unfold test_datafusion_layer_creation; by rewrite Hc|].
  split; [unfold test_table_builder; by rewrite Hc|].
  assert (∀ l name data time, ∃ l', register_table e_text l name data time = (l', Ok tt)) as Hreg.
  { intros l name data time. unfold register_table, DoldaTableProvider_new.
    match goal with |- context [ctx_register_table ?c ?n ?t] => pose proof (Htakes c n t) as Ht; destruct (ctx_register_table c n t) as [ctx r] end.
    cbn in Ht. subst r. by eexists. }
  split.
  - unfold test_table_registration. rewrite Hc. cbn [mbind outcome_bind unwrap_ok DataFusionLayer_new].
    destruct (Hreg (mkLayer ctx_new m) "test_table"%string "data"%string "timestamp"%string) as [l Hl]. rewrite Hl.
    cbn [is_ok assert_that mbind outcome_bind]. by rewrite bool_decide_eq_true_2 by (by eapply registered_table).
  - unfold test_simple_query. rewrite Hc, Hw. cbn [mbind option_bind outcome_bind unwrap_ok DataFusionLayer_new].
    destruct (Hreg (mkLayer ctx_new m') "events"%string "data"%string "timestamp"%string) as [l Hl]. rewrite Hl.
    cbn [unwrap_ok mbind outcome_bind]. rewrite (registered_events _ _ _ Hl). by rewrite (events_same m' storage).
Qed.

(** The SQL example never sees an event: it always ends, with an error of
    DataFusion or a report; then it has counted ten records in the storage and
    listed the table of events, and what its three queries of that table returned
    is what they return over any storage, an empty one for instance. *)
Lemma example_sees_no_events parquet_path :
  ∃ r, datafusion_example e_text dir 2 now parquet_path = Some r ∧
    match r with
    | Ok report =>
        sr_total report = 10 ∧
        "events"%string ∈ sr_tables report ∧
        ∀ storage, scannable storage →
          query (events_layer storage) "SELECT COUNT(*) as total FROM events" = Ok (sr_count report) ∧
          query (events_layer storage) "SELECT data, COUNT(*) as count FROM events GROUP BY data LIMIT 5" = Ok (sr_types report) ∧
          query (events_layer storage) "SELECT record_id, data FROM events" = Ok (sr_all report)
    | Err e => ∃ d, e = SqlQuery d
    | Panic => True
    end.
Proof.
  destruct (storage_written (64 * 1024 * 1024) (map event_payload sample_events))
    as (m & m' & Hm & Hw & Ht & Hscan); [lia|done|by repeat constructor; vm_compute|].
  unfold datafusion_example. rewrite Hm. cbn [map_err]. rewrite Hw. cbn [mbind option_bind outcome_bind map_err DataFusionLayer_new].
  eexists. split; [done|]. destruct (register_table _ _ _ _ _) as [l [[]|e|]] eqn:Hl; cbn [map_err mbind outcome_bind]; [|by eexists|done].
  assert ("events"%string ∈ list_tables l) as Hlisted by (by eapply registered_table).
  rewrite (registered_events _ _ _ Hl) in *. clear Hl l.
  destruct (query _ "SELECT COUNT(*) as total FROM events") as [count|e|] eqn:Hq1; cbn [map_err mbind outcome_bind]; [|by eexists|done].
  destruct (query _ "SELECT data, COUNT(*) as count FROM events GROUP BY data LIMIT 5") as [types|e|] eqn:Hq2;
    cbn [map_err mbind outcome_bind]; [|by eexists|done].
  destruct (query _ "SELECT record_id, data FROM events") as [all|e|] eqn:Hq3; cbn [map_err mbind outcome_bind]; [|by eexists|done].
  destruct (export_to_parquet _ _ _) as [[]|e|]; cbn [map_err mbind outcome_bind]; [|by eexists|done].
  destruct (register_parquet _ _ _) as [l [[]|e|]]; cbn [map_err mbind outcome_bind]; [|by eexists|done].
  destruct (query l _) as [parquet|e|]; cbn [map_err mbind outcome_bind]; [|by eexists|done].
  destruct (get_table_schema l _) as [schema|e|]; cbn [map_err mbind outcome_bind]; [|by eexists|done].
  cbn [sr_total sr_tables sr_count sr_types sr_all]. split; [by rewrite Ht|]. split; [done|].
  intros storage Hstorage. rewrite <- Hq1, <- Hq2, <- Hq3. split_and!; by apply events_same.
Qed.
End lemmas.

(** ** A concrete library: every query scans the table of events *)
#[local] Existing Instances sample_arrow sample_arrow_ok.
#[local] Instance events_sql : DataFusion := sample_datafusion (λ _, "events"%string).
#[local] Instance events_sql_ok : DataFusionOk := sample_datafusion_ok (λ _, "events"%string).

Lemma sample_example_ends :
  ∃ report, datafusion_example (λ _, "e"%string) "/data" 2 (λ _, 0) "/data/events.parquet" = Some (Ok report).
Proof.
  destruct (storage_written "/data" (λ _, 0) zero_os_grants ltac:(done) (64 * 1024 * 1024) (map event_payload sample_events))
    as (m & m' & Hm & Hw & Ht & Hscan); [lia|done|by repeat constructor; vm_compute|].
  unfold datafusion_example. rewrite Hm. cbn [map_err]. rewrite Hw. cbn [mbind option_bind outcome_bind map_err DataFusionLayer_new].
  unfold query, export_to_parquet, register_table, DoldaTableProvider_new. cbn -[SegmentManager_stats scan_table].
  rewrite !scan_empty by done. cbn -[SegmentManager_stats]. by eexists.
Qed.

Lemma example_sees_no_events_witness :
  ∃ report, datafusion_example (λ _, "e"%string) "/data" 2 (λ _, 0) "/data/events.parquet" = Some (Ok report) ∧ sr_total report = 10.
Proof.
  destruct (example_sees_no_events (λ _, "e"%string) "/data" (λ _, 0) zero_os_grants ltac:(done) "/data/events.parquet") as (r & Hr & Hm).
  destruct sample_example_ends as [report He]. rewrite He in Hr. injection Hr as <-. exists report. split; [exact He|]. apply Hm.
Defined.
