(* ===== verification/Matching.v ===== *)
(** * The matching engine (src/examples/hft_trading_server.rs)

    Orders, executions and the engine: two books, each from symbols to price
    levels in cents (ascending, as a [BTreeMap] iterates), each level a list of
    resting orders, oldest first.  The locks of the engine are in
    [MatchingLocks], its processors in [HftServer]. *)

From stdpp Require Import base list numbers strings gmap sorting.
From S2P Require Import Prelude F64.
Local Open Scope Z_scope.

(** Source: src/examples/hft_trading_server.rs:66-74 (OrderType) *)
Inductive OrderType := Market | Limit | IOC | FOK | Stop | StopLimit.
#[export] Instance OrderType_eq_dec : EqDecision OrderType.
Proof. solve_decision. Defined.

(** Source: src/examples/hft_trading_server.rs:76-80 (OrderSide) *)
Inductive OrderSide := Buy | Sell.

(** Source: src/examples/hft_trading_server.rs:82-89 (OrderStatus) *)
Inductive OrderStatus := New | PartiallyFilled | Filled | Cancelled | Rejected.

(** Source: src/examples/hft_trading_server.rs:91-104 (Order) *)
Record Order := mkOrder {
  order_id : Z; symbol : string; side : OrderSide; order_type : OrderType;
  quantity : Z; price : option f64; stop_price : option f64; filled_quantity : Z;
  status : OrderStatus; timestamp : Z; strategy_id : string }.

(** Source: src/examples/hft_trading_server.rs:106-115 (Execution) *)
Record Execution := mkExecution {
  execution_id : Z; ex_order_id : Z; ex_symbol : string; ex_side : OrderSide;
  ex_price : f64; ex_quantity : Z; ex_timestamp : Z }.

(** Assignments to fields of an order. *)
Definition with_filled (o : Order) (q : Z) : Order :=
  mkOrder (order_id o) (symbol o) (side o) (order_type o) (quantity o) (price o)
    (stop_price o) q (status o) (timestamp o) (strategy_id o).
Definition with_status (o : Order) (s : OrderStatus) : Order :=
  mkOrder (order_id o) (symbol o) (side o) (order_type o) (quantity o) (price o)
    (stop_price o) (filled_quantity o) s (timestamp o) (strategy_id o).
Definition with_type (o : Order) (t : OrderType) : Order :=
  mkOrder (order_id o) (symbol o) (side o) t (quantity o) (price o)
    (stop_price o) (filled_quantity o) (status o) (timestamp o) (strategy_id o).

Abbreviation SymbolBook := (btree (list Order)).

(** Source: src/examples/hft_trading_server.rs:285-292 (MatchingEngine) *)
Record MatchingEngine := mkEngine {
  buy_book : gmap string SymbolBook;
  sell_book : gmap string SymbolBook;
  order_counter : Z;
  execution_counter : Z;
  current_prices : gmap string f64 }.

(** Source: src/examples/hft_trading_server.rs:295-303 (MatchingEngine::new) *)
Definition MatchingEngine_new : MatchingEngine := mkEngine ∅ ∅ 0 0 ∅.

(** Source: src/examples/hft_trading_server.rs:305-307 (MatchingEngine::price_to_cents) *)
Definition price_to_cents (price : f64) : Z :=
  f64_as_u64 (f64_round (f64_mul price (f64_of_int 100))).

(** Source: src/examples/hft_trading_server.rs:309-311 (MatchingEngine::cents_to_price) *)
Definition cents_to_price (cents : Z) : f64 := f64_div (f64_of_int cents) (f64_of_int 100).

(** Source: src/examples/hft_trading_server.rs:313-317 (MatchingEngine::get_order_id) *)
Definition get_order_id (eng : MatchingEngine) : MatchingEngine * Z :=
  let counter := u64 (order_counter eng + 1) in
  (mkEngine (buy_book eng) (sell_book eng) counter (execution_counter eng) (current_prices eng),
   counter).

(** Source: src/examples/hft_trading_server.rs:325-328 (MatchingEngine::update_market_price) *)
Definition update_market_price (eng : MatchingEngine) (sym : string) (p : f64) : MatchingEngine :=
  mkEngine (buy_book eng) (sell_book eng) (order_counter eng) (execution_counter eng)
    (<[sym := p]> (current_prices eng)).

(** Source: src/examples/hft_trading_server.rs:330-333 (MatchingEngine::get_market_price) *)
Definition get_market_price (eng : MatchingEngine) (sym : string) : option f64 :=
  current_prices eng !! sym.

Section engine.

(** The microsecond reading when the execution of an id is created. *)
Context (clock : Z → Z).

(** The variables of the matching loops: the taker, what it still wants, the
    execution counter of the engine and the executions so far. *)
Record FillState := mkFill {
  fs_order : Order; fs_remaining : Z; fs_counter : Z; fs_executions : list Execution }.

(** One fill against a resting order; [get_execution_id] increments the counter.
    Source: src/examples/hft_trading_server.rs:424-448 (MatchingEngine::match_market_order, part) *)
Definition fill_resting (price_level : Z) (st : FillState) (resting : Order) : FillState * Order :=
  let order := fs_order st in
  let available_qty := u32 (quantity resting - filled_quantity resting) in
  let fill_qty := Z.min (fs_remaining st) available_qty in
  let id := u64 (fs_counter st + 1) in
  let execution := mkExecution id (order_id order) (symbol order) (side order)
    (cents_to_price price_level) fill_qty (clock id) in
  (mkFill (with_filled order (u32 (filled_quantity order + fill_qty)))
     (u32 (fs_remaining st - fill_qty)) id (fs_executions st ++ [execution]),
   with_filled resting (u32 (filled_quantity resting + fill_qty))).

(** The inner loop: a resting order is removed when filled and kept otherwise,
    so each is met once.
    Source: src/examples/hft_trading_server.rs:499-531 (MatchingEngine::match_limit_order, part) *)
Fixpoint fill_level (price_level : Z) (st : FillState) (orders_at_price : list Order)
    : FillState * list Order :=
  match orders_at_price with
  | [] => (st, [])
  | resting :: rest =>
      if 0 <? fs_remaining st then
        let '(st, resting) := fill_resting price_level st resting in
        let '(st, rest) := fill_level price_level st rest in
        (st, if filled_quantity resting =? quantity resting then rest
             else with_status resting PartiallyFilled :: rest)
      else (st, orders_at_price)
  end.

(** The outer loop, over the levels in ascending order of price; a level that
    was emptied stays in the book.
    Source: src/examples/hft_trading_server.rs:485-533 (MatchingEngine::match_limit_order, part) *)
Fixpoint fill_levels (acceptable : Z → bool) (st : FillState) (symbol_book : SymbolBook)
    : FillState * SymbolBook :=
  match symbol_book with
  | [] => (st, [])
  | (price_level, orders_at_price) :: rest =>
      if negb (acceptable price_level) || (fs_remaining st =? 0) then (st, symbol_book)
      else
        let '(st, orders_at_price) := fill_level price_level st orders_at_price in
        let '(st, rest) := fill_levels acceptable st rest in
        (st, (price_level, orders_at_price) :: rest)
  end.

Definition opposite_book (eng : MatchingEngine) (s : OrderSide) : gmap string SymbolBook :=
  match s with Buy => sell_book eng | Sell => buy_book eng end.
Definition set_opposite_book (eng : MatchingEngine) (s : OrderSide) (book : gmap string SymbolBook)
    (counter : Z) : MatchingEngine :=
  match s with
  | Buy => mkEngine (buy_book eng) book (order_counter eng) counter (current_prices eng)
  | Sell => mkEngine book (sell_book eng) (order_counter eng) counter (current_prices eng)
  end.

(** Source: src/examples/hft_trading_server.rs:478-534 (MatchingEngine::match_limit_order, part) *)
Definition match_opposite (eng : MatchingEngine) (acceptable : Z → bool) (order : Order)
    : MatchingEngine * FillState :=
  let st := mkFill order (u32 (quantity order - filled_quantity order)) (execution_counter eng) [] in
  let book := opposite_book eng (side order) in
  match book !! symbol order with
  | None => (eng, st)
  | Some symbol_book =>
      let '(st, symbol_book) := fill_levels acceptable st symbol_book in
      (set_opposite_book eng (side order) (<[symbol order := symbol_book]> book) (fs_counter st), st)
  end.

(** Source: src/examples/hft_trading_server.rs:550-554 (MatchingEngine::match_limit_order, part) *)
Definition fill_status (order : Order) : Order :=
  if filled_quantity order =? quantity order then with_status order Filled
  else if 0 <? filled_quantity order then with_status order PartiallyFilled
  else order.

(** Source: src/examples/hft_trading_server.rs:402-469 (MatchingEngine::match_market_order) *)
Definition match_market_order (eng : MatchingEngine) (order : Order)
    : MatchingEngine * (Order * list Execution) :=
  let '(eng, st) := match_opposite eng (λ _, true) order in
  (eng, (fill_status (fs_order st), fs_executions st)).

(** [entry(cents).or_insert_with(Vec::new).push(order)] *)
Fixpoint push_level (cents : Z) (order : Order) (symbol_book : SymbolBook) : SymbolBook :=
  match symbol_book with
  | [] => [(cents, [order])]
  | (p, os) :: rest =>
      if cents <? p then (cents, [order]) :: symbol_book
      else if cents =? p then (p, os ++ [order]) :: rest
      else (p, os) :: push_level cents order rest
  end.

(** The unfilled rest of a limit order joins the book of its own side.
    Source: src/examples/hft_trading_server.rs:536-548 (MatchingEngine::match_limit_order, part) *)
Definition rest_order (eng : MatchingEngine) (limit_cents : Z) (order : Order) : MatchingEngine :=
  let add book := <[symbol order := push_level limit_cents order (default [] (book !! symbol order))]> book in
  match side order with
  | Buy => mkEngine (add (buy_book eng)) (sell_book eng) (order_counter eng)
             (execution_counter eng) (current_prices eng)
  | Sell => mkEngine (buy_book eng) (add (sell_book eng)) (order_counter eng)
              (execution_counter eng) (current_prices eng)
  end.

Definition acceptable_level (s : OrderSide) (limit_cents price_level : Z) : bool :=
  match s with Buy => price_level <=? limit_cents | Sell => limit_cents <=? price_level end.

(** Source: src/examples/hft_trading_server.rs:471-558 (MatchingEngine::match_limit_order) *)
Definition match_limit_order (eng : MatchingEngine) (order : Order)
    : MatchingEngine * (Order * list Execution) :=
  match price order with
  | None => (eng, (order, []))
  | Some limit_price =>
      let limit_cents := price_to_cents limit_price in
      let '(eng, st) := match_opposite eng (acceptable_level (side order) limit_cents) order in
      let eng := if (0 <? fs_remaining st) && bool_decide (order_type order = Limit)
                 then rest_order eng limit_cents (fs_order st) else eng in
      (eng, (fill_status (fs_order st), fs_executions st))
  end.

(** A stop order is triggered, waits ([None]), or, without a market price, is
    left as it is.
    Source: src/examples/hft_trading_server.rs:338-359 (MatchingEngine::match_order, part) *)
Definition convert_stop (eng : MatchingEngine) (order : Order) : option Order :=
  match order_type order with
  | Stop | StopLimit =>
      match get_market_price eng (symbol order) with
      | None => Some order
      | Some market_price =>
          let stop := default (f64_of_int 0) (stop_price order) in
          let triggered := match side order with
            | Buy => f64_ge market_price stop
            | Sell => f64_le market_price stop
            end in
          if triggered
          then Some (with_type order (if bool_decide (order_type order = Stop) then Market else Limit))
          else None
      end
  | _ => Some order
  end.

(** Source: src/examples/hft_trading_server.rs:335-400 (MatchingEngine::match_order) *)
Definition match_order (eng : MatchingEngine) (order : Order)
    : MatchingEngine * (Order * list Execution) :=
  match convert_stop eng order with
  | None => (eng, (order, []))
  | Some order =>
      match order_type order with
      | Market => match_market_order eng order
      | Limit => match_limit_order eng order
      | IOC =>
          let '(eng, (updated_order, execs)) := match_limit_order eng order in
          (eng, (if filled_quantity updated_order <? quantity order
                 then with_status updated_order Cancelled else updated_order, execs))
      | FOK =>
          let '(eng, (updated_order, execs)) := match_limit_order eng order in
          (eng, if filled_quantity updated_order =? quantity order
                then (updated_order, execs) else (with_status order Cancelled, []))
      | Stop | StopLimit => (eng, (order, []))
      end
  end.
End engine.

(** ** The reference: a greedy walk through a queue of offers

    An offer is a price and an open quantity.  [greedy n l] takes [n] units from
    the front of [l]; [greedy_rest n l] is what it leaves. *)
Definition open_qty (o : Order) : Z := quantity o - filled_quantity o.
Definition offers (p : Z) (os : list Order) : list (Z * Z) := map (λ o, (p, open_qty o)) os.
Definition book_queue (b : SymbolBook) : list (Z * Z) := concat (map (λ kv, offers kv.1 kv.2) b).
Definition total (l : list (Z * Z)) : Z := zsum snd l.

Fixpoint greedy (n : Z) (l : list (Z * Z)) : list (Z * Z) :=
  match l with
  | [] => []
  | (p, q) :: l => if 0 <? n then (p, Z.min n q) :: greedy (n - Z.min n q) l else []
  end.
Fixpoint greedy_rest (n : Z) (l : list (Z * Z)) : list (Z * Z) :=
  match l with
  | [] => []
  | (p, q) :: l' =>
      if 0 <? n then if q <=? n then greedy_rest (n - q) l' else (p, q - n) :: l' else l
  end.

(** The levels a taker meets before one it does not accept. *)
Fixpoint accepted (acceptable : Z → bool) (b : SymbolBook) : SymbolBook :=
  match b with
  | [] => []
  | (p, os) :: b => if acceptable p then (p, os) :: accepted acceptable b else []
  end.
Fixpoint refused (acceptable : Z → bool) (b : SymbolBook) : SymbolBook :=
  match b with
  | [] => []
  | (p, os) :: b' => if acceptable p then refused acceptable b' else b
  end.

(** Fills as executions of a taker, numbered from a counter. *)
Fixpoint number_executions (clock : Z → Z) (o : Order) (counter : Z) (fills : list (Z * Z))
    : list Execution :=
  match fills with
  | [] => []
  | (p, q) :: fills =>
      let id := u64 (counter + 1) in
      mkExecution id (order_id o) (symbol o) (side o) (cents_to_price p) q (clock id)
        :: number_executions clock o id fills
  end.

(** ** Well-formed orders, books and engines *)
Definition order_wf (o : Order) : Prop := 0 ≤ filled_quantity o ≤ quantity o ∧ quantity o < 2 ^ 32.
Definition resting_wf (o : Order) : Prop :=
  0 ≤ filled_quantity o < quantity o ∧ quantity o < 2 ^ 32.

(** Levels in ascending order of price, each resting order with something open. *)
Definition sbook_wf (b : SymbolBook) : Prop :=
  StronglySorted Z.lt (map fst b) ∧ Forall (λ kv, Forall resting_wf kv.2) b.
Definition books_wf (m : gmap string SymbolBook) : Prop := map_Forall (λ _, sbook_wf) m.
Record engine_wf (eng : MatchingEngine) : Prop := {
  ew_buy : books_wf (buy_book eng);
  ew_sell : books_wf (sell_book eng);
  ew_order : in_range 64 (order_counter eng);
  ew_exec : in_range 64 (execution_counter eng) }.

Lemma greedy_nonneg n l : 0 ≤ n → Forall (λ kv, 0 < kv.2) l → 0 ≤ total (greedy n l) ≤ n.
Proof.
  intros Hn Hl. revert n Hn. induction Hl as [|[p q] l Hq _ IH]; intros n Hn; simpl in *; [lia|].
  destruct (0 <? n) eqn:Hz; zbool; simpl; [|lia].
  specialize (IH (n - Z.min n q) ltac:(lia)). unfold total in *. simpl. lia.
Qed.

Lemma greedy_app n l k :
  0 ≤ n → Forall (λ kv, 0 < kv.2) l →
  greedy n (l ++ k) = greedy n l ++ greedy (n - total (greedy n l)) k.
Proof.
  intros Hn Hl. revert n Hn. induction Hl as [|[p q] l Hq _ IH]; intros n Hn; simpl in *.
  - by rewrite Z.sub_0_r.
  - destruct (0 <? n) eqn:Hz; zbool; simpl.
    + rewrite (IH (n - Z.min n q)) by lia. unfold total. simpl. do 3 f_equal. lia.
    + assert (n = 0) as -> by lia. by destruct k as [|[??]].
Qed.

Lemma greedy_rest_app n l k :
  0 ≤ n → Forall (λ kv, 0 < kv.2) l →
  greedy_rest n (l ++ k) = greedy_rest n l ++ greedy_rest (n - total (greedy n l)) k.
Proof.
  intros Hn Hl. revert n Hn. induction Hl as [|[p q] l Hq _ IH]; intros n Hn; simpl in *.
  - by rewrite Z.sub_0_r.
  - destruct (0 <? n) eqn:Hz; zbool; simpl.
    + destruct (q <=? n) eqn:Hqn; zbool; simpl.
      * rewrite (IH (n - q)) by lia. unfold total. simpl.
        rewrite (Z.min_r n q) by lia. do 2 f_equal. lia.
      * unfold total. simpl. rewrite (Z.min_l n q), Z.sub_diag by lia.
        assert (greedy 0 l = []) as -> by (by destruct l as [|[??]]). simpl.
        do 2 f_equal. assert (n - (n + 0) = 0) as -> by lia. by destruct k as [|[??]].
    + assert (n = 0) as -> by lia. unfold total. simpl. do 2 f_equal. by destruct k as [|[??]].
Qed.

(** What is taken and what is left add up. *)
Lemma greedy_total n l :
  0 ≤ n → Forall (λ kv, 0 < kv.2) l → total (greedy n l) + total (greedy_rest n l) = total l.
Proof.
  intros Hn Hl. revert n Hn. induction Hl as [|[p q] l Hq _ IH]; intros n Hn; simpl in *; [done|].
  destruct (0 <? n) eqn:Hz; zbool; [|done].
  destruct (q <=? n) eqn:Hqn; zbool; unfold total in *; simpl.
  - specialize (IH (n - q) ltac:(lia)). rewrite (Z.min_r n q) by lia. lia.
  - rewrite (Z.min_l n q), Z.sub_diag by lia.
    assert (greedy 0 l = []) as -> by (by destruct l as [|[??]]). simpl. lia.
Qed.

(** Either everything wanted is taken, or the whole queue is. *)
Lemma greedy_total_min n l :
  0 ≤ n → Forall (λ kv, 0 < kv.2) l → total (greedy n l) = Z.min n (total l).
Proof.
  intros Hn Hl. revert n Hn. induction Hl as [|[p q] l Hq Hl' IH]; intros n Hn; simpl in *.
  - unfold total. simpl. lia.
  - assert (0 ≤ total l) by (clear - Hl'; unfold total; induction Hl'; simpl in *; lia).
    destruct (0 <? n) eqn:Hz; zbool; unfold total in *; simpl.
    + rewrite IH by lia. lia.
    + lia.
Qed.

Lemma offers_pos p os : Forall resting_wf os → Forall (λ kv, 0 < kv.2) (offers p os).
Proof. induction 1 as [|o os Ho _ IH]; simpl; constructor; [|done]. unfold open_qty, resting_wf in *. simpl. lia. Qed.
Lemma queue_pos b : Forall (λ kv, Forall resting_wf kv.2) b → Forall (λ kv, 0 < kv.2) (book_queue b).
Proof.
  unfold book_queue. induction 1 as [|[p os] b Ho _ IH]; simpl; [constructor|].
  apply Forall_app; split; [by apply offers_pos|done].
Qed.

Lemma number_executions_app clock o c l k :
  in_range 64 c →
  number_executions clock o c (l ++ k) =
  number_executions clock o c l ++ number_executions clock o (u64 (c + len l)) k.
Proof.
  revert c. induction l as [|[p q] l IH]; intros c Hc; simpl.
  - change (@len (Z * Z) []) with 0. by rewrite Z.add_0_r, wrap_id.
  - rewrite IH by (by apply wrap_range). do 3 f_equal. rewrite len_cons. unfold wrap.
    rewrite Zplus_mod_idemp_l. f_equal. lia.
Qed.

(** ** The loops take greedily *)
Section loops.
Context (clock : Z → Z).

(** The loop variables after some fills. *)
Definition advance (st : FillState) (l : list (Z * Z)) : FillState :=
  mkFill (with_filled (fs_order st) (filled_quantity (fs_order st) + total l))
    (fs_remaining st - total l) (u64 (fs_counter st + len l))
    (fs_executions st ++ number_executions clock (fs_order st) (fs_counter st) l).

(** A taker that still wants what it lacks. *)
Definition taking (st : FillState) : Prop :=
  order_wf (fs_order st) ∧ fs_remaining st = open_qty (fs_order st) ∧ in_range 64 (fs_counter st).

Lemma number_with_filled o q c l :
  number_executions clock (with_filled o q) c l = number_executions clock o c l.
Proof. revert c. induction l as [|[??] l IH]; intros c; simpl; [done|]. by rewrite IH. Qed.

Lemma advance_nil st : in_range 64 (fs_counter st) → advance st [] = st.
Proof.
  intros Hc. destruct st as [[] ? ? ?]. unfold advance, total, with_filled in *. simpl in *.
  change (@len (Z * Z) []) with 0. by rewrite app_nil_r, !Z.add_0_r, Z.sub_0_r, wrap_id.
Qed.

Lemma advance_app st l k : in_range 64 (fs_counter st) → advance (advance st l) k = advance st (l ++ k).
Proof.
  intros Hc. unfold advance. simpl. rewrite number_with_filled, number_executions_app by done.
  rewrite <- app_assoc. unfold total. rewrite zsum_app, len_app.
  unfold with_filled; simpl. f_equal; [f_equal; lia|lia|].
  unfold wrap. rewrite Zplus_mod_idemp_l. f_equal. lia.
Qed.

Lemma advance_taking st l : taking st → 0 ≤ total l ≤ fs_remaining st → taking (advance st l).
Proof.
  intros (Ho & Hr & Hc) Hl. unfold taking, order_wf, open_qty in *. simpl.
  split_and!; try lia; by apply wrap_range.
Qed.

Lemma fill_resting_spec p st o :
  taking st → resting_wf o →
  let q := Z.min (fs_remaining st) (open_qty o) in
  fill_resting clock p st o = (advance st [(p, q)], with_filled o (filled_quantity o + q)).
Proof.
  intros ([Hf Hq] & Hr & Hc) Ho q. unfold fill_resting, advance, resting_wf, open_qty in *.
  rewrite (wrap_id 32 (quantity o - _)) by (unfold in_range; lia). fold q.
  unfold total. simpl. change (@len (Z * Z) [_]) with 1. rewrite !Z.add_0_r.
  rewrite !(wrap_id 32) by (unfold in_range; lia). done.
Qed.

Lemma fill_level_cons p st o os :
  fill_level clock p st (o :: os) =
  if 0 <? fs_remaining st then
    let '(st, o) := fill_resting clock p st o in
    let '(st, os) := fill_level clock p st os in
    (st, if filled_quantity o =? quantity o then os else with_status o PartiallyFilled :: os)
  else (st, o :: os).
Proof. done. Qed.

Lemma fill_level_spec p st os :
  taking st → Forall resting_wf os →
  ∃ os', fill_level clock p st os = (advance st (greedy (fs_remaining st) (offers p os)), os') ∧
    offers p os' = greedy_rest (fs_remaining st) (offers p os) ∧ Forall resting_wf os'.
Proof.
  intros Hst Hos. revert st Hst. induction Hos as [|o os Ho Hos IH]; intros st Hst.
  - exists []. simpl. rewrite advance_nil by apply Hst. auto.
  - rewrite fill_level_cons. simpl offers. cbn [greedy greedy_rest]. destruct (0 <? fs_remaining st) eqn:Hz; zbool.
    2:{ exists (o :: os). rewrite advance_nil by apply Hst. auto. }
    pose proof (fill_resting_spec p st o Hst Ho) as Hf. cbv zeta in Hf. rewrite Hf.
    set (q := Z.min (fs_remaining st) (open_qty o)) in *.
    assert (0 < open_qty o) by (unfold resting_wf, open_qty in *; lia).
    destruct (IH (advance st [(p, q)])) as (os' & -> & Hos' & Hwf).
    { apply advance_taking; [done|]. unfold total. simpl. lia. }
    assert (fs_remaining (advance st [(p, q)]) = fs_remaining st - q) as Hrem
      by (unfold advance, total; simpl; lia).
    rewrite Hrem in *. rewrite advance_app by apply Hst. simpl.
    eexists; split; [reflexivity|]. unfold open_qty, resting_wf in *.
    destruct (_ =? quantity o) eqn:He; zbool.
    + rewrite (proj2 (Z.leb_le _ _)) by lia. split; [|done]. rewrite Hos'. f_equal. lia.
    + rewrite (proj2 (Z.leb_gt _ _)) by lia. simpl. split.
      * assert (fs_remaining st - q = 0) as Hz0 by lia. rewrite Hos', Hz0. f_equal.
        -- unfold open_qty. simpl. f_equal. lia.
        -- by destruct (offers p os) as [|[??]].
      * constructor; [|done]. unfold resting_wf. simpl. lia.
Qed.

Lemma fill_levels_spec acc st b :
  taking st → Forall (λ kv, Forall resting_wf kv.2) b →
  ∃ b', fill_levels clock acc st b =
      (advance st (greedy (fs_remaining st) (book_queue (accepted acc b))), b') ∧
    book_queue b' = greedy_rest (fs_remaining st) (book_queue (accepted acc b)) ++ book_queue (refused acc b) ∧
    map fst b' = map fst b ∧ Forall (λ kv, Forall resting_wf kv.2) b'.
Proof.
  intros Hst Hb. revert st Hst. induction Hb as [|[p os] b Hos Hb IH]; intros st Hst; simpl.
  - exists []. rewrite advance_nil by apply Hst. auto.
  - simpl in Hos. destruct (acc p) eqn:Hp; simpl.
    2:{ exists ((p, os) :: b). rewrite advance_nil by apply Hst. auto. }
    destruct (fs_remaining st =? 0) eqn:Hz; zbool.
    { exists ((p, os) :: b). rewrite Hz.
      assert (∀ l, greedy 0 l = [] ∧ greedy_rest 0 l = l) as Hg by (by intros [|[??]]).
      rewrite !(proj1 (Hg _)), !(proj2 (Hg _)), advance_nil by apply Hst. split_and!; [done| |done|by constructor].
      clear. simpl. unfold book_queue. simpl. rewrite <- app_assoc. f_equal.
      induction b as [|[p' os'] b IH]; simpl; [done|]. destruct (acc p'); simpl; [|done].
      rewrite <- app_assoc. by f_equal. }
    destruct (fill_level_spec p st os Hst Hos) as (os' & -> & Hos' & Hwf).
    pose proof Hst as (Hwo & Hr & _). assert (0 ≤ fs_remaining st)
      by (unfold order_wf, open_qty in *; lia).
    pose proof (greedy_nonneg (fs_remaining st) (offers p os) ltac:(done) (offers_pos p os Hos)).
    destruct (IH (advance st (greedy (fs_remaining st) (offers p os)))) as (b' & -> & Hq & Hk & Hwf').
    { by apply advance_taking. }
    simpl in *. rewrite advance_app by apply Hst. eexists; split; [|split_and!].
    + unfold book_queue at 2. simpl. by rewrite <- greedy_app by (auto using offers_pos).
    + unfold book_queue in *. simpl. rewrite Hq, Hos', greedy_rest_app by (auto using offers_pos).
      by rewrite <- app_assoc.
    + simpl. by rewrite Hk.
    + by constructor.
Qed.
End loops.

Lemma accepted_refused_wf acc b :
  Forall (λ kv, Forall resting_wf kv.2) b →
  Forall (λ kv, Forall resting_wf kv.2) (accepted acc b) ∧
  Forall (λ kv, Forall resting_wf kv.2) (refused acc b).
Proof.
  induction 1 as [|[p os] b Ho Hb IH]; simpl; [done|]. destruct (acc p).
  - destruct IH. split; [by constructor|done].
  - split; [constructor|by constructor].
Qed.

(** Pushing a resting order keeps the levels sorted and the orders open. *)
Lemma push_level_keys c o b p : p ∈ map fst (push_level c o b) → p = c ∨ p ∈ map fst b.
Proof.
  induction b as [|[p' os] b IH]; simpl.
  - rewrite list_elem_of_singleton. auto.
  - destruct (c <? p'); [|destruct (c =? p') eqn:He]; simpl;
      rewrite !elem_of_cons; intuition.
Qed.
Lemma push_level_wf c o b : resting_wf o → sbook_wf b → sbook_wf (push_level c o b).
Proof.
  intros Ho [Hs Hf]. induction b as [|[p os] b IH].
  - split; simpl; [apply SSorted_cons; constructor|]. constructor; [|done]. by constructor.
  - simpl in *. apply StronglySorted_inv in Hs as [Hs Hp]. apply Forall_cons in Hf as [Hos Hf].
    destruct (c <? p) eqn:Hc; zbool; [|destruct (c =? p) eqn:He; zbool].
    + split; simpl; [|by constructor; [constructor|constructor]].
      apply SSorted_cons; [by apply SSorted_cons|]. constructor; [done|].
      eapply Forall_impl; [exact Hp|]. simpl. lia.
    + split; simpl; [by constructor|]. constructor; [|done]. simpl in *. by apply Forall_app_2; [|constructor].
    + destruct (IH Hs Hf) as [Hs' Hf']. split; simpl; [|by constructor].
      constructor; [done|]. rewrite Forall_forall. intros x Hx.
      apply push_level_keys in Hx as [->|Hx]; [lia|]. by rewrite Forall_forall in Hp; apply Hp.
Qed.

Section theorems.
Context (clock : Z → Z).

Definition own_book (eng : MatchingEngine) (s : OrderSide) : gmap string SymbolBook :=
  match s with Buy => buy_book eng | Sell => sell_book eng end.
Definition symbol_levels (m : gmap string SymbolBook) (sym : string) : SymbolBook := default [] (m !! sym).

Lemma symbol_levels_wf m sym : books_wf m → sbook_wf (symbol_levels m sym).
Proof.
  intros Hm. unfold symbol_levels. destruct (m !! sym) as [b|] eqn:Hb; simpl; [by eapply Hm|].
  split; constructor.
Qed.
Lemma opposite_wf eng s : engine_wf eng → books_wf (opposite_book eng s).
Proof. intros [Hb Hs _ _]. by destruct s. Qed.

(** What matching does to the engine: the opposite levels of the symbol and
    the execution counter change. *)
Record matched (eng eng' : MatchingEngine) (o : Order) (acc : Z → bool) (l : list (Z * Z)) : Prop := {
  md_fills : l = greedy (open_qty o) (book_queue (accepted acc (symbol_levels (opposite_book eng (side o)) (symbol o))));
  md_queue : book_queue (symbol_levels (opposite_book eng' (side o)) (symbol o)) =
    greedy_rest (open_qty o) (book_queue (accepted acc (symbol_levels (opposite_book eng (side o)) (symbol o)))) ++
    book_queue (refused acc (symbol_levels (opposite_book eng (side o)) (symbol o)));
  md_counter : execution_counter eng' = u64 (execution_counter eng + len l);
  md_others : ∀ sym, sym ≠ symbol o → opposite_book eng' (side o) !! sym = opposite_book eng (side o) !! sym }.

Definition start_fill (eng : MatchingEngine) (o : Order) : FillState :=
  mkFill o (open_qty o) (execution_counter eng) [].

Lemma match_opposite_spec eng acc o :
  engine_wf eng → order_wf o →
  ∃ eng' l, match_opposite clock eng acc o = (eng', advance clock (start_fill eng o) l) ∧
    matched eng eng' o acc l ∧ own_book eng' (side o) = own_book eng (side o) ∧
    order_counter eng' = order_counter eng ∧ current_prices eng' = current_prices eng ∧
    engine_wf eng'.
Proof.
  intros Hw Ho. pose proof (opposite_wf eng (side o) Hw) as Hopp.
  pose proof Hw as [_ _ _ Hc]. unfold match_opposite.
  rewrite (wrap_id 32) by (unfold order_wf, in_range in *; lia).
  assert (taking (start_fill eng o)) as Ht by (by split_and!).
  destruct (opposite_book eng (side o) !! symbol o) as [b|] eqn:Hb.
  - destruct (Hopp _ _ Hb) as [Hs Hf].
    destruct (fill_levels_spec clock acc _ b Ht Hf) as (b' & Hfl & Hq & Hk & Hwf).
    fold (open_qty o). fold (start_fill eng o). rewrite Hfl.
    eexists _, _; split; [reflexivity|]. assert (sbook_wf b') as Hb'.
    { split; [by rewrite Hk|done]. }
    assert (∀ m, books_wf m → books_wf (<[symbol o:=b']> m)) as Hins by (intros; by apply map_Forall_insert_2).
    split_and!.
    + split; unfold symbol_levels.
      * by rewrite Hb.
      * rewrite Hb. destruct (side o); simpl; by rewrite lookup_insert_eq.
      * by destruct (side o).
      * intros sym Hsym. destruct (side o); simpl; by rewrite lookup_insert_ne.
    + by destruct (side o).
    + by destruct (side o).
    + by destruct (side o).
    + destruct Hw as [Hwb Hws Hwo Hwe]. destruct (side o); split; simpl; auto; by apply wrap_range.
  - eexists eng, []. fold (open_qty o). fold (start_fill eng o). rewrite advance_nil by done.
    split; [reflexivity|]. split_and!; try done. split; unfold symbol_levels.
    + by rewrite Hb.
    + by rewrite Hb.
    + change (@len (Z * Z) []) with 0. by rewrite Z.add_0_r, wrap_id.
    + done.
Qed.

(** Bounds of what a taker gets. *)
Lemma matched_total eng eng' o acc l :
  matched eng eng' o acc l → engine_wf eng → order_wf o →
  0 ≤ total l ≤ open_qty o ∧
  total l = Z.min (open_qty o) (total (book_queue (accepted acc (symbol_levels (opposite_book eng (side o)) (symbol o))))).
Proof.
  intros [-> _ _ _] Hw Ho.
  destruct (symbol_levels_wf _ (symbol o) (opposite_wf eng (side o) Hw)) as [_ Hf].
  pose proof (queue_pos _ (proj1 (accepted_refused_wf acc _ Hf))) as Hp.
  assert (0 ≤ open_qty o) by (unfold order_wf, open_qty in *; lia).
  split; [by apply greedy_nonneg|by apply greedy_total_min].
Qed.

Lemma fill_status_fields o :
  filled_quantity (fill_status o) = filled_quantity o ∧ quantity (fill_status o) = quantity o ∧
  (order_wf (fill_status o) ↔ order_wf o).
Proof. unfold fill_status. repeat case_match; done. Qed.

(** Which levels an order takes. *)
Definition limit_takes (o : Order) : Z → bool :=
  match price o with
  | Some limit => acceptable_level (side o) (price_to_cents limit)
  | None => λ _, false
  end.
Definition takes (o : Order) : Z → bool :=
  match order_type o with Market => λ _, true | _ => limit_takes o end.

Lemma rest_order_wf eng c o : engine_wf eng → resting_wf o → engine_wf (rest_order eng c o).
Proof.
  intros Hw Ho. pose proof (symbol_levels_wf _ (symbol o) (ew_buy _ Hw)).
  pose proof (symbol_levels_wf _ (symbol o) (ew_sell _ Hw)).
  destruct Hw as [Hwb Hws Hwo Hwe]. unfold rest_order.
  destruct (side o); split; simpl; try done; apply map_Forall_insert_2; auto using push_level_wf.
Qed.

Lemma rest_order_opposite eng c o :
  opposite_book (rest_order eng c o) (side o) = opposite_book eng (side o) ∧
  execution_counter (rest_order eng c o) = execution_counter eng.
Proof. unfold rest_order. by destruct (side o) eqn:Hs. Qed.

Lemma refuse_all_matched eng o : engine_wf eng → matched eng eng o (λ _, false) [].
Proof.
  intros Hw. split; try done.
  - by destruct (symbol_levels _ _) as [|[??]].
  - by destruct (symbol_levels _ _) as [|[??]].
  - change (@len (Z * Z) []) with 0. rewrite Z.add_0_r, wrap_id; [done|apply Hw].
Qed.

(** The unfilled rest of a limit order is in the book of its side. *)
Definition rested_book (eng : MatchingEngine) (o : Order) (l : list (Z * Z)) : gmap string SymbolBook :=
  let own := own_book eng (side o) in
  match price o with
  | Some limit =>
      if (total l <? open_qty o) && bool_decide (order_type o = Limit)
      then <[symbol o := push_level (price_to_cents limit) (with_filled o (filled_quantity o + total l))
                           (symbol_levels own (symbol o))]> own
      else own
  | None => own
  end.

(** The taker after its fills; a limit order without a price is left as it is. *)
Definition filled_order (o : Order) (l : list (Z * Z)) : Order :=
  fill_status (with_filled o (filled_quantity o + total l)).
Definition limited_order (o : Order) (l : list (Z * Z)) : Order :=
  match price o with Some _ => filled_order o l | None => o end.

Lemma filled_order_fields o l :
  filled_quantity (filled_order o l) = filled_quantity o + total l ∧
  quantity (filled_order o l) = quantity o.
Proof. unfold filled_order. by destruct (fill_status_fields (with_filled o (filled_quantity o + total l))) as (-> & -> & _). Qed.

Lemma match_limit_spec eng o :
  engine_wf eng → order_wf o →
  ∃ eng' l, match_limit_order clock eng o =
      (eng', (limited_order o l, number_executions clock o (execution_counter eng) l)) ∧
    matched eng eng' o (limit_takes o) l ∧ own_book eng' (side o) = rested_book eng o l ∧ engine_wf eng'.
Proof.
  intros Hw Ho. unfold match_limit_order, limit_takes, rested_book, limited_order.
  destruct (price o) as [lp|] eqn:Hp.
  2:{ exists eng, []. pose proof (refuse_all_matched eng o Hw). by split_and!. }
  destruct (match_opposite_spec eng (acceptable_level (side o) (price_to_cents lp)) o Hw Ho)
    as (eng' & l & -> & Hm & Hown & _ & _ & Hw').
  destruct (matched_total _ _ _ _ _ Hm Hw Ho) as [Ht _]. simpl.
  replace (0 <? open_qty o - total l) with (total l <? open_qty o)
    by (apply eq_bool_prop_intro; rewrite !Is_true_true, !Z.ltb_lt; lia).
  destruct ((total l <? open_qty o) && _) eqn:Hr; cbn iota.
  - apply andb_true_iff in Hr as [Hr Hlim]. zbool. set (o1 := with_filled o (filled_quantity o + total l)).
    assert (resting_wf o1) as Ho1 by (unfold resting_wf, order_wf, open_qty in *; simpl; lia).
    destruct (rest_order_opposite eng' (price_to_cents lp) o1) as [Hro Hrc].
    eexists _, l; split; [reflexivity|]. split_and!; [| |by apply rest_order_wf].
    2:{ rewrite <- Hown, (proj2 (Z.ltb_lt (total l) _)) by lia.
        rewrite (bool_decide_true (order_type o = Limit)) by by apply bool_decide_eq_true in Hlim.
        unfold o1, rest_order, symbol_levels. simpl. by destruct (side o). }
    change (side o1) with (side o) in Hro.
    destruct Hm. split; rewrite ?Hro, ?Hrc; done.
  - exists eng', l. split; [done|]. split_and!; [done| |done]. rewrite Hown.
    by match goal with |- _ = (if ?b then _ else _) => change b with ((total l <? open_qty o) && bool_decide (order_type o = Limit)); rewrite Hr end.
Qed.

Lemma match_market_spec eng o :
  engine_wf eng → order_wf o →
  ∃ eng' l, match_market_order clock eng o =
      (eng', (filled_order o l, number_executions clock o (execution_counter eng) l)) ∧
    matched eng eng' o (λ _, true) l ∧ own_book eng' (side o) = own_book eng (side o) ∧ engine_wf eng'.
Proof.
  intros Hw Ho. unfold match_market_order.
  destruct (match_opposite_spec eng (λ _, true) o Hw Ho) as (eng' & l & -> & Hm & Hown & _ & _ & Hw').
  by eexists _, l.
Qed.

Lemma number_executions_total o c l :
  zsum ex_quantity (number_executions clock o c l) = total l.
Proof. unfold total. revert c. induction l as [|[p q] l IH]; intros c; simpl; [done|]. by rewrite IH. Qed.
Lemma number_executions_pos o c l :
  Forall (λ kv, 0 < kv.2) l → Forall (λ x, 0 < ex_quantity x ∧ ex_order_id x = order_id o) (number_executions clock o c l).
Proof.
  intros Hl. revert c. induction Hl as [|[p q] l Hq _ IH]; intros c; simpl; constructor; [done|apply IH].
Qed.
Lemma greedy_pos n l : Forall (λ kv, 0 < kv.2) l → Forall (λ kv, 0 < kv.2) (greedy n l).
Proof.
  intros Hl. revert n. induction Hl as [|[p q] l Hq _ IH]; intros n; simpl in *; [done|].
  destruct (0 <? n) eqn:Hn; zbool; constructor; [simpl; lia|apply IH].
Qed.
Lemma matched_pos eng eng' o acc l :
  matched eng eng' o acc l → engine_wf eng → Forall (λ kv, 0 < kv.2) l.
Proof.
  intros [-> _ _ _] Hw. apply greedy_pos, queue_pos.
  destruct (symbol_levels_wf _ (symbol o) (opposite_wf eng (side o) Hw)) as [_ Hf].
  by apply accepted_refused_wf.
Qed.

(** *** Properties *)

(** C22. Matching is a greedy walk through the offers.  A market, limit or IOC
    order takes units from the opposite levels it accepts, in ascending order
    of price and, within a level, oldest first, until it is full or they are
    exhausted; its executions are exactly these fills under consecutive ids,
    the offers left are the rest of the walk, and the unfilled rest of a limit
    order joins the end of its price level on its own side. *)
Theorem match_order_greedy eng o eng' o' execs :
  engine_wf eng → order_wf o → order_type o = Market ∨ order_type o = Limit ∨ order_type o = IOC →
  match_order clock eng o = (eng', (o', execs)) →
  ∃ l, matched eng eng' o (takes o) l ∧
    execs = number_executions clock o (execution_counter eng) l ∧
    filled_quantity o' = filled_quantity o + total l ∧ quantity o' = quantity o ∧
    own_book eng' (side o) = (if bool_decide (order_type o = Market) then own_book eng (side o)
                              else rested_book eng o l).
Proof.
  intros Hw Ho Ht. unfold match_order, convert_stop, takes.
  destruct (match_limit_spec eng o Hw Ho) as (e1 & l1 & H1 & Hm1 & Hb1 & _).
  destruct (match_market_spec eng o Hw Ho) as (e2 & l2 & H2 & Hm2 & Hb2 & _).
  assert (filled_quantity (limited_order o l1) = filled_quantity o + total l1 ∧
          quantity (limited_order o l1) = quantity o) as [Hf1 Hq1].
  { unfold limited_order. destruct (price o) eqn:Hp; [apply filled_order_fields|].
    destruct (matched_total _ _ _ _ _ Hm1 Hw Ho) as [_ ->].
    unfold limit_takes. rewrite Hp. unfold order_wf, open_qty in *.
    replace (accepted _ _) with (@nil (Z * list Order)) by (by destruct (symbol_levels _ _) as [|[??]]).
    unfold total. simpl. lia. }
  destruct Ht as [Ht|[Ht|Ht]]; rewrite Ht; cbn; rewrite Ht, ?H1, ?H2; intros He; simplify_eq.
  - exists l2. destruct (filled_order_fields o l2). by split_and!.
  - exists l1. by split_and!.
  - exists l1. by case_match; split_and!.
Qed.

Lemma greedy_all n l :
  Forall (λ kv, 0 < kv.2) l → total l ≤ n → greedy n l = l ∧ greedy_rest n l = [].
Proof.
  intros Hl. revert n. induction Hl as [|[p q] l Hq Hl IH]; intros n Hn; [done|].
  unfold total in *. simpl in *. assert (0 ≤ zsum snd l) by (clear - Hl; induction Hl; simpl in *; lia).
  rewrite (proj2 (Z.ltb_lt 0 n)), (proj2 (Z.leb_le q n)), Z.min_r by lia.
  destruct (IH (n - q) ltac:(lia)) as [-> ->]. done.
Qed.

(** The result of [convert_stop] is the order with another type. *)
Lemma convert_stop_wf eng o o1 :
  convert_stop eng o = Some o1 → ∃ t, o1 = with_type o t.
Proof.
  assert (o = with_type o (order_type o)) as Hid by by destruct o.
  unfold convert_stop. repeat case_match; intros; simplify_eq; eauto.
Qed.

Lemma match_limit_kept eng o :
  engine_wf eng → order_wf o →
  ∃ eng' o' execs, match_limit_order clock eng o = (eng', (o', execs)) ∧ engine_wf eng' ∧ order_wf o' ∧
    filled_quantity o' = filled_quantity o + zsum ex_quantity execs ∧ quantity o' = quantity o ∧
    Forall (λ x, 0 < ex_quantity x ∧ ex_order_id x = order_id o) execs.
Proof.
  intros Hw Ho. destruct (match_limit_spec eng o Hw Ho) as (e & l & -> & Hm & _ & Hw').
  destruct (matched_total _ _ _ _ _ Hm Hw Ho) as [Ht Htm].
  eexists _, _, _; split; [reflexivity|]. rewrite number_executions_total.
  assert (filled_quantity (limited_order o l) = filled_quantity o + total l ∧
          quantity (limited_order o l) = quantity o) as [Hf Hq].
  { unfold limited_order. destruct (price o) eqn:Hp; [apply filled_order_fields|].
    rewrite Htm. unfold limit_takes. rewrite Hp.
    replace (accepted _ _) with (@nil (Z * list Order)) by (by destruct (symbol_levels _ _) as [|[??]]).
    unfold order_wf, open_qty, total in *. simpl. lia. }
  pose proof (number_executions_pos o (execution_counter eng) l (matched_pos _ _ _ _ _ Hm Hw)).
  unfold order_wf, open_qty in *. split_and!; try done; lia.
Qed.

(** C23. Every order, of every type, keeps the engine well formed (levels in
    ascending order, every resting order with something open, no more filled
    than its quantity) and comes back with exactly the executed quantity added
    to its filled quantity; every execution is of the order and not empty. *)
Theorem match_order_preserves_wf eng o eng' o' execs :
  engine_wf eng → order_wf o → match_order clock eng o = (eng', (o', execs)) →
  engine_wf eng' ∧ order_wf o' ∧ quantity o' = quantity o ∧
  filled_quantity o' = filled_quantity o + zsum ex_quantity execs ∧
  Forall (λ x, 0 < ex_quantity x ∧ ex_order_id x = order_id o) execs.
Proof.
  intros Hw Ho. unfold match_order.
  assert (∀ o, order_wf o → filled_quantity o = filled_quantity o + zsum ex_quantity []) as Hz
    by (intros; simpl; lia).
  destruct (convert_stop eng o) as [o1|] eqn:Hc.
  2:{ intros [= <- <- <-]. split_and!; auto; by apply Ho. }
  destruct (convert_stop_wf _ _ _ Hc) as [t Ht].
  assert (order_wf o1) as Ho1 by (by rewrite Ht).
  destruct (match_limit_kept eng o1 Hw Ho1) as (e1 & u1 & x1 & H1 & Hw1 & Hu1 & Hf1 & Hq1 & Hx1).
  assert (order_id o1 = order_id o ∧ filled_quantity o1 = filled_quantity o ∧ quantity o1 = quantity o)
    as (<- & <- & <-) by (by rewrite Ht).
  destruct (order_type o1).
  - destruct (match_market_spec eng o1 Hw Ho1) as (e2 & l2 & -> & Hm2 & _ & Hw2).
    intros [= <- <- <-]. destruct (filled_order_fields o1 l2) as [Hf Hq].
    destruct (matched_total _ _ _ _ _ Hm2 Hw Ho1) as [Ht2 _]. rewrite number_executions_total.
    pose proof (number_executions_pos o1 (execution_counter eng) l2 (matched_pos _ _ _ _ _ Hm2 Hw)).
    unfold order_wf, open_qty in *. split_and!; try done; lia.
  - rewrite H1. intros [= <- <- <-]. by split_and!.
  - rewrite H1. intros [= <- <- <-]. by case_match.
  - rewrite H1. intros [= <- Hr]. case_match; simplify_eq; split_and!; auto.
    simpl. lia.
  - intros [= <- <- <-]. split_and!; auto; by apply Ho1.
  - intros [= <- <- <-]. split_and!; auto; by apply Ho1.
Qed.

(** A fill-or-kill order that cannot be filled is cancelled with no
    execution reported, and yet the book loses everything the order accepted:
    all these offers are gone and the execution ids are used up. *)
Lemma fok_kill_destroys_offers eng o eng' o' execs :
  engine_wf eng → order_wf o → order_type o = FOK →
  let offered := book_queue (accepted (limit_takes o) (symbol_levels (opposite_book eng (side o)) (symbol o))) in
  total offered < open_qty o →
  match_order clock eng o = (eng', (o', execs)) →
  o' = with_status o Cancelled ∧ execs = [] ∧
  book_queue (symbol_levels (opposite_book eng' (side o)) (symbol o)) =
    book_queue (refused (limit_takes o) (symbol_levels (opposite_book eng (side o)) (symbol o))) ∧
  execution_counter eng' = u64 (execution_counter eng + len offered).
Proof.
  intros Hw Ho Ht offered Hlt. unfold match_order, convert_stop. rewrite Ht. cbn. rewrite Ht.
  destruct (match_limit_spec eng o Hw Ho) as (e & l & -> & Hm & _ & _).
  destruct (matched_total _ _ _ _ _ Hm Hw Ho) as [Ht0 Htot].
  assert (total l < open_qty o) as Hltl by (rewrite Htot; by apply Z.min_lt_iff; right).
  destruct (symbol_levels_wf _ (symbol o) (opposite_wf eng (side o) Hw)) as [_ Hf].
  destruct (greedy_all (open_qty o) offered) as [Hga Hgr];
    [by apply queue_pos, accepted_refused_wf|by apply Z.lt_le_incl|].
  assert (filled_quantity (limited_order o l) ≠ quantity o) as Hne.
  { unfold limited_order, order_wf, open_qty in *. destruct (price o); [|lia].
    destruct (filled_order_fields o l) as [-> _]. lia. }
  rewrite (proj2 (Z.eqb_neq _ _) Hne). intros [= <- <- <-].
  destruct Hm as [Hl Hq Hcnt _]. fold offered in Hl, Hq. rewrite Hga in Hl. rewrite Hgr in Hq.
  by rewrite Hl in Hcnt.
Qed.

Lemma first_refused acc b :
  match b with (p, _) :: _ => acc p = false | [] => True end → accepted acc b = [] ∧ refused acc b = b.
Proof. destruct b as [|[p os] b]; simpl; [done|]. by intros ->. Qed.

(** A limit order to sell looks at the lowest bid first and stops there: if
    that bid is below the limit nothing is executed, however many higher bids
    the levels above it hold. *)
Lemma low_bid_blocks_sell eng o p os higher limit eng' o' execs :
  engine_wf eng → order_wf o → side o = Sell → order_type o = Limit → price o = Some limit →
  buy_book eng !! symbol o = Some ((p, os) :: higher) → p < price_to_cents limit →
  match_order clock eng o = (eng', (o', execs)) →
  execs = [] ∧ filled_quantity o' = filled_quantity o ∧
  book_queue (symbol_levels (buy_book eng') (symbol o)) = book_queue ((p, os) :: higher).
Proof.
  intros Hw Ho Hs Ht Hp Hb Hlt. unfold match_order, convert_stop. rewrite Ht. cbn. rewrite Ht.
  destruct (match_limit_spec eng o Hw Ho) as (e & l & -> & [Hl Hq _ _] & _ & _).
  unfold limit_takes, symbol_levels in *. rewrite Hp, Hs in *. simpl in Hl, Hq. rewrite Hb in Hl, Hq.
  destruct (first_refused (acceptable_level Sell (price_to_cents limit)) ((p, os) :: higher)) as [Ha Hr].
  { simpl. by apply Z.leb_gt. }
  simpl in Ha, Hr, Hl, Hq. rewrite Ha in Hl. rewrite Ha, Hr in Hq. simpl in Hl. intros [= <- <- <-]. subst l.
  split_and!; [done| |exact Hq].
  unfold limited_order. rewrite Hp. destruct (filled_order_fields o []) as [-> _]. unfold total. simpl. lia.
Qed.

(** Levels in ascending order give offers in ascending order. *)
Definition price_le (x y : Z * Z) : Prop := x.1 ≤ y.1.

Lemma book_queue_elem b x : x ∈ book_queue b → x.1 ∈ map fst b.
Proof.
  induction b as [|[p os] b IH]; [by intros ?%elem_of_nil|].
  change (book_queue ((p, os) :: b)) with (offers p os ++ book_queue b). rewrite elem_of_app. simpl.
  rewrite elem_of_cons. intros [Hx|Hx]; [|auto]. left.
  apply list_elem_of_fmap in Hx as (o & -> & _). done.
Qed.
Lemma book_queue_sorted b : StronglySorted Z.lt (map fst b) → StronglySorted price_le (book_queue b).
Proof.
  induction b as [|[p os] b IH]; [constructor|].
  simpl. intros [Hs Hp]%StronglySorted_inv.
  change (book_queue ((p, os) :: b)) with (offers p os ++ book_queue b).
  induction os as [|o os IHo]; [by apply IH|]. simpl. apply SSorted_cons; [done|].
  apply Forall_forall. intros x [Hx|Hx]%elem_of_app; unfold price_le; simpl.
  - apply list_elem_of_fmap in Hx as (o' & -> & _). simpl. lia.
  - apply book_queue_elem in Hx. eapply Forall_forall in Hp; [|exact Hx]. lia.
Qed.
Lemma book_queue_split acc b :
  book_queue b = book_queue (accepted acc b) ++ book_queue (refused acc b).
Proof.
  induction b as [|[p os] b IH]; simpl; [done|]. destruct (acc p); [|done].
  change (offers p os ++ book_queue b = (offers p os ++ book_queue (accepted acc b)) ++ book_queue (refused acc b)).
  by rewrite IH, app_assoc.
Qed.

Lemma greedy_elem n l x : x ∈ greedy n l → ∃ q, (x.1, q) ∈ l.
Proof.
  revert n. induction l as [|[p q] l IH]; intros n; simpl; [by intros ?%elem_of_nil|].
  destruct (0 <? n); [|by intros ?%elem_of_nil]. intros [->|Hx]%elem_of_cons; simpl.
  - exists q. by left.
  - destruct (IH _ Hx) as [q' ?]. exists q'. by right.
Qed.
Lemma greedy_rest_elem n l y : y ∈ greedy_rest n l → ∃ q, (y.1, q) ∈ l.
Proof.
  assert (∀ l : list (Z * Z), y ∈ l → ∃ q, (y.1, q) ∈ l) as Hid.
  { intros k Hy. exists y.2. by destruct y. }
  revert n. induction l as [|[p q] l IH]; intros n; simpl; [by intros ?%elem_of_nil|].
  destruct (0 <? n); [|apply Hid]. destruct (q <=? n).
  - intros Hy. destruct (IH _ Hy) as [q' ?]. exists q'. by right.
  - intros [->|Hy]%elem_of_cons; [exists q; by left|]. destruct (Hid _ Hy) as [q' ?]. exists q'. by right.
Qed.
(** On a sorted queue the walk takes nothing above what it leaves. *)
Lemma greedy_lowest n l x y :
  StronglySorted price_le l → x ∈ greedy n l → y ∈ greedy_rest n l → x.1 ≤ y.1.
Proof.
  revert n. induction l as [|[p q] l IH]; intros n; simpl; [by intros _ ?%elem_of_nil|].
  intros [Hs Hp]%StronglySorted_inv. destruct (0 <? n); [|by intros ?%elem_of_nil].
  assert (∀ y q', (y, q') ∈ l → p ≤ y) as Hle by (intros z q' Hz; by rewrite Forall_forall in Hp; apply (Hp (z, q'))).
  intros [->|Hx]%elem_of_cons; simpl; destruct (q <=? n) eqn:Hq; zbool.
  - intros Hy. destruct (greedy_rest_elem _ _ _ Hy) as [q' Hq']. by eapply Hle.
  - intros [->|Hy]%elem_of_cons; [simpl; lia|]. eapply (Hle _ y.2). by destruct y.
  - intros Hy. rewrite Z.min_r in Hx by lia. by eapply IH.
  - rewrite Z.min_l, Z.sub_diag in Hx by lia. destruct l as [|[??]]; by apply elem_of_nil in Hx.
Qed.

(** Every fill of a market, limit or IOC order is at a price no higher than
    any offer left in the opposite book.  This is the best price for a buyer;
    a seller gets the lowest bids instead of the highest. *)
Lemma fills_at_lowest_levels eng o eng' o' execs x p q :
  engine_wf eng → order_wf o → order_type o = Market ∨ order_type o = Limit ∨ order_type o = IOC →
  match_order clock eng o = (eng', (o', execs)) → x ∈ execs →
  (p, q) ∈ book_queue (symbol_levels (opposite_book eng' (side o)) (symbol o)) →
  ∃ p', ex_price x = cents_to_price p' ∧ p' ≤ p.
Proof.
  intros Hw Ho Ht Hmo Hx Hpq.
  assert (∃ acc l, matched eng eng' o acc l ∧ execs = number_executions clock o (execution_counter eng) l)
    as (acc & l & [Hl Hq _ _] & ->).
  { revert Hmo. unfold match_order, convert_stop.
    destruct (match_limit_spec eng o Hw Ho) as (e1 & l1 & H1 & Hm1 & _).
    destruct (match_market_spec eng o Hw Ho) as (e2 & l2 & H2 & Hm2 & _).
    destruct Ht as [Ht|[Ht|Ht]]; rewrite Ht; cbn; rewrite Ht, ?H1, ?H2; intros He; simplify_eq; eauto. }
  assert (∃ k, (k ∈ l) ∧ ex_price x = cents_to_price k.1) as (k & Hk & ->).
  { clear - Hx. revert Hx. generalize (execution_counter eng) as c.
    induction l as [|[a b] l IH]; intros c; simpl; [by intros ?%elem_of_nil|].
    intros [->|Hx]%elem_of_cons; [exists (a, b); split; [by left|done]|].
    destruct (IH _ Hx) as (k & ? & ?). exists k. split; [by right|done]. }
  exists k.1. split; [done|].
  destruct (symbol_levels_wf _ (symbol o) (opposite_wf eng (side o) Hw)) as [Hs _].
  pose proof (book_queue_sorted _ Hs) as Hsorted. rewrite (book_queue_split acc) in Hsorted.
  rewrite Hq in Hpq. subst l. apply elem_of_app in Hpq as [Hpq|Hpq].
  - change p with ((p, q).1). eapply greedy_lowest; [|exact Hk|exact Hpq].
    by apply StronglySorted_app_1_l in Hsorted.
  - destruct (greedy_elem _ _ _ Hk) as [q' Hk']. 
    by apply (StronglySorted_app_1_elem_of _ _ _ _ _ Hsorted Hk' Hpq).
Qed.
End theorems.

(** ** Concrete runs *)
Lemma triple_eta {A B C} (r : A * (B * C)) : r = (r.1, (r.2.1, r.2.2)).
Proof. by destruct r as [? [? ?]]. Qed.

Definition sample_order (id : Z) (s : OrderSide) (t : OrderType) (q : Z) (p : option f64) : Order :=
  mkOrder id "AAPL" s t q p None 0 New 0 "Manual".
Definition dollars (cents : Z) : f64 := f64_lit cents 100.

(** Two levels on one side: 50 at $179.00 and 30 at $180.00. *)
Definition two_levels (s : OrderSide) : SymbolBook :=
  [(17900, [sample_order 1 s Limit 50 (Some (dollars 17900))]);
   (18000, [sample_order 2 s Limit 30 (Some (dollars 18000))])].
Definition two_level_engine (s : OrderSide) : MatchingEngine :=
  match s with
  | Buy => mkEngine {[ "AAPL"%string := two_levels Buy ]} ∅ 2 0 ∅
  | Sell => mkEngine ∅ {[ "AAPL"%string := two_levels Sell ]} 2 0 ∅
  end.

Lemma two_level_engine_wf s : engine_wf (two_level_engine s).
Proof.
  assert (∀ s, sbook_wf (two_levels s)).
  { intros s'. split.
    - simpl. repeat (apply SSorted_cons || constructor); lia.
    - simpl. repeat constructor; simpl; lia. }
  destruct s; split; simpl; 
    first [by intros k b [<- <-]%lookup_singleton_Some | by intros k b Hk | done].
Qed.
Lemma sample_order_wf id s t q p : 0 ≤ q < 2 ^ 32 → order_wf (sample_order id s t q p).
Proof. unfold order_wf. simpl. lia. Qed.

(** A market order for 60 takes the whole first level and 10 of the second. *)
Lemma match_order_greedy_witness :
  (match_order (λ _, 7) (two_level_engine Sell) (sample_order 3 Buy Market 60 None)).2.2 =
  number_executions (λ _, 7) (sample_order 3 Buy Market 60 None) 0 [(17900, 50); (18000, 10)].
Proof.
  destruct (match_order_greedy (λ _, 7) (two_level_engine Sell) (sample_order 3 Buy Market 60 None)
    _ _ _ (two_level_engine_wf Sell) ltac:(apply sample_order_wf; lia) ltac:(by left) (triple_eta _))
    as (l & [Hl _ _ _] & Hx & _).
  etransitivity; [exact Hx|]. rewrite Hl. by vm_compute.
Defined.

Lemma match_order_preserves_wf_witness :
  engine_wf (match_order (λ _, 7) (two_level_engine Sell) (sample_order 3 Buy IOC 100 (Some (dollars 18000)))).1 ∧
  filled_quantity (match_order (λ _, 7) (two_level_engine Sell) (sample_order 3 Buy IOC 100 (Some (dollars 18000)))).2.1 = 80.
Proof.
  destruct (match_order_preserves_wf (λ _, 7) (two_level_engine Sell) (sample_order 3 Buy IOC 100 (Some (dollars 18000)))
    _ _ _ (two_level_engine_wf Sell) ltac:(apply sample_order_wf; lia) (triple_eta _)) as (Hw & _).
  split; [exact Hw|by vm_compute].
Defined.

(** A fill-or-kill order for 500 empties a book of 80. *)
Lemma fok_kill_destroys_offers_witness :
  book_queue (symbol_levels (sell_book (match_order (λ _, 7) (two_level_engine Sell)
    (sample_order 3 Buy FOK 500 (Some (dollars 18000)))).1) "AAPL") = [].
Proof.
  destruct (fok_kill_destroys_offers (λ _, 7) (two_level_engine Sell) (sample_order 3 Buy FOK 500 (Some (dollars 18000)))
    _ _ _ (two_level_engine_wf Sell) ltac:(apply sample_order_wf; lia) eq_refl ltac:(by vm_compute) (triple_eta _))
    as (_ & _ & Hq & _).
  etransitivity; [exact Hq|by vm_compute].
Defined.

(** Bids at $179 and $180: an order to sell at $179.50 is not executed. *)
Lemma low_bid_blocks_sell_witness :
  (match_order (λ _, 7) (two_level_engine Buy) (sample_order 3 Sell Limit 10 (Some (dollars 17950)))).2.2 = [].
Proof.
  destruct (low_bid_blocks_sell (λ _, 7) (two_level_engine Buy) (sample_order 3 Sell Limit 10 (Some (dollars 17950)))
    17900 _ [_] (dollars 17950) _ _ _ (two_level_engine_wf Buy) ltac:(apply sample_order_wf; lia)
    eq_refl eq_refl eq_refl eq_refl ltac:(by vm_compute) (triple_eta _)) as (Hx & _).
  exact Hx.
Defined.

(** A seller of 10 at the market gets $179 while $180 is bid. *)
Lemma fills_at_lowest_levels_witness :
  ∃ x p', x ∈ (match_order (λ _, 7) (two_level_engine Buy) (sample_order 3 Sell Market 10 None)).2.2 ∧
    ex_price x = cents_to_price p' ∧ p' ≤ 18000.
Proof.
  set (r := match_order (λ _, 7) (two_level_engine Buy) (sample_order 3 Sell Market 10 None)).
  set (x := mkExecution 1 3 "AAPL" Sell (cents_to_price 17900) 10 7).
  assert (r.2.2 = [x]) as Hr by by vm_compute.
  destruct (fills_at_lowest_levels (λ _, 7) (two_level_engine Buy) (sample_order 3 Sell Market 10 None)
    r.1 r.2.1 r.2.2 x 18000 30 (two_level_engine_wf Buy) ltac:(apply sample_order_wf; lia) ltac:(by left)
    (triple_eta _) ltac:(rewrite Hr; by left)) as (p' & Hp & Hle).
  - vm_compute. right. left.
  - exists x, p'. split; [rewrite Hr; by left|by split].
Defined.
