(* ===== verification/MatchingLocks.v ===== *)
(** * The locks of the matching engine (src/examples/hft_trading_server.rs)

    [match_limit_order] takes the write lock of the opposite book, and, while
    it still holds it, the write lock of its own book for the unfilled rest.
    Several calls run as tasks, each in steps at these two points. *)

From stdpp Require Import base list numbers strings gmap relations.
From S2P Require Import Prelude F64 Matching.
Local Open Scope Z_scope.

#[export] Instance OrderSide_eq_dec : EqDecision OrderSide.
Proof. solve_decision. Defined.

Definition other_side (s : OrderSide) : OrderSide := match s with Buy => Sell | Sell => Buy end.

(** A call before its first lock, between its two locks (holding the opposite
    book), and returned. *)
Inductive Phase :=
  | Waiting
  | Holding (st : FillState)
  | Finished (order : Order) (execs : list Execution).
Record Task := mkTask { t_order : Order; t_phase : Phase }.
Record World := mkWorld { w_engine : MatchingEngine; w_tasks : list Task }.

(** The write lock of the book of a side is held from the first step of a call
    of the other side to its last. *)
Definition holds (s : OrderSide) (t : Task) : bool :=
  match t_phase t with Holding _ => bool_decide (other_side (side (t_order t)) = s) | _ => false end.
Definition locked (w : World) (s : OrderSide) : bool := existsb (holds s) (w_tasks w).

Section locks.
Context (clock : Z → Z).

Definition rests (o : Order) (st : FillState) : bool :=
  (0 <? fs_remaining st) && bool_decide (order_type o = Limit).

(** Source: src/examples/hft_trading_server.rs:471-558 (MatchingEngine::match_limit_order) *)
Inductive lock_step : World → World → Prop :=
  | step_no_price eng ts i o :
      ts !! i = Some (mkTask o Waiting) → price o = None →
      lock_step (mkWorld eng ts) (mkWorld eng (<[i := mkTask o (Finished o [])]> ts))
  | step_match eng ts i o limit eng' st :
      ts !! i = Some (mkTask o Waiting) → price o = Some limit →
      locked (mkWorld eng ts) (other_side (side o)) = false →
      match_opposite clock eng (acceptable_level (side o) (price_to_cents limit)) o = (eng', st) →
      lock_step (mkWorld eng ts) (mkWorld eng' (<[i := mkTask o (Holding st)]> ts))
  | step_return eng ts i o st :
      ts !! i = Some (mkTask o (Holding st)) → rests o st = false →
      lock_step (mkWorld eng ts)
        (mkWorld eng (<[i := mkTask o (Finished (fill_status (fs_order st)) (fs_executions st))]> ts))
  | step_rest eng ts i o limit st :
      ts !! i = Some (mkTask o (Holding st)) → price o = Some limit → rests o st = true →
      locked (mkWorld eng ts) (side o) = false →
      lock_step (mkWorld eng ts)
        (mkWorld (rest_order eng (price_to_cents limit) (fs_order st))
           (<[i := mkTask o (Finished (fill_status (fs_order st)) (fs_executions st))]> ts)).

Definition initial (eng : MatchingEngine) (os : list Order) : World :=
  mkWorld eng (map (λ o, mkTask o Waiting) os).
Definition finished (t : Task) : Prop := match t_phase t with Finished _ _ => True | _ => False end.
#[local] Instance finished_dec t : Decision (finished t).
Proof. unfold finished. destruct (t_phase t); apply _. Defined.

(** A task that holds a book has a price. *)
Definition priced (t : Task) : Prop :=
  match t_phase t with Holding _ => is_Some (price (t_order t)) | _ => True end.

Lemma steps_priced eng os w : rtc lock_step (initial eng os) w → Forall priced (w_tasks w).
Proof.
  apply (rtc_invariant lock_step (λ w, Forall priced (w_tasks w))).
  - intros a b Ha Hs. destruct Hs; simpl in *; apply Forall_insert; try done. by eexists.
  - simpl. apply Forall_forall. intros t (o & -> & _)%list_elem_of_fmap. done.
Qed.
Lemma steps_orders eng os w :
  rtc lock_step (initial eng os) w → map t_order (w_tasks w) = os.
Proof.
  apply (rtc_invariant lock_step (λ w, map t_order (w_tasks w) = os)).
  - intros a b Ha Hs. rewrite <- Ha. destruct Hs; simpl; rewrite list_fmap_insert; simpl;
      apply list_insert_id; rewrite list_lookup_fmap; by rewrite H.
  - simpl. rewrite map_map. apply map_id.
Qed.

Lemma locked_true w s : locked w s = true → ∃ i t st,
  w_tasks w !! i = Some t ∧ t_phase t = Holding st ∧ other_side (side (t_order t)) = s.
Proof.
  unfold locked. intros (t & Ht & Hh)%existsb_exists. apply list_elem_of_In in Ht.
  apply list_elem_of_lookup in Ht as [i Hi]. unfold holds in Hh.
  destruct (t_phase t) as [|st|] eqn:Hp; try done. apply bool_decide_eq_true in Hh.
  by exists i, t, st.
Qed.

(** A call that is alone does what [match_limit_order] does in one go. *)
Lemma alone_runs_match_limit eng o :
  ∃ w, rtc lock_step (initial eng [o]) w ∧
    w = mkWorld (match_limit_order clock eng o).1
          [mkTask o (Finished (match_limit_order clock eng o).2.1 (match_limit_order clock eng o).2.2)].
Proof.
  eexists; split; [|reflexivity]. unfold match_limit_order, initial. simpl.
  destruct (price o) as [limit|] eqn:Hp.
  - destruct (match_opposite _ _ _ _) as [eng' st] eqn:Hm.
    eapply rtc_l; [apply (step_match eng _ 0 o limit eng' st); done|]. simpl.
    fold (rests o st). destruct (rests o st) eqn:Hr.
    + apply rtc_once, (step_rest eng' [mkTask o (Holding st)] 0 o limit st); try done.
      unfold locked, holds. simpl. rewrite bool_decide_false; [done|]. by destruct (side o).
    + by apply rtc_once, (step_return eng' [mkTask o (Holding st)] 0 o st).
  - by apply rtc_once, (step_no_price eng [mkTask o Waiting] 0 o).
Qed.

(** The steps a task has left. *)
Definition steps_left (t : Task) : Z :=
  match t_phase t with Waiting => 2 | Holding _ => 1 | Finished _ _ => 0 end.
Definition world_left (w : World) : Z := zsum steps_left (w_tasks w).

Lemma lock_step_decreases w w' : lock_step w w' → world_left w' < world_left w.
Proof.
  intros Hs. destruct Hs; unfold world_left; simpl;
    rewrite (zsum_insert steps_left _ _ _ _ H); unfold steps_left; simpl; lia.
Qed.

Lemma steps_bound n w w' : nsteps lock_step n w w' → Z.of_nat n + world_left w' ≤ world_left w.
Proof. induction 1 as [|k x y z Hs _ IH]; [lia|]. apply lock_step_decreases in Hs. lia. Qed.

Lemma world_left_nonneg w : 0 ≤ world_left w.
Proof. apply zsum_nonneg. intros [? []]; unfold steps_left; simpl; lia. Qed.
Lemma world_left_initial eng os : world_left (initial eng os) = 2 * Z.of_nat (length os).
Proof.
  unfold world_left, initial. simpl. induction os; simpl; [done|].
  unfold steps_left at 1. simpl. lia.
Qed.

(** When only calls of one side run, one of the unfinished can step: one that
    holds its opposite book finds its own free, and one that waits finds the
    opposite book free when no other holds it. *)
Lemma same_side_progress w s :
  Forall priced (w_tasks w) → (∀ i t, w_tasks w !! i = Some t → side (t_order t) = s) →
  Forall finished (w_tasks w) ∨ ∃ w', lock_step w w'.
Proof.
  intros Hp Hside. destruct w as [eng ts]. simpl in *. rewrite Forall_lookup in Hp.
  assert (locked (mkWorld eng ts) s = false) as Hfree.
  { apply not_true_iff_false. intros (i & t & st & Hi & _ & Hs)%locked_true.
    rewrite (Hside _ _ Hi) in Hs. by destruct s. }
  destruct (locked (mkWorld eng ts) (other_side s)) eqn:Hl.
  - right. apply locked_true in Hl as (i & [o ph] & st & Hi & Hph & _). simpl in *. subst ph.
    pose proof (Hside _ _ Hi) as Hso. destruct (Hp _ _ Hi) as [limit Hlim]. simpl in *.
    destruct (rests o st) eqn:Hrs; eexists.
    + eapply step_rest; [exact Hi|done..|by rewrite Hso].
    + by eapply step_return.
  - destruct (decide (Forall finished ts)) as [|Hnf]; [by left|right].
    apply not_Forall_Exists in Hnf; [|apply _]. apply Exists_exists in Hnf as ([o ph] & Hin & Hnf).
    apply list_elem_of_lookup in Hin as [i Hi]. pose proof (Hside _ _ Hi) as Hso. simpl in Hso.
    destruct ph as [|st|]; unfold finished in Hnf; simpl in Hnf; [| |done].
    + destruct (price o) as [limit|] eqn:Hlim; [|eexists; by eapply step_no_price].
      destruct (match_opposite clock eng (acceptable_level (side o) (price_to_cents limit)) o) as [e2 st] eqn:Hm.
      eexists. eapply step_match; [exact Hi|done| |exact Hm]. by rewrite Hso.
    + exfalso. apply not_true_iff_false in Hl. apply Hl, existsb_exists. eexists.
      split; [apply list_elem_of_In; by eapply list_elem_of_lookup_2|].
      unfold holds. simpl. apply bool_decide_eq_true. by rewrite Hso.
Qed.

(** Calls of one side never block one another: whatever the schedule,
    either every call has returned or one of them can take a step, and no
    schedule is longer than two steps per call; so every call returns. *)
Lemma same_side_calls_return eng os s w n :
  Forall (λ o, side o = s) os → nsteps lock_step n (initial eng os) w →
  (n ≤ 2 * length os)%nat ∧ (Forall finished (w_tasks w) ∨ ∃ w', lock_step w w').
Proof.
  intros Hos Hn. split.
  - apply steps_bound in Hn. pose proof (world_left_nonneg w). rewrite world_left_initial in Hn. lia.
  - assert (rtc lock_step (initial eng os) w) as Hr by (by eapply rtc_nsteps_2).
    apply (same_side_progress w s); [by eapply steps_priced|].
    intros i t Hi. rewrite Forall_lookup in Hos. apply (Hos i).
    by rewrite <- (steps_orders _ _ _ Hr), list_lookup_fmap, Hi.
Qed.

(** C28. Two limit orders of opposite sides that both have a rest can block each
    other for ever: each holds the book the other needs, and no step is
    possible. *)
Theorem opposite_limits_deadlock eng ob os lb ls :
  side ob = Buy → side os = Sell → order_type ob = Limit → order_type os = Limit →
  price ob = Some lb → price os = Some ls →
  let '(e1, st1) := match_opposite clock eng (acceptable_level Buy (price_to_cents lb)) ob in
  let '(e2, st2) := match_opposite clock e1 (acceptable_level Sell (price_to_cents ls)) os in
  0 < fs_remaining st1 → 0 < fs_remaining st2 →
  let w := mkWorld e2 [mkTask ob (Holding st1); mkTask os (Holding st2)] in
  rtc lock_step (initial eng [ob; os]) w ∧ ∀ w', ¬ lock_step w w'.
Proof.
  intros Hsb Hss Htb Hts Hpb Hps.
  destruct (match_opposite _ eng _ _) as [e1 st1] eqn:H1.
  destruct (match_opposite _ e1 _ _) as [e2 st2] eqn:H2. intros Hr1 Hr2. split.
  - eapply rtc_l; [apply (step_match eng _ 0 ob lb e1 st1); try done; by rewrite Hsb|].
    simpl. apply rtc_once, (step_match e1 [mkTask ob (Holding st1); mkTask os Waiting] 1 os ls e2 st2); try done.
    + rewrite Hss. unfold locked, holds. simpl. rewrite Hsb. by rewrite bool_decide_false.
    + by rewrite Hss.
  - intros w' Hs. remember (mkWorld _ _) as w eqn:Hw.
    assert (∀ o st, order_type o = Limit → 0 < fs_remaining st → rests o st = true) as Hrt.
    { intros o st Ht Hst. unfold rests. rewrite (proj2 (Z.ltb_lt _ _)) by done. by rewrite bool_decide_true. }
    destruct Hs as [? ? i o Hi|? ? i o ? ? ? Hi|? ? i o st Hi Hr|? ? i o ? st Hi ? ? Hl]; simplify_eq.
    + destruct i as [|[|i]]; simpl in Hi; simplify_eq.
    + destruct i as [|[|i]]; simpl in Hi; simplify_eq.
    + destruct i as [|[|i]]; simpl in Hi; simplify_eq; by rewrite Hrt in Hr.
    + destruct i as [|[|i]]; simpl in Hi; simplify_eq; unfold locked, holds in Hl; simpl in Hl;
        by rewrite ?Hsb, ?Hss in Hl.
Qed.
End locks.

(** Two calls: a buyer at $178 and a seller at $181 around an empty book. *)
Definition bid_178 : Order := sample_order 1 Buy Limit 10 (Some (dollars 17800)).
Definition ask_181 : Order := sample_order 2 Sell Limit 10 (Some (dollars 18100)).

Lemma same_side_calls_return_witness :
  ∃ w, nsteps (lock_step (λ _, 7)) 1 (initial MatchingEngine_new [bid_178; bid_178]) w ∧
    (Forall finished (w_tasks w) ∨ ∃ w', lock_step (λ _, 7) w w').
Proof.
  set (w := mkWorld MatchingEngine_new
    [mkTask bid_178 (Holding (mkFill bid_178 10 0 [])); mkTask bid_178 Waiting]).
  assert (nsteps (lock_step (λ _, 7)) 1 (initial MatchingEngine_new [bid_178; bid_178]) w) as Hn.
  { apply nsteps_once, (step_match (λ _, 7) MatchingEngine_new [mkTask bid_178 Waiting; mkTask bid_178 Waiting]
      0 bid_178 (dollars 17800)); try done. }
  exists w. split; [exact Hn|].
  apply (same_side_calls_return (λ _, 7) MatchingEngine_new [bid_178; bid_178] Buy w 1); [|exact Hn].
  by repeat constructor.
Defined.

Lemma opposite_limits_deadlock_witness :
  ∃ w, rtc (lock_step (λ _, 7)) (initial MatchingEngine_new [bid_178; ask_181]) w ∧
    ∀ w', ¬ lock_step (λ _, 7) w w'.
Proof.
  pose proof (opposite_limits_deadlock (λ _, 7) MatchingEngine_new bid_178 ask_181
    (dollars 17800) (dollars 18100) eq_refl eq_refl eq_refl eq_refl eq_refl eq_refl) as H.
  destruct (H eq_refl eq_refl) as [Hr Hs]. eexists. split; [exact Hr|exact Hs].
Defined.
