(* ===== verification/HftServer.v ===== *)
(** * The processors of the trading server (src/examples/hft_trading_server.rs)

    Market data, orders and strategy as processors over the mailboxes; the
    feed that connects them and the summary of executions.  Random draws and
    clock readings are arguments; serde_json is [HftCodec]. *)

From stdpp Require Import base list numbers strings gmap pretty.
From Stdlib Require Import SpecFloat Strings.Byte Strings.Ascii.
From S2P Require Import Prelude Crc32 F64 StorageEngine PersistQueue ByteQueue Mailboxes MailboxProcessor Utf8 Matching.
Local Open Scope Z_scope.

(** Source: src/examples/hft_trading_server.rs:35-39 (Exchange) *)
Inductive Exchange := NYSE | NASDAQ.

(** Source: src/examples/hft_trading_server.rs:41-50 (Quote) *)
Record Quote := mkQuote {
  q_symbol : string; q_exchange : Exchange; bid_price : f64; bid_size : Z;
  ask_price : f64; ask_size : Z; q_timestamp : Z }.

(** Source: src/examples/hft_trading_server.rs:52-60 (Trade) *)
Record Trade := mkTrade {
  tr_symbol : string; tr_exchange : Exchange; tr_price : f64; tr_size : Z;
  tr_timestamp : Z; trade_id : Z }.

(** Source: src/examples/hft_trading_server.rs:130-136 (RiskLimits) *)
Record RiskLimits := mkLimits {
  max_position_size : Z; max_order_size : Z; max_daily_loss : f64; max_single_loss : f64 }.

(** JSON of these types.  A finite execution reads back (its price to within a
    rounding of the parser); no JSON value starts with the letter Q. *)
Class HftCodec := {
  order_to_vec : Order → outcome string bytes;
  order_from_slice : bytes → outcome string Order;
  exec_to_vec : Execution → outcome string bytes;
  exec_from_slice : bytes → outcome string Execution;
  quote_to_vec : Quote → outcome string bytes;
  quote_from_slice : bytes → outcome string Quote;
  trade_to_vec : Trade → outcome string bytes }.
Definition f64_finite (x : f64) : bool :=
  match x with S754_zero _ | S754_finite _ _ _ => true | _ => false end.
Class HftCodecOk `{HftCodec} := {
  exec_reads_back x bs :
    exec_to_vec x = Ok bs → f64_finite (ex_price x) = true → is_ok (exec_from_slice bs) = true;
  quote_syntax bs : is_ok (quote_from_slice (x51 :: bs)) = false }.

(** ** The market data generator *)

(** Source: src/examples/hft_trading_server.rs:142-147 (MarketDataGenerator) *)
Record MarketDataGenerator := mkGenerator {
  symbols : list string; exchanges : list Exchange;
  base_prices : gmap string f64; trade_counter : Z }.

(** Source: src/examples/hft_trading_server.rs:150-178 (MarketDataGenerator::new) *)
Definition MarketDataGenerator_new : MarketDataGenerator :=
  mkGenerator ["AAPL"; "GOOGL"; "MSFT"; "AMZN"; "TSLA"; "NVDA"; "META"; "JPM"]%string
    [NYSE; NASDAQ]
    (list_to_map [("AAPL", f64_of_int 180); ("GOOGL", f64_of_int 140); ("MSFT", f64_of_int 380);
                  ("AMZN", f64_of_int 170); ("TSLA", f64_of_int 240); ("NVDA", f64_of_int 500);
                  ("META", f64_of_int 350); ("JPM", f64_of_int 160)]%string) 0.

Definition base_price (g : MarketDataGenerator) (symbol : string) : f64 :=
  default (f64_of_int 100) (base_prices g !! symbol).

(** [walk], [bsize] and [asize] are the draws of the random generator.
    Source: src/examples/hft_trading_server.rs:180-200 (MarketDataGenerator::generate_quote) *)
Definition generate_quote (g : MarketDataGenerator) (symbol : string) (exchange : Exchange)
    (walk : f64) (bsize asize now : Z) : Quote :=
  let mid_price := f64_mul (base_price g symbol) (f64_add (f64_of_int 1) walk) in
  let spread := f64_mul mid_price (f64_lit 1 10000) in
  let half := f64_div spread (f64_of_int 2) in
  mkQuote symbol exchange (f64_sub mid_price half) bsize (f64_add mid_price half) asize now.

(** Source: src/examples/hft_trading_server.rs:202-226 (MarketDataGenerator::generate_trade) *)
Definition generate_trade (g : MarketDataGenerator) (symbol : string) (exchange : Exchange)
    (walk : f64) (size now : Z) : MarketDataGenerator * Trade :=
  let id := u64 (trade_counter g + 1) in
  (mkGenerator (symbols g) (exchanges g) (base_prices g) id,
   mkTrade symbol exchange (f64_mul (base_price g symbol) (f64_add (f64_of_int 1) walk)) size now id).

Section server.
Context `{ByteQueue} `{MessageCodec} `{Os} `{HftCodec}.
Context (fuel : nat) (ids : nat → string) (times : nat → Z).

(** [serde_json::to_vec(..).unwrap()], then [send_to]. *)
Definition send_json (ctx : ProcessorContext) (to : string) (json : outcome string bytes) : effect unit :=
  match json with Ok bs => ctx_send_to fuel ids times ctx to bs | _ => λ sh, Some (sh, Panic) end.

(** The symbol and exchange of a command, when it has a symbol. *)
Definition command_target (command : string) : option (string * Exchange) :=
  match split_char ":"%char command with
  | _ :: symbol :: rest =>
      Some (symbol, match rest with e :: _ => if String.eqb e "NYSE" then NYSE else NASDAQ | [] => NASDAQ end)
  | _ => None
  end.

(** Source: src/examples/hft_trading_server.rs:244-278 (MarketDataProcessor::process) *)
Definition market_data_process (g : MarketDataGenerator) (walk : f64) (size1 size2 now : Z)
    (ctx : ProcessorContext) (msg : Message) : MarketDataGenerator * effect unit :=
  let command := from_utf8_lossy (msg_body msg) in
  if starts_with "QUOTE:" command then
    match command_target command with
    | Some (symbol, exchange) =>
        (g, send_json ctx "quotes@hft" (quote_to_vec (generate_quote g symbol exchange walk size1 size2 now)))
    | None => (g, ok tt)
    end
  else if starts_with "TRADE:" command then
    match command_target command with
    | Some (symbol, exchange) =>
        let '(g, trade) := generate_trade g symbol exchange walk size1 now in
        (g, send_json ctx "trades@hft" (trade_to_vec trade))
    | None => (g, ok tt)
    end
  else (g, ok tt).

(** ** Orders *)

Fixpoint send_executions (ctx : ProcessorContext) (executions : list Execution) : effect unit :=
  match executions with
  | [] => ok tt
  | execution :: executions =>
      bind (send_json ctx "executions@hft" (exec_to_vec execution)) (λ _, send_executions ctx executions)
  end.

(** What the processor assigns to a parsed order. *)
Definition accept_order (order : Order) (oid : Z) : Order :=
  mkOrder oid (symbol order) (side order) (order_type order) (quantity order) (price order)
    (stop_price order) 0 New (timestamp order) (strategy_id order).

(** Source: src/examples/hft_trading_server.rs:577-627 (OrderProcessor::process) *)
Definition order_process (clock : Z → Z) (limits : RiskLimits) (eng : MatchingEngine)
    (ctx : ProcessorContext) (msg : Message) : MatchingEngine * effect unit :=
  match order_from_slice (msg_body msg) with
  | Ok order =>
      let '(eng, oid) := get_order_id eng in
      let order := accept_order order oid in
      if max_order_size limits <? quantity order then (eng, ok tt)
      else
        let '(eng, (matched_order, executions)) := match_order clock eng order in
        (eng, bind (send_executions ctx executions)
                (λ _, send_json ctx "order-status@hft" (order_to_vec matched_order)))
  | _ => (eng, ok tt)
  end.

(** ** The strategy *)

(** Source: src/examples/hft_trading_server.rs:645-676 (StrategyProcessor::process) *)
Definition strategy_process (strategy : string) (ctx : ProcessorContext) (msg : Message) : effect unit :=
  match quote_from_slice (msg_body msg) with
  | Ok quote =>
      let mid_price := f64_div (f64_add (bid_price quote) (ask_price quote)) (f64_of_int 2) in
      if String.eqb (q_symbol quote) "AAPL" && f64_lt mid_price (f64_of_int 179) then
        let order := mkOrder 0 (q_symbol quote) Buy Limit 100 (Some (bid_price quote)) None 0 New
                       (q_timestamp quote) strategy in
        send_json ctx "orders@hft" (order_to_vec order)
      else ok tt
  | _ => ok tt
  end.

(** ** The main program *)

(** Source: src/examples/hft_trading_server.rs:724-729 (main, part) *)
Definition server_limits : RiskLimits :=
  mkLimits 10000 1000 (f64_of_int 100000) (f64_of_int 10000).

(** One symbol of the feed: the command is sent, the next message of the
    market-data mailbox is received and its body forwarded to the strategy.
    Source: src/examples/hft_trading_server.rs:763-776 (main, part) *)
Definition feed_symbol (sh : Shared) (md_mailbox : Mailbox) (symbol : string)
    : option (Shared * Mailbox) :=
  let quote_cmd := ("QUOTE:" +:+ symbol +:+ ":NASDAQ")%string in
  let n := sh_made sh in
  '(sys, _) ← send_to fuel (ids n) (times n) (sh_system sh) md_mailbox "market-data@hft" (str_bytes quote_cmd);
  queue ← mailboxes sys !! as_str (mb_address md_mailbox);
  match receive queue md_mailbox with
  | (md_mailbox, Ok (Some msg)) =>
      match get_mailbox sys "quotes@hft" with
      | Ok (Some qm) =>
          '(sys, _) ← send_to fuel (ids (S n)) (times (S n)) sys qm "strategy-feed@hft" (msg_body msg);
          Some (mkShared sys (S (S n)), md_mailbox)
      | _ => Some (mkShared sys (S n), md_mailbox)
      end
  | (md_mailbox, _) => Some (mkShared sys (S n), md_mailbox)
  end.

(** One round of the feed.
    Source: src/examples/hft_trading_server.rs:762-780 (main, part) *)
Definition feed_round (sh : Shared) (md_mailbox : Mailbox) : option (Shared * Mailbox) :=
  foldl (λ acc symbol, '(sh, mb) ← acc; feed_symbol sh mb symbol) (Some (sh, md_mailbox))
    ["AAPL"; "GOOGL"; "MSFT"; "TSLA"]%string.

(** The executions are counted while [receive] delivers messages.
    Source: src/examples/hft_trading_server.rs:891-904 (main, part) *)
Definition summary_body (queue : bqueue) (st : Mailbox * Z) : loop_step (Mailbox * Z) Z :=
  let '(mb, exec_count) := st in
  match receive queue mb with
  | (mb, Ok (Some msg)) =>
      Continue (mb, if is_ok (exec_from_slice (msg_body msg)) then exec_count + 1 else exec_count)
  | (mb, _) => Return (mb, exec_count) exec_count
  end.
Definition execution_summary (n : nat) (queue : bqueue) : option Z :=
  snd <$> run_loop n (summary_body queue) (mkMailbox (mkAddress "executions@hft") 0, 0).
End server.

Section server_lemmas.
Context `{ByteQueueOk} `{MessageCodecOk} `{Os} `{HftCodec}.
Context (fuel : nat) (ids : nat → string) (times : nat → Z).

(** [envelope n from dest b e]: [e] encodes the [n]-th message made, from [from] to [dest] with body [b]. *)
Definition envelope (n : nat) (from : MailboxAddress) (dest : string) (b e : bytes) : Prop :=
  json_to_vec (Message_new (ids n) (times n) from (mkAddress dest) b) = Ok e.

(** The system with another queue at an address. *)
Definition with_queue (sys : MailboxSystem) (a : string) (q : bqueue) : MailboxSystem :=
  mkSystem (<[a := q]> (mailboxes sys)) (base_dir sys) (default_config sys).

(** A queue of [l] has room for all of [es], one after the other. *)
Definition fits (l es : list bytes) : Prop :=
  ∀ pre e post, es = pre ++ e :: post → bq_room (l ++ pre) e.

Lemma fits_cons l e es : fits l (e :: es) → bq_room l e ∧ fits (l ++ [e]) es.
Proof.
  intros Hf. split; [rewrite <- (app_nil_r l); by apply (Hf [] e es)|].
  intros pre e' post ->. rewrite <- app_assoc. by apply (Hf (e :: pre) e' post).
Qed.

Lemma ctx_send_delivers ctx sys n a dest b e q l :
  ctx_address ctx = mkAddress a → a ≠ EmptyString → is_Some (mailboxes sys !! a) →
  dest ≠ EmptyString → mailboxes sys !! dest = Some q → bq_repr q l →
  envelope n (mkAddress a) dest b e → bq_room l e →
  ∃ q', ctx_send_to (S fuel) ids times ctx dest b (mkShared sys n) =
      Some (mkShared (with_queue sys dest q') (S n), Ok tt) ∧
    bq_repr q' (l ++ [e]).
Proof.
  intros Hctx Ha [qa Hqa] Hd Hq Hl He Hroom.
  destruct (route_delivers fuel sys (Message_new (ids n) (times n) (mkAddress a) (mkAddress dest) b) q l e)
    as (q' & Hr & Hq'); [done..|]. exists q'. split; [|done].
  unfold ctx_send_to, get_mailbox, send_to. rewrite Hctx. cbn [as_str sh_system sh_made].
  rewrite (address_new a) by done. cbn. rewrite Hqa, (address_new dest) by done. cbn [mb_address].
  rewrite Hr. done.
Qed.

Lemma send_executions_delivers ctx sys n a q l execs es :
  let dest := "executions@hft"%string in
  ctx_address ctx = mkAddress a → a ≠ EmptyString → is_Some (mailboxes sys !! a) →
  mailboxes sys !! dest = Some q → bq_repr q l → fits l es →
  (∀ k x, execs !! k = Some x → ∃ b e, es !! k = Some e ∧ exec_to_vec x = Ok b ∧ envelope (n + k) (mkAddress a) dest b e) →
  length es = length execs →
  ∃ q', send_executions (S fuel) ids times ctx execs (mkShared sys n) =
      Some (mkShared (with_queue sys dest q') (n + length execs), Ok tt) ∧
    bq_repr q' (l ++ es).
Proof.
  cbv zeta. intros Hctx Ha Hqa Hq Hl Hf Hes Hlen. revert sys n q l es Hqa Hq Hl Hf Hes Hlen.
  induction execs as [|x execs IH]; intros sys n q l es Hqa Hq Hl Hf Hes Hlen.
  - apply nil_length_inv in Hlen as ->. exists q. rewrite app_nil_r. split; [|done].
    unfold with_queue. rewrite insert_id by done. rewrite Nat.add_0_r. by destruct sys.
  - destruct es as [|e es]; [done|]. injection Hlen as Hlen.
    destruct (Hes 0%nat x eq_refl) as (b & e' & [= <-] & Hx & He). rewrite Nat.add_0_r in He.
    apply fits_cons in Hf as [Hroom Hf].
    destruct (ctx_send_delivers ctx sys n a "executions@hft" b e q l) as (q1 & Hs & Hl1); [done..|].
    destruct (IH (with_queue sys "executions@hft" q1) (S n) q1 (l ++ [e]) es) as (q2 & Hs2 & Hl2); try done.
    { cbn. destruct (decide (a = "executions@hft"%string)) as [->|]; [rewrite lookup_insert_eq; eauto|by rewrite lookup_insert_ne]. }
    { cbn. by rewrite lookup_insert_eq. }
    { intros k y Hk. destruct (Hes (S k) y Hk) as (b' & e' & He' & Hy & Hen). exists b', e'.
      replace (S n + k)%nat with (n + S k)%nat by lia. done. }
    exists q2. rewrite <- app_assoc in Hl2. split; [|done].
    cbn [send_executions]. unfold bind, send_json. rewrite Hx. cbv beta iota. rewrite Hs, Hs2.
    unfold with_queue. cbn. rewrite insert_insert_eq. by replace (n + S (length execs))%nat with (S (n + length execs)) by lia.
Qed.
End server_lemmas.

Section server_properties.
Context `{ByteQueueOk} `{MessageCodecOk} `{Os} `{HftCodecOk}.

(** An accepted order is matched under a fresh id as a new order, and each
    execution the engine reports is appended, in order, to the executions
    queue, followed by one status message with the matched order; a larger
    order than the limit changes nothing but the id counter. *)
Lemma order_process_reports fuel ids times clock limits eng ctx msg sys n a order
    (qe qs : bqueue) le ls es s :
  ctx_address ctx = mkAddress a → a ≠ EmptyString → is_Some (mailboxes sys !! a) →
  order_from_slice (msg_body msg) = Ok order →
  let '(eng1, oid) := get_order_id eng in
  let '(eng2, (matched, execs)) := match_order clock eng1 (accept_order order oid) in
  if max_order_size limits <? quantity order
  then order_process (S fuel) ids times clock limits eng ctx msg = (eng1, ok tt)
  else
    mailboxes sys !! "executions@hft"%string = Some qe → bq_repr qe le → fits le es →
    mailboxes sys !! "order-status@hft"%string = Some qs → bq_repr qs ls → bq_room ls s →
    (∀ k x, execs !! k = Some x → ∃ b e, es !! k = Some e ∧ exec_to_vec x = Ok b ∧
       envelope ids times (n + k) (mkAddress a) "executions@hft" b e) → length es = length execs →
    (∃ b, order_to_vec matched = Ok b ∧ envelope ids times (n + length execs) (mkAddress a) "order-status@hft" b s) →
    ∃ eff qe' qs', order_process (S fuel) ids times clock limits eng ctx msg = (eng2, eff) ∧
      eff (mkShared sys n) = Some (mkShared (with_queue (with_queue sys "executions@hft" qe') "order-status@hft" qs')
                                     (S (n + length execs)), Ok tt) ∧
      bq_repr qe' (le ++ es) ∧ bq_repr qs' (ls ++ [s]).
Proof.
  intros Hctx Ha Hqa Ho. unfold order_process. rewrite Ho.
  destruct (get_order_id eng) as [eng1 oid].
  destruct (match_order clock eng1 (accept_order order oid)) as [eng2 [matched execs]] eqn:Hm.
  change (quantity (accept_order order oid)) with (quantity order).
  destruct (_ <? quantity order); [done|].
  intros Hqe Hle Hf Hqs Hls Hroom Hes Hlen (b & Hb & Hs).
  destruct (send_executions_delivers fuel ids times ctx sys n a qe le execs es) as (qe' & Hx & Hle'); [done..|].
  set (sys1 := with_queue sys "executions@hft" qe') in *.
  destruct (ctx_send_delivers fuel ids times ctx sys1 (n + length execs) a "order-status@hft" b s qs ls) as (qs' & Hst & Hls');
    try done.
  { unfold sys1. cbn. destruct (decide (a = "executions@hft"%string)) as [->|];
      [rewrite lookup_insert_eq; eauto|by rewrite lookup_insert_ne]. }
  { unfold sys1. cbn. by rewrite lookup_insert_ne. }
  eexists _, qe', qs'. split; [reflexivity|]. split; [|done].
  unfold bind. rewrite Hx. unfold send_json. rewrite Hb. cbv beta iota. by rewrite Hst.
Qed.

(** The strategy never sees a quote.  A round of the feed that finds the
    market-data mailbox read up to date forwards its own command to the
    strategy, not the quote made from it; the strategy cannot parse it, and
    sends nothing. *)
Lemma strategy_never_sees_quotes fuel ids times sys n sym (qm qf : bqueue) msgs fmsgs bm bf :
  let cmd := str_bytes ("QUOTE:" +:+ sym +:+ ":NASDAQ") in
  let md := "market-data@hft"%string in let feed := "strategy-feed@hft"%string in
  is_Some (mailboxes sys !! "quotes@hft"%string) →
  mailboxes sys !! md = Some qm → box_repr qm msgs → len msgs < 2 ^ 64 - 1 →
  (∀ l, bq_repr qm l → Forall2 (λ m bs, json_to_vec m = Ok bs) msgs l → bq_room l bm) →
  envelope ids times n (mkAddress md) md cmd bm →
  mailboxes sys !! feed = Some qf → box_repr qf fmsgs → len fmsgs < 2 ^ 64 - 1 →
  (∀ l, bq_repr qf l → Forall2 (λ m bs, json_to_vec m = Ok bs) fmsgs l → bq_room l bf) →
  envelope ids times (S n) (mkAddress "quotes@hft") feed cmd bf →
  let sent := Message_new (ids (S n)) (times (S n)) (mkAddress "quotes@hft") (mkAddress feed) cmd in
  ∃ sys' qf', feed_symbol (S fuel) ids times (mkShared sys n) (mkMailbox (mkAddress md) (len msgs)) sym =
      Some (mkShared sys' (S (S n)), mkMailbox (mkAddress md) (len msgs + 1)) ∧
    mailboxes sys' !! feed = Some qf' ∧ box_repr qf' (fmsgs ++ [sent]) ∧
    ∀ strategy ctx sh2, strategy_process (S fuel) ids times strategy ctx sent sh2 = Some (sh2, Ok tt).
Proof.
  intros cmd md feed [qq Hqq] Hqm Hbm Hlen Hrm Hem Hqf Hbf Hlenf Hrf Hef sent.
  destruct (send_box fuel (ids n) (times n) sys (mkMailbox (mkAddress md) (len msgs)) md cmd qm msgs bm)
    as (qm' & Hs & _ & _ & Hr); [done..|]. cbn [mb_address] in Hr.
  set (sys1 := mkSystem (<[md := qm']> (mailboxes sys)) (base_dir sys) (default_config sys)) in *.
  destruct (send_box fuel (ids (S n)) (times (S n)) sys1 (mkMailbox (mkAddress "quotes@hft") 0) feed cmd qf fmsgs bf)
    as (qf' & Hs2 & Hb2 & _ & _); try done.
  { unfold sys1. cbn. by rewrite lookup_insert_ne. }
  assert (get_mailbox sys1 "quotes@hft" = Ok (Some (mkMailbox (mkAddress "quotes@hft") 0))) as Hgm.
  { unfold get_mailbox, sys1. cbn. by rewrite lookup_insert_ne, Hqq. }
  eexists _, qf'. split; [|split; [|split; [exact Hb2|]]].
  - unfold feed_symbol. fold cmd md. cbn [sh_system sh_made]. rewrite Hs. cbn [mbind option_bind].
    change (mailboxes sys1) with (<[md := qm']> (mailboxes sys)).
    cbn [mb_address as_str]. rewrite lookup_insert_eq. cbn [mbind option_bind]. rewrite Hr.
    rewrite Hgm. cbv beta iota.
    match goal with |- context [send_to _ _ _ ?s ?m ?t ?b] =>
      change (send_to (S fuel) (ids (S n)) (times (S n)) s m t b) with
        (send_to (S fuel) (ids (S n)) (times (S n)) sys1 (mkMailbox (mkAddress "quotes@hft") 0) feed cmd) end.
    rewrite Hs2. reflexivity.
  - cbn. by rewrite lookup_insert_eq.
  - intros strategy ctx sh2. unfold strategy_process. cbn [sent msg_body Message_new].
    pose proof (quote_syntax (str_bytes ("UOTE:" +:+ sym +:+ ":NASDAQ"))) as Hq.
    change (x51 :: _) with cmd in Hq. by destruct (quote_from_slice cmd).
Qed.

(** The summary of executions counts a single execution and no other
    number: with two or more waiting the first [receive] fails, the loop ends
    and the summary says there were none. *)
Lemma summary_counts_only_one (q : bqueue) msgs n :
  box_repr q msgs → len msgs < 2 ^ 64 - 1 →
  execution_summary (S (S n)) q =
    Some (match msgs with
          | [m] => if is_ok (exec_from_slice (msg_body m)) then 1 else 0
          | _ => 0
          end).
Proof.
  intros Hq Hlen. unfold execution_summary.
  pose proof (receive_box q msgs (mkAddress "executions@hft") 0 Hq ltac:(lia)) as Hr0. cbn in Hr0.
  pose proof (receive_box q msgs (mkAddress "executions@hft") 1 Hq ltac:(lia)) as Hr1. cbn in Hr1.
  cbn [run_loop]. unfold summary_body at 1.
  destruct msgs as [|m [|m2 msgs]].
  - by rewrite Hr0.
  - rewrite Hr0. unfold summary_body. change (0 + 1) with 1. rewrite Hr1. cbn. by destruct (is_ok _).
  - destruct Hr0 as [e ->]. done.
Qed.
End server_properties.

(** ** Concrete runs *)
#[local] Existing Instances byte_countable address_countable Message_eq_dec message_countable
  digit_codec digit_codec_ok persistq_queue sample_queues.

(** A codec whose only order is a market order for 10, whose executions all
    read back and whose quotes never do. *)
#[local] Instance sample_codec : HftCodec := {
  order_to_vec _ := Ok [x03];
  order_from_slice _ := Ok (sample_order 0 Buy Market 10 None);
  exec_to_vec _ := Ok [x03];
  exec_from_slice _ := Ok (mkExecution 1 3 "AAPL" Buy (dollars 17900) 10 7);
  quote_to_vec _ := Ok [x03];
  quote_from_slice _ := Err "expected value";
  trade_to_vec _ := Ok [x03] }.
#[local] Instance sample_codec_ok : HftCodecOk.
Proof. by split. Qed.

Definition trading_system : MailboxSystem :=
  mkSystem (list_to_map [("orders@hft", sample_queue 1); ("executions@hft", sample_queue 1);
              ("order-status@hft", sample_queue 1); ("quotes@hft", sample_queue 1);
              ("market-data@hft", sample_queue 1); ("strategy-feed@hft", sample_queue 1)]%string)
    "/data" (sample_config 1).
Definition orders_ctx : ProcessorContext := mkContext (mkAddress "orders@hft") None Binary.
Definition sample_ids (n : nat) : string := "i" +:+ pretty n.
Definition wire (n : nat) (from to : string) (body : bytes) : bytes :=
  pos_digits (encode (Message_new (sample_ids n) (Z.of_nat n) (mkAddress from) (mkAddress to) body)).

(** One order against two levels of offers: one execution, one status. *)
Lemma order_process_reports_witness :
  ∃ eng2 eff qe' qs', order_process 1 sample_ids Z.of_nat (λ _, 7) server_limits (two_level_engine Sell) orders_ctx (hello 1) =
      (eng2, eff) ∧
    eff (mkShared trading_system 0) =
      Some (mkShared (with_queue (with_queue trading_system "executions@hft" qe') "order-status@hft" qs') 2, Ok tt) ∧
    bq_repr qe' [wire 0 "orders@hft" "executions@hft" [x03]].
Proof.
  pose proof (order_process_reports 0 sample_ids Z.of_nat (λ _, 7) server_limits (two_level_engine Sell) orders_ctx (hello 1)
    trading_system 0 "orders@hft" (sample_order 0 Buy Market 10 None) (sample_queue 1) (sample_queue 1) [] []
    [wire 0 "orders@hft" "executions@hft" [x03]] (wire 1 "orders@hft" "order-status@hft" [x03])
    eq_refl ltac:(done) ltac:(by eexists) eq_refl) as Hp.
  destruct (get_order_id (two_level_engine Sell)) as [eng1 oid] eqn:Hg.
  destruct (match_order _ _ _) as [eng2 [matched execs]] eqn:Hm.
  assert (length execs = 1%nat) as Hl by (injection Hg as <- <-; vm_compute in Hm; by injection Hm as <- <- <-).
  destruct Hp as (eff & qe' & qs' & H1 & H2 & H3 & _); try done.
  - split_and!; [apply sample_queue_repr|done|done].
  - intros [|? [|]] e post He; simplify_list_eq. split; [by vm_compute|done].
  - split_and!; [apply sample_queue_repr|done|done].
  - intros [|k] x Hk; [|apply lookup_lt_Some in Hk; lia]. by exists [x03], (wire 0 "orders@hft" "executions@hft" [x03]).
  - exists [x03]. by rewrite Hl.
  - rewrite Hl in H2. by exists eng2, eff, qe', qs'.
Defined.

Lemma strategy_never_sees_quotes_witness :
  ∃ sys' qf', feed_symbol 1 sample_ids Z.of_nat (mkShared trading_system 0) (mkMailbox (mkAddress "market-data@hft") 0) "A" =
      Some (mkShared sys' 2, mkMailbox (mkAddress "market-data@hft") 1) ∧
    box_repr qf' [Message_new "i1" 1 (mkAddress "quotes@hft") (mkAddress "strategy-feed@hft")
                    (str_bytes "QUOTE:A:NASDAQ")].
Proof.
  destruct (strategy_never_sees_quotes 0 sample_ids Z.of_nat trading_system 0 "A" (sample_queue 1) (sample_queue 1) [] []
    (wire 0 "market-data@hft" "market-data@hft" (str_bytes "QUOTE:A:NASDAQ"))
    (wire 1 "quotes@hft" "strategy-feed@hft" (str_bytes "QUOTE:A:NASDAQ")))
    as (sys' & qf' & Hf & _ & Hb & _);
    [by eexists|reflexivity|apply sample_box|done| |reflexivity|reflexivity|apply sample_box|done| |reflexivity|].
  - intros l _ Hl. apply Forall2_nil_inv_l in Hl as ->. split; [by vm_compute|done].
  - intros l _ Hl. apply Forall2_nil_inv_l in Hl as ->. split; [by vm_compute|done].
  - exists sys', qf'. split; [exact Hf|exact Hb].
Defined.

(** Two executions waiting: the summary counts none. *)
Lemma summary_counts_only_one_witness :
  execution_summary 2 (backlog_queue : @bqueue persistq_queue) = Some 0.
Proof. exact (summary_counts_only_one _ [hello 1; hello 2] 0 backlog_box ltac:(done)). Defined.
