(* ===== verification/TradingDemo.v ===== *)
(** * The trading server's program (src/examples/hft_trading_server.rs, [main])

    The server as concurrent programs over the mailboxes: the three processors'
    tasks, the feed, and the main program that submits five orders and sums up
    the executions.  The processors' answers are those of [HftServer].  However
    they are scheduled, the summary reports no execution.  Headings and the
    processors' own lines are left out; sleeping is waiting for a turn. *)

From stdpp Require Import base list numbers strings gmap pretty.
From Stdlib Require Import Strings.Byte.
From S2P Require Import Prelude Crc32 F64 StorageEngine PersistQueue ByteQueue Mailboxes MailboxClients MailboxThreads MailboxProcessor Utf8 Matching HftServer.
Local Open Scope Z_scope.
Local Open Scope program_scope.

(** ** Definitions *)

(** What the tasks share: the engine, the generator, how many random draws were
    made, and the number of executions once the summary has been printed. *)
Record Server := mkServer {
  sv_engine : MatchingEngine; sv_generator : MarketDataGenerator; sv_draws : nat; sv_summary : option Z }.

Abbreviation server_program A := (program Server (outcome MailboxError A)).

(** A message to send: its mailbox and its JSON. *)
Abbreviation answer := (string * outcome string bytes)%type.

Section demo.
Context `{HftCodec}.
(** The draws of the random generator and the clock readings. *)
Context (walk : nat → f64) (sizes : nat → Z * Z) (quote_clock : nat → Z) (clock : Z → Z).

(** *** The processors' answers *)

(** Source: src/examples/hft_trading_server.rs:244-278 (MarketDataProcessor::process) *)
Definition market_data_answers (g : MarketDataGenerator) (n : nat) (msg : Message) : MarketDataGenerator * list answer :=
  let command := from_utf8_lossy (msg_body msg) in
  if starts_with "QUOTE:" command then
    match command_target command with
    | Some (symbol, exchange) =>
        (g, [("quotes@hft"%string, quote_to_vec (generate_quote g symbol exchange (walk n) (sizes n).1 (sizes n).2 (quote_clock n)))])
    | None => (g, [])
    end
  else if starts_with "TRADE:" command then
    match command_target command with
    | Some (symbol, exchange) =>
        let '(g, trade) := generate_trade g symbol exchange (walk n) (sizes n).1 (quote_clock n) in
        (g, [("trades@hft"%string, trade_to_vec trade)])
    | None => (g, [])
    end
  else (g, []).

(** Source: src/examples/hft_trading_server.rs:577-627 (OrderProcessor::process) *)
Definition order_answers (limits : RiskLimits) (eng : MatchingEngine) (msg : Message) : MatchingEngine * list answer :=
  match order_from_slice (msg_body msg) with
  | Ok order =>
      let '(eng, oid) := get_order_id eng in
      let order := accept_order order oid in
      if max_order_size limits <? quantity order then (eng, [])
      else
        let '(eng, (matched_order, executions)) := match_order clock eng order in
        (eng, map (λ execution, ("executions@hft"%string, exec_to_vec execution)) executions ++
              [("order-status@hft"%string, order_to_vec matched_order)])
  | _ => (eng, [])
  end.

(** Source: src/examples/hft_trading_server.rs:645-676 (StrategyProcessor::process) *)
Definition strategy_answers (strategy : string) (msg : Message) : list answer :=
  match quote_from_slice (msg_body msg) with
  | Ok quote =>
      let mid_price := f64_div (f64_add (bid_price quote) (ask_price quote)) (f64_of_int 2) in
      if String.eqb (q_symbol quote) "AAPL" && f64_lt mid_price (f64_of_int 179) then
        [("orders@hft"%string, order_to_vec (mkOrder 0 (q_symbol quote) Buy Limit 100 (Some (bid_price quote)) None 0 New
                                        (q_timestamp quote) strategy))]
      else []
  | _ => []
  end.

(** *** The tasks *)

(** [ctx.send_to(..).await?] from the processor at [address]; an error ends the
    processing of a message. *)
Fixpoint send_answers (address : string) (answers : list answer) : server_program unit :=
  match answers with
  | [] => Ret (Ok tt)
  | (to, Ok bs) :: answers =>
      own <-? CallGet address;
      match own with
      | Some h => _ <-? CallSend h to bs; send_answers address answers
      | None => Ret (Err (MailboxNotFound address))
      end
  | _ :: _ => Ret Panic
  end.

Definition market_data_act (msg : Message) : server_program unit :=
  Access (λ s, let '(g, answers) := market_data_answers (sv_generator s) (sv_draws s) msg in
               (mkServer (sv_engine s) g (S (sv_draws s)) (sv_summary s), answers))
    (send_answers "market-data@hft").
Definition order_act (msg : Message) : server_program unit :=
  Access (λ s, let '(eng, answers) := order_answers server_limits (sv_engine s) msg in
               (mkServer eng (sv_generator s) (sv_draws s) (sv_summary s), answers))
    (send_answers "orders@hft").
Definition strategy_act (msg : Message) : server_program unit :=
  send_answers "strategy-feed@hft" (strategy_answers "VWAP_Cross_V1" msg).

(** The task of a processor, for [n] ticks; errors are only logged, a panic ends
    it.
    Source: src/src/mailbox_processor.rs:247-270 (ProcessorManager::register_processor, task) *)
Fixpoint task_loop (n : nat) (h : handle) (act : Message → server_program unit) : program Server unit :=
  match n with
  | O => Ret tt
  | S n =>
      r <-- Ask (CallReceive h) Ret;
      match r with
      | Ok (Some msg) => r <-- act msg; match r with Panic => Ret tt | _ => task_loop n h act end
      | Ok None | Err _ => task_loop n h act
      | Panic => Ret tt
      end
  end.

(** [manager.register_processor(..).await?]. *)
Definition start_processor (n : nat) (address : string) (act : Message → server_program unit)
    (k : server_program unit) : server_program unit :=
  own <-? CallGet address;
  match own with
  | Some h => Spawn (task_loop n h act) k
  | None => Ret (Err (MailboxNotFound address))
  end.

(** *** The feed *)
Definition quote_command (symbol : string) : bytes := str_bytes ("QUOTE:" +:+ symbol +:+ ":NASDAQ").

(** Source: src/examples/hft_trading_server.rs:763-776 (main, part) *)
Definition feed_step (md : handle) (symbol : string) (k : program Server unit) : program Server unit :=
  _ <-- Ask (CallSend md "market-data@hft" (quote_command symbol)) Ret;
  r <-- Ask (CallReceive md) Ret;
  match r with
  | Ok (Some msg) =>
      q <-- Ask (CallGet "quotes@hft") Ret;
      match q with
      | Ok (Some qm) => _ <-- Ask (CallSend qm "strategy-feed@hft" (msg_body msg)) Ret; k
      | _ => k
      end
  | _ => k
  end.

Fixpoint feed_loop (n : nat) (md : handle) : program Server unit :=
  match n with
  | O => Ret tt
  | S n => foldr (feed_step md) (feed_loop n md) ["AAPL"; "GOOGL"; "MSFT"; "TSLA"]%string
  end.

(** Source: src/examples/hft_trading_server.rs:758-781 (main, part) *)
Definition feed (n : nat) : program Server unit :=
  r <-- Ask (CallGet "market-data@hft") Ret;
  match r with Ok (Some md) => feed_loop n md | _ => Ret tt end.

(** *** The main program *)

Definition manual_order (symbol : string) (side : OrderSide) (type : OrderType) (quantity : Z) (price stop : option f64) : Order :=
  mkOrder 0 symbol side type quantity price stop 0 New 0 "Manual".

(** Source: src/examples/hft_trading_server.rs:796-808 (main, part) *)
Definition market_order : Order := manual_order "AAPL" Buy Market 100 None None.
(** Source: src/examples/hft_trading_server.rs:815-827 (main, part) *)
Definition limit_order : Order := manual_order "GOOGL" Buy Limit 200 (Some (f64_lit 1405 10)) None.
(** Source: src/examples/hft_trading_server.rs:833-845 (main, part) *)
Definition ioc_order : Order := manual_order "MSFT" Sell IOC 150 (Some (f64_of_int 380)) None.
(** Source: src/examples/hft_trading_server.rs:851-863 (main, part) *)
Definition fok_order : Order := manual_order "TSLA" Buy FOK 500 (Some (f64_of_int 240)) None.
(** Source: src/examples/hft_trading_server.rs:869-881 (main, part) *)
Definition stop_order : Order := manual_order "NVDA" Sell Stop 100 None (Some (f64_of_int 495)).
Definition manual_orders : list Order := [market_order; limit_order; ioc_order; fok_order; stop_order].

Definition set_price (symbol : string) (price : f64) (k : server_program unit) : server_program unit :=
  Access (λ s, (mkServer (update_market_price (sv_engine s) symbol price) (sv_generator s) (sv_draws s) (sv_summary s), tt)) (λ _, k).
Definition submit (orders : handle) (order : Order) (k : server_program unit) : server_program unit :=
  match order_to_vec order with
  | Ok bs => _ <-? CallSend orders "orders@hft" bs; k
  | Err e => Ret (Err (Serialization e))
  | Panic => Ret Panic
  end.

(** The executions are counted while [receive] delivers messages, [n] at most.
    Source: src/examples/hft_trading_server.rs:891-904 (main, part) *)
Fixpoint count_executions (n : nat) (executions : handle) (exec_count : Z) (k : Z → server_program unit) : server_program unit :=
  match n with
  | O => Ret (Ok tt)
  | S n =>
      r <-- Ask (CallReceive executions) Ret;
      match r with
      | Ok (Some msg) =>
          count_executions n executions (if is_ok (exec_from_slice (msg_body msg)) then exec_count + 1 else exec_count) k
      | Ok None | Err _ => k exec_count
      | Panic => Ret Panic
      end
  end.

(** Source: src/examples/hft_trading_server.rs:890-909 (main, part) *)
Definition summary (n : nat) : server_program unit :=
  mailbox <-? CallGet "executions@hft";
  match mailbox with
  | Some executions =>
      count_executions n executions 0 (λ exec_count,
      Access (λ s, (mkServer (sv_engine s) (sv_generator s) (sv_draws s) (Some exec_count), tt)) (λ _,
      if exec_count =? 0 then Ask (CallPrint "No executions yet (orders may be resting in book)") (λ _, Ret (Ok tt))
      else Ret (Ok tt)))
  | None => Ret (Ok tt)
  end.

(** Source: src/examples/hft_trading_server.rs:786-909 (main, part) *)
Definition manual_trading (n : nat) : server_program unit :=
  mailbox <-? CallGet "orders@hft";
  match mailbox with
  | Some orders =>
      set_price "AAPL" (f64_of_int 180) (
      submit orders market_order (
      submit orders limit_order (
      submit orders ioc_order (
      submit orders fok_order (
      set_price "NVDA" (f64_of_int 500) (
      submit orders stop_order (
      summary n)))))))
  | None => Ret Panic
  end.

(** The loops of the tasks, the feed and the summary are followed for [n]
    turns.  The end of the program, which stops the tasks, is left out.
    Source: src/examples/hft_trading_server.rs:683-927 (main) *)
Definition trading_server (n : nat) : server_program unit :=
  _ <-? CallCreate "market-data@hft";
  _ <-? CallCreate "quotes@hft";
  _ <-? CallCreate "trades@hft";
  _ <-? CallCreate "orders@hft";
  _ <-? CallCreate "executions@hft";
  _ <-? CallCreate "order-status@hft";
  _ <-? CallCreate "strategy-feed@hft";
  start_processor n "market-data@hft" market_data_act (
  start_processor n "orders@hft" order_act (
  start_processor n "strategy-feed@hft" strategy_act (
  Spawn (feed n) (
  manual_trading n)))).

Definition server_main (n : nat) : program Server unit := _ <-- trading_server n; Ret tt.
Definition server_start : Server := mkServer MatchingEngine_new MarketDataGenerator_new 0 None.
End demo.

(** ** The answers are those of the processors of [HftServer] *)
Section answers.
Context `{ByteQueue} `{MessageCodec} `{Os} `{HftCodec}.
Context (fuel : nat) (ids : nat → string) (times : nat → Z).

Fixpoint send_all (ctx : ProcessorContext) (answers : list answer) : effect unit :=
  match answers with
  | [] => ok tt
  | (to, json) :: answers => MailboxProcessor.bind (send_json fuel ids times ctx to json) (λ _, send_all ctx answers)
  end.

Lemma bind_ok (m : effect unit) sys : MailboxProcessor.bind m (λ _, ok tt) sys = m sys.
Proof. unfold MailboxProcessor.bind, ok. by destruct (m sys) as [[s [[]|e|]]|]. Qed.

Lemma market_data_sends walk sizes now g n ctx msg sys :
  let '(g', e) := market_data_process fuel ids times g (walk n) (sizes n).1 (sizes n).2 (now n) ctx msg in
  let '(g2, l) := market_data_answers walk sizes now g n msg in
  g' = g2 ∧ e sys = send_all ctx l sys.
Proof.
  unfold market_data_process, market_data_answers.
  destruct (starts_with "QUOTE:" _); [|destruct (starts_with "TRADE:" _); [|done]];
    (destruct (command_target _) as [[sym ex]|]; [|done]).
  - split; [done|]. cbn [send_all]. by rewrite bind_ok.
  - destruct (generate_trade _ _ _ _ _ _) as [g' trade]. split; [done|]. cbn [send_all]. by rewrite bind_ok.
Qed.

Lemma strategy_sends strategy ctx msg sys :
  strategy_process fuel ids times strategy ctx msg sys = send_all ctx (strategy_answers strategy msg) sys.
Proof.
  unfold strategy_process, strategy_answers. destruct (quote_from_slice (msg_body msg)) as [q|e|]; [|done..].
  destruct (_ && _); [|done]. cbn [send_all]. by rewrite bind_ok.
Qed.

Lemma executions_sends ctx execs rest sys :
  send_all ctx (map (λ x, ("executions@hft"%string, exec_to_vec x)) execs ++ rest) sys =
  MailboxProcessor.bind (send_executions fuel ids times ctx execs) (λ _, send_all ctx rest) sys.
Proof.
  revert sys. induction execs as [|x execs IH]; intros sys; [done|]. cbn [map app send_all send_executions].
  unfold MailboxProcessor.bind in *. destruct (send_json _ _ _ _ _ _ sys) as [[s [[]|e|]]|]; [apply IH|done..].
Qed.

Lemma order_sends clock limits eng ctx msg sys :
  let '(eng1, e) := order_process fuel ids times clock limits eng ctx msg in
  let '(eng2, l) := order_answers clock limits eng msg in
  eng1 = eng2 ∧ e sys = send_all ctx l sys.
Proof.
  unfold order_process, order_answers. destruct (order_from_slice (msg_body msg)) as [o|e|]; [|done..].
  destruct (get_order_id eng) as [eng1 oid]. destruct (_ <? _); [done|].
  destruct (match_order clock eng1 _) as [eng2 [matched execs]]. split; [done|]. rewrite executions_sends.
  unfold MailboxProcessor.bind. destruct (send_executions _ _ _ _ _ sys) as [[s [[]|e|]]|]; [|done..]. by rewrite <- bind_ok.
Qed.
End answers.

(** ** The engine stays quiet *)

(** Nothing is offered for sale, and only GOOGL is wanted. *)
Record quiet (eng : MatchingEngine) : Prop := {
  qt_sell : ∀ sym, sell_book eng !! sym = None;
  qt_buy : ∀ sym, sym ≠ "GOOGL"%string → buy_book eng !! sym = None
}.

(** Orders that find nothing in a quiet engine and leave it quiet. *)
Definition harmless (o : Order) : Prop :=
  match side o, order_type o with
  | Buy, Limit => symbol o = "GOOGL"%string
  | Buy, (Market | FOK) => True
  | Sell, (IOC | Stop) => symbol o ≠ "GOOGL"%string
  | _, _ => False
  end.

Lemma match_nothing clock eng acceptable o :
  opposite_book eng (side o) !! symbol o = None →
  match_opposite clock eng acceptable o = (eng, mkFill o (u32 (quantity o - filled_quantity o)) (execution_counter eng) []).
Proof. intros Hn. unfold match_opposite. by rewrite Hn. Qed.

Lemma quiet_opposite eng o : quiet eng → (side o = Sell → symbol o ≠ "GOOGL"%string) → opposite_book eng (side o) !! symbol o = None.
Proof. intros [Hs Hb] Ho. destruct (side o); cbn; [apply Hs|by apply Hb, Ho]. Qed.

Lemma quiet_match clock eng o :
  quiet eng → harmless o →
  let '(eng', (_, execs)) := match_order clock eng o in quiet eng' ∧ execs = [].
Proof.
  intros Hq Ho. unfold match_order, harmless in *.
  assert (opposite_book eng (side o) !! symbol o = None) as Hn.
  { apply quiet_opposite; [done|]. intros Hs. rewrite Hs in Ho. by destruct (order_type o). }
  destruct (side o) eqn:Hside, (order_type o) eqn:Htype; try done; unfold convert_stop; rewrite Htype.
  - rewrite Htype. unfold match_market_order. rewrite match_nothing by (by rewrite Hside). done.
  - rewrite Htype. unfold match_limit_order. destruct (price o) as [p|]; [|done].
    rewrite match_nothing by (by rewrite Hside). cbn [fs_remaining fs_order fs_executions]. split; [|done].
    destruct (_ && _); [|done]. unfold rest_order. rewrite Hside, Ho. destruct Hq as [Hs Hb]. split; cbn; [done|].
    intros sym Hne. rewrite lookup_insert_ne by done. by apply Hb.
  - rewrite Htype. unfold match_limit_order. destruct (price o) as [p|]; [|by destruct (_ =? _)].
    rewrite match_nothing by (by rewrite Hside). rewrite Htype, (bool_decide_false (FOK = Limit)), andb_false_r by done.
    by destruct (_ =? _).
  - rewrite Htype. unfold match_limit_order. destruct (price o) as [p|]; [|done].
    rewrite match_nothing by (by rewrite Hside). rewrite Htype, (bool_decide_false (IOC = Limit)), andb_false_r by done. done.
  - destruct (get_market_price eng (symbol o)) as [mp|]; [|by rewrite Htype]. rewrite Hside. destruct (f64_le _ _); [|done].
    cbn [order_type with_type bool_decide]. rewrite bool_decide_true by done. unfold match_market_order.
    rewrite match_nothing by (by cbn; rewrite Hside). done.
Qed.

(** ** The protocol of the server's mailboxes *)
Section protocol.
Context `{MessageCodec} `{HftCodecOk}.
Context (walk : nat → f64) (sizes : nat → Z * Z) (quote_clock : nat → Z) (clock : Z → Z).

(** Reading a submitted order back keeps what it is an order for. *)
Definition orders_read_back : Prop := ∀ o bs o',
  o ∈ manual_orders → order_to_vec o = Ok bs → order_from_slice bs = Ok o' →
  symbol o' = symbol o ∧ side o' = side o ∧ order_type o' = order_type o.
Context (Hread : orders_read_back).

(** The feed's mailboxes hold its commands, that of orders the submitted ones,
    and that of executions nothing. *)
Definition is_command (m : Message) : Prop := ∃ symbol, msg_body m = quote_command symbol.
Definition is_manual (m : Message) : Prop := ∃ o, o ∈ manual_orders ∧ order_to_vec o = Ok (msg_body m).
Definition may_hold (address : string) (m : Message) : Prop :=
  if String.eqb address "market-data@hft" || String.eqb address "strategy-feed@hft" then is_command m
  else if String.eqb address "orders@hft" then is_manual m
  else if String.eqb address "executions@hft" then False
  else True.

Definition no_execution (s : Server) : Prop := quiet (sv_engine s) ∧ (sv_summary s = None ∨ sv_summary s = Some 0).

Abbreviation keeps K p Q := (obeys may_hold no_execution K p Q).
Abbreviation keep K := (λ K' _, K ⊆ K').
Abbreviation finally := (λ _ _, True).

(** Answers that go to mailboxes that may hold anything. *)
Definition open_mailbox (a : string) : Prop := ∀ m, may_hold a m.
Lemma send_answers_keep K own answers :
  Forall (λ a : answer, open_mailbox a.1) answers → keeps K (send_answers own answers) (keep K).
Proof.
  intros Ha. revert K. induction Ha as [|[to [bs|e|]] answers Hto _ IH]; intros K; cbn; [reflexivity| |reflexivity..].
  intros [[h|]|e|]; [intros Hh; cbn|cbn; reflexivity..]. split.
  - exists own. rewrite lookup_insert_eq. split; [done|]. intros id now. apply Hto.
  - intros [u|e|]; [|by apply insert_subseteq..]. eapply obeys_impl; [apply IH|]. cbn. intros K' _ _ HK. etrans; [|exact HK]. by apply insert_subseteq.
Qed.

Lemma market_data_keeps K msg : keeps K (market_data_act walk sizes quote_clock msg) (keep K).
Proof.
  intros s [Hq Hsum]. unfold market_data_answers. cbn zeta.
  destruct (starts_with "QUOTE:" _); [|destruct (starts_with "TRADE:" _); [|by split; [|apply send_answers_keep]]];
    (destruct (command_target _) as [[sym ex]|]; [|by split; [|apply send_answers_keep]]).
  - split; [done|]. apply send_answers_keep. by repeat constructor.
  - destruct (generate_trade _ _ _ _ _ _) as [g trade]. split; [done|]. apply send_answers_keep. by repeat constructor.
Qed.

Lemma strategy_keeps K msg : is_command msg → keeps K (strategy_act msg) (keep K).
Proof.
  intros [sym Hm]. unfold strategy_act, strategy_answers. rewrite Hm.
  pose proof (quote_syntax (str_bytes ("UOTE:" +:+ sym +:+ ":NASDAQ"))) as Hq.
  change (x51 :: _) with (quote_command sym) in Hq. destruct (quote_from_slice (quote_command sym)); [done|by apply send_answers_keep..].
Qed.

(** The submitted orders are harmless. *)
Lemma manual_harmless o o' :
  o ∈ manual_orders → symbol o' = symbol o → side o' = side o → order_type o' = order_type o → harmless o'.
Proof.
  intros Ho Hsym Hside Htype. unfold harmless. rewrite Hside, Htype, Hsym. clear Hsym Hside Htype o'.
  repeat (apply elem_of_cons in Ho as [->|Ho]; [done|]). by apply elem_of_nil in Ho.
Qed.

Lemma order_keeps K msg : is_manual msg → keeps K (order_act clock msg) (keep K).
Proof.
  intros (o & Ho & Hb) s [Hq Hsum]. unfold order_answers.
  destruct (order_from_slice (msg_body msg)) as [o'|e|] eqn:Ho'; [|by split; [|apply send_answers_keep]..].
  destruct (Hread o (msg_body msg) o' Ho Hb Ho') as (Hsym & Hside & Htype).
  destruct (get_order_id (sv_engine s)) as [eng oid] eqn:Hid.
  assert (quiet eng) as Hq1 by (injection Hid as <- <-; destruct Hq; by split).
  destruct (_ <? _); [by split; [|apply send_answers_keep]|].
  pose proof (quiet_match clock eng (accept_order o' oid) Hq1 (manual_harmless o _ Ho Hsym Hside Htype)) as Hm.
  destruct (match_order clock eng (accept_order o' oid)) as [eng2 [matched execs]]. destruct Hm as [Hq2 ->].
  split; [done|]. apply send_answers_keep. by repeat constructor.
Qed.

Lemma task_keeps K h a n act :
  K !! h = Some a → (∀ K msg, may_hold a msg → keeps K (act msg) (keep K)) → keeps K (task_loop n h act) finally.
Proof.
  intros Hh Hact. revert K Hh. induction n as [|n IH]; intros K Hh; [done|]. cbn. exists a. split; [done|].
  intros [[msg|]|e|] Hm; [|by apply IH..|done]. eapply obeys_bind; [by apply Hact|]. cbn. intros K' r _ HK.
  pose proof (lookup_weaken _ _ _ _ Hh HK). destruct r; [by apply IH..|done].
Qed.

Lemma start_keeps K n a act k :
  (∀ K msg, may_hold a msg → keeps K (act msg) (keep K)) → (∀ K, keeps K k finally) → keeps K (start_processor n a act k) finally.
Proof.
  intros Hact Hk [[h|]|e|]; try done. intros Hh. cbn. split; [|apply Hk]. by eapply task_keeps; [apply lookup_insert_eq|].
Qed.

Lemma feed_keeps K n : keeps K (feed n) finally.
Proof.
  intros [[md|]|e|]; try done. intros Hh. cbn. assert (<[md:="market-data@hft"%string]> K !! md = Some "market-data@hft"%string) as Hmd by apply lookup_insert_eq.
  revert Hmd. generalize (<[md:="market-data@hft"%string]> K). clear K Hh. intros K.
  induction n as [|n IH] in K |- *; intros Hmd; [done|]. cbn [feed_loop].
  generalize ["AAPL"; "GOOGL"; "MSFT"; "TSLA"]%string. intros symbols. induction symbols as [|sym symbols IHs] in K, Hmd |- *; [by apply IH|].
  cbn. split; [exists "market-data@hft"%string; split; [done|]; intros id now; by exists sym|]. intros _.
  exists "market-data@hft"%string. split; [done|]. intros [[msg|]|e|] Hm; [|by apply IHs..].
  intros [[qm|]|e|]; [|by apply IHs..]. intros Hqm. split.
  - exists "quotes@hft"%string. split; [apply lookup_insert_eq|]. intros id now. destruct Hm as [sym' Hm]. by exists sym'.
  - intros _. apply IHs. rewrite lookup_insert_ne; [done|]. intros ->. congruence.
Qed.

Lemma submit_keeps K orders o k :
  K !! orders = Some "orders@hft"%string → o ∈ manual_orders → (∀ K, K !! orders = Some "orders@hft"%string → keeps K k finally) →
  keeps K (submit orders o k) finally.
Proof.
  intros Hh Ho Hk. unfold submit. destruct (order_to_vec o) as [bs|e|] eqn:Hb; [|done..]. cbn. split.
  - exists "orders@hft"%string. split; [done|]. intros id now. by exists o.
  - intros [u|e|]; [by apply Hk|done..].
Qed.
Lemma price_keeps K sym p k : keeps K k finally → keeps K (set_price sym p k) finally.
Proof. intros Hk s [Hq Hsum]. split; [|done]. split; [|done]. destruct Hq; by split. Qed.

Lemma summary_keeps K n : keeps K (summary n) finally.
Proof.
  intros [[h|]|e|]; try done. intros Hh. cbn. destruct n as [|n]; [done|]. cbn. exists "executions@hft"%string. split; [apply lookup_insert_eq|].
  intros [[msg|]|e|] Hm; [done| | |done]; intros s [Hq Hsum]; (split; [by split; [|right]|done]).
Qed.

Lemma server_keeps K n : keeps K (server_main walk sizes quote_clock clock n) finally.
Proof.
  unfold server_main. eapply (obeys_bind _ _ _ _ _ finally); [|done].
  unfold trading_server. do 7 (intros [?|?|]; [intros ?|done..]). cbn beta iota.
  apply start_keeps; [intros; apply market_data_keeps|]. intros K1. apply start_keeps; [intros; by apply order_keeps|].
  intros K2. apply start_keeps; [intros; by apply strategy_keeps|]. intros K3. split; [apply feed_keeps|].
  intros [[orders|]|e|]; try done. intros Hh. cbn beta iota. apply price_keeps.
  assert (∀ o, o ∈ manual_orders → o ∈ manual_orders) as Hin by done.
  repeat (apply submit_keeps; [try apply lookup_insert_eq; try done|set_solver|intros ? ?]).
  apply price_keeps. apply submit_keeps; [done|set_solver|]. intros ? ?. apply summary_keeps.
Qed.
End protocol.

(** ** Property *)
Section server_property.
Context `{ByteQueueOk} `{MessageCodecOk} `{Os} `{HftCodecOk}.

(** C31. The trading server never reports an execution: whatever the random
    draws, the clocks and the schedule of its tasks, its feed and its main
    program, no message ever reaches the mailbox of executions, nothing is ever
    offered for sale in the engine, and the summary, if it has been made, says
    that there are none.  The five orders are for five symbols and never meet,
    and the feed gives the strategy its own commands instead of quotes, so the
    strategy sends none.  This is so whenever the table has answers for the
    schedule, and the submitted orders are read back for what they are. *)
Theorem trading_server_executes_nothing walk sizes quote_clock clock usable fuel ids times n schedule s ps sys t :
  orders_read_back → mailboxes sys = ∅ → opens usable sys → roomy →
  turns (λ R, spec_call usable ids times) schedule
    (mkTable [] [] [] 0 [], server_start, [server_main walk sizes quote_clock clock n]) = Some (t, s, ps) → sendables t →
  ∃ w, turns (λ R, run_call fuel ids times) schedule
      (mkWorld sys [] 0 [], server_start, [server_main walk sizes quote_clock clock n]) = Some (w, s, ps) ∧
    (∀ q, mailboxes (w_sys w) !! "executions@hft"%string = Some q → box_repr q []) ∧
    (∀ symbol, sell_book (sv_engine s) !! symbol = None) ∧
    (sv_summary s = None ∨ sv_summary s = Some 0).
Proof.
  intros Hread Hs Ho Hroom Hrun Hsent.
  destruct (threads_refine usable fuel ids times schedule _ _ server_start _ t s ps Hroom (fresh_world_repr usable sys Hs Ho) Hrun Hsent)
    as (w & Hw & Hr).
  assert (in_order may_hold no_execution (mkTable [] [] [] 0 [], server_start, [server_main walk sizes quote_clock clock n])) as Hstart.
  { split; cbn; [by intros a box|by repeat split; left|]. apply Forall_cons_2; [|apply Forall_nil_2]. exists ∅. split; [by intros h a|].
    by apply server_keeps. }
  destruct (turns_in_order _ _ usable ids times schedule _ _ Hstart Hrun) as [Hboxes [[Hsell _] Hsum] _].
  exists w. split; [done|]. split; [|done]. intros q Hq.
  pose proof (boxes_lookup usable w t "executions@hft" Hr) as Hb. rewrite Hq in Hb.
  destruct (boxes t !! "executions@hft"%string) as [box|] eqn:Hbox; [|done].
  assert (box = []) as -> by (rewrite <- assoc_boxes in Hbox; pose proof (Hboxes _ _ Hbox) as Hall; by destruct Hall). apply Hb.
Qed.
End server_property.

(** ** A concrete run *)
#[local] Existing Instances digit_codec digit_codec_ok persistq_queue mailbox_queues.

(** A codec of the submitted orders by their symbols. *)
#[local] Instance symbol_codec : HftCodec := {
  order_to_vec o := Ok (str_bytes (symbol o));
  order_from_slice bs := ok_or (List.find (λ o, bool_decide (str_bytes (symbol o) = bs)) manual_orders) "expected value"%string;
  exec_to_vec _ := Ok [x03];
  exec_from_slice _ := Ok (mkExecution 1 3 "AAPL" Buy (f64_of_int 179) 10 7);
  quote_to_vec _ := Ok [x03];
  quote_from_slice _ := Err "expected value"%string;
  trade_to_vec _ := Ok [x03] }.
#[local] Instance symbol_codec_ok : HftCodecOk.
Proof. by split. Qed.

Lemma symbols_read_back : orders_read_back.
Proof.
  intros o bs o' Ho. repeat (apply elem_of_cons in Ho as [->|Ho]; [intros [= <-]; vm_compute; by intros [= <-]|]). by apply elem_of_nil in Ho.
Qed.

Definition server_address (a : string) : bool :=
  existsb (String.eqb a) ["market-data@hft"; "quotes@hft"; "trades@hft"; "orders@hft"; "executions@hft"; "order-status@hft"; "strategy-feed@hft"].

(** Every program in turn, eighty times. *)
Definition fair : list nat := concat (replicate 80 [0; 1; 2; 3; 4])%nat.
Abbreviation sample_server := (server_main (λ _, f64_of_int 0) (λ _, (100, 100)) Z.of_nat (λ i, i) 8).

Lemma trading_server_executes_nothing_witness :
  ∃ w s ps, turns (λ R, run_call 0 numbered Z.of_nat) fair (mkWorld new_system [] 0 [], server_start, [sample_server]) = Some (w, s, ps) ∧
    sv_summary s = Some 0 ∧ (∀ symbol, sell_book (sv_engine s) !! symbol = None).
Proof.
  destruct (new_system_opens server_address) as [He Ho].
  { intros a Ha. unfold server_address in Ha. apply existsb_exists in Ha as (b & Hb & Hab). apply String.eqb_eq in Hab as ->.
    cbn [In] in Hb. repeat (destruct Hb as [<-|Hb]; [vm_compute; reflexivity|]). done. }
  destruct (fst <$> turns (λ R, spec_call server_address numbered Z.of_nat) fair (mkTable [] [] [] 0 [], server_start, [sample_server]))
    as [[t s]|] eqn:Hres; [|vm_compute in Hres; discriminate].
  destruct (turns_result _ _ _ _ _ Hres) as [ps Hrun].
  assert (sv_summary s = Some 0 ∧ sendables t) as [Hsum Hsent].
  { vm_compute in Hres. injection Hres as <- <-. split; [reflexivity|]. all_sendable. }
  destruct (trading_server_executes_nothing _ _ _ _ server_address 0 numbered Z.of_nat 8 fair s ps new_system t
    symbols_read_back He Ho persistq_roomy Hrun Hsent) as (w & Hw & _ & Hsell & _).
  exists w, s, ps. split; [exact Hw|]. split; [exact Hsum|exact Hsell].
Defined.
