(* ===== verification/OrderBook.v ===== *)
(** * The order book of the competition (src/examples/two_traders_competition.rs)

    Quotes and resting limit orders on two sides sorted by price, and the
    matching of an order against the opposite side.  Sorting compares prices
    with [partial_cmp(..).unwrap()], which panics on a NaN; [None] is that
    panic. *)

From stdpp Require Import base list numbers strings pretty sorting.
From Stdlib Require Import Permutation.
From S2P Require Import Prelude F64.
Local Open Scope Z_scope.

(** Source: src/examples/two_traders_competition.rs:47-56 (Quote) *)
Record Quote := mkQuote {
  q_trader_id : string; q_symbol : string; q_bid_price : f64; q_bid_size : Z;
  q_ask_price : f64; q_ask_size : Z; q_timestamp : Z }.

(** Source: src/examples/two_traders_competition.rs:70-74 (Side) *)
Inductive Side := Buy | Sell.

(** Source: src/examples/two_traders_competition.rs:76-81 (OrderType) *)
Inductive OrderType := Limit | Market | IOC.
#[export] Instance OrderType_eq_dec : EqDecision OrderType.
Proof. solve_decision. Defined.

(** Source: src/examples/two_traders_competition.rs:58-68 (Order) *)
Record Order := mkOrder {
  o_order_id : string; o_trader_id : string; o_symbol : string; o_side : Side;
  o_type : OrderType; o_price : f64; o_quantity : Z; o_timestamp : Z }.

(** Source: src/examples/two_traders_competition.rs:83-92 (Trade) *)
Record Trade := mkTrade {
  t_trade_id : string; t_symbol : string; t_buyer_id : string; t_seller_id : string;
  t_price : f64; t_quantity : Z; t_timestamp : Z }.

(** Source: src/examples/two_traders_competition.rs:94-102 (MarketUpdate) *)
Record MarketUpdate := mkUpdate {
  m_symbol : string; m_last_price : f64; m_bid_price : f64; m_ask_price : f64;
  m_volume : Z; m_timestamp : Z }.

(** A price, a quantity and the trader it belongs to. *)
Record Level := mkLevel { l_price : f64; l_qty : Z; l_trader : string }.

(** Source: src/examples/two_traders_competition.rs:119-126 (OrderBook) *)
Record OrderBook := mkBook {
  b_symbol : string; bids : list Level; asks : list Level;
  last_trade_price : f64; trades : list Trade; b_trade_counter : Z }.

(** Source: src/examples/two_traders_competition.rs:129-138 (OrderBook::new) *)
Definition OrderBook_new (symbol : string) (initial_price : f64) : OrderBook :=
  mkBook symbol [] [] initial_price [] 0.

(** A stable sort: [before p q] says that price [p] comes strictly before [q]. *)
Fixpoint insert_level (before : f64 → f64 → bool) (x : Level) (l : list Level) : list Level :=
  match l with
  | [] => [x]
  | y :: l' => if before (l_price x) (l_price y) then x :: l else y :: insert_level before x l'
  end.

(** [sort_by(|a, b| ..partial_cmp(..).unwrap())]: with two or more elements
    each is compared, so a NaN panics. *)
Definition sort_by_price (before : f64 → f64 → bool) (l : list Level) : option (list Level) :=
  if (len l <? 2) then Some l
  else if existsb (λ x, f64_is_nan (l_price x)) l then None
  else Some (foldl (λ acc x, insert_level before x acc) [] l).

Definition bid_before (p q : f64) : bool := f64_gt p q.
Definition ask_before (p q : f64) : bool := f64_lt p q.

(** [push_back] and sort. *)
Definition push_sorted (before : f64 → f64 → bool) (l : list Level) (x : Level) : option (list Level) :=
  sort_by_price before (l ++ [x]).

Definition retain_others (trader : string) (l : list Level) : list Level :=
  filter (λ x, negb (String.eqb (l_trader x) trader)) l.

(** Source: src/examples/two_traders_competition.rs:140-154 (OrderBook::update_quote) *)
Definition update_quote (b : OrderBook) (quote : Quote) : option OrderBook :=
  let bids := retain_others (q_trader_id quote) (bids b) in
  let asks := retain_others (q_trader_id quote) (asks b) in
  bids ← (if 0 <? q_bid_size quote
          then push_sorted bid_before bids (mkLevel (q_bid_price quote) (q_bid_size quote) (q_trader_id quote))
          else Some bids);
  asks ← (if 0 <? q_ask_size quote
          then push_sorted ask_before asks (mkLevel (q_ask_price quote) (q_ask_size quote) (q_trader_id quote))
          else Some asks);
  Some (mkBook (b_symbol b) bids asks (last_trade_price b) (trades b) (b_trade_counter b)).

(** Whether an order trades at a price of the opposite side. *)
Definition crosses (order : Order) (p : f64) : bool :=
  bool_decide (o_type order = Market) ||
  match o_side order with Buy => f64_ge (o_price order) p | Sell => f64_le (o_price order) p end.

Definition make_trade (order : Order) (p : f64) (qty : Z) (trader : string) (counter : Z) : Trade :=
  let '(buyer, seller) := match o_side order with
    | Buy => (o_trader_id order, trader)
    | Sell => (trader, o_trader_id order)
    end in
  mkTrade ("T" +:+ pretty counter) (o_symbol order) buyer seller p qty (o_timestamp order).

(** The two loops, which differ in the side: each round trades with the front
    level, and either takes it all and pops it, or leaves some of it and has
    nothing left to trade, which ends the loop.
    Source: src/examples/two_traders_competition.rs:160-230 (OrderBook::match_order, part) *)
Fixpoint fill_side (order : Order) (levels : list Level) (remaining_qty counter : Z) (last : f64)
    : list Level * Z * Z * f64 * list Trade :=
  match levels with
  | [] => ([], remaining_qty, counter, last, [])
  | x :: rest =>
      if (0 <? remaining_qty) && crosses order (l_price x) then
        let trade_qty := Z.min remaining_qty (l_qty x) in
        let counter := u64 (counter + 1) in
        let trade := make_trade order (l_price x) trade_qty (l_trader x) counter in
        let remaining_qty := i64 (remaining_qty - trade_qty) in
        if l_qty x <=? trade_qty then
          let '(levels, remaining_qty, counter, last, ts) :=
            fill_side order rest remaining_qty counter (l_price x) in
          (levels, remaining_qty, counter, last, trade :: ts)
        else
          (mkLevel (l_price x) (i64 (l_qty x - trade_qty)) (l_trader x) :: rest, remaining_qty, counter,
           l_price x, [trade])
      else (levels, remaining_qty, counter, last, [])
  end.

(** Source: src/examples/two_traders_competition.rs:156-247 (OrderBook::match_order) *)
Definition match_order (b : OrderBook) (order : Order) : option (OrderBook * list Trade) :=
  let opposite := match o_side order with Buy => asks b | Sell => bids b end in
  let '(levels, remaining_qty, counter, last, ts) :=
    fill_side order opposite (o_quantity order) (b_trade_counter b) (last_trade_price b) in
  let '(bids, asks) := match o_side order with Buy => (bids b, levels) | Sell => (levels, asks b) end in
  let rest := mkLevel (o_price order) remaining_qty (o_trader_id order) in
  '(bids, asks) ←
    (if (0 <? remaining_qty) && bool_decide (o_type order = Limit) then
       match o_side order with
       | Buy => bids ← push_sorted bid_before bids rest; Some (bids, asks)
       | Sell => asks ← push_sorted ask_before asks rest; Some (bids, asks)
       end
     else Some (bids, asks));
  Some (mkBook (b_symbol b) bids asks last (trades b ++ ts) counter, ts).

(** Source: src/examples/two_traders_competition.rs:249-261 (OrderBook::get_market_update) *)
Definition get_market_update (b : OrderBook) (timestamp : Z) : MarketUpdate :=
  let tenth := f64_lit 1 10 in
  mkUpdate (b_symbol b) (last_trade_price b)
    (match bids b with x :: _ => l_price x | [] => f64_sub (last_trade_price b) tenth end)
    (match asks b with x :: _ => l_price x | [] => f64_add (last_trade_price b) tenth end)
    (foldl (λ acc t, i64 (acc + t_quantity t)) 0 (trades b)) timestamp.

(** Source: src/examples/two_traders_competition.rs:263-269 (OrderBook::get_spread) *)
Definition get_spread (b : OrderBook) : f64 :=
  match bids b, asks b with
  | bid :: _, ask :: _ => f64_sub (l_price ask) (l_price bid)
  | _, _ => f64_lit 1 10
  end.

(** ** Sorted sides *)
Section sides.
Context (before : f64 → f64 → bool).
Context (before_asym : ∀ p q, before p q = true → before q p = false)
        (before_trans : ∀ p q r, before p q = true → before q r = true → before p r = true).

(** [y] may follow [x]. *)
Definition follows (x y : Level) : Prop := before (l_price y) (l_price x) = false.

Lemma insert_level_perm x l : insert_level before x l ≡ₚ x :: l.
Proof.
  induction l as [|y l IH]; simpl; [done|]. destruct (before _ _); [done|].
  etransitivity; [apply perm_skip, IH|apply perm_swap].
Qed.
Lemma insert_level_Forall (P : Level → Prop) x l : P x → Forall P l → Forall P (insert_level before x l).
Proof.
  intros Hx. induction 1 as [|y l Hy Hl IH]; simpl; [by constructor|].
  destruct (before _ _); by repeat constructor.
Qed.

Lemma insert_level_sorted x l :
  StronglySorted follows l → StronglySorted follows (insert_level before x l).
Proof.
  induction l as [|y l IH]; simpl; intros Hs; [by repeat constructor|].
  pose proof Hs as [Hl Hy]%StronglySorted_inv. destruct (before (l_price x) (l_price y)) eqn:Hb.
  - apply SSorted_cons; [done|]. constructor; [by apply before_asym|].
    eapply Forall_impl; [exact Hy|]. unfold follows. intros z Hz. apply not_true_iff_false.
    intros Hzx. by rewrite (before_trans _ _ _ Hzx Hb) in Hz.
  - apply SSorted_cons; [by apply IH|]. by apply insert_level_Forall.
Qed.

(** A sorted list is left as it is, and a new element goes behind its equals. *)
Lemma insert_level_last x l : Forall (λ y, follows y x) l → insert_level before x l = l ++ [x].
Proof. induction 1 as [|y l Hy _ IH]; simpl; [done|]. unfold follows in Hy. by rewrite Hy, IH. Qed.
Lemma foldl_insert_sorted acc l :
  StronglySorted follows (acc ++ l) → foldl (λ acc x, insert_level before x acc) acc l = acc ++ l.
Proof.
  revert acc. induction l as [|x l IH]; intros acc Hs; simpl; [by rewrite app_nil_r|].
  rewrite insert_level_last.
  - rewrite IH; rewrite <- app_assoc; done.
  - apply Forall_forall. intros y Hy. apply StronglySorted_app in Hs as (Hle & _ & _).
    apply Hle; [done|by left].
Qed.

Definition no_nan (l : list Level) : Prop := Forall (λ x, f64_is_nan (l_price x) = false) l.
Lemma no_nan_existsb l : no_nan l → existsb (λ x, f64_is_nan (l_price x)) l = false.
Proof. induction 1 as [|x l Hx _ IH]; simpl; [done|]. by rewrite Hx, IH. Qed.

(** Pushing to a sorted side: behind the levels of the same or a better price,
    or a panic when the new price is a NaN and the side is not empty. *)
Lemma push_sorted_spec l x :
  StronglySorted follows l → no_nan l →
  push_sorted before l x =
    if bool_decide (l ≠ []) && f64_is_nan (l_price x) then None else Some (insert_level before x l).
Proof.
  intros Hs Hn. unfold push_sorted, sort_by_price. destruct l as [|y l]; [done|].
  rewrite (bool_decide_true (_ ≠ [])) by done.
  replace (len ((y :: l) ++ [x]) <? 2) with false by (symmetry; apply Z.ltb_ge; len_lia).
  rewrite existsb_app, (no_nan_existsb _ Hn). simpl existsb. rewrite orb_false_r. cbn [orb andb].
  destruct (f64_is_nan (l_price x)); [done|]. f_equal. rewrite foldl_app.
  by rewrite (foldl_insert_sorted []).
Qed.
End sides.

Lemma bid_before_asym p q : bid_before p q = true → bid_before q p = false.
Proof. apply f64_lt_asym. Qed.
Lemma bid_before_trans p q r : bid_before p q = true → bid_before q r = true → bid_before p r = true.
Proof. unfold bid_before, f64_gt. intros. by eapply f64_lt_trans. Qed.
Lemma ask_before_asym p q : ask_before p q = true → ask_before q p = false.
Proof. apply f64_lt_asym. Qed.
Lemma ask_before_trans p q r : ask_before p q = true → ask_before q r = true → ask_before p r = true.
Proof. apply f64_lt_trans. Qed.
#[export] Hint Resolve bid_before_asym bid_before_trans ask_before_asym ask_before_trans : dolda.

(** A side: sorted, no NaN, every quantity a positive [i64]. *)
Definition level_ok (x : Level) : Prop := f64_is_nan (l_price x) = false ∧ 0 < l_qty x < 2 ^ 63.
Definition side_ok (before : f64 → f64 → bool) (l : list Level) : Prop :=
  StronglySorted (follows before) l ∧ Forall level_ok l.
Definition book_wf (b : OrderBook) : Prop := side_ok bid_before (bids b) ∧ side_ok ask_before (asks b).

Lemma level_ok_no_nan l : Forall level_ok l → no_nan l.
Proof. intros Hl. eapply Forall_impl; [exact Hl|]. by intros x [? _]. Qed.

Lemma Forall_filter {A} (Q P : A → Prop) `{∀ x, Decision (P x)} l : Forall Q l → Forall Q (filter P l).
Proof. rewrite !Forall_forall. intros Hl x [_ Hx]%list_elem_of_filter. by apply Hl. Qed.
Lemma StronglySorted_filter {A} (R : A → A → Prop) (P : A → Prop) `{∀ x, Decision (P x)} l :
  StronglySorted R l → StronglySorted R (filter P l).
Proof.
  induction l as [|x l IH]; [done|]. intros [Hl Hx]%StronglySorted_inv. rewrite filter_cons.
  case_decide; [|by apply IH]. apply SSorted_cons; [by apply IH|]. by apply Forall_filter.
Qed.
Lemma retain_side before t l : side_ok before l → side_ok before (retain_others t l).
Proof. intros [Hs Hf]. split; [by apply StronglySorted_filter|by apply Forall_filter]. Qed.

Lemma push_sorted_side before l x :
  side_ok before l →
  push_sorted before l x =
    if bool_decide (l ≠ []) && f64_is_nan (l_price x) then None else Some (insert_level before x l).
Proof. intros [Hs Hf]. by apply push_sorted_spec, level_ok_no_nan. Qed.

Lemma push_side before l x :
  (∀ p q, before p q = true → before q p = false) →
  (∀ p q r, before p q = true → before q r = true → before p r = true) →
  side_ok before l → level_ok x →
  push_sorted before l x = Some (insert_level before x l) ∧ side_ok before (insert_level before x l).
Proof.
  intros Ha Ht [Hs Hf] Hx. rewrite push_sorted_side by done.
  destruct Hx as [Hn Hq]. rewrite Hn, andb_false_r. split; [done|]. split.
  - by apply insert_level_sorted.
  - by apply insert_level_Forall.
Qed.

(** ** The matching loop *)

(** The parties and the symbol of a trade of an order with a level of [l]. *)
Definition trade_of (order : Order) (l : list Level) (t : Trade) : Prop :=
  t_symbol t = o_symbol order ∧ t_timestamp t = o_timestamp order ∧
  0 < t_quantity t ∧ crosses order (t_price t) = true ∧
  ∃ x, x ∈ l ∧ t_price t = l_price x ∧
    (t_buyer_id t, t_seller_id t) =
      match o_side order with Buy => (o_trader_id order, l_trader x) | Sell => (l_trader x, o_trader_id order) end.

Lemma trade_of_mono order l l' t : l ⊆ l' → trade_of order l t → trade_of order l' t.
Proof. intros Hl (? & ? & ? & ? & x & ? & ?). split_and!; try done. exists x. split; [by apply Hl|done]. Qed.

Lemma make_trade_of order x rest q c :
  0 < q → crosses order (l_price x) = true →
  trade_of order (x :: rest) (make_trade order (l_price x) q (l_trader x) c) ∧
  t_quantity (make_trade order (l_price x) q (l_trader x) c) = q.
Proof.
  intros Hq Hc. unfold trade_of, make_trade. destruct (o_side order); simpl; split_and!; try done;
    exists x; split_and!; try done; by left.
Qed.

(** A side share by share, in the order in which it is to trade: the price and
    the trader of each; and what an order takes with a trade. *)
Definition shares (l : list Level) : list (f64 * string) :=
  concat (map (λ x, replicate (Z.to_nat (l_qty x)) (l_price x, l_trader x)) l).
Definition taken (order : Order) (t : Trade) : list (f64 * string) :=
  replicate (Z.to_nat (t_quantity t))
    (t_price t, match o_side order with Buy => t_seller_id t | Sell => t_buyer_id t end).

Lemma taken_make_trade order p q trader c : taken order (make_trade order p q trader c) = replicate (Z.to_nat q) (p, trader).
Proof. unfold taken, make_trade. by destruct (o_side order). Qed.
Lemma shares_cons x l : shares (x :: l) = replicate (Z.to_nat (l_qty x)) (l_price x, l_trader x) ++ shares l.
Proof. done. Qed.

(** What remains of a side: levels of its traders at its prices. *)
Definition level_le (l : list Level) (y : Level) : Prop :=
  ∃ x, x ∈ l ∧ l_price y = l_price x ∧ l_trader y = l_trader x.

Record filled_side (order : Order) (before : f64 → f64 → bool) (l : list Level) (rem : Z)
    (last : f64) (l' : list Level) (rem' : Z) (last' : f64) (ts : list Trade) : Prop := {
  fl_ok : side_ok before l';
  fl_levels : Forall (level_le l) l';
  fl_trades : Forall (trade_of order l) ts;
  fl_rem : rem' = rem - zsum t_quantity ts ∧ 0 ≤ rem';
  fl_shares : shares l = concat (map (taken order) ts) ++ shares l';
  fl_last : last' = from_option t_price last (list.last ts);
  fl_done : 0 < rem' → match l' with x :: _ => crosses order (l_price x) = false | [] => True end }.

Lemma level_le_refl l : Forall (level_le l) l.
Proof. apply Forall_forall. intros x Hx. by exists x. Qed.
Lemma level_le_cons x l l' : Forall (level_le l) l' → Forall (level_le (x :: l)) l'.
Proof. intros Hl. eapply Forall_impl; [exact Hl|]. intros y (z & ? & ?). exists z. split; [by right|done]. Qed.

Lemma fill_side_spec order before l rem c last :
  side_ok before l → 0 ≤ rem < 2 ^ 63 →
  ∃ l' rem' c' last' ts, fill_side order l rem c last = (l', rem', c', last', ts) ∧
    filled_side order before l rem last l' rem' last' ts.
Proof.
  revert rem c last. induction l as [|x rest IH]; intros rem c last [Hs Hf] Hr; simpl.
  - exists [], rem, c, last, []. split; [done|]. split; simpl; try done; try lia.
  - destruct ((0 <? rem) && crosses order (l_price x)) eqn:Hc.
    2:{ exists (x :: rest), rem, c, last, []. split; [done|]. split; try done; try lia.
        - apply level_le_refl.
        - simpl. lia.
        - intros Hpos. rewrite (proj2 (Z.ltb_lt _ _)) in Hc by done. done. }
    apply andb_true_iff in Hc as [Hpos Hc]. zbool.
    apply Forall_cons in Hf as [[Hxn Hxq] Hf]. pose proof Hs as [Hs' Hx]%StronglySorted_inv.
    set (q := Z.min rem (l_qty x)) in *.
    rewrite (swrap_id 64 (rem - q)) by (unfold in_srange; lia).
    destruct (make_trade_of order x rest q (u64 (c + 1)) ltac:(lia) Hc) as [Ht Hq].
    destruct (l_qty x <=? q) eqn:Hle; zbool.
    + destruct (IH (rem - q) (u64 (c + 1)) (l_price x)) as (l' & rem' & c' & last' & ts & -> & Hfl);
        [by split|lia|].
      eexists _, _, _, _, _. split; [reflexivity|]. destruct Hfl as [Hok Hl Ht' [Hr1 Hr2] Hsh Hla Hd].
      split; cbn [zsum foldr map concat]; rewrite ?Hq; try done; try (fold (zsum t_quantity ts); lia).
      * by apply level_le_cons.
      * constructor; [done|]. eapply Forall_impl; [exact Ht'|]. intros t. apply trade_of_mono. intros y Hy. by right.
      * rewrite taken_make_trade, shares_cons, Hsh, <- app_assoc. do 3 f_equal. lia.
      * rewrite last_cons, Hla. unfold make_trade. by destruct (list.last ts), (o_side order).
    + rewrite (swrap_id 64 (l_qty x - q)) by (unfold in_srange; lia).
      eexists _, _, _, _, _. split; [reflexivity|]. split; cbn [zsum foldr map concat list.last]; rewrite ?Hq; try lia.
      * split; [by apply SSorted_cons|]. constructor; [|done]. split; simpl; [done|lia].
      * constructor; [by exists x; split_and!; [left| |]|]. apply level_le_cons, level_le_refl.
      * by constructor.
      * rewrite taken_make_trade, !shares_cons, app_nil_r, app_assoc, <- replicate_add. do 3 f_equal. cbn. lia.
      * unfold make_trade. by destruct (o_side order).
Qed.

(** What a limit order has left may rest. *)
Lemma rest_level_ok o l ts :
  Forall (trade_of o l) ts → f64_is_nan (o_price o) = false → 0 < o_quantity o < 2 ^ 63 →
  0 < o_quantity o - zsum t_quantity ts →
  level_ok (mkLevel (o_price o) (o_quantity o - zsum t_quantity ts) (o_trader_id o)).
Proof.
  intros Ht Hp Hq Hr. split; simpl; [done|]. split; [done|]. enough (0 ≤ zsum t_quantity ts) by lia.
  clear - Ht. induction Ht as [|t ts (_ & _ & ? & _) _ IH]; simpl; lia.
Qed.

(** ** Properties *)

(** A quote replaces everything its trader had in the book, resting limit
    orders included, and joins each side behind the levels of the same or a
    better price; sides stay sorted, and the call panics exactly when a price
    that is not a number meets other levels. *)
Lemma update_quote_spec b q :
  book_wf b → 0 < q_bid_size q < 2 ^ 63 → 0 < q_ask_size q < 2 ^ 63 →
  let bids' := retain_others (q_trader_id q) (bids b) in
  let asks' := retain_others (q_trader_id q) (asks b) in
  let bid := mkLevel (q_bid_price q) (q_bid_size q) (q_trader_id q) in
  let ask := mkLevel (q_ask_price q) (q_ask_size q) (q_trader_id q) in
  match update_quote b q with
  | None => f64_is_nan (q_bid_price q) = true ∧ bids' ≠ [] ∨ f64_is_nan (q_ask_price q) = true ∧ asks' ≠ []
  | Some b' =>
      bids b' = insert_level bid_before bid bids' ∧ asks b' = insert_level ask_before ask asks' ∧
      trades b' = trades b ∧ last_trade_price b' = last_trade_price b ∧
      (f64_is_nan (q_bid_price q) = false → f64_is_nan (q_ask_price q) = false → book_wf b')
  end.
Proof.
  intros [Hb Ha] Hbs Has. cbv zeta.
  pose proof (retain_side _ (q_trader_id q) _ Hb) as Hb'. pose proof (retain_side _ (q_trader_id q) _ Ha) as Ha'.
  unfold update_quote. rewrite !(proj2 (Z.ltb_lt _ _)) by lia.
  rewrite (push_sorted_side bid_before _ _ Hb'), (push_sorted_side ask_before _ _ Ha').
  simpl l_price. destruct (bool_decide (retain_others _ (bids b) ≠ []) && _) eqn:E1.
  { apply andb_true_iff in E1 as [E1 E2]. apply bool_decide_eq_true in E1. by left. }
  cbn [mbind option_bind]. destruct (bool_decide (retain_others _ (asks b) ≠ []) && _) eqn:E2.
  { apply andb_true_iff in E2 as [E2 E3]. apply bool_decide_eq_true in E2. by right. }
  cbn. split_and!; try done. intros Hnb Hna.
  split; simpl; apply push_side; eauto with dolda; by split.
Qed.

(** C10. Matching follows price and time.  On a sorted book an order trades at
    prices it accepts with levels of the other side; share by share, what its
    trades take, then what is left, is that side as it was: the best price is
    taken first and, at one price, the earliest level.  It stops only when it is
    full or the best level left is not accepted; the last trade sets the last
    price; a limit order that is not full rests behind its equals, anything else
    leaves its own side alone, and the book stays sorted. *)
Theorem match_order_spec b o :
  book_wf b → 0 < o_quantity o < 2 ^ 63 → f64_is_nan (o_price o) = false →
  let side b := match o_side o with Buy => asks b | Sell => bids b end in
  let own b := match o_side o with Buy => bids b | Sell => asks b end in
  let before := match o_side o with Buy => bid_before | Sell => ask_before end in
  ∃ b' ts, match_order b o = Some (b', ts) ∧ book_wf b' ∧ trades b' = trades b ++ ts ∧
    Forall (trade_of o (side b)) ts ∧
    shares (side b) = concat (map (taken o) ts) ++ shares (side b') ∧
    last_trade_price b' = from_option t_price (last_trade_price b) (last ts) ∧
    let rest := o_quantity o - zsum t_quantity ts in
    0 ≤ rest ∧
    (0 < rest → match side b' with x :: _ => crosses o (l_price x) = false | [] => True end) ∧
    own b' = (if (0 <? rest) && bool_decide (o_type o = Limit)
              then insert_level before (mkLevel (o_price o) rest (o_trader_id o)) (own b) else own b).
Proof.
  intros [Hb Ha] Hq Hp side own before. unfold match_order, side, own, before. cbv zeta.
  destruct (o_side o) eqn:Hside.
  - destruct (fill_side_spec o ask_before (asks b) (o_quantity o) (b_trade_counter b) (last_trade_price b) Ha ltac:(lia))
      as (l' & rem' & c' & last' & ts & -> & [Hok Hl Ht [-> Hr] Hsh Hla Hd]).
    destruct ((0 <? _) && bool_decide (o_type o = Limit)) eqn:Hc.
    + pose proof Hc as Hif. apply andb_true_iff in Hc as [Hc _]. apply Z.ltb_lt in Hc.
      pose proof (rest_level_ok _ _ _ Ht Hp Hq Hc) as Hlv.
      destruct (push_side bid_before (bids b) _ bid_before_asym bid_before_trans Hb Hlv) as [-> Hb'].
      eexists _, _. split; [reflexivity|]. split; [by split|]. simpl. rewrite ?Hif. by split_and!.
    + eexists _, _. split; [reflexivity|]. split; [by split|]. simpl. rewrite Hc. by split_and!.
  - destruct (fill_side_spec o bid_before (bids b) (o_quantity o) (b_trade_counter b) (last_trade_price b) Hb ltac:(lia))
      as (l' & rem' & c' & last' & ts & -> & [Hok Hl Ht [-> Hr] Hsh Hla Hd]).
    destruct ((0 <? _) && bool_decide (o_type o = Limit)) eqn:Hc.
    + pose proof Hc as Hif. apply andb_true_iff in Hc as [Hc _]. apply Z.ltb_lt in Hc.
      pose proof (rest_level_ok _ _ _ Ht Hp Hq Hc) as Hlv.
      destruct (push_side ask_before (asks b) _ ask_before_asym ask_before_trans Ha Hlv) as [-> Ha'].
      eexists _, _. split; [reflexivity|]. split; [by split|]. simpl. rewrite ?Hif. by split_and!.
    + eexists _, _. split; [reflexivity|]. split; [by split|]. simpl. rewrite Hc. by split_and!.
Qed.

(** ** Concrete runs *)
Definition cents (n : Z) : f64 := f64_lit n 100.

(** 50 offered at $100.00 by B and 50 at $101.00 by C. *)
Definition two_asks : OrderBook :=
  mkBook "COMP" [] [mkLevel (cents 10000) 50 "B"; mkLevel (cents 10100) 50 "C"] (cents 10000) [] 0.
Lemma two_asks_wf : book_wf two_asks.
Proof.
  split; (split; [|repeat constructor; by vm_compute]); [constructor|].
  apply SSorted_cons; [|repeat constructor; by vm_compute]. repeat constructor.
Qed.

(** B's new quote replaces the old one, behind C at the same price. *)
Lemma update_quote_spec_witness :
  ∃ b', update_quote two_asks (mkQuote "B" "COMP" (cents 9900) 10 (cents 10100) 20 0) = Some b' ∧
    asks b' = [mkLevel (cents 10100) 50 "C"; mkLevel (cents 10100) 20 "B"] ∧ book_wf b'.
Proof.
  pose proof (update_quote_spec two_asks (mkQuote "B" "COMP" (cents 9900) 10 (cents 10100) 20 0)
    two_asks_wf ltac:(simpl; lia) ltac:(simpl; lia)) as Hu. cbv zeta in Hu.
  destruct (update_quote _ _) as [b'|] eqn:He; [|by vm_compute in He].
  destruct Hu as (_ & Ha & _ & _ & Hwf). exists b'. split; [done|]. split; [|by apply Hwf].
  rewrite Ha. by vm_compute.
Defined.

(** An order for 70 at $100.50 trades 50 and rests 20. *)
Lemma match_order_spec_witness :
  ∃ b' ts, match_order two_asks (mkOrder "A-O1" "A" "COMP" Buy Limit (cents 10050) 70 0) = Some (b', ts) ∧
    zsum t_quantity ts = 50 ∧ book_wf b' ∧ bids b' = [mkLevel (cents 10050) 20 "A"].
Proof.
  destruct (match_order_spec two_asks (mkOrder "A-O1" "A" "COMP" Buy Limit (cents 10050) 70 0)
    two_asks_wf ltac:(simpl; lia) ltac:(by vm_compute)) as (b' & ts & He & Hwf & _ & _ & _ & _ & _ & _ & Hown).
  exists b', ts. assert (zsum t_quantity ts = 50) as Hts.
  { vm_compute in He. by injection He as <- <-. }
  split; [done|]. split; [done|]. split; [done|]. cbn in Hown. rewrite Hts in Hown. exact Hown.
Defined.
