(* ===== verification/Traders.v ===== *)
(** * The traders of the competition (src/examples/two_traders_competition.rs)

    Three traders quote and trade on one [OrderBook]: a momentum trader, a mean
    reversion trader and a market maker.  [Account] holds the fields the three
    have in common.  [iterate] is one round of the main loop; the clock and
    the random noise are its arguments, logging and mailbox traffic (whose
    results the program drops) are left out. *)

From stdpp Require Import base list numbers strings pretty gmap sorting.
From Stdlib Require Import SpecFloat.
From S2P Require Import Prelude F64 OrderBook.
Local Open Scope Z_scope.

(** Source: src/examples/two_traders_competition.rs:104-113 (PositionReport) *)
Record PositionReport := mkReport {
  pr_trader_id : string; pr_cash : f64; pr_positions : gmap string Z;
  pr_realized_pnl : f64; pr_unrealized_pnl : f64; pr_total_equity : f64; pr_timestamp : Z }.

Record Account := mkAccount {
  trader_id : string; cash : f64; positions : gmap string Z; realized_pnl : f64;
  trade_history : list Trade; order_counter : Z }.

Definition open_account (id : string) (initial_cash : f64) : Account :=
  mkAccount id initial_cash ∅ (f64_of_int 0) [] 0.
Definition position (a : Account) (symbol : string) : Z := default 0 (positions a !! symbol).
Definition next_order (a : Account) : Account :=
  mkAccount (trader_id a) (cash a) (positions a) (realized_pnl a) (trade_history a)
    (u64 (order_counter a + 1)).
(** [format!("{}-O{}", ..)] *)
Definition order_name (a : Account) : string := trader_id a +:+ "-O" +:+ pretty (order_counter a).

(** [push_back], and [pop_front] beyond 100 elements. *)
Definition push_history {A} (l : list A) (x : A) : list A :=
  let l := l ++ [x] in if 100 <? len l then drop 1 l else l.

(** The buyer's branch comes first: a trade of a trader with itself is a purchase.
    Source: src/examples/two_traders_competition.rs:406-421 (MomentumTrader::process_trade) *)
Definition process_trade (a : Account) (trade : Trade) : Account :=
  let amount := f64_mul (t_price trade) (f64_of_int (t_quantity trade)) in
  let move q c := mkAccount (trader_id a) c (<[t_symbol trade := i64 (position a (t_symbol trade) + q)]> (positions a))
                    (realized_pnl a) (trade_history a) (order_counter a) in
  let a' :=
    if String.eqb (t_buyer_id trade) (trader_id a) then move (t_quantity trade) (f64_sub (cash a) amount)
    else if String.eqb (t_seller_id trade) (trader_id a) then move (- t_quantity trade) (f64_add (cash a) amount)
    else a in
  mkAccount (trader_id a') (cash a') (positions a') (realized_pnl a')
    (push_history (trade_history a') trade) (order_counter a').

(** A [HashMap] has no order of its own; the program trades one symbol only. *)
Definition position_value (a : Account) (market_price : f64) : f64 :=
  f64_sum (map (λ kv, f64_mul (f64_of_int kv.2) market_price) (map_to_list (positions a))).

(** Source: src/examples/two_traders_competition.rs:423-429 (MomentumTrader::calculate_equity) *)
Definition calculate_equity (a : Account) (market_price : f64) : f64 :=
  f64_add (cash a) (position_value a market_price).

(** Source: src/examples/two_traders_competition.rs:431-445 (MomentumTrader::get_position_report) *)
Definition get_position_report (a : Account) (market_price : f64) (now : Z) : PositionReport :=
  mkReport (trader_id a) (cash a) (positions a) (realized_pnl a) (position_value a market_price)
    (calculate_equity a market_price) now.

Definition one : f64 := f64_of_int 1.
Definition round_cents (p : f64) : f64 :=
  f64_div (f64_round (f64_mul p (f64_of_int 100))) (f64_of_int 100).
Definition average (l : list f64) : f64 := f64_div (f64_sum l) (f64_of_int (len l)).
Definition prices (h : list (Z * f64)) : list f64 := map snd h.

(** ** The momentum trader *)

(** Source: src/examples/two_traders_competition.rs:276-284 (MomentumTrader) *)
Record MomentumTrader := mkMomentum { mt : Account; mt_price_history : list (Z * f64) }.

(** Source: src/examples/two_traders_competition.rs:287-297 (MomentumTrader::new) *)
Definition MomentumTrader_new (id : string) (initial_cash : f64) : MomentumTrader :=
  mkMomentum (open_account id initial_cash) [].

(** Source: src/examples/two_traders_competition.rs:299-304 (MomentumTrader::update_market) *)
Definition MomentumTrader_update_market (t : MomentumTrader) (u : MarketUpdate) : MomentumTrader :=
  mkMomentum (mt t) (push_history (mt_price_history t) (m_timestamp u, m_last_price u)).

(** Source: src/examples/two_traders_competition.rs:306-322 (MomentumTrader::calculate_momentum) *)
Definition calculate_momentum (t : MomentumTrader) : f64 :=
  let h := mt_price_history t in
  if len h <? 20 then f64_of_int 0 else
  let recent := prices (take 20 (rev h)) in
  let older := prices (take 20 (drop 20 (rev h))) in
  if bool_decide (older = []) then f64_of_int 0 else
  f64_div (f64_sub (average recent) (average older)) (average older).

(** Source: src/examples/two_traders_competition.rs:324-355 (MomentumTrader::generate_quote) *)
Definition MomentumTrader_generate_quote (t : MomentumTrader) (market : MarketUpdate) (now : Z) : Quote :=
  let momentum := calculate_momentum t in
  let pos := position (mt t) (m_symbol market) in
  let spread := f64_lit 5 100 in
  let bias := f64_mul momentum (f64_lit 50 100) in
  let adjustment := f64_mul (f64_div (f64_of_int pos) (f64_of_int 1000)) (f64_lit 2 100) in
  let mid := m_last_price market in
  let half := f64_div spread (f64_of_int 2) in
  let bid := f64_sub (f64_add (f64_sub mid half) bias) adjustment in
  let ask := f64_sub (f64_add (f64_add mid half) bias) adjustment in
  let conviction := f64_abs momentum in
  let size := f64_as_i64 (f64_mul (f64_of_int 100) (f64_add one (f64_mul conviction (f64_of_int 2)))) in
  mkQuote (trader_id (mt t)) (m_symbol market) (round_cents bid) size (round_cents ask) size now.

(** Source: src/examples/two_traders_competition.rs:357-404 (MomentumTrader::generate_order) *)
Definition MomentumTrader_generate_order (t : MomentumTrader) (market : MarketUpdate) (now : Z)
    : MomentumTrader * option Order :=
  let momentum := calculate_momentum t in
  let pos := position (mt t) (m_symbol market) in
  if f64_gt (f64_abs momentum) (f64_lit 8 1000) && (i64 (Z.abs pos) <? 2000) then
    let conviction_size := f64_as_i64 (f64_mul (f64_abs momentum) (f64_of_int 5000)) in
    let size := Z.max 100 (Z.min 500 conviction_size) in
    let required_cash := f64_mul (f64_of_int size) (m_last_price market) in
    if f64_lt (cash (mt t)) (f64_mul required_cash (f64_lit 5 10)) then (t, None) else
    let a := next_order (mt t) in
    let t := mkMomentum a (mt_price_history t) in
    if f64_gt momentum (f64_of_int 0) && (pos <? 2000) then
      (t, Some (mkOrder (order_name a) (trader_id a) (m_symbol market) Buy IOC
                  (f64_add (m_ask_price market) (f64_lit 2 100)) size now))
    else if f64_lt momentum (f64_of_int 0) && (-2000 <? pos) then
      (t, Some (mkOrder (order_name a) (trader_id a) (m_symbol market) Sell IOC
                  (f64_sub (m_bid_price market) (f64_lit 2 100)) size now))
    else (t, None)
  else (t, None).

(** ** The mean reversion trader *)

(** Source: src/examples/two_traders_competition.rs:452-462 (MeanReversionTrader) *)
Record MeanReversionTrader := mkMeanReversion {
  mr : Account; mr_price_history : list (Z * f64); vwap : f64; vwap_volume : Z }.

(** Source: src/examples/two_traders_competition.rs:465-477 (MeanReversionTrader::new) *)
Definition MeanReversionTrader_new (id : string) (initial_cash : f64) : MeanReversionTrader :=
  mkMeanReversion (open_account id initial_cash) [] (f64_of_int 0) 0.

(** Source: src/examples/two_traders_competition.rs:479-491 (MeanReversionTrader::update_market) *)
Definition MeanReversionTrader_update_market (t : MeanReversionTrader) (u : MarketUpdate)
    : MeanReversionTrader :=
  let h := push_history (mr_price_history t) (m_timestamp u, m_last_price u) in
  if 0 <? m_volume u then
    mkMeanReversion (mr t) h
      (f64_div (f64_add (f64_mul (vwap t) (f64_of_int (vwap_volume t)))
                        (f64_mul (m_last_price u) (f64_of_int (m_volume u))))
         (f64_of_int (i64 (vwap_volume t + m_volume u))))
      (i64 (vwap_volume t + m_volume u))
  else mkMeanReversion (mr t) h (vwap t) (vwap_volume t).

(** Source: src/examples/two_traders_competition.rs:493-502 (MeanReversionTrader::calculate_deviation_from_mean) *)
Definition calculate_deviation_from_mean (t : MeanReversionTrader) (current_price : f64) : f64 :=
  let h := mr_price_history t in
  if len h <? 20 then f64_of_int 0 else
  let mean := average (prices (take 50 (rev h))) in
  f64_div (f64_sub current_price mean) mean.

(** Source: src/examples/two_traders_competition.rs:504-539 (MeanReversionTrader::generate_quote) *)
Definition MeanReversionTrader_generate_quote (t : MeanReversionTrader) (market : MarketUpdate) (now : Z)
    : Quote :=
  let deviation := calculate_deviation_from_mean t (m_last_price market) in
  let pos := position (mr t) (m_symbol market) in
  let base_spread := f64_lit 4 100 in
  let fade := f64_mul deviation (f64_lit 30 100) in
  let skew := f64_mul (f64_div (f64_of_int pos) (f64_of_int 1000)) (f64_lit 3 100) in
  let mid := m_last_price market in
  let half := f64_div base_spread (f64_of_int 2) in
  let bid := f64_add (f64_sub (f64_sub mid half) fade) skew in
  let ask := f64_add (f64_sub (f64_add mid half) fade) skew in
  let edge := f64_abs deviation in
  let size := f64_as_i64 (f64_mul (f64_of_int 150) (f64_add one (f64_mul edge (f64_of_int 3)))) in
  let reduction := f64_sub one (f64_min (f64_div (f64_of_int (i64 (Z.abs pos))) (f64_of_int 2000)) (f64_lit 5 10)) in
  let adjusted := f64_as_i64 (f64_mul (f64_of_int size) reduction) in
  mkQuote (trader_id (mr t)) (m_symbol market) (round_cents bid) adjusted (round_cents ask) adjusted now.

(** Source: src/examples/two_traders_competition.rs:541-586 (MeanReversionTrader::generate_order) *)
Definition MeanReversionTrader_generate_order (t : MeanReversionTrader) (market : MarketUpdate) (now : Z)
    : MeanReversionTrader * option Order :=
  let deviation := calculate_deviation_from_mean t (m_last_price market) in
  let pos := position (mr t) (m_symbol market) in
  if f64_gt (f64_abs deviation) (f64_lit 10 1000) && (i64 (Z.abs pos) <? 1500) then
    let size := 200 in
    let required_cash := f64_mul (f64_of_int size) (m_last_price market) in
    if f64_lt (cash (mr t)) (f64_mul required_cash (f64_lit 3 10)) then (t, None) else
    let a := next_order (mr t) in
    let t := mkMeanReversion a (mr_price_history t) (vwap t) (vwap_volume t) in
    if f64_gt deviation (f64_of_int 0) && (-1500 <? pos) then
      (t, Some (mkOrder (order_name a) (trader_id a) (m_symbol market) Sell Limit
                  (f64_add (m_last_price market) (f64_lit 1 100)) size now))
    else if f64_lt deviation (f64_of_int 0) && (pos <? 1500) then
      (t, Some (mkOrder (order_name a) (trader_id a) (m_symbol market) Buy Limit
                  (f64_sub (m_last_price market) (f64_lit 1 100)) size now))
    else (t, None)
  else (t, None).

(** Source: src/examples/two_traders_competition.rs:588-603 (MeanReversionTrader::process_trade) *)
Definition MeanReversionTrader_process_trade (t : MeanReversionTrader) (trade : Trade) : MeanReversionTrader :=
  mkMeanReversion (process_trade (mr t) trade) (mr_price_history t) (vwap t) (vwap_volume t).

(** Source: src/examples/two_traders_competition.rs:605-611 (MeanReversionTrader::calculate_equity) *)
Definition MeanReversionTrader_calculate_equity (t : MeanReversionTrader) (market_price : f64) : f64 :=
  calculate_equity (mr t) market_price.

(** Source: src/examples/two_traders_competition.rs:613-627 (MeanReversionTrader::get_position_report) *)
Definition MeanReversionTrader_get_position_report (t : MeanReversionTrader) (market_price : f64) (now : Z)
    : PositionReport := get_position_report (mr t) market_price now.

(** ** The market maker *)

(** Source: src/examples/two_traders_competition.rs:634-643 (MarketMaker) *)
Record MarketMaker := mkMaker { mm : Account; spread_captured : f64; inventory_target : Z }.

(** Source: src/examples/two_traders_competition.rs:646-657 (MarketMaker::new) *)
Definition MarketMaker_new (id : string) (initial_cash : f64) : MarketMaker :=
  mkMaker (open_account id initial_cash) (f64_of_int 0) 0.

(** Source: src/examples/two_traders_competition.rs:659-691 (MarketMaker::generate_quote) *)
Definition MarketMaker_generate_quote (t : MarketMaker) (market : MarketUpdate) (now : Z) : Quote :=
  let pos := position (mm t) (m_symbol market) in
  let base_spread := f64_lit 15 1000 in
  let skew := f64_mul (f64_div (f64_of_int pos) (f64_of_int 500)) (f64_lit 1 100) in
  let mid := m_last_price market in
  let half := f64_div base_spread (f64_of_int 2) in
  let bid := f64_sub (f64_sub mid half) skew in
  let ask := f64_sub (f64_add mid half) skew in
  let distance := i64 (Z.abs (i64 (pos - inventory_target t))) in
  let multiplier := f64_sub one (f64_min (f64_div (f64_of_int distance) (f64_of_int 2000)) (f64_lit 5 10)) in
  let size := f64_as_i64 (f64_mul (f64_of_int 300) multiplier) in
  mkQuote (trader_id (mm t)) (m_symbol market) (round_cents bid) (Z.max size 50)
    (round_cents ask) (Z.max size 50) now.

(** Source: src/examples/two_traders_competition.rs:693-730 (MarketMaker::generate_order) *)
Definition MarketMaker_generate_order (t : MarketMaker) (market : MarketUpdate) (now : Z)
    : MarketMaker * option Order :=
  let pos := position (mm t) (m_symbol market) in
  let abs := i64 (Z.abs pos) in
  if 800 <? abs then
    let a := next_order (mm t) in
    let t := mkMaker a (spread_captured t) (inventory_target t) in
    let flatten_size := Z.max (Z.quot abs 4) 100 in
    if 0 <? pos then
      (t, Some (mkOrder (order_name a) (trader_id a) (m_symbol market) Sell IOC
                  (f64_sub (m_bid_price market) (f64_lit 1 100)) flatten_size now))
    else
      (t, Some (mkOrder (order_name a) (trader_id a) (m_symbol market) Buy IOC
                  (f64_add (m_ask_price market) (f64_lit 1 100)) flatten_size now))
  else (t, None).

(** Source: src/examples/two_traders_competition.rs:732-752 (MarketMaker::process_trade) *)
Definition MarketMaker_process_trade (t : MarketMaker) (trade : Trade) : MarketMaker :=
  mkMaker (process_trade (mm t) trade) (spread_captured t) (inventory_target t).

(** Source: src/examples/two_traders_competition.rs:754-760 (MarketMaker::calculate_equity) *)
Definition MarketMaker_calculate_equity (t : MarketMaker) (market_price : f64) : f64 :=
  calculate_equity (mm t) market_price.

(** Source: src/examples/two_traders_competition.rs:762-776 (MarketMaker::get_position_report) *)
Definition MarketMaker_get_position_report (t : MarketMaker) (market_price : f64) (now : Z)
    : PositionReport := get_position_report (mm t) market_price now.

(** ** The competition *)
Record Competition := mkCompetition {
  c_book : OrderBook; c_t1 : MomentumTrader; c_t2 : MeanReversionTrader; c_mm : MarketMaker;
  c_iteration : Z }.

Definition initial_capital : f64 := f64_of_int 1000000.
Definition loss_threshold : f64 := f64_lit 80 100.

(** Source: src/examples/two_traders_competition.rs:804-825 (main, part) *)
Definition start_competition : Competition :=
  mkCompetition (OrderBook_new "COMP" (f64_of_int 100))
    (MomentumTrader_new "MOMENTUM-1" initial_capital)
    (MeanReversionTrader_new "MEANREV-2" initial_capital)
    (MarketMaker_new "MARKETMKR-3" initial_capital) 0.

Definition with_book (c : Competition) (b : OrderBook) : Competition :=
  mkCompetition b (c_t1 c) (c_t2 c) (c_mm c) (c_iteration c).

(** Every trader processes every trade.
    Source: src/examples/two_traders_competition.rs:871-878 (main, part) *)
Definition settle (c : Competition) (trade : Trade) : Competition :=
  mkCompetition (c_book c) (mkMomentum (process_trade (mt (c_t1 c)) trade) (mt_price_history (c_t1 c)))
    (MeanReversionTrader_process_trade (c_t2 c) trade)
    (MarketMaker_process_trade (c_mm c) trade) (c_iteration c).

(** An order is matched and its trades are settled.
    Source: src/examples/two_traders_competition.rs:868-879 (main, part) *)
Definition execute (c : Competition) (order : option Order) : option Competition :=
  match order with
  | None => Some c
  | Some order =>
      '(b, ts) ← match_order (c_book c) order;
      Some (foldl settle (with_book c b) ts)
  end.

(** Source: src/examples/two_traders_competition.rs:866-907 (main, part) *)
Definition trade_round (c : Competition) (u : MarketUpdate) (now : Z) : option Competition :=
  if Z.rem (c_iteration c) 3 =? 0 then
    let '(t1, o1) := MomentumTrader_generate_order (c_t1 c) u now in
    c ← execute (mkCompetition (c_book c) t1 (c_t2 c) (c_mm c) (c_iteration c)) o1;
    let '(t2, o2) := MeanReversionTrader_generate_order (c_t2 c) u now in
    c ← execute (mkCompetition (c_book c) (c_t1 c) t2 (c_mm c) (c_iteration c)) o2;
    let '(m, o3) := MarketMaker_generate_order (c_mm c) u now in
    execute (mkCompetition (c_book c) (c_t1 c) (c_t2 c) m (c_iteration c)) o3
  else Some c.

(** Source: src/examples/two_traders_competition.rs:834-838 (main, part) *)
Definition add_noise (b : OrderBook) (iteration : Z) (noise : f64) : OrderBook :=
  if Z.rem iteration 10 =? 0 then
    mkBook (b_symbol b) (bids b) (asks b)
      (f64_min (f64_max (f64_mul (last_trade_price b) (f64_add one noise)) (f64_of_int 50)) (f64_of_int 150))
      (trades b) (b_trade_counter b)
  else b.

(** Source: src/examples/two_traders_competition.rs:909-916 (main, part) *)
Definition stop_condition (c : Competition) : bool :=
  let market_price := last_trade_price (c_book c) in
  let limit := f64_mul initial_capital loss_threshold in
  f64_lt (calculate_equity (mt (c_t1 c)) market_price) limit ||
  f64_lt (MeanReversionTrader_calculate_equity (c_t2 c) market_price) limit.

(** One round up to the stop condition, whose value is returned.
    Source: src/examples/two_traders_competition.rs:829-961 (main, part) *)
Definition iterate (c : Competition) (now : Z) (noise : f64) : option (Competition * bool) :=
  let iteration := i32 (c_iteration c + 1) in
  let b := add_noise (c_book c) iteration noise in
  let u := get_market_update b now in
  let t1 := MomentumTrader_update_market (c_t1 c) u in
  let t2 := MeanReversionTrader_update_market (c_t2 c) u in
  b ← update_quote b (MomentumTrader_generate_quote t1 u now);
  b ← update_quote b (MeanReversionTrader_generate_quote t2 u now);
  b ← update_quote b (MarketMaker_generate_quote (c_mm c) u now);
  c ← trade_round (mkCompetition b t1 t2 (c_mm c) iteration) u now;
  Some (c, stop_condition c).

(** The rounds of the inputs, until one stops; [None] is a panic. *)
Fixpoint compete (c : Competition) (inputs : list (Z * f64)) : option Competition :=
  match inputs with
  | [] => Some c
  | (now, noise) :: inputs =>
      '(c, stop) ← iterate c now noise;
      if (stop : bool) then Some c else compete c inputs
  end.

(** Source: src/examples/two_traders_competition.rs:950-950 (main, part) *)
Definition winner (c : Competition) (market_price : f64) : string :=
  if f64_gt (calculate_equity (mt (c_t1 c)) market_price) (MeanReversionTrader_calculate_equity (c_t2 c) market_price)
  then trader_id (mt (c_t1 c)) else trader_id (mr (c_t2 c)).

(** ** Positions *)

(** What a trade adds to the position of a trader in a symbol, and the quantity
    a trader bought from itself. *)
Definition trade_delta (id symbol : string) (t : Trade) : Z :=
  if String.eqb (t_symbol t) symbol then
    if String.eqb (t_buyer_id t) id then t_quantity t
    else if String.eqb (t_seller_id t) id then - t_quantity t else 0
  else 0.
Definition self_quantity (symbol : string) (t : Trade) : Z :=
  if String.eqb (t_symbol t) symbol && String.eqb (t_buyer_id t) (t_seller_id t) then t_quantity t else 0.

(** Equal modulo 2^64, as sums of wrapping [i64]s are. *)
Definition cong (a b : Z) : Prop := ∃ k, a = b + k * 2 ^ 64.
Lemma cong_refl a : cong a a.
Proof. exists 0. lia. Qed.
Lemma cong_add a b c d : cong a b → cong c d → cong (a + c) (b + d).
Proof. intros [k ->] [j ->]. exists (k + j). lia. Qed.
Lemma cong_trans a b c : cong a b → cong b c → cong a c.
Proof. intros [k ->] [j ->]. exists (k + j). lia. Qed.
Lemma cong_i64 z : cong (i64 z) z.
Proof. destruct (swrap_mod 64 z) as [k ->]; [lia|]. by exists k. Qed.
Lemma cong_eq a b : cong a b → i64 a = i64 b.
Proof. intros [k ->]. apply swrap_eq; [lia|]. replace (_ - b) with (k * 2 ^ 64) by lia. by apply Z.mod_mul. Qed.

Lemma position_insert a s s' q c r h n :
  position (mkAccount (trader_id a) c (<[s := q]> (positions a)) r h n) s' =
  if String.eqb s s' then q else position a s'.
Proof.
  unfold position. simpl. destruct (String.eqb_spec s s') as [->|Hne].
  - by rewrite lookup_insert_eq.
  - by rewrite lookup_insert_ne.
Qed.

Lemma process_trade_position a t s :
  cong (position (process_trade a t) s) (position a s + trade_delta (trader_id a) s t) ∧
  trader_id (process_trade a t) = trader_id a.
Proof.
  assert (∀ q, cong (if String.eqb (t_symbol t) s then i64 (position a (t_symbol t) + q) else position a s)
                    (position a s + (if String.eqb (t_symbol t) s then q else 0))) as Hm.
  { intros q. destruct (String.eqb_spec (t_symbol t) s) as [->|]; [apply cong_i64|].
    rewrite Z.add_0_r. apply cong_refl. }
  unfold process_trade, trade_delta.
  destruct (String.eqb (t_buyer_id t) (trader_id a)) eqn:Hb; [|destruct (String.eqb (t_seller_id t) (trader_id a)) eqn:Hs];
    cbn [trader_id cash positions realized_pnl trade_history order_counter]; rewrite ?position_insert;
    (split; [|done]); try apply Hm.
  exists 0. unfold position. simpl. case_match; lia.
Qed.

Section conservation.
Context (i1 i2 i3 : string) (d12 : i1 ≠ i2) (d13 : i1 ≠ i3) (d23 : i2 ≠ i3).
Definition party (i : string) : Prop := i = i1 ∨ i = i2 ∨ i = i3.
Definition of_parties (t : Trade) : Prop := party (t_buyer_id t) ∧ party (t_seller_id t).
Definition levels_of_parties (l : list Level) : Prop := Forall (λ x, party (l_trader x)) l.

Lemma deltas_sum s t :
  of_parties t → trade_delta i1 s t + trade_delta i2 s t + trade_delta i3 s t = self_quantity s t.
Proof.
  intros [Hb Hs]. unfold trade_delta, self_quantity. destruct (String.eqb (t_symbol t) s); [|done]. simpl.
  destruct Hb as [Hb|[Hb|Hb] ], Hs as [Hs|[Hs|Hs] ]; rewrite Hb, Hs;
    rewrite ?String.eqb_refl, ?(proj2 (String.eqb_neq i1 i2)), ?(proj2 (String.eqb_neq i2 i1)),
      ?(proj2 (String.eqb_neq i1 i3)), ?(proj2 (String.eqb_neq i3 i1)), ?(proj2 (String.eqb_neq i2 i3)),
      ?(proj2 (String.eqb_neq i3 i2)) by done; lia.
Qed.

Definition total_position (c : Competition) (s : string) : Z :=
  position (mt (c_t1 c)) s + position (mr (c_t2 c)) s + position (mm (c_mm c)) s.

Record ledger (c : Competition) : Prop := {
  lg_1 : trader_id (mt (c_t1 c)) = i1; lg_2 : trader_id (mr (c_t2 c)) = i2;
  lg_3 : trader_id (mm (c_mm c)) = i3;
  lg_bids : levels_of_parties (bids (c_book c)); lg_asks : levels_of_parties (asks (c_book c));
  lg_sum : ∀ s, cong (total_position c s) (zsum (self_quantity s) (trades (c_book c))) }.

Lemma insert_parties before x l : party (l_trader x) → levels_of_parties l → levels_of_parties (insert_level before x l).
Proof. apply (insert_level_Forall before (λ x, party (l_trader x))). Qed.
Lemma push_parties before l x l' :
  push_sorted before l x = Some l' → levels_of_parties l → party (l_trader x) → levels_of_parties l'.
Proof.
  unfold push_sorted, sort_by_price. intros Hl' Hl Hx.
  assert (levels_of_parties (l ++ [x])) as Hlx by (apply Forall_app_2; [done|by constructor]).
  destruct (_ <? 2); [by simplify_eq|]. destruct (existsb _ _); [done|]. injection Hl' as <-.
  assert (∀ k acc, levels_of_parties acc → levels_of_parties k →
            levels_of_parties (foldl (λ acc x, insert_level before x acc) acc k)) as Hfold.
  { induction k as [|y k IH]; intros acc Ha Hk; [done|]. apply Forall_cons in Hk as [Hy Hk].
    apply IH; [by apply insert_parties|done]. }
  apply Hfold; [constructor|done].
Qed.
Lemma retain_parties i l : levels_of_parties l → levels_of_parties (retain_others i l).
Proof. apply Forall_filter. Qed.

Lemma fill_side_parties o l rem c last l' rem' c' last' ts :
  fill_side o l rem c last = (l', rem', c', last', ts) → party (o_trader_id o) → levels_of_parties l →
  levels_of_parties l' ∧ Forall of_parties ts.
Proof.
  intros Hf Ho Hl. revert rem c last l' rem' c' last' ts Hf.
  induction Hl as [|x l Hx Hl IH]; intros rem c last l' rem' c' last' ts; simpl.
  { intros [= <- <- <- <- <-]. split; constructor. }
  assert (∀ q n, of_parties (make_trade o (l_price x) q (l_trader x) n)) as Hm
    by (intros; unfold make_trade; destruct (o_side o); split; simpl; assumption).
  destruct (_ && _).
  - destruct (_ <=? _).
    + destruct (fill_side o l _ _ _) as [[[[l1 r1] c1] la1] ts1] eqn:Hr. intros [= <- <- <- <- <-].
      destruct (IH _ _ _ _ _ _ _ _ Hr). split; [done|]. constructor; [apply Hm|done].
    + intros [= <- <- <- <- <-]. split; [by constructor|]. constructor; [apply Hm|done].
  - intros [= <- <- <- <- <-]. split; by constructor.
Qed.

Lemma match_parties b o b' ts :
  match_order b o = Some (b', ts) → party (o_trader_id o) →
  levels_of_parties (bids b) → levels_of_parties (asks b) →
  levels_of_parties (bids b') ∧ levels_of_parties (asks b') ∧ Forall of_parties ts ∧ trades b' = trades b ++ ts.
Proof.
  unfold match_order. intros Hm Ho Hb Ha.
  destruct (fill_side _ _ _ _ _) as [[[[l rem] c] la] ts1] eqn:Hf.
  assert (levels_of_parties l ∧ Forall of_parties ts1) as [Hl Ht].
  { eapply fill_side_parties; [exact Hf|done|]. by destruct (o_side o). }
  destruct (o_side o); (destruct (_ && _); [|cbn in Hm; by simplify_eq]);
    match type of Hm with context [push_sorted ?bf ?k ?x] => destruct (push_sorted bf k x) eqn:Hp end;
    cbn in Hm; simplify_eq; simpl; split_and!; try done; by eapply push_parties.
Qed.

Lemma quote_parties b q b' :
  update_quote b q = Some b' → party (q_trader_id q) →
  levels_of_parties (bids b) → levels_of_parties (asks b) →
  levels_of_parties (bids b') ∧ levels_of_parties (asks b') ∧ trades b' = trades b.
Proof.
  unfold update_quote. intros Hu Hq Hb Ha.
  pose proof (retain_parties (q_trader_id q) _ Hb) as Hb'. pose proof (retain_parties (q_trader_id q) _ Ha) as Ha'.
  assert (∀ (cnd : bool) bf k x r, (if cnd then push_sorted bf k x else Some k) = Some r →
    levels_of_parties k → party (l_trader x) → levels_of_parties r) as Hside.
  { intros [] ????; [apply push_parties|by intros [= <-]]. }
  destruct (if 0 <? q_bid_size q then _ else _) as [nb|] eqn:E1; [|done]. cbn [mbind option_bind] in Hu.
  destruct (if 0 <? q_ask_size q then _ else _) as [na|] eqn:E2; [|done]. cbn in Hu. injection Hu as <-.
  simpl. split_and!; [by eapply Hside|by eapply Hside|done].
Qed.

(** Settling trades of the parties moves the total by the self-trades. *)
Lemma settle_fold ts c :
  trader_id (mt (c_t1 c)) = i1 → trader_id (mr (c_t2 c)) = i2 → trader_id (mm (c_mm c)) = i3 →
  Forall of_parties ts →
  let c' := foldl settle c ts in
  trader_id (mt (c_t1 c')) = i1 ∧ trader_id (mr (c_t2 c')) = i2 ∧ trader_id (mm (c_mm c')) = i3 ∧
  c_book c' = c_book c ∧ ∀ s, cong (total_position c' s) (total_position c s + zsum (self_quantity s) ts).
Proof.
  intros H1 H2 H3 Hts. revert c H1 H2 H3. induction Hts as [|t ts Ht _ IH]; intros c H1 H2 H3; simpl.
  - split_and!; try done. intros s. rewrite Z.add_0_r. apply cong_refl.
  - destruct (IH (settle c t)) as (E1 & E2 & E3 & Eb & Es).
    1-3: (etransitivity; [exact (proj2 (process_trade_position _ t (t_symbol t)))|done]).
    split_and!; try done. intros s. eapply cong_trans; [apply Es|].
    destruct (process_trade_position (mt (c_t1 c)) t s) as [[k1 P1] _].
    destruct (process_trade_position (mr (c_t2 c)) t s) as [[k2 P2] _].
    destruct (process_trade_position (mm (c_mm c)) t s) as [[k3 P3] _].
    pose proof (deltas_sum s t Ht) as Hd. rewrite H1 in P1. rewrite H2 in P2. rewrite H3 in P3.
    exists (k1 + k2 + k3). unfold total_position. simpl. rewrite P1, P2, P3. lia.
Qed.

Lemma execute_ledger c o c' :
  ledger c → (∀ x, o = Some x → party (o_trader_id x)) → execute c o = Some c' → ledger c'.
Proof.
  intros Hl Ho. unfold execute. destruct o as [o|]; [|by intros [= <-]].
  destruct (match_order (c_book c) o) as [[b ts]|] eqn:Hm; [|done]. cbn. intros [= <-].
  destruct Hl as [H1 H2 H3 Hb Ha Hs].
  destruct (match_parties _ _ _ _ Hm (Ho o eq_refl) Hb Ha) as (Hb' & Ha' & Ht & Htr).
  destruct (settle_fold ts (with_book c b) H1 H2 H3 Ht) as (E1 & E2 & E3 & Eb & Es).
  split; try done; rewrite Eb; simpl; try done.
  intros s. eapply cong_trans; [apply Es|]. rewrite Htr, zsum_app.
  apply cong_add; [apply Hs|apply cong_refl].
Qed.

(** Generating an order changes the order counter only. *)
Definition same_account (a a' : Account) : Prop := trader_id a' = trader_id a ∧ positions a' = positions a.

Ltac order_case :=
  let H := fresh in intros H; injection H as <- <-; split; [split; reflexivity|];
  intros ? H; first [discriminate H | injection H as <-; reflexivity].

Lemma momentum_order_account t u now t' o :
  MomentumTrader_generate_order t u now = (t', o) →
  same_account (mt t) (mt t') ∧ ∀ x, o = Some x → o_trader_id x = trader_id (mt t).
Proof.
  unfold MomentumTrader_generate_order. cbv zeta.
  destruct (_ && _); [|order_case]. destruct (f64_lt _ _); [order_case|].
  destruct (_ && _); [order_case|]. destruct (_ && _); order_case.
Qed.
Lemma mean_reversion_order_account t u now t' o :
  MeanReversionTrader_generate_order t u now = (t', o) →
  same_account (mr t) (mr t') ∧ ∀ x, o = Some x → o_trader_id x = trader_id (mr t).
Proof.
  unfold MeanReversionTrader_generate_order. cbv zeta.
  destruct (_ && _); [|order_case]. destruct (f64_lt _ _); [order_case|].
  destruct (_ && _); [order_case|]. destruct (_ && _); order_case.
Qed.
Lemma maker_order_account t u now t' o :
  MarketMaker_generate_order t u now = (t', o) →
  same_account (mm t) (mm t') ∧ ∀ x, o = Some x → o_trader_id x = trader_id (mm t).
Proof.
  unfold MarketMaker_generate_order. cbv zeta.
  destruct (_ <? _); [|order_case]. destruct (_ <? _); order_case.
Qed.

Lemma same_account_ledger c t1 t2 m :
  ledger c → same_account (mt (c_t1 c)) (mt t1) → same_account (mr (c_t2 c)) (mr t2) →
  same_account (mm (c_mm c)) (mm m) → ∀ i, ledger (mkCompetition (c_book c) t1 t2 m i).
Proof.
  intros [H1 H2 H3 Hb Ha Hs] [E1 P1] [E2 P2] [E3 P3] i.
  split; simpl; try done; try congruence.
  intros s. specialize (Hs s). unfold total_position, position in *. simpl. by rewrite P1, P2, P3.
Qed.

Lemma trade_round_ledger c u now c' : ledger c → trade_round c u now = Some c' → ledger c'.
Proof.
  intros Hl. unfold trade_round. destruct (_ =? 0); [|by intros [= <-]].
  destruct (MomentumTrader_generate_order (c_t1 c) u now) as [t1 o1] eqn:E1.
  apply momentum_order_account in E1 as [A1 O1].
  destruct (execute _ o1) as [c1|] eqn:X1; [|done]. cbn [mbind option_bind].
  assert (ledger c1) as Hl1.
  { eapply execute_ledger; [by apply same_account_ledger| |exact X1].
    intros x Hx. left. rewrite (O1 x Hx). apply Hl. }
  destruct (MeanReversionTrader_generate_order (c_t2 c1) u now) as [t2 o2] eqn:E2.
  apply mean_reversion_order_account in E2 as [A2 O2].
  destruct (execute _ o2) as [c2|] eqn:X2; [|done]. cbn [mbind option_bind].
  assert (ledger c2) as Hl2.
  { eapply execute_ledger; [by apply same_account_ledger| |exact X2].
    intros x Hx. right; left. rewrite (O2 x Hx). apply Hl1. }
  destruct (MarketMaker_generate_order (c_mm c2) u now) as [t3 o3] eqn:E3.
  apply maker_order_account in E3 as [A3 O3].
  apply execute_ledger; [by apply same_account_ledger|].
  intros x Hx. right; right. rewrite (O3 x Hx). apply Hl2.
Qed.

Lemma mean_reversion_update_account t u : same_account (mr t) (mr (MeanReversionTrader_update_market t u)).
Proof. unfold MeanReversionTrader_update_market. by destruct (_ <? _). Qed.
Lemma momentum_quote_id t u now : q_trader_id (MomentumTrader_generate_quote t u now) = trader_id (mt t).
Proof. reflexivity. Qed.
Lemma mean_reversion_quote_id t u now : q_trader_id (MeanReversionTrader_generate_quote t u now) = trader_id (mr t).
Proof. reflexivity. Qed.
Lemma maker_quote_id t u now : q_trader_id (MarketMaker_generate_quote t u now) = trader_id (mm t).
Proof. reflexivity. Qed.
Lemma add_noise_sides b i noise :
  bids (add_noise b i noise) = bids b ∧ asks (add_noise b i noise) = asks b ∧
  trades (add_noise b i noise) = trades b.
Proof. unfold add_noise. by destruct (_ =? 0). Qed.

Lemma some_pair_fst {A B} (a a' : A) (b b' : B) : Some (a, b) = Some (a', b') → a = a'.
Proof. by intros [= <- _]. Qed.

(** The steps of a round that does not panic. *)
Lemma iterate_steps c now noise c' stop :
  iterate c now noise = Some (c', stop) →
  let b0 := add_noise (c_book c) (i32 (c_iteration c + 1)) noise in
  let u := get_market_update b0 now in
  let t1 := MomentumTrader_update_market (c_t1 c) u in
  let t2 := MeanReversionTrader_update_market (c_t2 c) u in
  ∃ b1 b2 b3,
    update_quote b0 (MomentumTrader_generate_quote t1 u now) = Some b1 ∧
    update_quote b1 (MeanReversionTrader_generate_quote t2 u now) = Some b2 ∧
    update_quote b2 (MarketMaker_generate_quote (c_mm c) u now) = Some b3 ∧
    trade_round (mkCompetition b3 t1 t2 (c_mm c) (i32 (c_iteration c + 1))) u now = Some c'.
Proof.
  unfold iterate. intros (b1 & H1 & (b2 & H2 & (b3 & H3 & (c1 & H4 & Hc)%bind_Some)%bind_Some)%bind_Some)%bind_Some.
  exists b1, b2, b3. apply some_pair_fst in Hc as <-. by split_and!.
Qed.

Lemma iterate_ledger c now noise c' stop :
  ledger c → iterate c now noise = Some (c', stop) → ledger c'.
Proof.
  intros [H1 H2 H3 Hb Ha Hs] (b1 & b2 & b3 & U1 & U2 & U3 & R)%iterate_steps.
  destruct (add_noise_sides (c_book c) (i32 (c_iteration c + 1)) noise) as (E1 & E2 & E3).
  revert E1 E2 E3 U1 U2 U3 R. generalize (add_noise (c_book c) (i32 (c_iteration c + 1)) noise) as b0.
  intros b0. generalize (get_market_update b0 now) as u. intros u E1 E2 E3 U1 U2 U3 R.
  rewrite <- E1 in Hb. rewrite <- E2 in Ha.
  destruct (mean_reversion_update_account (c_t2 c) u) as [I2 P2].
  apply quote_parties in U1 as (Hb1 & Ha1 & T1); [|rewrite momentum_quote_id; by left|done|done].
  apply quote_parties in U2 as (Hb2 & Ha2 & T2);
    [|rewrite mean_reversion_quote_id, I2; by right; left|done|done].
  apply quote_parties in U3 as (Hb3 & Ha3 & T3); [|rewrite maker_quote_id; by right; right|done|done].
  eapply trade_round_ledger; [|exact R].
  split; cbn [c_book c_t1 c_t2 c_mm mt MomentumTrader_update_market]; try assumption; [congruence|].
  intros s. rewrite T3, T2, T1, E3. specialize (Hs s).
  unfold total_position, position in *. cbn [c_t1 c_t2 c_mm mt MomentumTrader_update_market]. by rewrite P2.
Qed.

Lemma compete_ledger inputs c c' : ledger c → compete c inputs = Some c' → ledger c'.
Proof.
  revert c. induction inputs as [|[now noise] inputs IH]; intros c Hl; simpl; [by intros [= <-]|].
  destruct (iterate c now noise) as [[c1 stop]|] eqn:Hi; [|done]. cbn.
  pose proof (iterate_ledger _ _ _ _ _ Hl Hi). destruct stop; [by intros [= <-]|by apply IH].
Qed.
End conservation.

(** C40. Shares are conserved but for self-trades.  In every run of the
    competition, whatever the clock and the noise, the positions of the three
    traders in a symbol add up (in [i64]) to the quantity that traders have
    bought from themselves: without self-trades they add up to zero. *)
Theorem positions_sum_to_self_trades inputs c symbol :
  compete start_competition inputs = Some c →
  i64 (total_position c symbol) = i64 (zsum (self_quantity symbol) (trades (c_book c))).
Proof.
  intros Hc. apply cong_eq.
  assert (ledger "MOMENTUM-1" "MEANREV-2" "MARKETMKR-3" start_competition) as Hl0.
  { split; [done|done|done|constructor|constructor|]. intros s. exists 0. reflexivity. }
  pose proof (compete_ledger "MOMENTUM-1" "MEANREV-2" "MARKETMKR-3" ltac:(done) ltac:(done) ltac:(done) inputs _ _ Hl0 Hc) as Hl. apply Hl.
Qed.

(** *** Sizes of orders and histories *)

(** Orders have bounded sizes: the momentum trader asks for 100 to 500
    shares, the mean reversion trader for 200, and the market maker, only when
    it holds more than 800 either way, for at least 100 and at most what it
    holds, against its position: a flattening order that is filled never turns
    a long position short or a short one long. *)
Lemma order_sizes_bounded t1 t2 m u now :
  (∀ x, (MomentumTrader_generate_order t1 u now).2 = Some x → 100 ≤ o_quantity x ≤ 500 ∧ o_type x = IOC) ∧
  (∀ x, (MeanReversionTrader_generate_order t2 u now).2 = Some x → o_quantity x = 200 ∧ o_type x = Limit) ∧
  (∀ x, in_srange 64 (position (mm m) (m_symbol u)) → position (mm m) (m_symbol u) ≠ - 2 ^ 63 →
     (MarketMaker_generate_order m u now).2 = Some x →
     let pos := position (mm m) (m_symbol u) in
     800 < Z.abs pos ∧ 100 ≤ o_quantity x ≤ Z.abs pos ∧ o_type x = IOC ∧
     o_side x = if 0 <? pos then Sell else Buy).
Proof.
  split_and!; intros x.
  - unfold MomentumTrader_generate_order. cbv zeta.
    destruct (_ && _); [|done]. destruct (f64_lt _ _); [done|].
    destruct (_ && _); [|destruct (_ && _); [|done]]; cbn [snd]; intros Hx; injection Hx as <-;
      cbn [o_quantity o_type]; (split; [|done]); generalize (f64_as_i64 (f64_mul (f64_abs (calculate_momentum t1)) (f64_of_int 5000)));
      intros z; lia.
  - unfold MeanReversionTrader_generate_order. cbv zeta.
    destruct (_ && _); [|done]. destruct (f64_lt _ _); [done|].
    destruct (_ && _); [|destruct (_ && _); [|done]]; cbn [snd]; intros Hx; by injection Hx as <-.
  - intros Hr Hmin. unfold MarketMaker_generate_order. cbv zeta.
    generalize dependent (position (mm m) (m_symbol u)). intros pos Hr Hmin.
    rewrite (swrap_id 64 (Z.abs pos)) by (unfold in_srange in *; lia).
    destruct (800 <? Z.abs pos) eqn:Hp; [|done]. zbool.
    assert (100 ≤ Z.max (Z.quot (Z.abs pos) 4) 100 ≤ Z.abs pos).
    { assert (Z.quot (Z.abs pos) 4 ≤ Z.abs pos) by (apply Z.quot_le_upper_bound; lia). lia. }
    destruct (0 <? pos); cbn [snd]; intros Hx; by injection Hx as <-.
Qed.

Lemma push_history_bound {A} (l : list A) x : len l ≤ 100 → len (push_history l x) ≤ 100.
Proof.
  intros Hl. unfold push_history. destruct (100 <? len (l ++ [x])) eqn:Hlt; zbool; [|done].
  unfold len in *. rewrite length_drop, length_app in *. simpl. lia.
Qed.

(** ** Concrete runs *)

(** Noise of -5%, 2% and 4% in rounds 10, 20 and 30. *)
Definition noises : list f64 := [f64_neg (f64_lit 5 100); f64_lit 2 100; f64_lit 4 100].
Definition noisy_inputs (n : nat) : list (Z * f64) :=
  map (λ i, (2 * Z.of_nat i, default (f64_of_int 0) (noises !! (i / 10 - 1)%nat))) (seq 1 n).

(** By round 33 the momentum trader has bought 100 shares from itself, and the
    three positions add up to 100. *)
Lemma self_trade_run :
  (λ c, (position (mt (c_t1 c)) "COMP", position (mr (c_t2 c)) "COMP", position (mm (c_mm c)) "COMP",
         zsum (self_quantity "COMP") (trades (c_book c))))
    <$> compete start_competition (noisy_inputs 33) = Some (-554, 0, 654, 100).
Proof. by vm_compute. Qed.

Lemma positions_sum_to_self_trades_witness :
  ∃ c, compete start_competition (noisy_inputs 33) = Some c ∧ i64 (total_position c "COMP") = 100.
Proof.
  pose proof self_trade_run as Hrun.
  destruct (compete start_competition (noisy_inputs 33)) as [c|] eqn:Hc; [|done].
  exists c. split; [exact eq_refl|].
  rewrite (positions_sum_to_self_trades (noisy_inputs 33) c "COMP" Hc).
  cbn [fmap option_fmap option_map] in Hrun. injection Hrun as _ _ _ ->. done.
Defined.

(** A market maker long 1000 sells 250. *)
Definition long_1000 (id : string) : Account :=
  mkAccount id initial_capital {[ "COMP"%string := 1000 ]} (f64_of_int 0) [] 0.
Definition flat_market : MarketUpdate :=
  mkUpdate "COMP" (f64_of_int 100) (cents 9999) (cents 10001) 0 0.
Lemma order_sizes_bounded_witness :
  ∃ x, (MarketMaker_generate_order (mkMaker (long_1000 "MARKETMKR-3") (f64_of_int 0) 0) flat_market 0).2 = Some x ∧
    o_quantity x ≤ 1000 ∧ o_side x = Sell.
Proof.
  destruct (order_sizes_bounded (MomentumTrader_new "A" initial_capital) (MeanReversionTrader_new "B" initial_capital)
    (mkMaker (long_1000 "MARKETMKR-3") (f64_of_int 0) 0) flat_market 0) as (_ & _ & Hm).
  eexists. split; [reflexivity|].
  destruct (Hm _ ltac:(unfold in_srange; vm_compute; split; congruence) ltac:(by vm_compute) eq_refl) as (_ & [_ Hle] & _ & Hs).
  split; [exact Hle|exact Hs].
Defined.

(** The inventory terms of the two quoting traders have opposite signs: long
    1000, the market maker lowers its bid and the mean reversion trader raises
    it above the middle of the market. *)
Lemma inventory_skews :
  f64_lt (q_bid_price (MarketMaker_generate_quote (mkMaker (long_1000 "M") (f64_of_int 0) 0) flat_market 0)) (f64_of_int 100) = true ∧
  f64_gt (q_bid_price (MeanReversionTrader_generate_quote (mkMeanReversion (long_1000 "R") [] (f64_of_int 0) 0) flat_market 0)) (f64_of_int 100) = true.
Proof. split; by vm_compute. Qed.
