(* ===== verification/Utils.v ===== *)
(** * Helpers (src/src/utils.rs)

    Paths as [std::path] reads them on Unix, hashing, ages, validation and the
    wrapping of serialization errors. *)

From stdpp Require Import base list numbers strings.
From Stdlib Require Import Ascii.
From S2P Require Import Prelude Crc32 PersistQueue Errors Utf8.
Local Open Scope Z_scope.

(** ** Paths *)

(** *** [std::path::Path]

    A path is read as its parts between slashes; a rooted path has an empty
    first part.  Parts that are empty or a dot are no components, unless first. *)
Definition slash : Ascii.ascii := "/"%char.
Definition rooted (path : string) : bool := starts_with "/" path.

(** The parts, last first, without the trailing ones that are no components. *)
Fixpoint trim_back (parts : list string) : list string :=
  match parts with
  | [] | [_] => parts
  | part :: rest => if String.eqb part EmptyString || String.eqb part "." then trim_back rest else parts
  end.
Fixpoint join_slash (parts : list string) : string :=
  match parts with
  | [] => EmptyString
  | [part] => part
  | part :: rest => part +:+ "/" +:+ join_slash rest
  end.
(** The path of some leading parts, given last first. *)
Definition as_path (root : bool) (parts : list string) : string :=
  match trim_back parts with
  | [part] => if root then "/" else part
  | parts => join_slash (rev parts)
  end.
Definition trim_path (path : string) : string := as_path (rooted path) (rev (split_char slash path)).

(** The last component and the parts before it. *)
Definition next_back (path : string) : option (string * list string) :=
  match trim_back (rev (split_char slash path)) with
  | [] => None
  | [part] => if rooted path || String.eqb part EmptyString then None else Some (part, [])
  | part :: rest => Some (part, rest)
  end.

(** *** The helpers *)

(** Source: src/src/utils.rs:12-15 (is_absolute) *)
Definition is_absolute (path : string) : bool := rooted path.

(** Source: src/src/utils.rs:17-24 (normalize_path) *)
Definition normalize_path (path : string) : string := path.

Fixpoint ends_with_slash (s : string) : bool :=
  match s with
  | EmptyString => false
  | String a EmptyString => Ascii.eqb a slash
  | String _ s => ends_with_slash s
  end.

(** [Path::join]: an absolute path replaces the base.
    Source: src/src/utils.rs:26-31 (join_paths) *)
Definition join_paths (base relative : string) : string :=
  if rooted relative then relative
  else if String.eqb base EmptyString || ends_with_slash base then base +:+ relative
  else base +:+ "/" +:+ relative.

(** Source: src/src/utils.rs:33-37 (get_parent) *)
Definition get_parent (path : string) : option string :=
  '(_, rest) ← next_back path;
  Some (match rest with [] => EmptyString | _ => as_path (rooted path) rest end).

(** [file_name] is the last component, when it is not a dot or two.
    Source: src/src/utils.rs:39-45 (get_basename) *)
Definition get_basename (path : string) : string :=
  match next_back path with
  | Some (part, _) => if String.eqb part "." || String.eqb part ".." then path else part
  | None => path
  end.

(** Source: src/src/utils.rs:47-52 (is_directory) *)
Definition is_directory (path : string) : bool := ends_with_slash path.

(** ** Hashes *)
Section hashes.
Context `{Crc32}.
(** Source: src/src/utils.rs:59-64 (crc32_hash) *)
Definition utils_crc32_hash (data : bytes) : Z := hasher_finalize (hasher_update hasher_new data).
(** Source: src/src/utils.rs:66-69 (string_hash) *)
Definition string_hash (s : string) : Z := utils_crc32_hash (str_bytes s).
(** Source: src/src/utils.rs:71-74 (int_hash) *)
Definition int_hash (i : Z) : Z := utils_crc32_hash (to_be_bytes 8 i).
(** Source: src/src/utils.rs:76-79 (timestamp_hash) *)
Definition timestamp_hash (ts : Z) : Z := utils_crc32_hash (to_be_bytes 8 ts).
End hashes.

(** ** Times: [now_ns] is the clock since the epoch, negative before it *)

(** Source: src/src/utils.rs:86-92 (current_timestamp_ms) *)
Definition current_timestamp_ms (now_ns : Z) : Z := u64 (Z.max 0 now_ns `div` 1000000).
(** Source: src/src/utils.rs:94-100 (current_timestamp_s) *)
Definition current_timestamp_s (now_ns : Z) : Z := Z.max 0 now_ns `div` 1000000000.
(** Source: src/src/utils.rs:102-106 (is_older_than) *)
Definition is_older_than (now_ns timestamp age_ms : Z) : bool :=
  age_ms <? saturating_sub (current_timestamp_ms now_ns) timestamp.

(** ** Serialization: bincode is a parameter *)
Section serialization.
Context {T : Type} (bincode_serialize : T → outcome string bytes) (bincode_deserialize : bytes → outcome string T).
(** Source: src/src/utils.rs:152-156 (serialize) *)
Definition utils_serialize (data : T) : outcome DOLDAError bytes := map_err DoldaSerialization (bincode_serialize data).
(** Source: src/src/utils.rs:158-162 (deserialize) *)
Definition utils_deserialize (data : bytes) : outcome DOLDAError T := map_err DoldaSerialization (bincode_deserialize data).
(** Source: src/src/utils.rs:164-167 (serialized_size) *)
Definition utils_serialized_size (data : T) : outcome DOLDAError Z := v ← utils_serialize data; Ok (len v).
End serialization.

(** ** Validation *)

(** Source: src/src/utils.rs:193-196 (is_valid_port) *)
Definition is_valid_port (port : Z) : bool := (0 <? port) && (port <? 65535).
(** Source: src/src/utils.rs:203-209 (is_valid_path) *)
Definition is_valid_path (path : string) : bool :=
  negb (String.eqb path EmptyString) && negb (str_contains ".." path) &&
  negb (str_contains (String Ascii.zero EmptyString) path) && (len (str_bytes path) <=? 4096).

(** ** Joining and taking apart *)

Lemma split_no_slash s : existsb (Ascii.eqb slash) (String.list_ascii_of_string s) = false → split_char slash s = [s].
Proof.
  induction s as [|a s IH]; [done|]. cbn [String.list_ascii_of_string existsb split_char].
  intros [Ha Hs]%orb_false_iff. rewrite (Ascii.eqb_sym a slash), Ha, (IH Hs). done.
Qed.

(** Splitting a path that goes on behind a slash. *)
Lemma split_join base name : split_char slash (base +:+ "/" +:+ name) = split_char slash base ++ split_char slash name.
Proof.
  induction base as [|a base IH]; [done|].
  change (split_char slash (String a base +:+ "/" +:+ name)) with
    (if Ascii.eqb a slash then EmptyString :: split_char slash (base +:+ "/" +:+ name)
     else match split_char slash (base +:+ "/" +:+ name) with
          | part :: parts => String a part :: parts | [] => [String a EmptyString] end).
  cbn [split_char]. destruct (Ascii.eqb a slash); [by rewrite IH|]. rewrite IH.
  pose proof (split_char_nonempty slash base). by destruct (split_char slash base).
Qed.

(** A path that ends with a slash is a path and a slash. *)
Lemma ends_with_slash_inv s : ends_with_slash s = true → ∃ s0, s = s0 +:+ "/".
Proof.
  induction s as [|a s IH]; [done|]. destruct s as [|b s].
  - cbn. intros ->%Ascii.eqb_eq. by exists EmptyString.
  - intros Hs. change (ends_with_slash (String b s) = true) in Hs. destruct (IH Hs) as [s0 Hs0].
    exists (String a s0). by rewrite Hs0.
Qed.
Lemma app_string_assoc (s1 s2 s3 : string) : (s1 +:+ s2) +:+ s3 = s1 +:+ s2 +:+ s3.
Proof.
  induction s1 as [|a s1 IH]; [done|].
  change (String a ((s1 +:+ s2) +:+ s3) = String a (s1 +:+ s2 +:+ s3)). by rewrite IH.
Qed.

Lemma rooted_cons a s : rooted (String a s) = Ascii.eqb a slash.
Proof.
  unfold rooted, starts_with. assert (∀ t, String.prefix EmptyString t = true) as Hp by (intros t; by destruct t).
  cbn [String.prefix]. destruct (ascii_dec "/" a) as [<-|Hne]; [by rewrite Hp|].
  symmetry. apply Ascii.eqb_neq. intros ->. by apply Hne.
Qed.
Lemma rooted_app base s : base ≠ EmptyString → rooted (base +:+ s) = rooted base.
Proof.
  destruct base as [|a base]; [done|]. intros _.
  change (rooted (String a (base +:+ s)) = rooted (String a base)). by rewrite !rooted_cons.
Qed.

(** A plain name: one component. *)
Record plain_name (name : string) : Prop := {
  pn_nonempty : name ≠ EmptyString;
  pn_slash : existsb (Ascii.eqb slash) (String.list_ascii_of_string name) = false;
  pn_dot : name ≠ "."%string;
  pn_dots : name ≠ ".."%string }.

Lemma plain_not_rooted name : plain_name name → rooted name = false.
Proof.
  intros [Hne Hs _ _]. destruct name as [|a name]; [done|]. cbn [String.list_ascii_of_string existsb] in Hs.
  apply orb_false_iff in Hs as [Ha _]. by rewrite rooted_cons, Ascii.eqb_sym.
Qed.

(** The parts of a joined path: those of the base, up to trailing slashes, and
    the name. *)
Lemma join_parts base name :
  plain_name name → base ≠ EmptyString →
  ∃ parts, split_char slash (join_paths base name) = parts ++ [name] ∧ parts ≠ [] ∧
    (split_char slash base = parts ∨ split_char slash base = parts ++ [EmptyString]) ∧
    rooted (join_paths base name) = rooted base.
Proof.
  intros Hn Hb. unfold join_paths. rewrite (plain_not_rooted name Hn).
  rewrite (proj2 (String.eqb_neq _ _) Hb). cbn [orb].
  pose proof (split_no_slash name (pn_slash _ Hn)) as Hsn.
  destruct (ends_with_slash base) eqn:He.
  - destruct (ends_with_slash_inv base He) as [b0 ->]. exists (split_char slash b0).
    rewrite app_string_assoc, split_join, Hsn. split; [done|]. split; [apply split_char_nonempty|]. split.
    + right. pose proof (split_join b0 EmptyString) as Hsp. exact Hsp.
    + rewrite <- app_string_assoc. by apply rooted_app.
  - exists (split_char slash base). rewrite split_join, Hsn. split; [done|]. split; [apply split_char_nonempty|].
    split; [by left|]. by rewrite rooted_app.
Qed.

Lemma trim_back_plain name parts : plain_name name → trim_back (name :: parts) = name :: parts.
Proof.
  intros [Hne _ Hd _]. destruct parts as [|p parts]; [done|]. cbn [trim_back].
  by rewrite (proj2 (String.eqb_neq _ _) Hne), (proj2 (String.eqb_neq _ _) Hd).
Qed.

(** Joining and taking apart are inverse: for a name that is one
    component, the last component of a joined path is the name and its parent
    is the base, up to the base's trailing slashes and dots. *)
Lemma join_then_split base name :
  plain_name name →
  get_basename (join_paths base name) = name ∧ get_parent (join_paths base name) = Some (trim_path base).
Proof.
  intros Hn. pose proof (pn_dot _ Hn) as Hd. pose proof (pn_dots _ Hn) as Hdd.
  assert (String.eqb name "." || String.eqb name ".." = false) as Hdots
    by (by rewrite (proj2 (String.eqb_neq _ _) Hd), (proj2 (String.eqb_neq _ _) Hdd)).
  destruct (decide (base = EmptyString)) as [->|Hb].
  - assert (join_paths EmptyString name = name) as -> by (unfold join_paths; by rewrite (plain_not_rooted name Hn)).
    unfold get_basename, get_parent, next_back. rewrite (split_no_slash name (pn_slash _ Hn)).
    cbn [rev app trim_back]. rewrite (plain_not_rooted name Hn), (proj2 (String.eqb_neq _ _) (pn_nonempty _ Hn)). cbn [orb].
    by rewrite Hdots.
  - destruct (join_parts base name Hn Hb) as (parts & Hs & Hne & Hbase & Hroot).
    unfold get_basename, get_parent, next_back. rewrite Hs, rev_app_distr. cbn [rev app].
    rewrite (trim_back_plain name _ Hn). destruct (rev parts) as [|p rest] eqn:Hrev.
    { by apply (f_equal (@rev _)) in Hrev; rewrite rev_involutive in Hrev. }
    rewrite Hdots. split; [done|]. cbn [mbind option_bind]. rewrite Hroot. f_equal. unfold trim_path.
    destruct Hbase as [->| ->]; [by rewrite Hrev|]. rewrite rev_app_distr, Hrev. done.
Qed.

(** An absolute name leaves the base, and the path check lets it through. *)
Example join_leaves_base :
  join_paths "/base" "/etc/passwd" = "/etc/passwd"%string ∧ is_valid_path "/etc/passwd" = true.
Proof. split; reflexivity. Qed.
(** Port 65535 is refused. *)
Example largest_port_refused : is_valid_port 65535 = false.
Proof. reflexivity. Qed.
(** A time in the future is never old. *)
Lemma future_not_old now_ns timestamp age_ms :
  0 ≤ age_ms → current_timestamp_ms now_ns ≤ timestamp → is_older_than now_ns timestamp age_ms = false.
Proof. intros Ha Ht. unfold is_older_than, saturating_sub. apply Z.ltb_ge. lia. Qed.

Lemma join_then_split_witness :
  get_basename (join_paths "/path/to//" "file.txt") = "file.txt"%string ∧
  get_parent (join_paths "/path/to//" "file.txt") = Some "/path/to"%string.
Proof. apply (join_then_split "/path/to//" "file.txt"). by split. Defined.
