(* ===== verification/Validation.v ===== *)
(** * Validation, configuration files and resources (src/src/utils.rs)

    The helpers of utils.rs that rest on parsers and tables of other code: IP
    addresses as [std::net] reads them, names of nodes (Unicode's alphanumeric
    class is a parameter), TOML files and the readings of the sysinfo crate. *)

From stdpp Require Import base list list_numbers numbers strings gmap pretty.
From Stdlib Require Import Strings.Ascii.
From S2P Require Import Prelude Crc32 PersistQueue Errors Utf8 Utils.
Local Open Scope Z_scope.

(** ** Definitions *)

(** *** IP addresses

    The parser of [std::net]: a reader takes what it can from the front of the
    input and leaves it untouched when it fails. *)
Definition reader (A : Type) : Type := list ascii → option (A * list ascii).

Definition to_digit (radix : Z) (c : ascii) : option Z :=
  let n := Z.of_nat (nat_of_ascii c) in
  let d := if (48 <=? n) && (n <=? 57) then n - 48
           else if (97 <=? n) && (n <=? 122) then n - 87
           else if (65 <=? n) && (n <=? 90) then n - 55
           else radix in
  if d <? radix then Some d else None.

(** All the digits in front; more than [max] of them are refused. *)
Fixpoint read_digits (radix max count result : Z) (l : list ascii) : option (Z * Z * list ascii) :=
  match l with
  | c :: rest =>
      match to_digit radix c with
      | Some d => if max <? count + 1 then None else read_digits radix max (count + 1) (result * radix + d) rest
      | None => Some (result, count, l)
      end
  | [] => Some (result, count, [])
  end.

Definition read_number (radix max : Z) (allow_zero_prefix : bool) (bound : Z) : reader Z := λ l,
  '(result, count, rest) ← read_digits radix max 0 0 l;
  if count =? 0 then None
  else if negb allow_zero_prefix && bool_decide (head l = Some "0"%char) && (1 <? count) then None
  else if result <? bound then Some (result, rest) else None.

Definition read_separator {A} (sep : ascii) (index : nat) (inner : reader A) : reader A := λ l,
  match index with
  | O => inner l
  | S _ => match l with c :: l => if Ascii.eqb c sep then inner l else None | [] => None end
  end.

Definition read_byte (index : nat) : reader Z := read_separator "."%char index (read_number 10 3 false 256).
Definition read_ipv4 : reader (list Z) := λ l,
  '(a, l) ← read_byte 0 l; '(b, l) ← read_byte 1 l; '(c, l) ← read_byte 2 l; '(d, l) ← read_byte 3 l;
  Some ([a; b; c; d], l).

(** Up to [left] groups from the [i]-th on: 16-bit groups, the last two of which
    may be an IPv4 address, and whether they were. *)
Fixpoint read_groups (left : nat) (i : nat) (l : list ascii) : list Z * bool * list ascii :=
  match left with
  | O => ([], false, l)
  | S left' =>
      match (match left' with O => None | S _ => read_separator ":"%char i read_ipv4 l end) with
      | Some ([a; b; c; d], rest) => ([a * 256 + b; c * 256 + d], true, rest)
      | _ =>
          match read_separator ":"%char i (read_number 16 4 true 65536) l with
          | Some (g, rest) => let '(gs, v4, rest) := read_groups left' (S i) rest in (g :: gs, v4, rest)
          | None => ([], false, l)
          end
      end
  end.

Definition read_ipv6 : reader (list Z) := λ l,
  let '(head, head_ipv4, rest) := read_groups 8 0 l in
  if bool_decide (length head = 8%nat) then Some (head, rest)
  else if head_ipv4 then None
  else
    match rest with
    | ":"%char :: ":"%char :: rest =>
        let '(tail, _, rest) := read_groups (7 - length head) 0 rest in
        Some (head ++ replicate (8 - length head - length tail) 0 ++ tail, rest)
    | _ => None
    end.

Inductive IpAddr := V4 (octets : list Z) | V6 (groups : list Z).

(** [str::parse::<IpAddr>]. *)
Definition parse_ip (ip : string) : option IpAddr :=
  let l := String.list_ascii_of_string ip in
  match read_ipv4 l with
  | Some (octets, rest) => if bool_decide (rest = []) then Some (V4 octets) else None
  | None =>
      match read_ipv6 l with
      | Some (groups, rest) => if bool_decide (rest = []) then Some (V6 groups) else None
      | None => None
      end
  end.

(** Source: src/src/utils.rs:198-201 (is_valid_ip) *)
Definition is_valid_ip (ip : string) : bool := bool_decide (is_Some (parse_ip ip)).

(** *** Names of nodes *)

(** The characters of a string, each as its bytes: continuation bytes are 128 to
    191. *)
Definition continuation (c : ascii) : bool := let n := nat_of_ascii c in (128 <=? n)%nat && (n <? 192)%nat.
Fixpoint chars (s : string) : list string :=
  match s with
  | EmptyString => []
  | String c s =>
      match chars s, s with
      | ch :: rest, String c' _ => if continuation c' then String c ch :: rest else String c EmptyString :: ch :: rest
      | l, _ => String c EmptyString :: l
      end
  end.

(** [char::is_alphanumeric], and what it is of ASCII characters. *)
Class Alphanumeric := { is_alphanumeric : string → bool }.
Definition ascii_alphanumeric (c : ascii) : bool :=
  let n := nat_of_ascii c in
  ((48 <=? n) && (n <=? 57) || (65 <=? n) && (n <=? 90) || (97 <=? n) && (n <=? 122))%nat.
Class AlphanumericOk `{Alphanumeric} := {
  alphanumeric_ascii c : (nat_of_ascii c < 128)%nat → is_alphanumeric (String c EmptyString) = ascii_alphanumeric c }.

(** Source: src/src/utils.rs:211-216 (is_valid_node_name) *)
Definition is_valid_node_name `{Alphanumeric} (name : string) : bool :=
  negb (String.eqb name EmptyString) && (len (str_bytes name) <=? 64) &&
  forallb (λ c, is_alphanumeric c || String.eqb c "-" || String.eqb c "_") (chars name).

(** *** Configuration files *)

(** The TOML crate on the types of one configuration. *)
Class Toml (T : Type) := {
  toml_from_str : string → outcome string T;
  toml_to_string_pretty : T → outcome string string }.
Class TomlOk (T : Type) `{Toml T} := {
  toml_roundtrip x s : toml_to_string_pretty x = Ok s → toml_from_str s = Ok x }.

(** Texts of files by path, and which paths can be written. *)
Record Files := mkFiles { file_texts : gmap string string; can_write : string → bool }.

(** Source: src/src/utils.rs:176-181 (load_config) *)
Definition load_config {T} `{Toml T} (files : Files) (path : string) : outcome string T :=
  contents ← ok_or (file_texts files !! path) "No such file or directory"%string;
  toml_from_str contents.

(** Source: src/src/utils.rs:183-188 (save_config) *)
Definition save_config {T} `{Toml T} (files : Files) (config : T) (path : string) : Files * outcome string unit :=
  match toml_to_string_pretty config with
  | Ok contents =>
      if can_write files path then (mkFiles (<[path := contents]> (file_texts files)) (can_write files), Ok tt)
      else (files, Err "Permission denied"%string)
  | Err e => (files, Err e)
  | Panic => (files, Panic)
  end.

(** *** Resources: what the sysinfo crate reads *)
Record SystemInfo := mkSystemInfo {
  total_memory : Z; used_memory : Z; available_memory : Z; cpu_usage : Z;
  os_name : option string; kernel_version : option string }.

(** Source: src/src/utils.rs:113-123 (get_memory_info) *)
Definition get_memory_info (sys : SystemInfo) : Z * Z * Z :=
  (u64 (total_memory sys * 1024), u64 (used_memory sys * 1024), u64 (available_memory sys * 1024)).
(** Source: src/src/utils.rs:125-131 (get_cpu_usage) *)
Definition get_cpu_usage (sys : SystemInfo) : Z := cpu_usage sys.
(** Source: src/src/utils.rs:133-143 (get_system_info) *)
Definition get_system_info (arch : string) (sys : SystemInfo) : string * string * string :=
  (default "Unknown"%string (os_name sys), default "Unknown"%string (kernel_version sys), arch).

(** *** The test *)

(** Source: src/src/utils.rs:247-264 (tests::test_validation_utils) *)
Definition test_validation_utils `{Alphanumeric} : bool :=
  is_valid_port 8080 && negb (is_valid_port 0) && negb (is_valid_port 65535) &&
  is_valid_ip "127.0.0.1" && is_valid_ip "::1" && negb (is_valid_ip "invalid") &&
  is_valid_path "/valid/path" && negb (is_valid_path "../invalid") && negb (is_valid_path EmptyString) &&
  is_valid_node_name "valid-node-1" && negb (is_valid_node_name "invalid@node") && negb (is_valid_node_name EmptyString).

(** ** Properties *)

Lemma read_digits_app radix max count result l n k rest :
  read_digits radix max count result l = Some (n, k, []) →
  match rest with c :: _ => to_digit radix c = None | [] => True end →
  read_digits radix max count result (l ++ rest) = Some (n, k, rest).
Proof.
  revert count result. induction l as [|c l IH]; intros count result Hl Hrest; simpl in *.
  - simplify_eq. destruct rest as [|c rest]; [done|]. simpl. by rewrite Hrest.
  - destruct (to_digit radix c) as [d|]; [|done]. destruct (max <? count + 1); [done|]. auto.
Qed.

(** A number whose digits end the input is read the same in front of a
    character that is no digit. *)
Lemma read_number_app radix max zero bound l n rest :
  read_number radix max zero bound l = Some (n, []) →
  match rest with c :: _ => to_digit radix c = None | [] => True end →
  read_number radix max zero bound (l ++ rest) = Some (n, rest).
Proof.
  unfold read_number. intros Hl Hrest.
  destruct (read_digits radix max 0 0 l) as [[[m k] l']|] eqn:Hd; [|done]. simpl in Hl.
  destruct (k =? 0) eqn:Hk; [done|].
  assert (head (l ++ rest) = head l) as Hh by (destruct l; [simpl in Hd; simplify_eq; done|done]).
  destruct (_ && _ && _) eqn:Hz in Hl; [done|]. destruct (m <? bound) eqn:Hm; simplify_eq.
  rewrite (read_digits_app _ _ _ _ _ _ _ _ Hd Hrest). simpl. by rewrite Hk, Hh, Hz, Hm.
Qed.

(** The decimal digits of a byte, as [std::fmt] writes them. *)
Definition octet_text (a : Z) : list ascii := String.list_ascii_of_string (pretty a).

Lemma read_octet a rest :
  0 <= a < 256 → match rest with c :: _ => to_digit 10 c = None | [] => True end →
  read_number 10 3 false 256 (octet_text a ++ rest) = Some (a, rest).
Proof.
  intros Ha. apply read_number_app.
  assert (forallb (λ a, bool_decide (read_number 10 3 false 256 (octet_text a) = Some (a, []))) (seqZ 0 256) = true)
    as Hall by (vm_compute; reflexivity).
  rewrite forallb_forall in Hall. apply (bool_decide_eq_true_1 _), Hall, list_elem_of_In, elem_of_seqZ. lia.
Qed.

(** [Display] of an IPv4 address. *)
Definition ipv4_text (a b c d : Z) : list ascii :=
  octet_text a ++ "."%char :: octet_text b ++ "."%char :: octet_text c ++ "."%char :: octet_text d.

(** Every IPv4 address is read back from its text: four decimal numbers
    below 256 without leading zeros, separated by points, are accepted by
    [is_valid_ip] and give back the four octets. *)
Lemma ipv4_text_is_valid (a b c d : Z) (Ha : 0 <= a < 256) (Hb : 0 <= b < 256) (Hc : 0 <= c < 256) (Hd : 0 <= d < 256) :
  let ip := String.string_of_list_ascii (ipv4_text a b c d) in
  parse_ip ip = Some (V4 [a; b; c; d]) ∧ is_valid_ip ip = true.
Proof.
  intros ip. assert (parse_ip ip = Some (V4 [a; b; c; d])) as Hp.
  { unfold parse_ip, ip. rewrite String.list_ascii_of_string_of_list_ascii.
    unfold read_ipv4, read_byte, read_separator, ipv4_text.
    repeat (rewrite read_octet by done; simpl). rewrite <- (app_nil_r (octet_text d)), read_octet by done. done. }
  split; [done|]. unfold is_valid_ip. by rewrite Hp.
Qed.

Lemma ipv4_text_is_valid_witness :
  parse_ip "192.168.0.255" = Some (V4 [192; 168; 0; 255]) ∧ is_valid_ip "192.168.0.255" = true.
Proof. apply (ipv4_text_is_valid 192 168 0 255); lia. Defined.

(** Among others: leading zeros, short and long addresses and trailing text are
    refused; a run of zero groups may be left out once. *)
Lemma addresses_sampled :
  is_valid_ip "127.0.0.01" = false ∧ is_valid_ip "1.2.3" = false ∧ is_valid_ip "1.2.3.256" = false ∧
  is_valid_ip "1.2.3.4:80" = false ∧ is_valid_ip "1::2::3" = false ∧ is_valid_ip "fe80::1%eth0" = false ∧
  parse_ip "::ffff:10.0.0.1" = Some (V6 [0; 0; 0; 0; 0; 65535; 2560; 1]) ∧
  parse_ip "fe80::1" = Some (V6 [65152; 0; 0; 0; 0; 0; 0; 1]).
Proof. vm_compute. repeat split. Qed.

Section Names.
Context `{AlphanumericOk}.

(** A name of ASCII characters: letters, digits, [-] and [_], at most 64. *)
Definition ascii_name (name : string) : bool :=
  negb (String.eqb name EmptyString) && (len (str_bytes name) <=? 64) &&
  forallb (λ c, ascii_alphanumeric c || Ascii.eqb c "-"%char || Ascii.eqb c "_"%char) (String.list_ascii_of_string name).

Lemma chars_ascii name :
  Forall (λ c, nat_of_ascii c < 128)%nat (String.list_ascii_of_string name) →
  chars name = (λ c, String c EmptyString) <$> String.list_ascii_of_string name.
Proof.
  induction name as [|c name IH]; intros Hl; [done|]. simpl in *. inversion Hl as [|? ? Hc Hn]; subst.
  rewrite (IH Hn). destruct name as [|c' name]; [done|]. simpl in *. inversion Hn; subst.
  unfold continuation. by rewrite (proj2 (Nat.leb_gt _ _)) by done.
Qed.

Lemma eqb_single c d : String.eqb (String c EmptyString) (String d EmptyString) = Ascii.eqb c d.
Proof. simpl. by destruct (Ascii.eqb c d). Qed.

Lemma ascii_names_valid name :
  Forall (λ c, nat_of_ascii c < 128)%nat (String.list_ascii_of_string name) →
  is_valid_node_name name = ascii_name name.
Proof.
  intros Hl. unfold is_valid_node_name, ascii_name. rewrite chars_ascii by done. f_equal.
  induction Hl as [|c l Hc Hl IH]; [done|]. rewrite fmap_cons. cbn [forallb]. rewrite IH, !eqb_single.
  by rewrite (alphanumeric_ascii c Hc).
Qed.

Lemma test_validation_utils_passes : test_validation_utils = true.
Proof.
  unfold test_validation_utils.
  rewrite !ascii_names_valid by (repeat constructor; vm_compute; lia). vm_compute. reflexivity.
Qed.
End Names.

(** A configuration that was saved is loaded back, and a save that fails
    changes no file. *)
Lemma saved_config_loads {T} `{TomlOk T} files (config : T) path :
  match save_config files config path with
  | (files', Ok _) => load_config files' path = Ok config
  | (files', _) => files' = files
  end.
Proof.
  unfold save_config, load_config. destruct (toml_to_string_pretty config) as [s|e|] eqn:Hs; [|done|done].
  destruct (can_write files path); [|done]. simpl. rewrite lookup_insert_eq. simpl. by apply toml_roundtrip.
Qed.
