(* ===== verification/ClusterTests.v ===== *)
(** * Tests of the node layer

    The [mod tests] of src/src/cluster.rs, src/src/partition.rs,
    src/src/filesystem.rs and src/src/utils.rs, and which of them can pass.  The
    two validation tests of utils.rs are left out with the functions they are
    about.  An [Arc] that a test still holds is a reference to its cell. *)

From stdpp Require Import base list numbers strings gmap pretty.
From S2P Require Import Prelude Crc32 F64 Network Errors Node Cluster Partition Filesystem Utf8 Utils ServiceTests.
Local Open Scope Z_scope.

(** ** Definitions *)

#[export] Instance FileType_eq_dec : EqDecision FileType.
Proof. solve_decision. Defined.

Section tests.
Context `{Crc32} `{NetEnv} `{Dash}.

(** [Cluster::default()].
    Source: src/src/cluster.rs:296-298 (Cluster::default) *)
Definition Cluster_default : Cluster := Cluster_new ClusterConfig_default.

(** Source: src/src/cluster.rs:305-312 (tests::test_cluster_creation) *)
Definition test_cluster_creation : verdict :=
  let stats := get_stats Cluster_default in
  _ ← assert_eq (active_nodes stats) 0;
  assert_eq (cs_total_memory stats) 0.

(** The reference that [get_node] returns is dropped at once.
    Source: src/src/cluster.rs:314-334 (tests::test_add_remove_node) *)
Definition test_add_remove_node (now : nat → Z) : verdict :=
  node ← unwrap_ok (Node_new (now 0%nat) NodeConfig_default);
  let '(cluster, r) := add_node (now 1%nat) Cluster_default node in
  node_id ← unwrap_ok r;
  _ ← assert_that (bool_decide (is_Some (get_node cluster node_id)));
  _ ← assert_eq (active_nodes (get_stats cluster)) 1;
  let '(cluster, r) := remove_node (λ _, false) cluster node_id in
  _ ← unwrap_ok r;
  assert_that (bool_decide (get_node cluster node_id = None)).

(** [selected] is held until the end of the test.
    Source: src/src/cluster.rs:336-354 (tests::test_data_node_selection) *)
Definition test_data_node_selection (now : nat → Z) : verdict :=
  let d := NodeConfig_default in
  node ← unwrap_ok (Node_new (now 0%nat) (mkNodeConfig (nc_name d) Data (nc_ip d) (nc_port d) (nc_resources d)));
  let '(cluster, r) := add_node (now 1%nat) Cluster_default node in
  id ← unwrap_ok r;
  selected ← unwrap (select_data_node cluster 42);
  _ ← assert_that (bool_decide (node_id <$> cl_heap cluster !! selected = Some id));
  let '(_, r) := remove_node (λ cell, bool_decide (cell = selected)) cluster id in
  unwrap_ok r.

(** Source: src/src/partition.rs:345-357 (tests::test_partition_key_hash) *)
Definition test_partition_key_hash : verdict :=
  let key1 := KString "test" in let key2 := KInteger 42 in let key3 := KTimestamp 1234567890 in
  _ ← assert_that (negb (key_hash key1 =? key_hash key2));
  _ ← assert_that (negb (key_hash key2 =? key_hash key3));
  assert_that (key_hash key1 =? key_hash (KString "test")).

(** Source: src/src/partition.rs:359-382 (tests::test_partition_manager) *)
Definition test_partition_manager (now_ms now_secs : Z) : verdict :=
  let '(pm, r) := create_partition now_ms now_secs Cluster_default PartitionManager_new ByHash None None 3 in
  partition_id ← unwrap_ok r;
  _ ← assert_that (bool_decide (is_Some (pm_partitions pm !! partition_id)));
  _ ← assert_that (bool_decide (get_partition_for_key pm (KString "test_key") = Some partition_id));
  assert_eq (pst_total_partitions (pm_stats pm)) 1.

(** Source: src/src/partition.rs:384-393 (tests::test_data_shard_creation) *)
Definition test_data_shard_creation : verdict :=
  let shard := DataShard_new 1 100 true in
  _ ← assert_eq (sd_shard_id shard) 1;
  _ ← assert_eq (sd_node_id shard) 100;
  _ ← assert_that (sd_is_primary shard);
  _ ← assert_eq (sd_size_bytes shard) 0;
  assert_eq (sd_record_count shard) 0.

(** Source: src/src/filesystem.rs:326-334 (tests::test_filesystem_creation) *)
Definition test_filesystem_creation : verdict :=
  let stats := fs_stats (Filesystem_new None) in
  _ ← assert_eq (total_files stats) 0;
  assert_eq (total_size stats) 0.

(** [Arc::try_unwrap(..).unwrap()] of a value with so many references. *)
Definition only_owner {A} (references : Z) (x : A) : outcome string A := if references =? 1 then Ok x else Panic.

(** The file is referred to by the test, by the table and by [opened_file].
    Source: src/src/filesystem.rs:336-361 (tests::test_file_operations) *)
Definition test_file_operations (uuid : string) (now : nat → Z) (cluster : Cluster) : verdict :=
  let '(fs, r) := create_file uuid (now 0%nat) cluster (Filesystem_new None) "/test/data.txt" FileData 3 in
  file ← unwrap_ok r;
  _ ← assert_eq (df_logical_path file) "/test/data.txt"%string;
  _ ← assert_eq (fa_file_type (df_attrs file)) FileData;
  opened_file ← unwrap_ok (open_file fs "/test/data.txt");
  _ ← assert_eq (df_logical_path opened_file) (df_logical_path file);
  file_mut ← only_owner 3 file;
  let '(fs, _, r) := write_file (now 1%nat) cluster fs file_mut 0 (str_bytes "Hello, World!") in
  written ← unwrap_ok r;
  _ ← assert_eq written 13;
  let '(fs, r) := delete_file fs "/test/data.txt" in
  _ ← unwrap_ok r;
  assert_that (is_err (open_file fs "/test/data.txt")).

(** Source: src/src/filesystem.rs:363-378 (tests::test_list_directory) *)
Definition test_list_directory (uuid : nat → string) (now : nat → Z) : verdict :=
  let '(fs, r) := create_file (uuid 0%nat) (now 0%nat) Cluster_default (Filesystem_new None) "/data/table1" FileData 3 in
  _ ← unwrap_ok r;
  let '(fs, r) := create_file (uuid 1%nat) (now 1%nat) Cluster_default fs "/index/primary" FileIndex 2 in
  _ ← unwrap_ok r;
  entries ← unwrap_ok (list_directory fs "/");
  assert_that (negb (bool_decide (entries = []))).

(** Source: src/src/utils.rs:223-232 (tests::test_path_utils) *)
Definition test_path_utils : verdict :=
  _ ← assert_that (is_absolute "/absolute/path");
  _ ← assert_that (negb (is_absolute "relative/path"));
  _ ← assert_eq (get_basename "/path/to/file.txt") "file.txt"%string;
  _ ← assert_eq (get_basename "file.txt") "file.txt"%string;
  assert_eq (join_paths "/base" "relative") "/base/relative"%string.

(** Source: src/src/utils.rs:234-245 (tests::test_hash_utils) *)
Definition test_hash_utils : verdict :=
  _ ← assert_eq (string_hash "test") (string_hash "test");
  _ ← assert_that (negb (string_hash "test" =? string_hash "different"));
  assert_that (negb (int_hash 42 =? 0)).

(** [now_ns] are the clock readings of the three calls.
    Source: src/src/utils.rs:266-274 (tests::test_time_utils) *)
Definition test_time_utils (now_ns : nat → Z) : verdict :=
  let now := current_timestamp_ms (now_ns 0%nat) in
  _ ← assert_that (0 <? now);
  let past := u64 (now - 1000) in
  _ ← assert_that (is_older_than (now_ns 1%nat) past 500);
  assert_that (negb (is_older_than (now_ns 2%nat) past 2000)).
End tests.

(** ** Verdicts *)

Section verdicts.
Context `{NetEnv} `{DashOk}.

Lemma dash_empty : dash_iter ∅ = [].
Proof. pose proof (dash_iter_all ∅) as Hp. rewrite map_to_list_empty in Hp. by apply Permutation_nil_r. Qed.
Lemma dash_one id cell : dash_iter {[ id := cell ]} = [(id, cell)].
Proof. pose proof (dash_iter_all {[ id := cell ]}) as Hp. rewrite map_to_list_singleton in Hp. by apply Permutation_singleton_r. Qed.

Lemma no_data_nodes : get_data_nodes Cluster_default = [].
Proof. unfold get_data_nodes. change (cl_nodes Cluster_default) with (∅ : gmap Z nat). by rewrite dash_empty. Qed.

(** The address a default node listens on. *)
Definition default_address : string := address_text (nc_ip NodeConfig_default) (nc_port NodeConfig_default).

(** A default node that was added is the cluster's only node, a data node. *)
Lemma add_default now t0 node :
  Node_new t0 NodeConfig_default = Ok node →
  match tcp_bind default_address with
  | Ok l => ∃ n c, add_node now Cluster_default node = (c, Ok 1) ∧ cl_nodes c = {[ 1 := 0%nat ]} ∧ cl_heap c = [n] ∧
      node_id n = 1 ∧ node_type n = Data ∧ control_node c = None ∧ active_nodes (get_stats c) = 1
  | Err e => ∃ c, add_node now Cluster_default node = (c, Err (DoldaIo e))
  | Panic => ∃ c, add_node now Cluster_default node = (c, Panic)
  end.
Proof.
  intros [= <-]. set (node := mkNode _ _ _ _ _ _ _ _).
  assert (Node_start now (set_id node 1) =
    let n := set_heartbeat (set_nd_state (set_id node 1) Active) now in
    match tcp_bind default_address with
    | Ok l => (set_listener n (Some l), Ok tt) | Err e => (n, Err (DoldaIo e)) | Panic => (n, Panic)
    end) as Hstart by done.
  unfold add_node. change (next_node_id Cluster_default) with 1. rewrite Hstart. cbv zeta.
  destruct (tcp_bind default_address) as [l|e|]; [|by eexists..].
  eexists _, _. split; [done|]. unfold update_stats, listed_nodes.
  match goal with |- context [dash_iter ?m] => change m with ({[1 := 0%nat]} : gmap Z nat) end.
  rewrite dash_one. split_and!; done.
Qed.

(** The node can be removed unless the caller holds it. *)
Lemma remove_only held c n :
  cl_nodes c = {[ 1 := 0%nat ]} → cl_heap c = [n] → control_node c = None →
  ∃ c', remove_node held c 1 = (c', if held 0%nat then Err (DoldaNode "Node still has references") else Ok tt) ∧ get_node c' 1 = None.
Proof.
  intros Hn Hh Hc. unfold remove_node. rewrite Hn, lookup_singleton_eq. cbv zeta.
  change (control_node (set_heap (set_nodes c _) _)) with (control_node c). change (control_node (set_nodes c _)) with (control_node c).
  rewrite Hc, bool_decide_eq_false_2, orb_false_r by done. cbn [mbind option_bind].
  destruct (held 0%nat); eexists; (split; [done|]); unfold get_node, update_stats; cbn [cl_nodes set_stats set_heap set_nodes];
    apply lookup_delete_eq.
Qed.

Lemma select_only c n p :
  cl_nodes c = {[ 1 := 0%nat ]} → cl_heap c = [n] → node_type n = Data → select_data_node c p = Some 0%nat.
Proof.
  intros Hn Hh Ht. unfold select_data_node, get_data_nodes. rewrite Hn, dash_one.
  rewrite filter_cons, filter_nil. assert (cell_is_data c 0 = true) as Hd by (unfold cell_is_data, is_data; rewrite Hh; cbn; by rewrite Ht).
  rewrite decide_True by done. cbn. by rewrite Z.mod_1_r.
Qed.

(** A test that returns or panics as the first call that needs a port does. *)
Lemma add_remove_verdict now :
  test_add_remove_node now = if is_ok (tcp_bind default_address) then Ok tt else Panic.
Proof.
  unfold test_add_remove_node. destruct (Node_new (now 0%nat) NodeConfig_default) as [node| |] eqn:Hnew; [|done..]. cbn [unwrap_ok mbind outcome_bind].
  pose proof (add_default (now 1%nat) _ node Hnew) as Hadd. destruct (tcp_bind default_address) as [l|e|];
    [|destruct Hadd as (c & ->); done..].
  destruct Hadd as (n & c & -> & Hn & Hh & Hi & Ht & Hc & Ha). cbn [unwrap_ok mbind outcome_bind is_ok].
  assert (get_node c 1 = Some 0%nat) as -> by (unfold get_node; rewrite Hn; apply lookup_singleton_eq).
  rewrite Ha. cbn [assert_that mbind outcome_bind bool_decide].
  destruct (remove_only (λ _, false) c n Hn Hh Hc) as (c' & -> & Hg). rewrite Hg. done.
Qed.

Lemma selection_panics now : test_data_node_selection now = Panic.
Proof.
  unfold test_data_node_selection. cbv zeta.
  change (mkNodeConfig _ Data _ _ _) with NodeConfig_default.
  destruct (Node_new (now 0%nat) NodeConfig_default) as [node| |] eqn:Hnew; [|done..]. cbn [unwrap_ok mbind outcome_bind].
  pose proof (add_default (now 1%nat) _ node Hnew) as Hadd. destruct (tcp_bind default_address) as [l|e|];
    [|destruct Hadd as (c & ->); done..].
  destruct Hadd as (n & c & -> & Hn & Hh & Hi & Ht & Hc & Ha). cbn [unwrap_ok mbind outcome_bind].
  rewrite (select_only c n 42 Hn Hh Ht). cbn [unwrap mbind outcome_bind]. rewrite Hh. cbn [lookup list_lookup fmap option_fmap option_map].
  rewrite Hi, bool_decide_eq_true_2 by done. cbn [assert_that mbind outcome_bind].
  destruct (remove_only (λ cell, bool_decide (cell = 0%nat)) c n Hn Hh Hc) as (c' & -> & _). done.
Qed.

(** Whatever the cluster, nobody else's references are given up. *)
Lemma file_operations_panic uuid now cluster : test_file_operations uuid now cluster = Panic.
Proof.
  unfold test_file_operations. destruct (create_file _ _ _ _ _ _ _) as [fs [file|e|]]; [|done..]. cbn [unwrap_ok mbind outcome_bind].
  destruct (assert_eq (df_logical_path file) _) as [[]|e|] eqn:H1'; [|unfold assert_eq, assert_that in H1'; by destruct (bool_decide _)|done].
  cbn [mbind outcome_bind].
  destruct (assert_eq (fa_file_type _) _) as [[]|e|] eqn:H2'; [|unfold assert_eq, assert_that in H2'; by destruct (bool_decide _)|done].
  cbn [mbind outcome_bind]. destruct (open_file fs _) as [opened|e|]; [|done..]. cbn [unwrap_ok mbind outcome_bind].
  unfold assert_eq, assert_that. by destruct (bool_decide _).
Qed.

Lemma creation_panics `{Crc32} uuid now now_ms now_secs :
  test_partition_manager now_ms now_secs = Panic ∧ test_list_directory uuid now = Panic.
Proof.
  split.
  - unfold test_partition_manager, create_partition, assign_nodes_to_partition. by rewrite no_data_nodes.
  - unfold test_list_directory, create_file, select_data_node, allocate_blocks. by rewrite no_data_nodes.
Qed.
End verdicts.

Lemma time_test_passes now_ns :
  1000 * 1000000 ≤ now_ns 0%nat ≤ now_ns 1%nat → now_ns 1%nat ≤ now_ns 2%nat ≤ now_ns 0%nat + 1000 * 1000000 → now_ns 2%nat < 2 ^ 64 →
  test_time_utils now_ns = Ok tt.
Proof.
  intros H01 H12 Hmax. unfold test_time_utils, is_older_than, current_timestamp_ms, saturating_sub.
  rewrite (Z.max_r 0 (now_ns 0%nat)), (Z.max_r 0 (now_ns 1%nat)), (Z.max_r 0 (now_ns 2%nat)) by lia.
  assert (∀ x, 0 ≤ x < 2 ^ 64 → x `div` 1000000 < 2 ^ 64) as Hdiv.
  { intros x Hx. apply Z.div_lt_upper_bound; lia. }
  assert (1000 ≤ now_ns 0%nat `div` 1000000) by (apply Z.div_le_lower_bound; lia).
  assert (now_ns 0%nat `div` 1000000 ≤ now_ns 1%nat `div` 1000000) by (apply Z.div_le_mono; lia).
  assert (now_ns 1%nat `div` 1000000 ≤ now_ns 2%nat `div` 1000000) by (apply Z.div_le_mono; lia).
  assert (now_ns 2%nat `div` 1000000 ≤ now_ns 0%nat `div` 1000000 + 1000).
  { rewrite <- Z.div_add by lia. apply Z.div_le_mono; lia. }
  pose proof (Hdiv (now_ns 2%nat) ltac:(lia)).
  rewrite (wrap_id 64 (now_ns 0%nat `div` 1000000)), (wrap_id 64 (now_ns 1%nat `div` 1000000)),
    (wrap_id 64 (now_ns 2%nat `div` 1000000)) by (unfold in_range; lia).
  rewrite (wrap_id 64 (_ - 1000)) by (unfold in_range; lia).
  rewrite (proj2 (Z.ltb_lt 0 _)) by lia. cbn [assert_that mbind outcome_bind].
  rewrite (proj2 (Z.ltb_lt 500 _)) by lia. cbn [assert_that mbind outcome_bind].
  by rewrite (proj2 (Z.ltb_ge 2000 _)) by lia.
Qed.

(** ** Property *)
Section cluster_tests.
Context `{NetEnv} `{DashOk}.

(** Half of the tests of the node layer cannot pass.  Selecting a data node
    panics because the test still holds the node it then removes; creating a
    partition and listing files panic because a cluster without nodes refuses
    both; the operations on a file panic on every cluster, because the table and
    the opened file refer to the file the test wants to own.  Adding and
    removing a node passes where the node's port can be bound, the time test
    when its calls come within a second; the others pass. *)
Lemma node_layer_tests_verdicts uuid uuids now now_ms now_secs now_ns cluster :
  (test_data_node_selection now = Panic ∧ test_partition_manager now_ms now_secs = Panic ∧
   test_list_directory uuids now = Panic ∧ test_file_operations uuid now cluster = Panic) ∧
  test_add_remove_node now = (if is_ok (tcp_bind default_address) then Ok tt else Panic) ∧
  (1000 * 1000000 ≤ now_ns 0%nat ≤ now_ns 1%nat →
   now_ns 1%nat ≤ now_ns 2%nat ≤ now_ns 0%nat + 1000 * 1000000 → now_ns 2%nat < 2 ^ 64 → test_time_utils now_ns = Ok tt) ∧
  test_cluster_creation = Ok tt ∧ test_partition_key_hash = Ok tt ∧ test_data_shard_creation = Ok tt ∧
  test_filesystem_creation = Ok tt ∧ test_path_utils = Ok tt ∧ test_hash_utils = Ok tt.
Proof.
  destruct (creation_panics uuids now now_ms now_secs) as [Hp Hl].
  split; [split_and!; [apply selection_panics|done|done|apply file_operations_panic]|].
  split; [apply add_remove_verdict|]. split; [apply time_test_passes|].
  split_and!; vm_compute; reflexivity.
Qed.
End cluster_tests.

(** ** A concrete host *)
#[local] Existing Instances sample_net sample_dash sample_dash_ok.

Lemma node_layer_tests_verdicts_witness :
  test_data_node_selection Z.of_nat = Panic ∧ test_time_utils (λ n, 5000000000 + Z.of_nat n) = Ok tt.
Proof.
  destruct (node_layer_tests_verdicts "u" (λ _, "u"%string) Z.of_nat 0 0 (λ n, 5000000000 + Z.of_nat n) Cluster_default)
    as ((Hsel & _) & _ & Htime & _).
  split; [exact Hsel|]. apply Htime; vm_compute; try (split; discriminate); reflexivity.
Defined.
