(* ===== verification/Main.v ===== *)
(** * The command line (src/src/main.rs)

    The choice of a mode, the queue demonstration and the large-scale run.
    Clock readings are arguments; what is printed is the report. *)

From stdpp Require Import base list list_numbers numbers strings gmap.
From Stdlib Require Import Strings.Byte.
From S2P Require Import Prelude Crc32 F64 StorageEngine PersistQueue QueuePerf Demo Utf8.
Local Open Scope Z_scope.

(** ** Definitions *)

(** What the program runs. *)
Inductive Mode := LargeMode | PerfMode | DemoMode | QueueMode.
(** Source: src/src/main.rs:12-32 (main, mode) *)
Definition mode (args : list string) : Mode :=
  let given arg := bool_decide (arg ∈ args) in
  if given "--large"%string then LargeMode
  else if given "--perf"%string then PerfMode
  else if given "--demo"%string then DemoMode
  else QueueMode.

(** Source: src/src/main.rs:101-111 (run_persistq_demo, configuration) *)
Definition demo_queue_config : PersistQConfig :=
  {| storage_dir := "/tmp/persistq_demo"; segment_size := 1024 * 1024; num_partitions := 4;
     replication_factor := 2;
     cache_config := {| cc_enabled := true; cc_size_bytes := 10 * 1024 * 1024;
                        hot_data_threshold := f64_lit 2 10 |} |}.

(** Source: src/src/main.rs:123-132 (run_persistq_demo, records) *)
Definition test_records : list bytes := map str_bytes
  ["Hello, persistQ!"; "Distributed queues are powerful"; "DOLDA architecture rocks!";
   "Zero-copy operations"; "High-performance storage"; "Raft-based replication";
   "Segment-based persistence"; "Multi-level caching"]%string.

(** What the demonstration prints. *)
Record QueueDemo := mkQueueDemo {
  qd_appends : list AppendResult; qd_reads : list (nat * string); qd_stats : PersistQStats;
  qd_distribution : list (Z * Z) }.

Section main.
Context `{Crc32} `{Os} `{Fs}.

(** Source: src/src/main.rs:136-144 (run_persistq_demo, appends) *)
Fixpoint append_records (fuel : nat) (t : clock) (i : nat) (q : PersistQ) (records : list bytes)
    (append_results : list AppendResult) : option (PersistQ * outcome string (list AppendResult)) :=
  match records with
  | [] => Some (q, Ok append_results)
  | record :: records =>
      '(q, result) ← PersistQ_append fuel (t i).1 (t i).2 q record;
      match result with
      | Ok r => append_records fuel t (S i) q records (append_results ++ [r])
      | Err e => Some (q, Err e)
      | Panic => Some (q, Panic)
      end
  end.

(** Every second record; they are numbered from 1.
    Source: src/src/main.rs:149-155 (run_persistq_demo, reads) *)
Fixpoint read_alternate (t : clock) (i : nat) (q : PersistQ) (append_results : list AppendResult)
    : outcome string (list (nat * string)) :=
  match append_results with
  | [] => Ok []
  | r :: append_results =>
      if Nat.even i then
        read_result ← PersistQ_read (t i).1 (t i).2 q (ar_global_offset r);
        rest ← read_alternate t (S i) q append_results;
        Ok ((S i, from_utf8_lossy (qr_data (rr_record read_result))) :: rest)
      else read_alternate t (S i) q append_results
  end.

(** Source: src/src/main.rs:96-181 (run_persistq_demo) *)
Definition run_persistq_demo (fuel : nat) (ta tr : clock) : option (outcome string QueueDemo) :=
  match PersistQ_new demo_queue_config with
  | Ok q =>
      '(q, appended) ← append_records fuel ta 0 q test_records [];
      Some (append_results ← appended;
            reads ← read_alternate tr 0 q append_results;
            _ ← PersistQ_shutdown q;
            Ok {| qd_appends := append_results; qd_reads := reads; qd_stats := PersistQ_stats q;
                  qd_distribution := map (λ kv, (qm_partition_id kv.2, len (qm_segments kv.2)))
                                       (map_to_list (segment_managers q)) |})
  | Err e => Some (Err e)
  | Panic => Some Panic
  end.

(** The large-scale run, which fails when the test does.
    Source: src/src/main.rs:57-94 (run_large_scale_test) *)
Definition run_large_scale_test (fuel : nat) (ta tv tr : clock) (append_ms verification_ms : Z)
    (read_ms : list Z) : option (outcome string LargeScaleTestResult) :=
  result ← test_10m_random_numbers fuel ta tv tr append_ms verification_ms read_ms;
  Some (r ← result;
        if ls_verification_correct r then Ok r else Err "Large-scale test verification failed").
End main.

(** ** Properties *)
Section properties.
Context `{Crc32Ok} `{OsOk} `{Fs}.

Lemma append_records_ok records fuel t i q log results :
  queue_repr q log → len log + len records < 2 ^ 63 →
  zsum len log + zsum len records ≤ segment_size (pq_config q) →
  ∃ q' rs, append_records (S fuel) t i q records results = Some (q', Ok (results ++ rs)) ∧
    map ar_global_offset rs = seqZ (len log) (len records) ∧
    queue_repr q' (log ++ records) ∧ pq_config q' = pq_config q.
Proof.
  revert i q log results. induction records as [|d records IH]; intros i q log results Hq Hc Hfit.
  - exists q, []. cbn [append_records]. by rewrite !app_nil_r.
  - rewrite len_cons in *. cbn [zsum foldr] in Hfit. change (foldr _ 0 records) with (zsum len records) in Hfit.
    pose proof (len_nonneg records). pose proof (zsum_nonneg len records len_nonneg).
    pose proof (len_partition_content (num_partitions (pq_config q)) (route (num_partitions (pq_config q)) d) log).
    destruct (queue_append q log d fuel (t i).1 (t i).2 Hq) as (q1 & Ha & Hq1 & Hc1); [lia|lia|].
    set (r := mkAppendResult _ _ _ _) in Ha.
    destruct (IH (S i) q1 _ (results ++ [r]) Hq1) as (q' & rs & Ha' & Hrs & Hq' & Hc').
    { rewrite len_app, len_cons. change (@len bytes []) with 0. lia. }
    { rewrite Hc1, zsum_app. cbn [zsum foldr]. lia. }
    exists q', (r :: rs). split; [|split; [|split; [|by rewrite Hc', Hc1]]].
    + cbn [append_records]. rewrite Ha. cbn [mbind option_bind]. rewrite Ha'. by rewrite <- app_assoc.
    + cbn [map]. rewrite Hrs, len_app, len_cons. change (@len bytes []) with 0.
      rewrite (seqZ_cons (len log)) by lia. cbn [ar_global_offset r].
      replace (Z.pred (1 + len records)) with (len records) by lia. done.
    + by rewrite <- app_assoc in Hq'.
Qed.

Lemma shutdown_ok q : (∀ path mm, os_flush path mm = Ok tt) → PersistQ_shutdown q = Ok tt.
Proof.
  intros Hf. unfold PersistQ_shutdown. induction (map_to_list (segment_managers q)) as [|[p m] ms IH]; [done|].
  cbn [flush_managers]. assert (QManager_flush m = Ok tt) as ->; [|done].
  unfold QManager_flush. induction (qm_segments m) as [|s ss IHs]; [done|].
  cbn [flush_segments]. unfold Segment_flush. by rewrite Hf.
Qed.

(** What a read of record [i] prints: it and all later ones of its partition. *)
Definition printed (n : Z) (records : list bytes) (i : nat) : string :=
  from_utf8_lossy (match records !! i with
                   | Some d => partition_content n (route n d) (drop i records)
                   | None => [] end).

Lemma read_alternate_ok t q log k results :
  queue_repr q log → Forall (λ d, d ≠ []) log → map ar_global_offset results = seqZ (Z.of_nat k) (len log - Z.of_nat k) →
  (k ≤ length log)%nat →
  read_alternate t k q results =
    Ok (omap (λ i, if Nat.even i then Some (S i, printed (num_partitions (pq_config q)) log i) else None)
          (seq k (length log - k))).
Proof.
  intros Hq Hne. remember (length log - k)%nat as m eqn:Hm. revert k results Hm.
  induction m as [|m IH]; intros k results Hm Hr Hk.
  - replace (len log - Z.of_nat k) with 0 in Hr by (unfold len; lia). by destruct results.
  - rewrite seqZ_cons in Hr by (unfold len; lia). destruct results as [|r results]; [done|]. injection Hr as Hr0 Hr.
    replace (Z.succ (Z.of_nat k)) with (Z.of_nat (S k)) in Hr by lia.
    replace (Z.pred (len log - Z.of_nat k)) with (len log - Z.of_nat (S k)) in Hr by lia.
    cbn [read_alternate seq omap list_omap]. rewrite (IH (S k) results) by (done || lia).
    destruct (Nat.even k); [|done]. rewrite Hr0, (queue_read _ _ _ _ _ Hq) by lia. rewrite Nat2Z.id.
    unfold printed. destruct (lookup_lt_is_Some_2 log k) as [d Hd]; [lia|]. rewrite Hd. cbv zeta.
    rewrite (drop_S log d k Hd).
    assert (0 < len (partition_content (num_partitions (pq_config q)) (route (num_partitions (pq_config q)) d) (d :: drop (S k) log))) as Hpos.
    { unfold partition_content. rewrite filter_cons, decide_True by done. cbn [concat]. rewrite len_app.
      pose proof (Forall_lookup_1 _ _ _ _ Hne Hd) as Hd'. destruct d as [|b d]; [done|]. rewrite len_cons.
      pose proof (len_nonneg d). pose proof (len_nonneg (concat (filter (λ d0, route (num_partitions (pq_config q)) d0 = route (num_partitions (pq_config q)) (b :: d)) (drop (S k) log)))). lia. }
    rewrite (proj2 (Z.leb_gt _ _)) by lia. done.
Qed.

(** The queue demonstration runs through, and what it prints for every
    second record is that record followed by all later ones of the same
    partition. *)
Lemma queue_demo_prints_suffixes fuel ta tr q :
  PersistQ_new demo_queue_config = Ok q → (∀ path mm, os_flush path mm = Ok tt) →
  ∃ demo, run_persistq_demo (S fuel) ta tr = Some (Ok demo) ∧
    map ar_global_offset (qd_appends demo) = seqZ 0 8 ∧
    qd_reads demo = map (λ i, (S i, printed 4 test_records i)) [0; 2; 4; 6]%nat ∧
    ps_total_records (qd_stats demo) = 8.
Proof.
  intros Hnew Hflush. unfold run_persistq_demo. rewrite Hnew.
  assert (in_range 32 (num_partitions demo_queue_config)) as H32 by (unfold in_range; cbn; lia).
  assert (in_range 32 (replication_factor demo_queue_config)) as H32' by (unfold in_range; cbn; lia).
  destruct (queue_new_repr demo_queue_config q H32 H32' Hnew) as (Hq & Hn & Hs).
  change (num_partitions demo_queue_config) with 4 in Hn. change (segment_size demo_queue_config) with 1048576 in Hs.
  destruct (append_records_ok test_records fuel ta 0 q [] [] Hq) as (q' & rs & Ha & Hrs & Hq' & Hc);
    [by vm_compute|rewrite Hs; by vm_compute|].
  rewrite Ha. cbn [mbind option_bind outcome_bind app] in *.
  assert (Forall (λ d, d ≠ []) test_records) as Hne by (repeat constructor; discriminate).
  rewrite (read_alternate_ok tr q' test_records 0 rs Hq' Hne Hrs) by apply Nat.le_0_l.
  cbn [mbind outcome_bind]. rewrite (shutdown_ok q' Hflush). cbn [mbind outcome_bind].
  eexists. split; [done|]. cbn [qd_appends qd_reads qd_stats].
  split; [exact Hrs|]. split; [by rewrite Hc, Hn|]. cbn [PersistQ_stats ps_total_records].
  rewrite (qr_global _ _ Hq'). reflexivity.
Qed.

(** The large-scale mode always ends in an error. *)
Lemma large_mode_fails fuel ta tv tr append_ms verification_ms read_ms q :
  PersistQ_new large_config = Ok q →
  run_large_scale_test (S fuel) ta tv tr append_ms verification_ms read_ms = Some (Err "Data verification failed").
Proof.
  intros Hq. unfold run_large_scale_test, test_10m_random_numbers.
  by rewrite (large_scale_test_result fuel 10000000 ta tv tr append_ms verification_ms read_ms q Hq) by lia.
Qed.
End properties.

(** ** A concrete run, where every mapping is granted *)
Lemma demo_queue_opens : ∃ q, PersistQ_new demo_queue_config = Ok q.
Proof. apply (queue_opens demo_queue_config "/tmp/persistq_demo"); done. Qed.

Lemma queue_demo_prints_suffixes_witness :
  ∃ demo, run_persistq_demo 1 ticks ticks = Some (Ok demo) ∧
    qd_reads demo = [(1%nat, "Hello, persistQ!Distributed queues are powerful");
      (3%nat, "DOLDA architecture rocks!High-performance storageMulti-level caching");
      (5%nat, "High-performance storageMulti-level caching"); (7%nat, "Segment-based persistence")]%string.
Proof.
  destruct demo_queue_opens as [q Hq].
  destruct (queue_demo_prints_suffixes 0 ticks ticks q Hq) as (demo & Hd & _ & Hr & _); [intros path mm; reflexivity|].
  exists demo. split; [exact Hd|]. rewrite Hr. vm_compute. reflexivity.
Defined.
