(* ===== verification/ProcessorClients.v ===== *)
(** * Processors as clients of the mailbox system (src/src/mailbox_processor.rs)

    A tick of a processor's task receives a message through the task's handle
    and may send others: it is a client program.  [tick_is_client] says that the
    manager's own tick does the same; so programs whose tasks are polled at any
    time see the table of message logs of [MailboxClients].  With it, the
    [mod tests] of the module. *)

From stdpp Require Import base list numbers strings gmap pretty.
From S2P Require Import Prelude Crc32 F64 StorageEngine PersistQueue ByteQueue Mailboxes MailboxClients MailboxTests MailboxProcessor Utf8.
Local Open Scope Z_scope.
Local Open Scope client_scope.

(** ** Definitions *)

(** *** Tasks *)
Section tasks.
Context {S : Type}.

(** The task of a registered processor: its address, its handle, and what its
    processor does with a message, with a state that the processors share. *)
Record task := mkTask { tk_address : string; tk_handle : handle; tk_act : S → Message → client S }.

(** One poll; errors are only logged.
    Source: src/src/mailbox_processor.rs:286-297 (ProcessorManager::process_messages) *)
Definition tick (t : task) (s : S) : client S :=
  r <-- CallReceive (tk_handle t);
  match r with
  | Ok (Some msg) => tk_act t s msg
  | _ => Done s
  end.

(** The polls of tasks, given by their places, while a program waits. *)
Fixpoint polled (tasks : list task) (polls : list nat) (s : S) : client S :=
  match polls with
  | [] => Done s
  | i :: polls =>
      match tasks !! i with
      | Some t => then_ (tick t s) (polled tasks polls)
      | None => polled tasks polls s
      end
  end.

(** [ctx.send_to(to, body)] from a processor at [address], whose errors end a
    poll.
    Source: src/src/mailbox_processor.rs:91-102 (ProcessorContext::send_to) *)
Definition answer (address to : string) (body : bytes) (s : S) : client S :=
  r <-- CallGet address;
  match r with
  | Ok (Some h) => _ <-- CallSend h to body; Done s
  | _ => Done s
  end.

(** Source: src/src/mailbox_processor.rs:360-363 (EchoProcessor::process) *)
Definition echo_act (address : string) (s : S) (msg : Message) : client S :=
  answer address (as_str (msg_from msg)) (msg_body msg) s.

(** The task gets a handle of its own; [init] does nothing here.
    Source: src/src/mailbox_processor.rs:203-284 (ProcessorManager::register_processor) *)
Definition register {B} (address : string) (act : S → Message → client S)
    (k : task → client (outcome MailboxError B)) : client (outcome MailboxError B) :=
  r <-- CallGet address;
  match r with
  | Ok (Some h) => k (mkTask address h act)
  | Ok None => Done (Err (MailboxNotFound address))
  | Err e => Done (Err e)
  | Panic => Done Panic
  end.
End tasks.
Arguments task S : clear implicits.

(** Processors that answer each message with one, registered in order, then
    polled. *)
Record service := mkService { sv_address : string; sv_dest : Message → string; sv_body : Message → bytes }.
Definition serves (v : service) (s : unit) (msg : Message) : client unit := answer (sv_address v) (sv_dest v msg) (sv_body v msg) s.
Fixpoint serve (services : list service) (tasks : list (task unit)) (polls : list nat) : client (outcome MailboxError unit) :=
  match services with
  | [] => then_ (polled tasks polls tt) (λ _, Done (Ok tt))
  | v :: services => register (sv_address v) (serves v) (λ t, serve services (tasks ++ [t]) polls)
  end.

(** *** The tests; [polls i] are the polls while the test waits the [i]-th time. *)
Section tests.
Context (polls : nat → list nat).

(** [register_processor(..).await.unwrap()]. *)
Definition must_register {S B} (address : string) (act : S → Message → client S) (k : task S → client (outcome MailboxError B))
    : client (outcome MailboxError B) :=
  then_ (register address act (λ t, Done (Ok t))) (λ r, match r with Ok t => k t | _ => Done Panic end).

(** The processor keeps the texts it is given.
    Source: src/src/mailbox_processor.rs:502-506 (tests::TestProcessor::process) *)
Definition test_processor_act (processed : list string) (msg : Message) : client (list string) :=
  Done (processed ++ [from_utf8_lossy (msg_body msg)]).

(** Source: src/src/mailbox_processor.rs:509-542 (tests::test_processor_registration) *)
Definition test_processor_registration : test :=
  mailbox <-! CallCreate "test@dolda";
  must_register "test@dolda" test_processor_act (λ task,
  then_ (polled [task] (polls 0%nat) []) (λ processed,
  _ <-! CallSend mailbox "test@dolda" (str_bytes "hello");
  then_ (polled [task] (polls 1%nat) processed) (λ processed,
  assert_ (bool_decide (processed = ["hello"%string])) passed))).

(** Source: src/src/mailbox_processor.rs:544-575 (tests::test_echo_processor) *)
Definition test_echo_processor : test :=
  mailbox <-! CallCreate "echo@dolda";
  sender <-! CallCreate "sender@dolda";
  must_register "echo@dolda" (echo_act "echo@dolda") (λ task,
  then_ (polled [task] (polls 0%nat) tt) (λ _,
  _ <-! CallSend sender "echo@dolda" (str_bytes "test");
  then_ (polled [task] (polls 1%nat) tt) (λ _,
  msg <-! CallReceive sender;
  match msg with
  | Some msg => assert_ (body_is msg "test") passed
  | None => passed
  end))).
End tests.

(** ** A tick of the manager is the client's *)
Section tick.
Context `{ByteQueue} `{MessageCodec} `{Os}.
Context {S : Type} (fuel : nat) (ids : nat → string) (clock : nat → Z).
Abbreviation run_tick := (run fuel ids clock).

(** What the processors of a manager see of a world. *)
Definition shared (w : World) : Shared := mkShared (w_sys w) (w_count w).

Lemma run_then {A B} (c : client A) (k : A → client B) w :
  run_tick (then_ c k) w = '(w, a) ← run_tick c w; run_tick (k a) w.
Proof.
  revert w. induction c as [a|R o j IH]; intros w; [done|]. cbn [then_ run].
  destruct (run_call _ _ _ o w) as [[w1 r]|]; [|done]. cbn. apply IH.
Qed.

(** [ctx.send_to] is [answer]; the handles that were there stay. *)
Lemma answer_sends ctx a to body (s : S) w w' s' :
  ctx_address ctx = mkAddress a → run_tick (answer a to body s) w = Some (w', s') →
  (∃ r, ctx_send_to (Datatypes.S fuel) ids clock ctx to body (shared w) = Some (shared w', r)) ∧ s' = s ∧
  ∃ more, w_handles w' = w_handles w ++ more.
Proof.
  intros Hctx. unfold answer, ctx_send_to, shared. rewrite Hctx. cbn [as_str call_ then_ run run_call sh_system sh_made].
  destruct (get_mailbox (w_sys w) a) as [[mb|]|e|]; cbn [mbind option_bind run then_].
  - cbn [run_call]. assert (the_handle (new_handle w (w_sys w) mb) (length (w_handles w)) = mb) as ->.
    { unfold the_handle. cbn [new_handle w_handles]. by rewrite list_lookup_middle. }
    cbn [w_sys w_count new_handle]. destruct (send_to _ _ _ _ _ _ _) as [[sys r]|]; [|done]. cbn.
    intros [= <- <-]. split; [by eexists|]. split; [done|]. by exists [mb].
  - intros [= <- <-]. split; [by eexists|]. split; [done|]. exists []. by rewrite app_nil_r.
  - intros [= <- <-]. split; [by eexists|]. split; [done|]. exists []. by rewrite app_nil_r.
  - intros [= <- <-]. split; [by eexists|]. split; [done|]. exists []. by rewrite app_nil_r.
Qed.

(** The entry of a task: its mailbox is the task's handle. *)
Record runs (m : ProcessorManager) (w : World) (t : task S) (entry : ProcessorEntry) : Prop := {
  rn_entry : processors m !! tk_address t = Some entry;
  rn_shared : pm_shared m = shared w;
  rn_handle : w_handles w !! tk_handle t = Some (pe_mailbox entry)
}.

(** A processor does what its task does. *)
Definition enacts (p : Processor) (ctx : ProcessorContext) (act : S → Message → client S) (s : S) : Prop :=
  ∀ msg w w' s', run_tick (act s msg) w = Some (w', s') →
    (∃ r, process p ctx msg (shared w) = Some (shared w', r)) ∧ ∃ more, w_handles w' = w_handles w ++ more.

Definition entry_at (entry : ProcessorEntry) (mb : Mailbox) : ProcessorEntry :=
  mkEntry (pe_processor entry) (pe_config entry) mb (pe_context entry).

Lemma tick_runs m w t s w' s' entry :
  runs m w t entry → enacts (pe_processor entry) (pe_context entry) (tk_act t) s → run_tick (tick t s) w = Some (w', s') →
  ∃ mb more, task_tick m (tk_address t) =
      Some (mkProcessorManager (<[tk_address t := entry_at entry mb]> (processors m)) (shared w')) ∧
    w_handles w' = <[tk_handle t := mb]> (w_handles w) ++ more.
Proof.
  intros [He Hsys Hh] Hact Hrun. unfold task_tick, process_messages. rewrite He, Hsys.
  unfold tick in Hrun. cbn [call_ then_ run run_call] in Hrun. unfold the_queue, the_handle in Hrun. rewrite Hh in Hrun. cbn in Hrun.
  cbn [shared sh_system]. destruct (mailboxes (w_sys w) !! as_str (mb_address (pe_mailbox entry))) as [q|]; [|done]. cbn in Hrun.
  destruct (receive q (pe_mailbox entry)) as [mb r]. exists mb.
  destruct r as [[msg|]|e|]; cbn in Hrun; [|injection Hrun as <- <-; exists []; by rewrite app_nil_r..].
  destruct (Hact msg _ _ _ Hrun) as [[r Hp] [more Hmore]]. unfold shared at 1 in Hp. cbn [w_sys w_count w_handles] in Hp, Hmore.
  fold (shared w) in Hp. rewrite Hp. by exists more.
Qed.

(** The tasks of a manager, each with the processor that enacts it. *)
Definition all_run (m : ProcessorManager) (w : World) (tasks : list (task S)) (s : S) : Prop :=
  pm_shared m = shared w ∧
  Forall (λ t, ∃ entry, runs m w t entry ∧ enacts (pe_processor entry) (pe_context entry) (tk_act t) s) tasks.

(** Polls of the manager's tasks. *)
Fixpoint manager_polls (addresses : list string) (polls : list nat) (m : ProcessorManager) : option ProcessorManager :=
  match polls with
  | [] => Some m
  | i :: polls =>
      m ← match addresses !! i with Some a => task_tick m a | None => Some m end;
      manager_polls addresses polls m
  end.

Lemma tick_keeps m w t s w' s' entry tasks :
  runs m w t entry → enacts (pe_processor entry) (pe_context entry) (tk_act t) s → run_tick (tick t s) w = Some (w', s') →
  all_run m w tasks s → Forall (λ u, tk_address u = tk_address t ↔ tk_handle u = tk_handle t) tasks →
  ∃ m', task_tick m (tk_address t) = Some m' ∧ all_run m' w' tasks s.
Proof.
  intros Hr Hact Hrun [_ Hall] Hsep. destruct (tick_runs m w t s w' s' entry Hr Hact Hrun) as (mb & more & Ht & Hh).
  eexists. split; [exact Ht|]. split; [done|].
  eapply Forall_impl; [apply Forall_and; split; [exact Hall|exact Hsep]|].
  intros u [(e & [He _ Hue] & Hen) Hu]. destruct Hr as [Hte _ Hth]. pose proof (lookup_lt_Some _ _ _ Hth) as Hlt.
  destruct (decide (tk_address u = tk_address t)) as [Ha|Ha].
  - exists (entry_at entry mb). pose proof (proj1 Hu Ha) as Hhh. rewrite Ha in He. rewrite He in Hte. injection Hte as ->.
    split; [|exact Hen]. split; cbn [processors]; [rewrite Ha; apply lookup_insert_eq|done|].
    rewrite Hhh, Hh. apply lookup_app_l_Some. by apply list_lookup_insert_eq.
  - exists e. split; [|exact Hen]. split; cbn [processors]; [by rewrite lookup_insert_ne|done|].
    rewrite Hh. apply lookup_app_l_Some. rewrite list_lookup_insert_ne; [done|]. intros Heq. apply Ha, Hu. done.
Qed.

Lemma polls_run polls tasks m w s w' s' :
  all_run m w tasks s → (∀ t u, t ∈ tasks → u ∈ tasks → tk_address u = tk_address t ↔ tk_handle u = tk_handle t) →
  (∀ t msg w w' s', t ∈ tasks → run_tick (tk_act t s msg) w = Some (w', s') → s' = s) →
  run_tick (polled tasks polls s) w = Some (w', s') →
  ∃ m', manager_polls (map tk_address tasks) polls m = Some m' ∧ pm_shared m' = shared w'.
Proof.
  intros Hall Hsep Hs. revert m w Hall. induction polls as [|i polls IH]; intros m w Hall Hrun.
  - injection Hrun as <- _. exists m. split; [done|]. apply Hall.
  - cbn [polled] in Hrun. cbn [manager_polls]. rewrite list_lookup_fmap. destruct (tasks !! i) as [t|] eqn:Hi.
    + cbn [fmap option_fmap option_map]. rewrite run_then in Hrun. destruct (run_tick (tick t s) w) as [[w1 s1]|] eqn:Ht; [|done]. cbn in Hrun.
      assert (t ∈ tasks) as Hin by (by eapply list_elem_of_lookup_2).
      assert (s1 = s) as ->.
      { unfold tick in Ht. cbn [call_ then_ run] in Ht. destruct (run_call _ _ _ _ w) as [[w0 [[msg|]|e|]]|]; cbn in Ht; [|by injection Ht as <- <-..|done].
        by eapply Hs. }
      destruct (proj1 (Forall_forall _ _) (proj2 Hall) t Hin) as (entry & Hr & Hact).
      destruct (tick_keeps m w t s w1 s entry tasks Hr Hact Ht Hall) as (m1 & Hm1 & Hall1).
      { apply Forall_forall. intros u Hu. by apply Hsep. }
      rewrite Hm1. cbn [mbind option_bind]. by eapply IH.
    + cbn. by eapply IH.
Qed.

(** The processors that answer each message with one. *)
Lemma forwards_enacts p ctx a dest f (s : S) :
  forwards (Datatypes.S fuel) ids clock p dest f → ctx_address ctx = mkAddress a →
  enacts p ctx (λ s msg, answer a (dest msg) (f msg) s) s.
Proof.
  intros Hf Hctx msg w w' s' Hrun. rewrite Hf. destruct (answer_sends ctx a _ _ s w w' s' Hctx Hrun) as (Hr & _ & Hmore). done.
Qed.

(** The manager registers the processors of services. *)
Fixpoint register_all (l : list (string * Processor)) (m : ProcessorManager) : option (ProcessorManager * outcome ProcessorError unit) :=
  match l with
  | [] => Some (m, Ok tt)
  | (a, p) :: l =>
      '(m, r) ← register_processor m a p ProcessorConfig_default;
      match r with Ok _ => register_all l m | _ => Some (m, r) end
  end.
End tick.

(** ** Registering and polling *)
Section registering.
Context `{ByteQueue} `{MessageCodec} `{Os}.
Context (fuel : nat) (ids : nat → string) (clock : nat → Z).
Abbreviation run_serve := (run fuel ids clock).

(** A processor that gives a service and needs no preparation. *)
Definition provides (v : service) (ap : string * Processor) : Prop :=
  ap.1 = sv_address v ∧ forwards (Datatypes.S fuel) ids clock ap.2 (sv_dest v) (sv_body v) ∧ ∀ ctx, init ap.2 ctx = ok tt.

Definition separate (tasks : list (task unit)) : Prop :=
  ∀ t u, t ∈ tasks → u ∈ tasks → tk_address u = tk_address t ↔ tk_handle u = tk_handle t.

Lemma register_runs m w tasks v p k w' r :
  all_run fuel ids clock m w tasks tt → separate tasks → sv_address v ∉ map tk_address tasks → provides v (sv_address v, p) →
  run_serve (register (B:=unit) (sv_address v) (serves v) k) w = Some (w', Ok r) →
  ∃ m1 w1, register_processor m (sv_address v) p ProcessorConfig_default = Some (m1, Ok tt) ∧
    let t := mkTask (sv_address v) (length (w_handles w)) (serves v) in
    all_run fuel ids clock m1 w1 (tasks ++ [t]) tt ∧ separate (tasks ++ [t]) ∧ run_serve (k t) w1 = Some (w', Ok r).
Proof.
  intros [Hsys Hall] Hsep Hnew (_ & Hf & Hinit) Hrun. cbn [fst snd] in *. rewrite Forall_forall in Hall.
  unfold register in Hrun. cbn [call_ then_ run run_call] in Hrun. unfold register_processor, pm_system. rewrite Hsys. cbn [shared sh_system].
  assert (MailboxAddress_new (sv_address v) = Ok (mkAddress (sv_address v)) ∨ is_ok (get_mailbox (w_sys w) (sv_address v)) = false) as [->|He].
  { unfold get_mailbox, MailboxAddress_new. destruct (String.eqb _ _); [by right|by left]. }
  2: { destruct (get_mailbox _ _) as [[mb|]|e|]; done. }
  destruct (get_mailbox (w_sys w) (sv_address v)) as [[mb|]|e|]; [|done..]. cbn in Hrun. rewrite Hinit. cbn.
  do 2 eexists. split; [done|]. cbn zeta. split; [|split; [|exact Hrun]].
  - split; [done|]. apply Forall_app_2; [|apply Forall_cons_2; [|apply Forall_nil_2]].
    + apply Forall_forall. intros u Hu. destruct (Hall u Hu) as (e & [He _ Hue] & Hen). exists e. split; [|exact Hen].
      assert (sv_address v ≠ tk_address u) as Hne by (intros Heq; apply Hnew; rewrite Heq; by apply list_elem_of_fmap_2).
      split; cbn; [by rewrite lookup_insert_ne|done|]. by apply lookup_app_l_Some.
    + eexists. split; [split; cbn; [apply lookup_insert_eq|done|apply list_lookup_middle; done]|]. by apply forwards_enacts.
  - assert (∀ u, u ∈ tasks → tk_address u ≠ sv_address v ∧ tk_handle u ≠ length (w_handles w)) as Hold.
    { intros u Hu. destruct (Hall u Hu) as (e & [_ _ Hue] & _). apply lookup_lt_Some in Hue. split; [|lia].
      intros Heq. apply Hnew. rewrite <- Heq. by apply list_elem_of_fmap_2. }
    intros t u Ht Hu. rewrite elem_of_app, list_elem_of_singleton in Ht, Hu.
    destruct Ht as [Ht| ->], Hu as [Hu| ->]; cbn; [by apply Hsep|..|done].
    + destruct (Hold t Ht). split; congruence.
    + destruct (Hold u Hu). split; congruence.
Qed.

Lemma serve_runs services ps polls m w tasks w' :
  all_run fuel ids clock m w tasks tt → separate tasks → Forall2 provides services ps →
  NoDup (map tk_address tasks ++ map sv_address services) →
  run_serve (serve services tasks polls) w = Some (w', Ok tt) →
  ∃ m1 m', register_all ps m = Some (m1, Ok tt) ∧
    manager_polls (map tk_address tasks ++ map sv_address services) polls m1 = Some m' ∧ pm_shared m' = shared w'.
Proof.
  intros Hall Hsep Hps. revert m w tasks Hall Hsep.
  induction Hps as [|v [a p] services ps Hv _ IH]; intros m w tasks Hall Hsep Hnd Hrun.
  - cbn [serve] in Hrun. rewrite run_then in Hrun. destruct (run_serve (polled tasks polls tt) w) as [[w1 []]|] eqn:Hp; [|done].
    cbn in Hrun. injection Hrun as ->. rewrite app_nil_r.
    destruct (polls_run fuel ids clock polls tasks m w tt w' tt Hall Hsep ltac:(by intros ? ? ? ? []) Hp) as (m' & Hm' & Hsys).
    by exists m, m'.
  - pose proof Hv as [Ha _]. cbn in Ha. subst a. cbn [map] in Hnd.
    assert (sv_address v ∉ map tk_address tasks) as Hnew.
    { apply NoDup_app in Hnd as (_ & Hnd & _). intros Hin. apply (Hnd _ Hin). left. }
    destruct (register_runs m w tasks v p _ w' tt Hall Hsep Hnew Hv Hrun) as (m1 & w1 & Hr & Hall1 & Hsep1 & Hrun1).
    cbn [register_all]. rewrite Hr. cbn [mbind option_bind].
    destruct (IH m1 w1 _ Hall1 Hsep1) as (m2 & m' & Hreg & Hpoll & Hsys); [|exact Hrun1|].
    { rewrite map_app, <- app_assoc. exact Hnd. }
    exists m2, m'. rewrite map_app, <- app_assoc in Hpoll. done.
Qed.
End registering.

(** ** Polls of idle tasks *)
Section spec_polls.
Context `{MessageCodec} (usable : string → bool) (ids : nat → string) (clock : nat → Z).
Abbreviation spec := (spec_run usable ids clock).

Lemma spec_run_then {A B} (c : client A) (k : A → client B) t :
  spec (then_ c k) t = '(t, a) ← spec c t; spec (k a) t.
Proof.
  revert t. induction c as [a|R o j IH]; intros t; [done|]. cbn [then_ spec_run].
  destruct (spec_call _ _ _ o t) as [[t1 r]|]; [|done]. cbn. apply IH.
Qed.

(** A task whose handle has nothing waiting. *)
Definition idle {S} (t : Table) (u : task S) : Prop :=
  ∃ a i box, t_handles t !! tk_handle u = Some (a, i) ∧ assoc a (t_boxes t) = Some box ∧ drop i box = [].

Lemma idle_tick {S} t (u : task S) s : idle t u → spec (tick u s) t = Some (t, s).
Proof.
  intros (a & i & box & Hh & Hb & Hd). unfold tick. cbn [call_ then_ spec_run spec_call]. rewrite Hh. cbn [mbind option_bind].
  rewrite Hb. cbn [mbind option_bind]. rewrite Hd, bool_decide_eq_true_2, list_insert_id by done. cbn. by destruct t.
Qed.

Lemma idle_polls {S} t (tasks : list (task S)) polls s :
  Forall (idle t) tasks → spec (polled tasks polls s) t = Some (t, s).
Proof.
  intros Hi. induction polls as [|i polls IH]; [done|]. cbn [polled]. destruct (tasks !! i) as [u|] eqn:Hu; [|exact IH].
  rewrite spec_run_then, idle_tick by (by eapply Forall_lookup_1). exact IH.
Qed.

(** One task whose first tick leaves it idle. *)
Lemma polled_once {S} t t' (u : task S) polls s s' :
  spec (tick u s) t = Some (t', s') → idle t' u →
  spec (polled [u] polls s) t = if decide (0%nat ∈ polls) then Some (t', s') else Some (t, s).
Proof.
  intros Ht Hi. induction polls as [|i polls IH]; [done|]. cbn [polled]. destruct i as [|i].
  - cbn [lookup list_lookup]. rewrite spec_run_then, Ht. cbn [mbind option_bind]. rewrite decide_True by (by left). apply idle_polls. by repeat constructor.
  - transitivity (spec (polled [u] polls s) t); [done|]. rewrite IH.
    assert (0%nat ∈ Datatypes.S i :: polls ↔ 0%nat ∈ polls) as Hin by (rewrite elem_of_cons; naive_solver).
    destruct (decide (0%nat ∈ polls)); [by rewrite decide_True by tauto|by rewrite decide_False by tauto].
Qed.
End spec_polls.

(** ** Properties *)
Section properties.
Context `{ByteQueueOk} `{MessageCodecOk} `{Os}.

(** C12. The processors of a manager see mailboxes as any client does: after a
    program has set up mailboxes and sent what it wants, processors that answer
    each message with one are registered in order on mailboxes of their own and
    their tasks are polled in any order, any number of times.  The messages of the
    program and of the processors carry the ids [ids 0], [ids 1], ... and the times
    [clock 0], [clock 1], ... in the order in which they are made, whatever these
    are.  When the table of message logs has a run of all that, every registration succeeds, the polls
    go through, and every mailbox ends up with the messages in its log. *)
Theorem polls_see_message_logs usable fuel ids clock (setup : client unit) services ps polls sys t :
  mailboxes sys = ∅ → opens usable sys → roomy →
  NoDup (map sv_address services) → Forall2 (provides fuel ids clock) services ps →
  spec_run usable ids clock (then_ setup (λ _, serve services [] polls)) (mkTable [] [] [] 0 []) = Some (t, Ok tt) →
  Forall (λ m, sendable m = true) (t_sent t) →
  ∃ w m m', run fuel ids clock setup (mkWorld sys [] 0 []) = Some (w, tt) ∧
    register_all ps (ProcessorManager_new (shared w)) = Some (m, Ok tt) ∧
    manager_polls (map sv_address services) polls m = Some m' ∧
    ∀ address box, assoc address (t_boxes t) = Some box →
      ∃ q, mailboxes (pm_system m') !! address = Some q ∧ box_repr q box.
Proof.
  intros Hs Ho Hroom Hnd Hps Hrun Hsent.
  destruct (client_run_refines usable fuel _ _ _ _ _ t _ Hroom (fresh_world_repr usable sys Hs Ho) Hrun Hsent) as (w' & Hw & Hrepr).
  rewrite run_then in Hw. destruct (run fuel _ _ setup _) as [[w []]|] eqn:Hsetup; [|done]. cbn in Hw.
  destruct (serve_runs fuel ids clock services ps polls (ProcessorManager_new (shared w)) w [] w') as (m & m' & Hreg & Hpoll & Hsys).
  - by split.
  - intros u v Hu. by apply elem_of_nil in Hu.
  - done.
  - exact Hnd.
  - exact Hw.
  - exists w, m, m'. split_and!; [done..|]. intros address box Hbox. unfold pm_system. rewrite Hsys. by eapply box_lookup.
Qed.
End properties.

(** *** The tests *)
Section verdicts.
Context `{MessageCodec}.
Context (ids : nat → string) (clock : nat → Z) (polls : nat → list nat).

Definition processor_test_address (a : string) : bool :=
  String.eqb a "test@dolda" || String.eqb a "echo@dolda" || String.eqb a "sender@dolda".
Abbreviation outcome_of := (λ c : test, '(t, r) ← spec_run processor_test_address ids clock c (mkTable [] [] [] 0 []); Some (t_sent t, r)).

Ltac no_polls := rewrite spec_run_then, idle_polls by (repeat constructor; do 3 eexists; split_and!; reflexivity); cbn [mbind option_bind].

(** What the tests send; the echo is sent when the task is polled. *)
Definition hello : Message := test_message ids clock 0 "test@dolda" "test@dolda" "hello".
Definition asked : Message := test_message ids clock 0 "sender@dolda" "echo@dolda" "test".
Definition echoed : Message := test_message ids clock 1 "echo@dolda" "sender@dolda" "test".

Lemma registration_outcome :
  outcome_of (test_processor_registration polls) =
    Some ([hello], if decide (0%nat ∈ polls 1%nat) then Ok tt else Panic).
Proof.
  unfold test_processor_registration, must_register, register. client_run. no_polls. client_run.
  rewrite spec_run_then. erewrite polled_once; [|vm_compute; reflexivity|do 3 eexists; split_and!; vm_compute; reflexivity].
  destruct (decide _); reflexivity.
Qed.

Lemma echo_outcome :
  outcome_of (test_echo_processor polls) =
    Some (if decide (0%nat ∈ polls 1%nat) then [asked; echoed] else [asked],
          if decide (0%nat ∈ polls 1%nat) then Ok tt else Panic).
Proof.
  unfold test_echo_processor, must_register, register. client_run. no_polls. client_run.
  rewrite spec_run_then. erewrite polled_once; [|vm_compute; reflexivity|do 3 eexists; split_and!; vm_compute; reflexivity].
  destruct (decide _); reflexivity.
Qed.
End verdicts.

Section tests_property.
Context `{ByteQueueOk} `{MessageCodecOk} `{Os}.

(** The module's tests of registered processors: whatever the ids, the
    times and the polls, each passes exactly when the processor's task is polled
    at least once while the test sleeps after sending.  A task that is not polled in time fails
    the first at its assertion and the second at the [unwrap] of a [receive] that
    finds nothing, although it means to allow for that. *)
Lemma processor_tests_verdicts ids clock polls sys :
  mailboxes sys = ∅ → opens processor_test_address sys → roomy →
  Forall (λ m, sendable m = true) [hello ids clock; asked ids clock; echoed ids clock] →
  Forall (λ c, verdict ids clock sys c = Some (if decide (0%nat ∈ polls 1%nat) then Ok tt else Panic))
    [test_processor_registration polls; test_echo_processor polls].
Proof.
  rewrite !Forall_cons. intros Hs Ho Hroom (Hh & Ha & He & _).
  assert (∀ c sent r, Forall (λ m, sendable m = true) sent →
    ('(t, r) ← spec_run processor_test_address ids clock c (mkTable [] [] [] 0 []); Some (t_sent t, r)) = Some (sent, r) →
    verdict ids clock sys c = Some r) as Hv.
  { intros c sent r Hsent Hrun. unfold verdict. destruct (spec_run _ _ _ c _) as [[t a]|] eqn:Hr; [|done]. cbn in Hrun. injection Hrun as <- <-.
    destruct (client_run_refines processor_test_address 0 ids clock c _ _ t a Hroom (fresh_world_repr _ sys Hs Ho) Hr Hsent) as (w & -> & _). done. }
  split_and!; [| |done].
  - eapply Hv; [|apply registration_outcome]. by repeat constructor.
  - eapply Hv; [|apply echo_outcome]. destruct (decide _); by repeat constructor.
Qed.
End tests_property.

(** ** Concrete runs *)
#[local] Existing Instances digit_codec digit_codec_ok persistq_queue mailbox_queues.

Definition echo_sends : client unit := (
  echo <-- CallCreate "echo@dolda";
  sender <-- CallCreate "sender@dolda";
  match sender with
  | Ok h => _ <-- CallSend h "echo@dolda" (str_bytes "7"); Done tt
  | _ => Done tt
  end)%client.
Definition echo_service : service := mkService "echo@dolda" (λ m, as_str (msg_from m)) msg_body.

Lemma processor_test_opens : mailboxes new_system = ∅ ∧ opens processor_test_address new_system.
Proof.
  apply new_system_opens. intros a Ha. unfold processor_test_address in Ha. rewrite !orb_true_iff in Ha.
  destruct Ha as [[Ha|Ha]|Ha]; apply String.eqb_eq in Ha as ->; vm_compute; reflexivity.
Qed.

(** The echo is in the sender's mailbox after two polls. *)
Lemma polls_see_message_logs_witness :
  ∃ m' q, mailboxes (pm_system m') !! "sender@dolda"%string = Some q ∧
    box_repr q [Message_new "id1" 1 (mkAddress "echo@dolda") (mkAddress "sender@dolda") (str_bytes "7")].
Proof.
  destruct processor_test_opens as [He Ho].
  destruct (polls_see_message_logs processor_test_address 0 numbered Z.of_nat echo_sends [echo_service]
    [("echo@dolda"%string, EchoProcessor 1 numbered Z.of_nat)] [0; 0]%nat new_system
    (from_ok (mkTable [] [] [] 0 []) (ok_or (fst <$> spec_run processor_test_address numbered Z.of_nat
       (then_ echo_sends (λ _, serve [echo_service] [] [0; 0]%nat)) (mkTable [] [] [] 0 [])) tt)) He Ho persistq_roomy)
    as (w & m & m' & _ & _ & _ & Hboxes).
  - apply NoDup_singleton.
  - apply Forall2_cons_2; [|apply Forall2_nil_2]. by split_and!.
  - vm_compute. reflexivity.
  - repeat constructor.
  - destruct (Hboxes "sender@dolda"%string [Message_new "id1" 1 (mkAddress "echo@dolda") (mkAddress "sender@dolda") (str_bytes "7")])
      as (q & Hq & Hbox); [vm_compute; reflexivity|]. by exists m', q.
Defined.

Lemma processor_tests_verdicts_witness :
  verdict numbered Z.of_nat new_system (test_echo_processor (λ _, [0; 0]%nat)) = Some (Ok tt) ∧
  verdict numbered Z.of_nat new_system (test_echo_processor (λ _, [])) = Some Panic.
Proof.
  destruct processor_test_opens as [He Ho].
  assert (Forall (λ m, sendable m = true) [hello numbered Z.of_nat; asked numbered Z.of_nat; echoed numbered Z.of_nat]) as Hs by repeat constructor.
  split.
  - exact (Forall_inv (Forall_inv_tail (processor_tests_verdicts numbered Z.of_nat (λ _, [0; 0]%nat) new_system He Ho persistq_roomy Hs))).
  - exact (Forall_inv (Forall_inv_tail (processor_tests_verdicts numbered Z.of_nat (λ _, []) new_system He Ho persistq_roomy Hs))).
Defined.
