(* ===== verification/ProcessorExample.v ===== *)
(** * The processor example (src/examples/mailbox_processor_example.rs)

    The example's own processors (statistics, uppercase, router) and its numeric
    filter, registered on the mailbox it forwards to.  Unicode upper-casing and
    the numeric class are parameters; printing is left out. *)

From stdpp Require Import base list list_numbers numbers strings gmap pretty.
From Stdlib Require Import Strings.Byte.
From S2P Require Import Prelude Crc32 F64 StorageEngine PersistQueue ByteQueue Mailboxes MailboxProcessor Utf8.
Local Open Scope Z_scope.

(** ** Definitions *)

(** The Unicode tables of the standard library the example uses:
    [str::to_uppercase] and whether all characters of a string are numeric. *)
Class Unicode := { to_uppercase : string → string; all_numeric : string → bool }.

(** The counter after a message, and the summary it sends on every fifth.
    Source: src/examples/mailbox_processor_example.rs:38-49 (StatisticsProcessor::process, part) *)
Definition count_message (count : Z) : Z * option string :=
  let count := u64 (count + 1) in
  (count, if count `mod` 5 =? 0 then Some ("Processed " +:+ pretty count +:+ " messages") else None).

Section processors.
Context `{ByteQueue} `{MessageCodec} `{Os} `{Unicode}.
Context (fuel : nat) (ids : nat → string) (clock : nat → Z).

(** The counter is shared between the calls: it is passed along.
    Source: src/examples/mailbox_processor_example.rs:37-52 (StatisticsProcessor::process) *)
Definition StatisticsProcessor_process (count : Z) (ctx : ProcessorContext) (msg : Message) : Z * effect unit :=
  let '(count, summary) := count_message count in
  (count, match summary with
          | Some text => ctx_send_to fuel ids clock ctx "summary@dolda" (str_bytes text)
          | None => ok tt
          end).

(** Source: src/examples/mailbox_processor_example.rs:69-74 (UppercaseProcessor::process) *)
Definition UppercaseProcessor (output : string) : Processor :=
  mkProcessor (λ ctx msg,
      let text := from_utf8_lossy (msg_body msg) in
      ctx_send_to fuel ids clock ctx output (str_bytes (to_uppercase text)))
    (λ _, ok tt) (λ _, ok tt).

(** Where the router sends a message.
    Source: src/examples/mailbox_processor_example.rs:85-92 (RouterProcessor::process, part) *)
Definition route_text (text : string) : string :=
  if str_contains "urgent" text then "urgent@dolda"
  else if str_contains "info" text then "info@dolda"
  else "general@dolda".

(** Source: src/examples/mailbox_processor_example.rs:82-95 (RouterProcessor::process) *)
Definition RouterProcessor : Processor :=
  mkProcessor (λ ctx msg, ctx_send_to fuel ids clock ctx (route_text (from_utf8_lossy (msg_body msg))) (msg_body msg))
    (λ _, ok tt) (λ _, ok tt).

(** The filter that lets numbers through.
    Source: src/examples/mailbox_processor_example.rs:232-237 (main, part) *)
Definition numeric (msg : Message) : bool := all_numeric (from_utf8_lossy (msg_body msg)).
Definition numeric_filter : Processor := FilterProcessor fuel ids clock numeric "filtered@dolda".

Definition with_system (m : ProcessorManager) (sys : MailboxSystem) : ProcessorManager :=
  mkProcessorManager (processors m) (mkShared sys (sh_made (pm_shared m))).

(** The mailbox of the filter's output is created, and the filter is registered
    on it.
    Source: src/examples/mailbox_processor_example.rs:239-248 (main, part) *)
Definition register_filter (m : ProcessorManager) : option (ProcessorManager * outcome ProcessorError unit) :=
  match create_mailbox (pm_system m) "filtered@dolda" with
  | (sys, Ok _) => register_processor (with_system m sys) "filtered@dolda" numeric_filter ProcessorConfig_default
  | (sys, Err e) => Some (with_system m sys, Err (PeMailbox e))
  | (sys, Panic) => Some (with_system m sys, Panic)
  end.
End processors.

(** ** Properties *)

(** The summaries of the first [n] messages. *)
Fixpoint summaries (n : nat) (count : Z) : list string :=
  match n with
  | O => []
  | S n => let '(count, summary) := count_message count in
           match summary with Some text => text :: summaries n count | None => summaries n count end
  end.

(** A summary for each multiple of five among the counts. *)
Lemma summaries_multiples n count :
  0 ≤ count → count + Z.of_nat n < 2 ^ 64 →
  summaries n count = map (λ i, "Processed " +:+ pretty i +:+ " messages")
    (filter (λ i, i `mod` 5 = 0) (seqZ (count + 1) (Z.of_nat n))).
Proof.
  revert count. induction n as [|n IH]; intros count Hc Hb; [done|].
  rewrite seqZ_cons by lia. replace (Z.pred (Z.of_nat (S n))) with (Z.of_nat n) by lia.
  cbn [summaries]. unfold count_message. rewrite wrap_id by (unfold in_range; lia).
  rewrite filter_cons, IH by lia. replace (Z.succ (count + 1)) with (count + 1 + 1) by lia.
  destruct (decide _) as [He|Hne]; [by rewrite (proj2 (Z.eqb_eq _ _) He)|by rewrite (proj2 (Z.eqb_neq _ _) Hne)].
Qed.

Section properties.
Context `{ByteQueueOk} `{MessageCodecOk} `{Os} `{Unicode}.
Context (fuel : nat) (ids : nat → string) (clock : nat → Z).

(** The uppercase processor and the router answer each message with one. *)
Lemma uppercase_forwards output :
  forwards fuel ids clock (UppercaseProcessor fuel ids clock output) (λ _, output)
    (λ m, str_bytes (to_uppercase (from_utf8_lossy (msg_body m)))).
Proof. done. Qed.
Lemma router_forwards :
  forwards fuel ids clock (RouterProcessor fuel ids clock) (λ m, route_text (from_utf8_lossy (msg_body m))) msg_body.
Proof. done. Qed.

(** Ticks of one task in a row. *)
Fixpoint ticks (n : nat) (m : ProcessorManager) (a : string) : option ProcessorManager :=
  match n with O => Some m | S n => m ← task_tick m a; ticks n m a end.

(** A filter whose output is its own mailbox sends what it lets through back to
    itself. *)
Lemma self_tick pred m a q l msg :
  let p := FilterProcessor (S fuel) ids clock pred a in
  let n := sh_made (pm_shared m) in
  let again := Message_new (ids n) (clock n) (mkAddress a) (mkAddress a) (msg_body msg) in
  waiting m a p q l msg → pred msg = true → is_ok (json_to_vec again) = true → len l + 1 < 2 ^ 64 - 1 →
  (∀ bss bs, json_to_vec again = Ok bs → Forall2 (λ m bs, json_to_vec m = Ok bs) (l ++ [msg]) bss → bq_room bss bs) →
  ∃ m' q', task_tick m a = Some m' ∧ waiting m' a p q' (l ++ [msg]) again ∧ sh_made (pm_shared m') = S n.
Proof.
  intros p n again Hw Hpred Hj Hlen Hroom. destruct (json_to_vec again) as [bs| |] eqn:Hbs; [|done..].
  pose proof Hw as [_ Ha Hq (bss & Hbq & Hall) _].
  destruct (route_delivers fuel (pm_system m) again q bss bs Hq Hbq Hbs (Hroom bss bs eq_refl Hall)) as (q' & Hr & Hbq').
  set (sys' := mkSystem (<[a := q']> (mailboxes (pm_system m))) (base_dir (pm_system m)) (default_config (pm_system m))).
  assert (∀ ctx, ctx_address ctx = mkAddress a → process p ctx msg (pm_shared m) = Some (mkShared sys' (S n), Ok tt)) as Hp.
  { intros ctx Hctx. cbn [process p FilterProcessor]. rewrite Hpred. unfold ctx_send_to, get_mailbox, send_to. rewrite Hctx. cbn [as_str].
    rewrite address_new by done. cbn. unfold pm_system in Hq. rewrite Hq.
    change (match route_message (S fuel) (pm_system m) again with
            | Some (sys, r) => Some (mkShared sys (S n), _ ← map_err PeMailbox r; Ok tt) | None => None end =
            Some (mkShared sys' (S n), Ok tt)).
    by rewrite Hr. }
  destruct (tick_waiting m a p q l msg _ _ Hw Hp) as (c & ctx & Hctx & Ht).
  eexists _, q'. split; [exact Ht|]. split; [|done]. split; cbn [processors].
  - exists c, ctx. rewrite lookup_insert_eq, len_app. done.
  - done.
  - apply lookup_insert_eq.
  - exists (bss ++ [bs]). split; [done|]. apply Forall2_app; [done|]. by constructor.
  - rewrite len_app. change (len [msg]) with 1. lia.
Qed.

(** What the filter has sent itself after [n] ticks, from the [k]-th message on. *)
Definition echoes (a : string) (body : bytes) (k n : nat) : list Message :=
  map (λ i, Message_new (ids i) (clock i) (mkAddress a) (mkAddress a) body) (seq k n).

(** A filter registered on the mailbox it forwards to never comes to
    rest: after any number of ticks of its task, as long as the queue has room,
    a message with the same body waits again, sent by the filter to itself, and
    the queue has grown by one message per tick. *)
Lemma filter_feeds_itself n pred m a q l msg :
  let p := FilterProcessor (S fuel) ids clock pred a in
  let k := sh_made (pm_shared m) in
  waiting m a p q l msg → pred msg = true →
  (∀ id now, let again := Message_new id now (mkAddress a) (mkAddress a) (msg_body msg) in
     pred again = true ∧ is_ok (json_to_vec again) = true) →
  len l + Z.of_nat n < 2 ^ 64 - 1 →
  (∀ i bss bs, (i < n)%nat →
     json_to_vec (Message_new (ids (k + i)) (clock (k + i)) (mkAddress a) (mkAddress a) (msg_body msg)) = Ok bs →
     Forall2 (λ m bs, json_to_vec m = Ok bs) (l ++ msg :: echoes a (msg_body msg) k i) bss → bq_room bss bs) →
  ∃ m' q' handled last, ticks n m a = Some m' ∧ waiting m' a p q' handled last ∧
    msg_body last = msg_body msg ∧ handled ++ [last] = l ++ msg :: echoes a (msg_body msg) k n.
Proof.
  intros p. revert m q l msg. induction n as [|n IH]; intros m q l msg k Hw Hpred Hagain Hlen Hroom.
  - exists m, q, l, msg. done.
  - destruct (self_tick pred m a q l msg Hw Hpred) as (m1 & q1 & Ht & Hw1 & Hk); [by apply Hagain|lia| |].
    { intros bss bs Hbs. apply (Hroom 0%nat); [lia|]. by rewrite Nat.add_0_r. }
    fold k in Hw1, Hk.
    destruct (IH m1 q1 (l ++ [msg]) (Message_new (ids k) (clock k) (mkAddress a) (mkAddress a) (msg_body msg)))
      as (m' & q' & handled & last & Hts & Hw' & Hb & Hl);
      [exact Hw1|by apply Hagain|exact Hagain| | |].
    { rewrite len_app. change (len [msg]) with 1. lia. }
    { intros i bss bs Hi. rewrite Hk, Nat.add_succ_comm, <- app_assoc. by apply (Hroom (S i)); lia. }
    rewrite Hk in Hl.
    exists m', q', handled, last. cbn [ticks]. rewrite Ht. cbn [mbind option_bind].
    split; [done|]. split; [done|]. split; [done|]. by rewrite Hl, <- app_assoc.
Qed.
End properties.
