(* ===== verification/ProcessorDemo.v ===== *)
(** * The processor example's program (src/examples/mailbox_processor_example.rs, [main])

    The program as a client of the mailbox system whose processors' tasks are
    polled before any of its calls, with the lines it prints of what it
    received; headings and the lines of the processors are left out, and sleeping
    is being polled.  However the tasks are polled, it ends with an error. *)

From stdpp Require Import base list numbers strings gmap pretty.
From S2P Require Import Prelude Crc32 F64 StorageEngine PersistQueue ByteQueue Mailboxes MailboxClients MailboxTests MailboxProcessor ProcessorClients ProcessorExample Utf8.
Local Open Scope Z_scope.

(** ** Definitions *)

(** *** Programs with processors *)

(** The tasks registered so far, the counter of the statistics processor, and
    how many calls were made. *)
Record env := mkEnv { e_tasks : list (task Z); e_count : Z; e_time : nat }.
Definition prog (A : Type) : Type := env → client (outcome MailboxError (env * A)).

Definition pret {A} (a : A) : prog A := λ e, Done (Ok (e, a)).
Definition pbind {A B} (p : prog A) (k : A → prog B) : prog B := λ e,
  then_ (p e) (λ r, match r with Ok (e, a) => k a e | Err x => Done (Err x) | Panic => Done Panic end).
Definition pline (line : string) : prog unit := λ e, Call (CallPrint line) (λ _, Done (Ok (e, tt))).

Declare Scope prog_scope.
Delimit Scope prog_scope with prog.
Notation "x <~ p ; k" := (pbind p (λ x, k)) (at level 100, p at level 90, k at level 200, right associativity) : prog_scope.
Local Open Scope prog_scope.

Section demo.
Context `{Unicode}.
(** The tasks that are polled before each call, by their places. *)
Context (polls : nat → list nat).

(** A call with [?]. *)
Definition pcall {A} (c : call (outcome MailboxError A)) : prog A := λ e,
  then_ (polled (e_tasks e) (polls (e_time e)) (e_count e)) (λ count,
  then_ (call_ c) (λ r,
  Done (match r with Ok a => Ok (mkEnv (e_tasks e) count (S (e_time e)), a) | Err x => Err x | Panic => Panic end))).

(** [manager.register_processor(..).await?], which changes no mailbox. *)
Definition pregister (address : string) (act : Z → Message → client Z) : prog unit := λ e,
  register address act (λ t, Done (Ok (mkEnv (e_tasks e ++ [t]) (e_count e) (e_time e), tt))).

(** [if let Some(msg) = mailbox.receive().await?]. *)
Definition show_received (mailbox : handle) (what : string) : prog unit :=
  msg <~ pcall (CallReceive mailbox);
  match msg with Some msg => pline (what +:+ from_utf8_lossy (msg_body msg)) | None => pret tt end.

(** *** The processors of the example as tasks *)
(** Source: src/examples/mailbox_processor_example.rs:37-52 (StatisticsProcessor::process) *)
Definition statistics_act (count : Z) (msg : Message) : client Z :=
  let '(count, summary) := count_message count in
  match summary with
  | Some text => answer "stats@dolda" "summary@dolda" (str_bytes text) count
  | None => Done count
  end.
(** Source: src/examples/mailbox_processor_example.rs:69-74 (UppercaseProcessor::process) *)
Definition uppercase_act (count : Z) (msg : Message) : client Z :=
  answer "transform@dolda" "transformed@dolda" (str_bytes (to_uppercase (from_utf8_lossy (msg_body msg)))) count.
(** The built-in filter with the example's predicate.
    Source: src/src/mailbox_processor.rs:420-425 (FilterProcessor::process) *)
Definition filter_act (count : Z) (msg : Message) : client Z :=
  if numeric msg then answer "filtered@dolda" "filtered@dolda" (msg_body msg) count else Done count.
(** Source: src/examples/mailbox_processor_example.rs:82-95 (RouterProcessor::process) *)
Definition router_act (count : Z) (msg : Message) : client Z :=
  answer "router@dolda" (route_text (from_utf8_lossy (msg_body msg))) (msg_body msg) count.

(** *** The scenarios *)

(** Source: src/examples/mailbox_processor_example.rs:144-163 (main, part) *)
Definition echo_scenario (input : handle) : prog unit :=
  _ <~ pregister "echo@dolda" (echo_act "echo@dolda");
  _ <~ pcall (CallSend input "echo@dolda" (str_bytes "Hello Echo!"));
  show_received input "   ✅ Received echo: ".

(** Source: src/examples/mailbox_processor_example.rs:183-187 (main, part) *)
Fixpoint send_numbered (input : handle) (l : list Z) : prog unit :=
  match l with
  | [] => pret tt
  | i :: l => _ <~ pcall (CallSend input "stats@dolda" (str_bytes ("Message number " +:+ pretty i))); send_numbered input l
  end.

(** Source: src/examples/mailbox_processor_example.rs:170-196 (main, part) *)
Definition statistics_scenario (input summary : handle) : prog unit :=
  _ <~ pregister "stats@dolda" statistics_act;
  _ <~ send_numbered input [1; 2; 3; 4; 5; 6; 7];
  show_received summary "   📊 Summary: ".

(** Source: src/examples/mailbox_processor_example.rs:203-224 (main, part) *)
Definition transform_scenario (input transform_out : handle) : prog unit :=
  _ <~ pregister "transform@dolda" uppercase_act;
  _ <~ pcall (CallSend input "transform@dolda" (str_bytes "hello world"));
  show_received transform_out "   ✅ Transformed: ".

(** The loop ends after two messages.
    Source: src/examples/mailbox_processor_example.rs:261-266 (main, part) *)
Definition filtered_loop (filtered : handle) : prog unit :=
  msg <~ pcall (CallReceive filtered);
  match msg with
  | Some msg =>
      _ <~ pline ("   ✅ Filtered: " +:+ from_utf8_lossy (msg_body msg));
      show_received filtered "   ✅ Filtered: "
  | None => pret tt
  end.

(** Source: src/examples/mailbox_processor_example.rs:231-266 (main, part) *)
Definition filter_scenario (input : handle) : prog unit :=
  filtered <~ pcall (CallCreate "filtered@dolda");
  _ <~ pregister "filtered@dolda" filter_act;
  _ <~ pcall (CallSend input "filtered@dolda" (str_bytes "12345"));
  _ <~ pcall (CallSend input "filtered@dolda" (str_bytes "hello"));
  _ <~ pcall (CallSend input "filtered@dolda" (str_bytes "67890"));
  filtered_loop filtered.

(** Source: src/examples/mailbox_processor_example.rs:273-300 (main, part) *)
Definition router_scenario (input urgent info general : handle) : prog unit :=
  _ <~ pregister "router@dolda" router_act;
  _ <~ pcall (CallSend input "router@dolda" (str_bytes "This is urgent!"));
  _ <~ pcall (CallSend input "router@dolda" (str_bytes "Just some info"));
  _ <~ pcall (CallSend input "router@dolda" (str_bytes "General message"));
  _ <~ show_received urgent "   🚨 Urgent: ";
  _ <~ show_received info "   ℹ️  Info: ";
  show_received general "   📝 General: ".

(** Shutting the processors down changes no mailbox: theirs do nothing then.
    Source: src/examples/mailbox_processor_example.rs:98-324 (main) *)
Definition processor_example : prog unit :=
  input <~ pcall (CallCreate "input@dolda");
  echo <~ pcall (CallCreate "echo@dolda");
  stats <~ pcall (CallCreate "stats@dolda");
  summary <~ pcall (CallCreate "summary@dolda");
  transform_in <~ pcall (CallCreate "transform@dolda");
  transform_out <~ pcall (CallCreate "transformed@dolda");
  router <~ pcall (CallCreate "router@dolda");
  urgent <~ pcall (CallCreate "urgent@dolda");
  info <~ pcall (CallCreate "info@dolda");
  general <~ pcall (CallCreate "general@dolda");
  _ <~ echo_scenario input;
  _ <~ statistics_scenario input summary;
  _ <~ transform_scenario input transform_out;
  _ <~ filter_scenario input;
  router_scenario input urgent info general.
End demo.

(** ** Tables only grow *)
Section growth.
Context `{MessageCodec} (usable : string → bool) (ids : nat → string) (clock : nat → Z).
Abbreviation spec := (spec_run usable ids clock).

(** The handle [h] stays where it is, boxes grow, and handles are added. *)
Record grows (hs : handle → Prop) (t t' : Table) : Prop := {
  gr_handles : ∀ h x, hs h → t_handles t !! h = Some x → t_handles t' !! h = Some x;
  gr_boxes : ∀ a box, assoc a (t_boxes t) = Some box → ∃ more, assoc a (t_boxes t') = Some (box ++ more);
  gr_length : (length (t_handles t) ≤ length (t_handles t'))%nat
}.

Lemma grows_refl hs t : grows hs t t.
Proof. split; [done| |done]. intros a box Hb. exists []. by rewrite app_nil_r. Qed.
Lemma grows_trans hs t1 t2 t3 : grows hs t1 t2 → grows hs t2 t3 → grows hs t1 t3.
Proof.
  intros [Hh1 Hb1 Hl1] [Hh2 Hb2 Hl2]. split; [by eauto| |lia]. intros a box Hb.
  destruct (Hb1 a box Hb) as [m1 Hm1]. destruct (Hb2 a _ Hm1) as [m2 Hm2]. exists (m1 ++ m2). by rewrite app_assoc.
Qed.

Lemma assoc_set_grows a x (l : list (string * list Message)) :
  (∀ box, assoc a l = Some box → ∃ more, x = box ++ more) →
  ∀ b box, assoc b l = Some box → ∃ more, assoc b (assoc_set a x l) = Some (box ++ more).
Proof.
  intros Hx b box Hb. rewrite !assoc_lookup in *. rewrite assoc_set_insert. destruct (decide (b = a)) as [->|Hne].
  - rewrite lookup_insert_eq. destruct (Hx box Hb) as [more ->]. by exists more.
  - rewrite lookup_insert_ne by done. exists []. by rewrite app_nil_r.
Qed.

(** Calls that do not receive on the handles of [hs]. *)
Definition spares_call (hs : handle → Prop) {R} (c : call R) : Prop :=
  match c with CallReceive h => ¬ hs h | _ => True end.

Lemma t_send_grows hs t m t' r : t_send t m = Some (t', r) → grows hs t t'.
Proof.
  unfold t_send. destruct (assoc _ (t_boxes t)) as [box|] eqn:Hb.
  - destruct (_ <? _); [|done]. intros [= <- <-]. split; [done| |done]. apply assoc_set_grows. intros b Hb'.
    rewrite Hb in Hb'. injection Hb' as <-. by eexists.
  - intros [= <- <-]. split; [done| |done]. intros a b Ha. exists []. by rewrite app_nil_r.
Qed.
Lemma t_send_to_grows hs t to m t' r : t_send_to t to m = Some (t', r) → grows hs t t'.
Proof.
  unfold t_send_to. destruct (String.eqb _ _); [|by apply t_send_grows]. intros [= <- <-]. split; [done| |done].
  intros a b Ha. exists []. by rewrite app_nil_r.
Qed.

Lemma spec_call_grows hs {R} (c : call R) t t' r :
  spares_call hs c → spec_call usable ids clock c t = Some (t', r) → grows hs t t'.
Proof.
  intros Hs. destruct c; cbn [spec_call spares_call] in *.
  - destruct (String.eqb _ _); [intros [= <- <-]; apply grows_refl|]. destruct (assoc address (t_boxes t)) eqn:Ha; [intros [= <- <-]; apply grows_refl|].
    destruct (_ && _); [|done]. intros [= <- <-]. split; cbn; [intros h x _ Hx; by apply lookup_app_l_Some| |rewrite length_app; lia].
    apply assoc_set_grows. intros b Hb. congruence.
  - destruct (String.eqb _ _); [intros [= <- <-]; apply grows_refl|]. destruct (assoc address (t_boxes t)) eqn:Ha; intros [= <- <-]; [|apply grows_refl].
    split; cbn; [intros h x _ Hx; by apply lookup_app_l_Some| |rewrite length_app; lia]. intros a b Hb. exists []. by rewrite app_nil_r.
  - destruct (t_handles t !! h) as [[a i]|]; [|done]. apply t_send_to_grows.
  - destruct (t_handles t !! h) as [[a i]|]; [|done]. apply t_send_to_grows.
  - destruct (t_handles t !! h) as [[a i]|]; [|done]. apply t_send_grows.
  - destruct (t_handles t !! h) as [[a i]|]; [|done]. cbn. destruct (assoc a (t_boxes t)); [|done]. cbn. intros [= <- <-].
    split; cbn; [|intros b bx Hb; exists []; by rewrite app_nil_r|by rewrite length_insert].
    intros h' x Hh' Hx. rewrite list_lookup_insert_ne; [done|]. by intros ->.
  - destruct (t_handles t !! h) as [[a i]|]; [|done]. cbn. destruct (assoc a (t_boxes t)); [|done]. intros [= <- <-]. apply grows_refl.
  - destruct (t_handles t !! h) as [[a i]|]; [|done]. cbn. destruct (assoc a (t_boxes t)); [|done]. intros [= <- <-]. apply grows_refl.
  - intros [= <- <-]. apply grows_refl.
  - intros [= <- <-]. apply grows_refl.
  - destruct (t_handles t !! h) as [[a i]|]; [|done]. intros [= <- <-]. apply grows_refl.
  - intros [= <- <-]. split; [done| |done]. intros a b Ha. exists []. by rewrite app_nil_r.
Qed.
End growth.

(** ** Triples for programs with processors *)
Section triples.
Context `{MessageCodec} `{Unicode} (usable : string → bool) (ids : nat → string) (clock : nat → Z) (polls : nat → list nat).
Abbreviation spec := (spec_run usable ids clock).

(** A program that does not receive on the handles of [hs]. *)
Fixpoint spares (hs : handle → Prop) {A} (c : client A) : Prop :=
  match c with
  | Done _ => True
  | Call o k => spares_call hs o ∧ ∀ r, spares hs (k r)
  end.

Lemma spares_then hs {A B} (c : client A) (k : A → client B) : spares hs c → (∀ a, spares hs (k a)) → spares hs (then_ c k).
Proof. intros Hc Hk. induction c as [a|R o j IH]; [by apply Hk|]. destruct Hc as [Ho Hj]. split; [done|]. intros r. by apply IH. Qed.

Lemma spec_run_grows hs {A} (c : client A) t t' a : spares hs c → spec c t = Some (t', a) → grows hs t t'.
Proof.
  revert t. induction c as [b|R o k IH]; intros t Hs; cbn [spec_run]; [intros [= <- _]; apply grows_refl|].
  destruct Hs as [Ho Hk]. destruct (spec_call usable ids clock o t) as [[t1 r]|] eqn:Hc; [|done]. cbn. intros Hr.
  eapply grows_trans; [by eapply spec_call_grows|]. by eapply IH.
Qed.

Lemma answer_spares hs {S} a to body (s : S) : spares hs (answer a to body s).
Proof. split; [done|]. by intros [[h|]|e|]. Qed.

Lemma polled_spares hs {S} (tasks : list (task S)) l s :
  Forall (λ u, ¬ hs (tk_handle u) ∧ ∀ s m, spares hs (tk_act u s m)) tasks → spares hs (polled tasks l s).
Proof.
  intros Ht. revert s. induction l as [|i l IH]; intros s; [done|]. cbn [polled]. destruct (tasks !! i) as [u|] eqn:Hu; [|apply IH].
  destruct (Forall_lookup_1 _ _ _ _ Ht Hu) as [Hh Ha]. apply spares_then; [|exact IH].
  split; [done|]. intros [[msg|]|e|]; try done. apply Ha.
Qed.

(** The tasks have handles of their own, and their processors do not receive. *)
Definition env_ok (hs : handle → Prop) (e : env) (t : Table) : Prop :=
  (∀ h, hs h → (h < length (t_handles t))%nat) ∧
  Forall (λ u, (tk_handle u < length (t_handles t))%nat ∧ ¬ hs (tk_handle u) ∧ ∀ hs s m, spares hs (tk_act u s m)) (e_tasks e).

(** From a table with [P], a program that succeeds leaves one with [Q], and it
    does not panic. *)
Definition triple (hs : handle → Prop) (P : Table → Prop) {A} (p : prog A) (Q : A → Table → Prop) : Prop :=
  ∀ e t t' r, env_ok hs e t → P t → spec (p e) t = Some (t', r) →
    match r with Ok (e', a) => env_ok hs e' t' ∧ Q a t' | Err _ => True | Panic => False end.

(** What later calls leave true. *)
Definition stable (hs : handle → Prop) (P : Table → Prop) : Prop := ∀ t t', grows hs t t' → P t → P t'.

Lemma env_ok_grows hs e t t' : env_ok hs e t → grows hs t t' → env_ok hs e t'.
Proof.
  intros [Hlt He] [_ _ Hl]. split; [intros h Hh; specialize (Hlt h Hh); lia|].
  eapply Forall_impl; [exact He|]. intros u (Hh & Hs). split; [lia|done].
Qed.

Lemma env_spares hs e t l : env_ok hs e t → spares hs (polled (e_tasks e) l (e_count e)).
Proof. intros [_ He]. apply polled_spares. eapply Forall_impl; [exact He|]. intros u (_ & Hh & Ha). split; [done|]. intros. apply Ha. Qed.

Lemma triple_ret hs P {A} (a : A) (Q : A → Table → Prop) : (∀ t, P t → Q a t) → triple hs P (pret a) Q.
Proof. intros HQ e t t' r He HP [= <- <-]. split; [done|]. by apply HQ. Qed.

Lemma triple_conseq hs (P P' : Table → Prop) {A} (p : prog A) (Q Q' : A → Table → Prop) :
  triple hs P p Q → (∀ t, P' t → P t) → (∀ a t, Q a t → Q' a t) → triple hs P' p Q'.
Proof. intros Hp HP HQ e t t' r He Ht Hr. specialize (Hp e t t' r He (HP t Ht) Hr). destruct r as [[e' a]|x|]; [|done..]. destruct Hp. auto. Qed.

Lemma triple_bind hs P {A B} (p : prog A) (Q : A → Table → Prop) (k : A → prog B) R :
  triple hs P p Q → (∀ a, triple hs (Q a) (k a) R) → triple hs P (pbind p k) R.
Proof.
  intros Hp Hk e t t' r He Ht Hr. unfold pbind in Hr. rewrite spec_run_then in Hr.
  destruct (spec (p e) t) as [[t1 [[e1 a]|x|]]|] eqn:H1; [..|done]; cbn in Hr; specialize (Hp e t t1 _ He Ht H1); [|by injection Hr as <- <-|done].
  destruct Hp as [He1 HQ]. exact (Hk a e1 t1 t' r He1 HQ Hr).
Qed.

Lemma triple_line hs P line : stable hs P → triple hs P (pline line) (λ _, P).
Proof.
  intros Hst e t t' r He Ht Hr. cbn in Hr. injection Hr as <- <-. assert (grows hs t (mkTable (t_boxes t) (t_handles t) (t_sent t) (t_count t) (t_out t ++ [line]))) as Hg.
  { eapply (spec_call_grows usable ids clock hs (CallPrint line)); [done|reflexivity]. }
  split; [by eapply env_ok_grows|by eapply Hst].
Qed.

(** No call panics. *)
Definition no_panic {R} (c : call R) : R → Prop :=
  match c in call R return R → Prop with
  | CallCreate _ => λ r, r ≠ Panic
  | CallGet _ => λ r, r ≠ Panic
  | CallSend _ _ _ => λ r, r ≠ Panic
  | CallReceive _ => λ r, r ≠ Panic
  | _ => λ _, True
  end.
Lemma spec_call_no_panic {R} (c : call R) t t' r : spec_call usable ids clock c t = Some (t', r) → no_panic c r.
Proof.
  destruct c; cbn [spec_call no_panic]; try done.
  - repeat case_match; intros ?; simplify_eq; done.
  - repeat case_match; intros ?; simplify_eq; done.
  - destruct (t_handles t !! h) as [[a i]|]; [|done]. cbn. unfold t_send_to, t_send. repeat case_match; intros ?; simplify_eq; done.
  - destruct (t_handles t !! h) as [[a i]|]; [|done]. cbn. destruct (assoc _ _); [|done]. cbn. unfold abs_receive.
    intros ?; simplify_eq. repeat case_match; done.
Qed.

(** The state in which the call of a program is made. *)
Lemma pcall_run hs P {A} (c : call (outcome MailboxError A)) e t t' r :
  stable hs P → env_ok hs e t → P t → spec (pcall polls c e) t = Some (t', r) →
  ∃ t1 a count, env_ok hs e t1 ∧ P t1 ∧ spec_call usable ids clock c t1 = Some (t', a) ∧
    r = match a with Ok a => Ok (mkEnv (e_tasks e) count (S (e_time e)), a) | Err x => Err x | Panic => Panic end.
Proof.
  intros Hst He Ht Hr. unfold pcall in Hr. rewrite spec_run_then in Hr.
  destruct (spec (polled _ _ _) t) as [[t1 count]|] eqn:Hp; [|done]. cbn in Hr.
  pose proof (spec_run_grows hs _ t t1 _ (env_spares hs e t _ He) Hp) as Hg.
  destruct (spec_call usable ids clock c t1) as [[t2 a]|] eqn:Hc; [|done]. cbn in Hr. injection Hr as <- <-.
  exists t1, a, count. split; [by eapply env_ok_grows|]. split; [by eapply Hst|]. by destruct a.
Qed.

Lemma triple_call hs P {A} (c : call (outcome MailboxError A)) :
  stable hs P → spares_call hs c → (no_panic c Panic → False) →
  triple hs P (pcall polls c) (λ a t', P t' ∧ ∃ t, P t ∧ spec_call usable ids clock c t = Some (t', Ok a)).
Proof.
  intros Hst Hs Hnp e t t' r He Ht Hr. destruct (pcall_run hs P c e t t' r Hst He Ht Hr) as (t1 & [a|x|] & count & He1 & Ht1 & Hc & ->); [|done|].
  - pose proof (spec_call_grows usable ids clock hs c t1 t' _ Hs Hc) as Hg. split; [by eapply (env_ok_grows hs e t1)|].
    split; [by eapply Hst|]. by exists t1.
  - apply Hnp. by eapply spec_call_no_panic.
Qed.

Lemma triple_register hs P address act :
  stable hs P → (∀ hs s m, spares hs (act s m)) → triple hs P (pregister address act) (λ _, P).
Proof.
  intros Hst Ha e t t' r He Ht Hr. unfold pregister, register in Hr. cbn [call_ then_ spec_run] in Hr.
  destruct (spec_call usable ids clock (CallGet address) t) as [[t1 o]|] eqn:Hc; [|done].
  pose proof (spec_call_grows usable ids clock hs (CallGet address) t t1 _ I Hc) as Hg. pose proof (spec_call_no_panic (CallGet address) t t1 _ Hc) as Hnp.
  destruct o as [[h|]|x|]; cbn in Hr; injection Hr as <- <-; [|done..]. split; [|by eapply Hst].
  destruct (env_ok_grows hs e t t1 He Hg) as [Hlt Htasks]. split; [done|]. apply Forall_app_2; [exact Htasks|]. apply Forall_cons_2; [|done].
  assert (h = length (t_handles t) ∧ (h < length (t_handles t1))%nat) as [-> Hh].
  { cbn [spec_call] in Hc. destruct (String.eqb _ _); [done|]. destruct (assoc _ _); [|done]. injection Hc as <- <-. cbn. rewrite length_app. cbn. lia. }
  split; [done|]. split; [|exact Ha]. cbn. intros Hhs. pose proof (proj1 He _ Hhs). lia.
Qed.
End triples.

(** ** The scenarios of the example *)
Section scenarios.
Context `{MessageCodec} `{Unicode} (usable : string → bool) (ids : nat → string) (clock : nat → Z) (polls : nat → list nat).
Abbreviation triple := (triple usable ids clock).
Abbreviation nobody := (λ _ : handle, False).
Abbreviation anything := (λ _ : Table, True).
Abbreviation whatever := (λ _ _, True).

(** The mailbox of the filter has at least [n] messages, and the program's handle
    is at the first. *)
Definition holds (n : nat) (h : handle) (t : Table) : Prop :=
  t_handles t !! h = Some ("filtered@dolda"%string, 0%nat) ∧
  ∃ box, assoc "filtered@dolda" (t_boxes t) = Some box ∧ (n ≤ length box)%nat.

Lemma holds_stable n h : stable (eq h) (holds n h).
Proof.
  intros t t' [Hh Hb _] [Hx (box & Ha & Hn)]. split; [by apply Hh|]. destruct (Hb _ _ Ha) as [more Hm].
  exists (box ++ more). split; [done|]. rewrite length_app. lia.
Qed.
Lemma anything_stable hs : stable hs anything.
Proof. done. Qed.

Lemma bind_any hs P {A B} (p : prog A) (k : A → prog B) Q R :
  triple hs P p Q → (∀ a, triple hs anything (k a) R) → triple hs P (pbind p k) R.
Proof. intros Hp Hk. eapply triple_bind; [exact Hp|]. intros a. eapply triple_conseq; [apply Hk|done..]. Qed.

Lemma any_call {A} (c : call (outcome MailboxError A)) :
  spares_call nobody c → (no_panic c Panic → False) → triple nobody anything (pcall polls c) whatever.
Proof. intros Hs Hc. eapply triple_conseq; [apply (triple_call usable ids clock polls nobody anything c); done|done..]. Qed.
Lemma any_show h what : triple nobody anything (show_received polls h what) whatever.
Proof.
  eapply bind_any; [apply any_call; [by intros []|by intros Hc; apply Hc]|]. intros [msg|].
  - by apply (triple_line usable ids clock nobody anything).
  - by apply triple_ret.
Qed.
Lemma any_register a act : (∀ hs s m, spares hs (act s m)) → triple nobody anything (pregister a act) whatever.
Proof. intros Ha. by apply (triple_register usable ids clock nobody anything a act). Qed.

Lemma statistics_spares hs s m : spares hs (statistics_act s m).
Proof. unfold statistics_act. destruct (count_message s) as [n [text|]]; [apply answer_spares|done]. Qed.
Lemma filter_spares hs s m : spares hs (filter_act s m).
Proof. unfold filter_act. destruct (numeric m); [apply answer_spares|done]. Qed.

Ltac any_send := eapply bind_any; [apply any_call; [done|by intros Hc; apply Hc]|intros _].

Lemma echo_any input : triple nobody anything (echo_scenario polls input) whatever.
Proof. eapply bind_any; [apply any_register; intros; apply answer_spares|intros _]. any_send. apply any_show. Qed.
Lemma numbered_any input l : triple nobody anything (send_numbered polls input l) whatever.
Proof. induction l as [|i l IH]; [by apply triple_ret|]. cbn [send_numbered]. any_send. exact IH. Qed.
Lemma statistics_any input summary : triple nobody anything (statistics_scenario polls input summary) whatever.
Proof.
  eapply bind_any; [apply any_register, statistics_spares|intros _]. eapply bind_any; [apply numbered_any|intros _]. apply any_show.
Qed.
Lemma transform_any input out : triple nobody anything (transform_scenario polls input out) whatever.
Proof. eapply bind_any; [apply any_register; intros; apply answer_spares|intros _]. any_send. apply any_show. Qed.

(** A message more in the filter's mailbox. *)
Lemma send_holds n h input body :
  triple (eq h) (holds n h) (pcall polls (CallSend input "filtered@dolda" body)) (λ _, holds (S n) h).
Proof.
  eapply triple_conseq; [apply (triple_call usable ids clock polls (eq h) (holds n h)); [apply holds_stable|done|by intros Hc; apply Hc]|done|].
  intros a t' [[Hh _] (t & [_ (box & Ha & Hn)] & Hc)]. split; [exact Hh|].
  cbn [spec_call] in Hc. destruct (t_handles t !! input) as [[b i]|]; [|done]. cbn in Hc.
  unfold t_send_to, t_send in Hc. cbn [String.eqb msg_to Message_new as_str] in Hc. rewrite Ha in Hc.
  destruct (_ <? _); [|done]. injection Hc as <- _. cbn [t_boxes].
  eexists. rewrite assoc_lookup, assoc_set_insert, lookup_insert_eq. split; [done|]. rewrite length_app. cbn. lia.
Qed.

(** Receiving one of several messages is refused. *)
Lemma filtered_fails h : triple (eq h) (holds 3 h) (filtered_loop polls h) (λ _ _, False).
Proof.
  eapply (triple_bind _ _ _ _ _ _ (λ _ _, False)); [|intros a e t t' r _ []]. intros e t t' r He Ht Hr.
  destruct (pcall_run usable ids clock polls (eq h) (holds 3 h) _ e t t' r (holds_stable 3 h) He Ht Hr) as (t1 & a & count & _ & [Hh (box & Ha & Hn)] & Hc & ->).
  cbn [spec_call] in Hc. rewrite Hh in Hc. cbn [mbind option_bind] in Hc. rewrite Ha in Hc. cbn [mbind option_bind] in Hc.
  injection Hc as <- <-. destruct box as [|m1 [|m2 rest]]; cbn in Hn; [lia..|]. done.
Qed.

Lemma filter_fails input : triple nobody anything (filter_scenario polls input) (λ _ _, False).
Proof.
  intros e t t' r He _ Hr. unfold filter_scenario, pbind in Hr. rewrite spec_run_then in Hr.
  destruct (spec_run usable ids clock (pcall polls (CallCreate "filtered@dolda") e) t) as [[t2 a]|] eqn:Hcreate; [|done]. cbn [mbind option_bind] in Hr.
  destruct (pcall_run usable ids clock polls nobody anything _ e t t2 a (anything_stable _) He I Hcreate) as (t1 & o & count & He1 & _ & Hc & ->).
  pose proof (spec_call_no_panic usable ids clock _ t1 t2 o Hc) as Hnp. pose proof (spec_call_grows usable ids clock nobody (CallCreate "filtered@dolda") t1 t2 o I Hc) as Hg.
  destruct o as [h|x|]; [|injection Hr as <- <-; done|by destruct Hnp].
  assert (h = length (t_handles t1) ∧ (h < length (t_handles t2))%nat ∧ holds 0 h t2) as (-> & Hlt & Hholds).
  { cbn [spec_call String.eqb] in Hc. destruct (assoc _ _); [done|]. destruct (_ && _); [|done]. injection Hc as <- <-. cbn. rewrite length_app. cbn.
    split; [done|]. split; [lia|]. split; cbn; [by apply list_lookup_middle|]. exists []. split; [|lia].
    by rewrite assoc_lookup, assoc_set_insert, lookup_insert_eq. }
  set (h := length (t_handles t1)) in *.
  assert (env_ok (eq h) (mkEnv (e_tasks e) count (S (e_time e))) t2) as He2.
  { split; [by intros ? <-|]. eapply Forall_impl; [exact (proj2 He1)|]. cbn. intros u (Hu & _ & Ha). split; [lia|]. split; [lia|exact Ha]. }
  assert (triple (eq h) (holds 0 h) (_ <~ pregister "filtered@dolda" filter_act;
    _ <~ pcall polls (CallSend input "filtered@dolda" (str_bytes "12345"));
    _ <~ pcall polls (CallSend input "filtered@dolda" (str_bytes "hello"));
    _ <~ pcall polls (CallSend input "filtered@dolda" (str_bytes "67890")); filtered_loop polls h) (λ _ _, False)) as Hrest.
  { eapply triple_bind; [apply triple_register; [apply holds_stable|apply filter_spares]|intros ?].
    do 3 (eapply triple_bind; [apply send_holds|intros ?]). apply filtered_fails. }
  specialize (Hrest _ t2 t' r He2 Hholds Hr). by destruct r as [[e' ?]|x|]; [destruct Hrest| |].
Qed.

Lemma example_fails : triple nobody anything (processor_example polls) (λ _ _, False).
Proof.
  unfold processor_example. do 10 (eapply bind_any; [apply any_call; [done|by intros Hc; apply Hc]|intros ?]).
  eapply bind_any; [apply echo_any|intros _]. eapply bind_any; [apply statistics_any|intros _].
  eapply bind_any; [apply transform_any|intros _]. eapply triple_bind; [apply filter_fails|]. intros [] e' t t' r _ [].
Qed.
End scenarios.

(** ** Property *)
Section demo_property.
Context `{ByteQueueOk} `{MessageCodecOk} `{Os} `{Unicode}.

(** C34. The example never gets to its end: whichever of the registered tasks
    are polled before each of its calls, it returns an error.  Even if the echo,
    the summary and the transformed text are there in time, the numeric filter
    is registered on its own output, where the program reads too: its three
    messages wait there together, which [receive] refuses.  So the router never
    runs.  The polls are those for which the table of message logs has a run:
    the filter, which feeds itself, must not fill its mailbox. *)
Theorem processor_example_always_fails polls usable fuel ids clock sys t r :
  mailboxes sys = ∅ → opens usable sys → roomy →
  spec_run usable ids clock (processor_example polls (mkEnv [] 0 0)) (mkTable [] [] [] 0 []) = Some (t, r) →
  Forall (λ m, sendable m = true) (t_sent t) →
  ∃ w e, run fuel ids clock (processor_example polls (mkEnv [] 0 0)) (mkWorld sys [] 0 []) = Some (w, Err e) ∧ w_out w = t_out t.
Proof.
  intros Hs Ho Hroom Hrun Hsent.
  destruct (client_run_refines usable fuel ids clock _ _ _ t r Hroom (fresh_world_repr usable sys Hs Ho) Hrun Hsent) as (w & Hw & Hrepr).
  pose proof (example_fails usable ids clock polls (mkEnv [] 0 0) (mkTable [] [] [] 0 []) t r) as Hf.
  specialize (Hf (conj (λ h (Hh : False), match Hh with end) (Forall_nil_2 _)) I Hrun).
  destruct r as [[e ?]|e|]; [by destruct Hf|exists w, e|done]. split; [done|apply (wr_out _ _ _ Hrepr)].
Qed.
End demo_property.

(** ** A concrete run *)
#[local] Existing Instances digit_codec digit_codec_ok persistq_queue mailbox_queues.

(** Upper-casing and the numeric class of ASCII. *)
Definition ascii_upper (c : Ascii.ascii) : Ascii.ascii :=
  let n := Ascii.nat_of_ascii c in if (97 <=? n)%nat && (n <=? 122)%nat then Ascii.ascii_of_nat (n - 32) else c.
Definition ascii_numeric (c : Ascii.ascii) : bool := let n := Ascii.nat_of_ascii c in (48 <=? n)%nat && (n <=? 57)%nat.
#[local] Instance ascii_tables : Unicode := {|
  to_uppercase s := String.string_of_list_ascii (map ascii_upper (String.list_ascii_of_string s));
  all_numeric s := forallb ascii_numeric (String.list_ascii_of_string s) |}.

Definition demo_addresses : list string :=
  ["input@dolda"; "echo@dolda"; "stats@dolda"; "summary@dolda"; "transform@dolda"; "transformed@dolda"; "router@dolda";
   "urgent@dolda"; "info@dolda"; "general@dolda"; "filtered@dolda"].
Definition demo_address (a : string) : bool := existsb (String.eqb a) demo_addresses.

(** The first three tasks are polled before every call. *)
Definition demo_polls (_ : nat) : list nat := [0; 1; 2]%nat.

Lemma processor_example_always_fails_witness :
  ∃ w e, run 0 numbered Z.of_nat (processor_example demo_polls (mkEnv [] 0 0)) (mkWorld new_system [] 0 []) = Some (w, Err e) ∧
    w_out w = ["   ✅ Received echo: Hello Echo!"; "   📊 Summary: Processed 5 messages"; "   ✅ Transformed: HELLO WORLD"]%string.
Proof.
  destruct (new_system_opens demo_address) as [He Ho].
  { intros a Ha. unfold demo_address in Ha. apply existsb_exists in Ha as (b & Hb & Hab). apply String.eqb_eq in Hab as ->.
    cbn [demo_addresses In] in Hb. repeat (destruct Hb as [<-|Hb]; [vm_compute; reflexivity|]). done. }
  destruct (spec_run demo_address numbered Z.of_nat (processor_example demo_polls (mkEnv [] 0 0)) (mkTable [] [] [] 0 [])) as [[t r]|] eqn:Hrun.
  - destruct (processor_example_always_fails demo_polls demo_address 0 numbered Z.of_nat new_system t r He Ho persistq_roomy Hrun) as (w & e & Hw & Hout).
    + vm_compute in Hrun. injection Hrun as <- _. repeat constructor; vm_compute; reflexivity.
    + exists w, e. split; [exact Hw|]. rewrite Hout. vm_compute in Hrun. by injection Hrun as <- _.
  - vm_compute in Hrun. discriminate.
Defined.
